(** * The per-region Raft peer controller of raftstore (peer.go, read.go)

    A shallow embedding of the parts of [raftstore/peer.go] and
    [raftstore/read.go] that the properties below talk about, followed by
    the properties themselves.

    Conventions.
    - [uint64] values are [Z] with the wrap-around written as [wrap64];
      [int] values that are only ever slice lengths or slice indices are
      plain [Z] (an increment guarded by a bounds check cannot overflow).
    - [time.Time] and [time.Duration] are [Z] (nanoseconds); [Add] is [+],
      [Before]/[After] are [<]/[>].
    - A Go panic is the [Panic] outcome of [Result]; a Go [error] is a value
      of [Error]; a nil-able pointer is an [option].
    - The consensus library ([raft.RawNode]) is a collaborator outside the
      repository: it is the interface [RaftLib], and every theorem holds
      for all implementations of it. *)

From Stdlib Require Import ZArith Lia Bool List.
From Stdlib Require Import Strings.Byte.
From stdpp Require Import base option list gmap strings.

Local Open Scope Z_scope.

(** ** Outcomes *)

Inductive Result (A : Type) : Type :=
| Ok (a : A)
| Panic (msg : string).
Arguments Ok {A} a.
Arguments Panic {A} msg.

#[export] Instance Result_ret : MRet Result := @Ok.
#[export] Instance Result_bind : MBind Result :=
  λ A B f r, match r with Ok a => f a | Panic msg => Panic msg end.

Definition isPanic {A} (r : Result A) : bool :=
  match r with Panic _ => true | Ok _ => false end.

(** Dereference of a pointer that may be nil. *)
Definition deref {A} (o : option A) : Result A :=
  match o with
  | Some a => Ok a
  | None => Panic "nil pointer dereference"
  end.

Definition Time := Z.
Definition Duration := Z.

Definition wrap64 (z : Z) : Z := z mod 2 ^ 64.
Definition MaxUint64 : Z := 2 ^ 64 - 1.

(** ** ProposalContext (peer.go, lines 162-197) *)

Definition ProposalContext := byte.

Definition ProposalContextSyncLog : ProposalContext := x01.
Definition ProposalContextSplit : ProposalContext := x02.
Definition ProposalContextPrepareMerge : ProposalContext := x04.

Definition ToBytes (c : ProposalContext) : list byte := [c].

Definition NewProposalContextFromBytes (ctx : list byte)
  : Result (option ProposalContext) :=
  match ctx with
  | [] => Ok None
  | [b] => Ok (Some b)
  | _ :: _ :: _ => Panic "Invalid ProposalContext"
  end.

Definition contains (c flag : ProposalContext) : bool :=
  negb (N.eqb (N.land (Byte.to_N c) (Byte.to_N flag)) 0).

Definition insert_flag (c flag : ProposalContext) : ProposalContext :=
  default c (Byte.of_N (N.lor (Byte.to_N c) (Byte.to_N flag))).

(** ** Errors (errors.go is outside the embedded files; only the shapes used
    by peer.go and read.go are listed) *)

Record RegionEpoch := { ConfVer : Z; Version : Z }.

Inductive Error :=
| ErrRegionNotFound (RegionID : Z)
| ErrStaleCommand
| ErrEpochNotMatch (RegionID : Z) (current sent : RegionEpoch)
| ErrNotLeader (RegionID : Z)
| ErrRaftEntryTooLarge (RegionID EntrySize : Z)
| ErrMsg (msg : string)
| ErrExternal (code : Z).

(** ** Protocol buffers used by the controller (kvproto; field subsets) *)

Inductive PeerRole := PeerRole_Voter | PeerRole_Learner.

Record PeerMeta := { Id : Z; StoreId : Z; Role : PeerRole }.

Record Region := {
  region_Id : Z;
  StartKey : list byte;
  EndKey : list byte;
  region_RegionEpoch : option RegionEpoch;
  Peers : list PeerMeta
}.

Inductive CmdType :=
| CmdType_Invalid | CmdType_Get | CmdType_Put | CmdType_Delete | CmdType_Snap
| CmdType_Prewrite | CmdType_DeleteRange | CmdType_IngestSST | CmdType_ReadIndex.

Inductive AdminCmdType :=
| AdminCmdType_InvalidAdmin | AdminCmdType_ChangePeer | AdminCmdType_Split
| AdminCmdType_CompactLog | AdminCmdType_TransferLeader
| AdminCmdType_ComputeHash | AdminCmdType_VerifyHash
| AdminCmdType_PrepareMerge | AdminCmdType_CommitMerge
| AdminCmdType_RollbackMerge | AdminCmdType_BatchSplit.

Inductive ConfChangeType :=
| ConfChangeType_AddNode | ConfChangeType_RemoveNode | ConfChangeType_AddLearnerNode.

Record ChangePeerRequest := {
  ChangeType : ConfChangeType;
  cp_Peer : option PeerMeta
}.

Record TransferLeaderRequest := { tl_Peer : option PeerMeta }.

Record PrepareMergeRequest := { MinIndex : Z }.

Record AdminRequest := {
  admin_CmdType : AdminCmdType;
  ChangePeer : option ChangePeerRequest;
  TransferLeader : option TransferLeaderRequest;
  PrepareMerge : option PrepareMergeRequest
}.

Record RaftRequestHeader := {
  hdr_RegionId : Z;
  hdr_Peer : option PeerMeta;
  ReadQuorum : bool;
  hdr_RegionEpoch : option RegionEpoch;
  hdr_Term : Z;
  SyncLog : bool
}.

Record RaftCmdRequest := {
  Header : option RaftRequestHeader;
  Requests : list CmdType;
  AdminReq : option AdminRequest
}.

(** The zero value [new(raft_cmdpb.RaftCmdRequest)]. *)
Definition emptyRaftCmdRequest : RaftCmdRequest :=
  {| Header := None; Requests := []; AdminReq := None |}.

(** Generated nil-safe getters. *)
Definition GetAdminRequest (msg : option RaftCmdRequest) : option AdminRequest :=
  msg ≫= AdminReq.
Definition GetCmdType (a : option AdminRequest) : AdminCmdType :=
  from_option admin_CmdType AdminCmdType_InvalidAdmin a.
Definition GetChangePeer (a : option AdminRequest) : option ChangePeerRequest :=
  a ≫= ChangePeer.
Definition GetChangeType (c : option ChangePeerRequest) : ConfChangeType :=
  from_option ChangeType ConfChangeType_AddNode c.
Definition GetPeer (c : option ChangePeerRequest) : option PeerMeta :=
  c ≫= cp_Peer.
Definition GetRole (p : option PeerMeta) : PeerRole :=
  from_option Role PeerRole_Voter p.
Definition GetSyncLog (h : option RaftRequestHeader) : bool :=
  from_option SyncLog false h.

#[export] Instance PeerRole_eq_dec : EqDecision PeerRole.
Proof. solve_decision. Defined.
#[export] Instance CmdType_eq_dec : EqDecision CmdType.
Proof. solve_decision. Defined.
#[export] Instance AdminCmdType_eq_dec : EqDecision AdminCmdType.
Proof. solve_decision. Defined.
#[export] Instance ConfChangeType_eq_dec : EqDecision ConfChangeType.
Proof. solve_decision. Defined.

(** Responses.  [ErrResp], [ErrRespStaleCommand], [BindRespError] and
    [BindRespTerm] live in a file of the repository that is not embedded. *)
Record RaftCmdResponse := {
  resp_Error : option Error;
  resp_CurrentTerm : Z;
  Responses : list CmdType;
  resp_TransferLeader : bool
}.

Definition newRaftCmdResponse : RaftCmdResponse :=
  {| resp_Error := None; resp_CurrentTerm := 0; Responses := [];
     resp_TransferLeader := false |}.

(** Modelled from the spec: [ErrResp] is missing; section 7 has every domain
    error returned to the caller as the error of a response. *)
Definition ErrResp (e : Error) : RaftCmdResponse :=
  {| resp_Error := Some e; resp_CurrentTerm := 0; Responses := [];
     resp_TransferLeader := false |}.

(** Modelled from the spec: [BindRespTerm] is missing; section 7 has
    responses "bound with the current term". *)
Definition BindRespTerm (resp : RaftCmdResponse) (term : Z) : RaftCmdResponse :=
  {| resp_Error := resp_Error resp; resp_CurrentTerm := term;
     Responses := Responses resp;
     resp_TransferLeader := resp_TransferLeader resp |}.

(** Modelled from the spec: [BindRespError] is missing; it attaches the error
    to the response supplied by the caller. *)
Definition BindRespError (resp : RaftCmdResponse) (e : Error) : RaftCmdResponse :=
  {| resp_Error := Some e; resp_CurrentTerm := resp_CurrentTerm resp;
     Responses := Responses resp;
     resp_TransferLeader := resp_TransferLeader resp |}.

(** Modelled from the spec: [ErrRespStaleCommand] is missing; section 7:
    "StaleCommand{term}: ... response term is current term". *)
Definition ErrRespStaleCommand (term : Z) : RaftCmdResponse :=
  BindRespTerm (ErrResp ErrStaleCommand) term.

(** ** Consensus-library data (raft, eraftpb) *)

Inductive StateType :=
| StateFollower | StateCandidate | StateLeader | StatePreCandidate.

Inductive ProgressStateType :=
| ProgressStateProbe | ProgressStateReplicate | ProgressStateSnapshot.

Record Progress := { Match : Z; IsLearner : bool; pr_State : ProgressStateType }.

(** The zero value [raft.Progress{}]. *)
Definition emptyProgress : Progress :=
  {| Match := 0; IsLearner := false; pr_State := ProgressStateProbe |}.

Inductive EntryType := EntryType_EntryNormal | EntryType_EntryConfChange.

Record Entry := {
  entry_EntryType : EntryType;
  entry_Term : Z;
  entry_Index : Z;
  Data : list byte;
  Context : list byte
}.

Inductive MessageType :=
| MsgHup | MsgBeat | MsgPropose | MsgAppend | MsgAppendResponse
| MsgRequestVote | MsgRequestVoteResponse | MsgSnapshot | MsgHeartbeat
| MsgHeartbeatResponse | MsgUnreachable | MsgSnapStatus | MsgCheckQuorum
| MsgTransferLeader | MsgTimeoutNow | MsgReadIndex | MsgReadIndexResp
| MsgRequestPreVote | MsgRequestPreVoteResponse.

Record Message := { MsgType : MessageType; To : Z; From : Z }.

Record SoftState := { ss_Lead : Z; RaftState : StateType }.

Record ReadState := { rs_Index : Z; RequestCtx : list byte }.

Record Ready := {
  ready_SoftState : option SoftState;
  CommittedEntries : list Entry;
  ReadStates : list ReadState;
  Messages : list Message
}.

#[export] Instance StateType_eq_dec : EqDecision StateType.
Proof. solve_decision. Defined.
#[export] Instance MessageType_eq_dec : EqDecision MessageType.
Proof. solve_decision. Defined.
#[export] Instance EntryType_eq_dec : EqDecision EntryType.
Proof. solve_decision. Defined.
#[export] Instance byte_eq_dec' : EqDecision byte := Byte.byte_eq_dec.

(** The consensus library as the capability set the controller consumes.
    [R] is the state of one [raft.RawNode]. *)
Class RaftLib (R : Type) := {
  Raft_Term : R → Z;
  Raft_State : R → StateType;
  Raft_InLease : R → bool;
  Raft_PendingConfIndex : R → Z;
  Raft_PendingReadCount : R → Z;
  Raft_ReadyReadCount : R → Z;
  RaftLog_LastIndex : R → Z;
  RaftLog_Entries : R → Z → Z → Error + list Entry;
  Status_Progress : R → gmap Z Progress;
  RawNode_HasSnap : R → bool;
  RawNode_ReadIndex : R → list byte → R;
  RawNode_Propose : R → list byte → list byte → R * option Error;
  RawNode_SkipBcastCommit : R → bool → R;
  RawNode_Advance : R → Ready → R;
  RawNode_AdvanceApply : R → Z → R
}.

(** ** The [raftlog.RaftLog] interface (its methods used by peer.go) *)

Record RaftLog := {
  rlog_request : option RaftCmdRequest;
  rlog_marshal : option RaftCmdRequest → list byte
}.

Definition GetRaftCmdRequest (rlog : RaftLog) : option RaftCmdRequest :=
  rlog_request rlog.
Definition Marshal (rlog : RaftLog) : list byte :=
  rlog_marshal rlog (rlog_request rlog).

(** ** Lease (lease.go is not among the embedded files) *)

Inductive LeaseState := LeaseStateSuspect | LeaseStateValid | LeaseStateExpired.

#[export] Instance LeaseState_eq_dec : EqDecision LeaseState.
Proof. solve_decision. Defined.

Module Lease.

(** Modelled from the spec: the [Lease] type is missing; section 4.1 gives
    [{bound: timestamp | suspect | expired, max_lease: duration}] and
    section 9 the tagged variant [{Valid{bound}, Suspect{bound}, Expired}]. *)
Inductive bound :=
| BoundValid (b : Time)
| BoundSuspect (b : Time)
| BoundExpired.

Record t := { state : bound; maxLease : Duration }.

(** Modelled from the spec: [Renew] is missing; section 4.1: "sets
    [bound = now + max_lease] unless currently Suspect with a later bound". *)
Definition Renew (l : t) (now : Time) : t :=
  match state l with
  | BoundSuspect b =>
      if now + maxLease l <? b then l
      else {| state := BoundValid (now + maxLease l); maxLease := maxLease l |}
  | _ => {| state := BoundValid (now + maxLease l); maxLease := maxLease l |}
  end.

(** Modelled from the spec: [Suspect] is missing; section 4.1: "marks
    Suspect with [bound = now + max_lease]". *)
Definition Suspect (l : t) (now : Time) : t :=
  {| state := BoundSuspect (now + maxLease l); maxLease := maxLease l |}.

(** Modelled from the spec: [Expire] is missing; section 4.1: "forces
    Expired". *)
Definition Expire (l : t) : t :=
  {| state := BoundExpired; maxLease := maxLease l |}.

(** Modelled from the spec: [Inspect] is missing; section 4.1: "returns
    [Valid | Expired | Suspect] given [t]", "inspection during Suspect
    always returns Suspect"; the glossary has the lease as a time window,
    so a valid bound is inspected as Valid strictly before it. *)
Definition Inspect (l : t) (ts : Time) : LeaseState :=
  match state l with
  | BoundSuspect _ => LeaseStateSuspect
  | BoundValid b => if ts <? b then LeaseStateValid else LeaseStateExpired
  | BoundExpired => LeaseStateExpired
  end.

End Lease.

(** ** Queues of peer.go (lines 52-160) *)

Inductive Callback :=
| ClientCb (id : Z)
| InternalCb (serial : nat).

Record ReqCbPair := { Req : RaftCmdRequest; Cb : Callback }.

Record ReadIndexRequest := {
  id : Z;
  cmds : list ReqCbPair;
  renewLeaseTime : option Time
}.

Definition NewReadIndexRequest (id : Z) (cmds : list ReqCbPair)
    (renewLeaseTime : option Time) : ReadIndexRequest :=
  {| id := id; cmds := cmds; renewLeaseTime := renewLeaseTime |}.

Definition byteOfZ (z : Z) : byte :=
  default x00 (Byte.of_N (Z.to_N (z mod 256))).

(** [binary.BigEndian.PutUint64] into a fresh 8-byte buffer. *)
Definition BigEndian_PutUint64 (v : Z) : list byte :=
  (λ k, byteOfZ (Z.shiftr v (8 * k))) <$> [7; 6; 5; 4; 3; 2; 1; 0].

Definition binaryID (r : ReadIndexRequest) : list byte :=
  BigEndian_PutUint64 (id r).

Record ReadIndexQueue := {
  idAllocator : Z;
  reads : list ReadIndexRequest;
  readyCnt : Z
}.

Definition emptyReadIndexQueue : ReadIndexQueue :=
  {| idAllocator := 0; reads := []; readyCnt := 0 |}.

Module ReadIndexQueue.

Definition PopFront (q : ReadIndexQueue)
  : option ReadIndexRequest * ReadIndexQueue :=
  match reads q with
  | req :: rest =>
      (Some req,
       {| idAllocator := idAllocator q; reads := rest; readyCnt := readyCnt q |})
  | [] => (None, q)
  end.

Definition NextID (q : ReadIndexQueue) : Z * ReadIndexQueue :=
  let q' := {| idAllocator := wrap64 (idAllocator q + 1);
               reads := reads q; readyCnt := readyCnt q |} in
  (idAllocator q', q').

(** The slicing [q.reads[q.readyCnt:]] of [ClearUncommitted]: it panics
    unless [0 <= readyCnt <= len(reads)]. *)
Definition splitAtReady (q : ReadIndexQueue)
  : Result (list ReadIndexRequest * list ReadIndexRequest) :=
  if (0 <=? readyCnt q) && (readyCnt q <=? Z.of_nat (length (reads q))) then
    Ok (take (Z.to_nat (readyCnt q)) (reads q),
        drop (Z.to_nat (readyCnt q)) (reads q))
  else Panic "slice bounds out of range".

End ReadIndexQueue.

Record ProposalMeta := {
  pm_Index : Z;
  pm_Term : Z;
  RenewLeaseTime : option Time
}.

Module ProposalQueue.

Definition PopFront (queue : list ProposalMeta) (term : Z)
  : option ProposalMeta * list ProposalMeta :=
  match queue with
  | [] => (None, queue)
  | meta :: rest =>
      if term <? pm_Term meta then (None, queue) else (Some meta, rest)
  end.

Definition Push (queue : list ProposalMeta) (meta : ProposalMeta)
  : list ProposalMeta := queue ++ [meta].

Definition Clear (queue : list ProposalMeta) : list ProposalMeta := [].

End ProposalQueue.

Record proposal := {
  isConfChange : bool;
  prop_index : Z;
  prop_term : Z;
  prop_cb : Callback
}.

Record MergeState := { ms_MinIndex : Z; ms_Commit : Z }.

(** ** Peer storage (peer_storage.go is not among the embedded files) *)

Record applyState := { appliedIndex : Z; truncatedIndex_ : Z }.

(** Modelled from the spec: [PeerStorage] is missing; section 6 lists
    [region()], [applied_index()], [applied_index_term], [truncated_index()],
    [is_initialized()] and [is_applying_snapshot()], read here as fields. *)
Record PeerStorage := {
  ps_region : Region;
  ps_applyState : applyState;
  appliedIndexTerm : Z;
  ps_initialized : bool;
  ps_applyingSnapshot : bool
}.

Definition AppliedIndex (ps : PeerStorage) : Z := appliedIndex (ps_applyState ps).
Definition truncatedIndex (ps : PeerStorage) : Z := truncatedIndex_ (ps_applyState ps).
Definition isInitialized (ps : PeerStorage) : bool := ps_initialized ps.
Definition IsApplyingSnapshot_ps (ps : PeerStorage) : bool := ps_applyingSnapshot ps.

Record PeerStat := { WrittenBytes : Z; WrittenKeys : Z }.

Record applyMetrics := {
  am_sizeDiffHint : Z;
  am_deleteKeysHint : Z;
  am_writtenBytes : Z;
  am_writtenKeys : Z
}.

(** The fields of [leaderChecker] that the peer stores into.  The pointer to
    the remote lease is published through [Lease.MaybeNewRemoteLease], which
    is not embedded; the peer model does not track it. *)
Record leaderCheckerFields := {
  lc_invalid : bool;
  lc_term : Z;
  lc_appliedIndexTerm : Z
}.

(** ** The peer (peer.go, lines 266-323)

    The fields that none of the embedded methods reads or writes
    ([PeerHeartbeats], [PeersStartPendingTime], [RecentAddedPeer],
    [ApproximateSize], [ApproximateKeys], [CompactionDeclinedBytes],
    [ConsistencyState], [Tag], [LastCompactedIdx], [leaderMissingTime],
    [PendingMergeApplyResult]) are left out. *)
Record Peer (R : Type) := {
  Meta : PeerMeta;
  regionID : Z;
  RaftGroup : R;
  peerStorage : PeerStorage;
  proposals : list ProposalMeta;
  applyProposals : list proposal;
  pendingReads : ReadIndexQueue;
  peerCache : gmap Z PeerMeta;
  SizeDiffHint : Z;
  deleteKeysHint : Z;
  LastApplyingIdx : Z;
  lastUrgentProposalIdx : Z;
  lastCommittedSplitIdx : Z;
  RaftLogSizeHint : Z;
  PendingRemove : bool;
  lastCommittedPrepareMergeIdx : Z;
  PendingMergeState : option MergeState;
  leaderLease : Lease.t;
  leaderChecker : leaderCheckerFields;
  pendingMessages : list Message;
  peerStat : PeerStat
}.
Arguments Meta {R} _.
Arguments regionID {R} _.
Arguments RaftGroup {R} _.
Arguments peerStorage {R} _.
Arguments proposals {R} _.
Arguments applyProposals {R} _.
Arguments pendingReads {R} _.
Arguments peerCache {R} _.
Arguments SizeDiffHint {R} _.
Arguments deleteKeysHint {R} _.
Arguments LastApplyingIdx {R} _.
Arguments lastUrgentProposalIdx {R} _.
Arguments lastCommittedSplitIdx {R} _.
Arguments RaftLogSizeHint {R} _.
Arguments PendingRemove {R} _.
Arguments lastCommittedPrepareMergeIdx {R} _.
Arguments PendingMergeState {R} _.
Arguments leaderLease {R} _.
Arguments leaderChecker {R} _.
Arguments pendingMessages {R} _.
Arguments peerStat {R} _.
Arguments Build_Peer {R}.

(** Field updates ([p.f = v]). *)
Definition set_RaftGroup {R} (v : R) (p : Peer R) : Peer R :=
  {| Meta := Meta p; regionID := regionID p; RaftGroup := v;
     peerStorage := peerStorage p; proposals := proposals p;
     applyProposals := applyProposals p; pendingReads := pendingReads p;
     peerCache := peerCache p; SizeDiffHint := SizeDiffHint p;
     deleteKeysHint := deleteKeysHint p; LastApplyingIdx := LastApplyingIdx p;
     lastUrgentProposalIdx := lastUrgentProposalIdx p;
     lastCommittedSplitIdx := lastCommittedSplitIdx p;
     RaftLogSizeHint := RaftLogSizeHint p; PendingRemove := PendingRemove p;
     lastCommittedPrepareMergeIdx := lastCommittedPrepareMergeIdx p;
     PendingMergeState := PendingMergeState p; leaderLease := leaderLease p;
     leaderChecker := leaderChecker p; pendingMessages := pendingMessages p;
     peerStat := peerStat p |}.

Definition set_proposals {R} (v : list ProposalMeta) (p : Peer R) : Peer R :=
  {| Meta := Meta p; regionID := regionID p; RaftGroup := RaftGroup p;
     peerStorage := peerStorage p; proposals := v;
     applyProposals := applyProposals p; pendingReads := pendingReads p;
     peerCache := peerCache p; SizeDiffHint := SizeDiffHint p;
     deleteKeysHint := deleteKeysHint p; LastApplyingIdx := LastApplyingIdx p;
     lastUrgentProposalIdx := lastUrgentProposalIdx p;
     lastCommittedSplitIdx := lastCommittedSplitIdx p;
     RaftLogSizeHint := RaftLogSizeHint p; PendingRemove := PendingRemove p;
     lastCommittedPrepareMergeIdx := lastCommittedPrepareMergeIdx p;
     PendingMergeState := PendingMergeState p; leaderLease := leaderLease p;
     leaderChecker := leaderChecker p; pendingMessages := pendingMessages p;
     peerStat := peerStat p |}.

Definition set_applyProposals {R} (v : list proposal) (p : Peer R) : Peer R :=
  {| Meta := Meta p; regionID := regionID p; RaftGroup := RaftGroup p;
     peerStorage := peerStorage p; proposals := proposals p; applyProposals := v;
     pendingReads := pendingReads p; peerCache := peerCache p;
     SizeDiffHint := SizeDiffHint p; deleteKeysHint := deleteKeysHint p;
     LastApplyingIdx := LastApplyingIdx p;
     lastUrgentProposalIdx := lastUrgentProposalIdx p;
     lastCommittedSplitIdx := lastCommittedSplitIdx p;
     RaftLogSizeHint := RaftLogSizeHint p; PendingRemove := PendingRemove p;
     lastCommittedPrepareMergeIdx := lastCommittedPrepareMergeIdx p;
     PendingMergeState := PendingMergeState p; leaderLease := leaderLease p;
     leaderChecker := leaderChecker p; pendingMessages := pendingMessages p;
     peerStat := peerStat p |}.

Definition set_pendingReads {R} (v : ReadIndexQueue) (p : Peer R) : Peer R :=
  {| Meta := Meta p; regionID := regionID p; RaftGroup := RaftGroup p;
     peerStorage := peerStorage p; proposals := proposals p;
     applyProposals := applyProposals p; pendingReads := v; peerCache := peerCache p;
     SizeDiffHint := SizeDiffHint p; deleteKeysHint := deleteKeysHint p;
     LastApplyingIdx := LastApplyingIdx p;
     lastUrgentProposalIdx := lastUrgentProposalIdx p;
     lastCommittedSplitIdx := lastCommittedSplitIdx p;
     RaftLogSizeHint := RaftLogSizeHint p; PendingRemove := PendingRemove p;
     lastCommittedPrepareMergeIdx := lastCommittedPrepareMergeIdx p;
     PendingMergeState := PendingMergeState p; leaderLease := leaderLease p;
     leaderChecker := leaderChecker p; pendingMessages := pendingMessages p;
     peerStat := peerStat p |}.

Definition set_peerCache {R} (v : gmap Z PeerMeta) (p : Peer R) : Peer R :=
  {| Meta := Meta p; regionID := regionID p; RaftGroup := RaftGroup p;
     peerStorage := peerStorage p; proposals := proposals p;
     applyProposals := applyProposals p; pendingReads := pendingReads p;
     peerCache := v; SizeDiffHint := SizeDiffHint p;
     deleteKeysHint := deleteKeysHint p; LastApplyingIdx := LastApplyingIdx p;
     lastUrgentProposalIdx := lastUrgentProposalIdx p;
     lastCommittedSplitIdx := lastCommittedSplitIdx p;
     RaftLogSizeHint := RaftLogSizeHint p; PendingRemove := PendingRemove p;
     lastCommittedPrepareMergeIdx := lastCommittedPrepareMergeIdx p;
     PendingMergeState := PendingMergeState p; leaderLease := leaderLease p;
     leaderChecker := leaderChecker p; pendingMessages := pendingMessages p;
     peerStat := peerStat p |}.

Definition set_LastApplyingIdx {R} (v : Z) (p : Peer R) : Peer R :=
  {| Meta := Meta p; regionID := regionID p; RaftGroup := RaftGroup p;
     peerStorage := peerStorage p; proposals := proposals p;
     applyProposals := applyProposals p; pendingReads := pendingReads p;
     peerCache := peerCache p; SizeDiffHint := SizeDiffHint p;
     deleteKeysHint := deleteKeysHint p; LastApplyingIdx := v;
     lastUrgentProposalIdx := lastUrgentProposalIdx p;
     lastCommittedSplitIdx := lastCommittedSplitIdx p;
     RaftLogSizeHint := RaftLogSizeHint p; PendingRemove := PendingRemove p;
     lastCommittedPrepareMergeIdx := lastCommittedPrepareMergeIdx p;
     PendingMergeState := PendingMergeState p; leaderLease := leaderLease p;
     leaderChecker := leaderChecker p; pendingMessages := pendingMessages p;
     peerStat := peerStat p |}.

Definition set_lastUrgentProposalIdx {R} (v : Z) (p : Peer R) : Peer R :=
  {| Meta := Meta p; regionID := regionID p; RaftGroup := RaftGroup p;
     peerStorage := peerStorage p; proposals := proposals p;
     applyProposals := applyProposals p; pendingReads := pendingReads p;
     peerCache := peerCache p; SizeDiffHint := SizeDiffHint p;
     deleteKeysHint := deleteKeysHint p; LastApplyingIdx := LastApplyingIdx p;
     lastUrgentProposalIdx := v; lastCommittedSplitIdx := lastCommittedSplitIdx p;
     RaftLogSizeHint := RaftLogSizeHint p; PendingRemove := PendingRemove p;
     lastCommittedPrepareMergeIdx := lastCommittedPrepareMergeIdx p;
     PendingMergeState := PendingMergeState p; leaderLease := leaderLease p;
     leaderChecker := leaderChecker p; pendingMessages := pendingMessages p;
     peerStat := peerStat p |}.

Definition set_lastCommittedSplitIdx {R} (v : Z) (p : Peer R) : Peer R :=
  {| Meta := Meta p; regionID := regionID p; RaftGroup := RaftGroup p;
     peerStorage := peerStorage p; proposals := proposals p;
     applyProposals := applyProposals p; pendingReads := pendingReads p;
     peerCache := peerCache p; SizeDiffHint := SizeDiffHint p;
     deleteKeysHint := deleteKeysHint p; LastApplyingIdx := LastApplyingIdx p;
     lastUrgentProposalIdx := lastUrgentProposalIdx p; lastCommittedSplitIdx := v;
     RaftLogSizeHint := RaftLogSizeHint p; PendingRemove := PendingRemove p;
     lastCommittedPrepareMergeIdx := lastCommittedPrepareMergeIdx p;
     PendingMergeState := PendingMergeState p; leaderLease := leaderLease p;
     leaderChecker := leaderChecker p; pendingMessages := pendingMessages p;
     peerStat := peerStat p |}.

Definition set_RaftLogSizeHint {R} (v : Z) (p : Peer R) : Peer R :=
  {| Meta := Meta p; regionID := regionID p; RaftGroup := RaftGroup p;
     peerStorage := peerStorage p; proposals := proposals p;
     applyProposals := applyProposals p; pendingReads := pendingReads p;
     peerCache := peerCache p; SizeDiffHint := SizeDiffHint p;
     deleteKeysHint := deleteKeysHint p; LastApplyingIdx := LastApplyingIdx p;
     lastUrgentProposalIdx := lastUrgentProposalIdx p;
     lastCommittedSplitIdx := lastCommittedSplitIdx p; RaftLogSizeHint := v;
     PendingRemove := PendingRemove p;
     lastCommittedPrepareMergeIdx := lastCommittedPrepareMergeIdx p;
     PendingMergeState := PendingMergeState p; leaderLease := leaderLease p;
     leaderChecker := leaderChecker p; pendingMessages := pendingMessages p;
     peerStat := peerStat p |}.

Definition set_lastCommittedPrepareMergeIdx {R} (v : Z) (p : Peer R) : Peer R :=
  {| Meta := Meta p; regionID := regionID p; RaftGroup := RaftGroup p;
     peerStorage := peerStorage p; proposals := proposals p;
     applyProposals := applyProposals p; pendingReads := pendingReads p;
     peerCache := peerCache p; SizeDiffHint := SizeDiffHint p;
     deleteKeysHint := deleteKeysHint p; LastApplyingIdx := LastApplyingIdx p;
     lastUrgentProposalIdx := lastUrgentProposalIdx p;
     lastCommittedSplitIdx := lastCommittedSplitIdx p;
     RaftLogSizeHint := RaftLogSizeHint p; PendingRemove := PendingRemove p;
     lastCommittedPrepareMergeIdx := v; PendingMergeState := PendingMergeState p;
     leaderLease := leaderLease p; leaderChecker := leaderChecker p;
     pendingMessages := pendingMessages p; peerStat := peerStat p |}.

Definition set_leaderLease {R} (v : Lease.t) (p : Peer R) : Peer R :=
  {| Meta := Meta p; regionID := regionID p; RaftGroup := RaftGroup p;
     peerStorage := peerStorage p; proposals := proposals p;
     applyProposals := applyProposals p; pendingReads := pendingReads p;
     peerCache := peerCache p; SizeDiffHint := SizeDiffHint p;
     deleteKeysHint := deleteKeysHint p; LastApplyingIdx := LastApplyingIdx p;
     lastUrgentProposalIdx := lastUrgentProposalIdx p;
     lastCommittedSplitIdx := lastCommittedSplitIdx p;
     RaftLogSizeHint := RaftLogSizeHint p; PendingRemove := PendingRemove p;
     lastCommittedPrepareMergeIdx := lastCommittedPrepareMergeIdx p;
     PendingMergeState := PendingMergeState p; leaderLease := v;
     leaderChecker := leaderChecker p; pendingMessages := pendingMessages p;
     peerStat := peerStat p |}.

Definition set_leaderChecker {R} (v : leaderCheckerFields) (p : Peer R) : Peer R :=
  {| Meta := Meta p; regionID := regionID p; RaftGroup := RaftGroup p;
     peerStorage := peerStorage p; proposals := proposals p;
     applyProposals := applyProposals p; pendingReads := pendingReads p;
     peerCache := peerCache p; SizeDiffHint := SizeDiffHint p;
     deleteKeysHint := deleteKeysHint p; LastApplyingIdx := LastApplyingIdx p;
     lastUrgentProposalIdx := lastUrgentProposalIdx p;
     lastCommittedSplitIdx := lastCommittedSplitIdx p;
     RaftLogSizeHint := RaftLogSizeHint p; PendingRemove := PendingRemove p;
     lastCommittedPrepareMergeIdx := lastCommittedPrepareMergeIdx p;
     PendingMergeState := PendingMergeState p; leaderLease := leaderLease p;
     leaderChecker := v; pendingMessages := pendingMessages p;
     peerStat := peerStat p |}.

(** ** Collaborators reached by side effect *)

Record RaftMessage := {
  rm_RegionId : Z;
  rm_RegionEpoch : RegionEpoch;
  FromPeer : PeerMeta;
  ToPeer : PeerMeta;
  rm_StartKey : option (list byte);
  rm_EndKey : option (list byte);
  rm_Message : Message
}.

(** [trans.Send]: the error it returns, if any. *)
Definition Transport := RaftMessage → option Error.

Inductive WriteOp :=
| WClearMeta (regionId : Z)
| WPeerStateTombstone (regionId : Z) (mergeState : option MergeState).

Definition WriteBatch := list WriteOp.

(** [kvWB.WriteToKV(engine.kv)] and [raftWB.WriteToRaft(engine.raft)]: the
    error each returns, if any. *)
Record Engines := {
  WriteToKV : WriteBatch → option Error;
  WriteToRaft : WriteBatch → option Error
}.

Record apply := {
  apply_regionID : Z;
  apply_term : Z;
  apply_entries : list Entry
}.

(** What the controller does to its collaborators, in program order. *)
Inductive Event :=
| EvDone (cb : Callback) (resp : RaftCmdResponse)
| EvTransportSend (m : RaftMessage)
| EvApplyMsg (regionID : Z) (a : apply)
| EvWriteKV (wb : WriteBatch)
| EvWriteRaft (wb : WriteBatch)
| EvClearData.

(** The peer together with what surrounds it: the clock ([time.Now()] returns
    [clockAt tick] and moves to the next reading), the trace of effects and
    the callbacks created by [NewCallback]. *)
Record World (R : Type) := {
  peer : Peer R;
  tick : nat;
  clockAt : nat → Time;
  trace : list Event;
  freshCb : nat
}.
Arguments peer {R} _.
Arguments tick {R} _.
Arguments clockAt {R} _.
Arguments trace {R} _.
Arguments freshCb {R} _.
Arguments Build_World {R}.

(** ** A state-and-panic monad over [World] *)

Definition M (R A : Type) : Type := World R → Result (A * World R).

#[export] Instance M_ret {R} : MRet (M R) := λ A a w, Ok (a, w).
#[export] Instance M_bind {R} : MBind (M R) :=
  λ A B f m w, match m w with Ok (a, w') => f a w' | Panic msg => Panic msg end.

Definition panic {R A} (msg : string) : M R A := λ _, Panic msg.

Definition liftR {R A} (r : Result A) : M R A :=
  λ w, match r with Ok a => Ok (a, w) | Panic msg => Panic msg end.

Definition getPeer {R} : M R (Peer R) := λ w, Ok (peer w, w).

Definition modifyPeer {R} (f : Peer R → Peer R) : M R unit :=
  λ w, Ok (tt, {| peer := f (peer w); tick := tick w; clockAt := clockAt w;
                  trace := trace w; freshCb := freshCb w |}).

Definition emit {R} (e : Event) : M R unit :=
  λ w, Ok (tt, {| peer := peer w; tick := tick w; clockAt := clockAt w;
                  trace := trace w ++ [e]; freshCb := freshCb w |}).

(** [time.Now()] *)
Definition Now {R} : M R Time :=
  λ w, Ok (clockAt w (tick w),
           {| peer := peer w; tick := S (tick w); clockAt := clockAt w;
              trace := trace w; freshCb := freshCb w |}).

(** [NewCallback()] *)
Definition NewCallback {R} : M R Callback :=
  λ w, Ok (InternalCb (freshCb w),
           {| peer := peer w; tick := tick w; clockAt := clockAt w;
              trace := trace w; freshCb := S (freshCb w) |}).

(** [cb.Done(resp)] *)
Definition Done {R} (cb : Callback) (resp : RaftCmdResponse) : M R unit :=
  emit (EvDone cb resp).

Fixpoint forM_ {R A} (l : list A) (f : A → M R unit) : M R unit :=
  match l with
  | [] => mret tt
  | a :: rest => _ ← f a; forM_ rest f
  end.

Fixpoint foldM {R A S} (f : S → A → M R S) (s : S) (l : list A) : M R S :=
  match l with
  | [] => mret s
  | a :: rest => s' ← f s a; foldM f s' rest
  end.

Definition when_ {R} (b : bool) (m : M R unit) : M R unit :=
  if b then m else mret tt.

(** ** The float64 arithmetic of the size test (peer.go, line 1563)

    [float64(entrySize) > float64(cfg.RaftEntryMaxSize)*0.9] works on numbers
    that are not negative and that lie far inside the range of [float64]: no
    infinity, NaN or subnormal number can occur.  Such a [float64] is a
    significand and an exponent, the number [significand * 2 ^ exponent], and
    the conversion of an integer and the product round their exact result to
    53 bits of significand, to the nearest number and to the even one of two
    nearest, as IEEE 754 has it. *)
Record float64 := { significand : Z; exponent : Z }.

Definition roundNearestEven (m e : Z) : float64 :=
  let shift := Z.log2 m + 1 - 53 in
  if shift <=? 0 then {| significand := m; exponent := e |}
  else
    let q := m / 2 ^ shift in
    let r := m mod 2 ^ shift in
    let half := 2 ^ (shift - 1) in
    {| significand := if (half <? r) || ((r =? half) && Z.odd q) then q + 1 else q;
       exponent := e + shift |}.

(** [float64(n)] of an integer that is not negative. *)
Definition float64_of_int (n : Z) : float64 := roundNearestEven n 0.

Definition float64_mul (x y : float64) : float64 :=
  roundNearestEven (significand x * significand y) (exponent x + exponent y).

(** [x > y] *)
Definition float64_gt (x y : float64) : bool :=
  let e := Z.min (exponent x) (exponent y) in
  significand y * 2 ^ (exponent y - e) <? significand x * 2 ^ (exponent x - e).

(** The constant [0.9] as a [float64]: 0x3FECCCCCCCCCCCCD. *)
Definition nineTenths : float64 :=
  {| significand := 8106479329266893; exponent := -53 |}.

(** [float64(entrySize) > float64(limit)*0.9] *)
Definition exceedsNineTenths (entrySize limit : Z) : bool :=
  float64_gt (float64_of_int entrySize) (float64_mul (float64_of_int limit) nineTenths).

(** Code of the repository and of its other dependencies that peer.go calls
    and that is not embedded: taken as parameters. *)
Class Deps := {
  (** [raftlog.NewRequest] *)
  NewRequest : RaftCmdRequest → RaftLog;
  (** [cmd.Unmarshal(entry.Data)] of protobuf; [None] is a decoding error *)
  Unmarshal : list byte → option RaftCmdRequest;
  (** [CheckRegionEpoch(msg, region, true)] *)
  CheckRegionEpoch : RaftCmdRequest → Region → option Error;
  (** [isInitialMsg] *)
  isInitialMsg : Message → bool;
  (** [PeerStorage.clearMeta(kvWB, raftWB)]: the error it returns, if any *)
  clearMeta : PeerStorage → option Error
}.

Record Config := {
  RaftStoreMaxLeaderLease : Duration;
  RaftEntryMaxSize : Z;
  MergeMaxLogGap : Z;
  AllowRemoveLeader : bool
}.

Inductive RequestPolicy :=
| RequestPolicyReadLocal
| RequestPolicyReadIndex
| RequestPolicyProposeNormal
| RequestPolicyProposeTransferLeader
| RequestPolicyProposeConfChange
| RequestPolicyInvalid.

#[export] Instance RequestPolicy_eq_dec : EqDecision RequestPolicy.
Proof. solve_decision. Defined.

(** The [RequestInspector] interface (peer.go, lines 1725-1731), over the
    state [I] of the inspector; [inspectLease] may change that state. *)
Class RequestInspector (I : Type) := {
  hasAppliedToCurrentTerm : I → bool;
  inspectLease : I → Result (LeaseState * I)
}.

Definition GetChangePeerCmd (msg : RaftCmdRequest) : option ChangePeerRequest :=
  GetChangePeer (GetAdminRequest (Some msg)).

Definition getTransferLeaderCmd (req : RaftCmdRequest) : option TransferLeaderRequest :=
  match AdminReq req with
  | None => None
  | Some a => TransferLeader a
  end.

Inductive scanResult :=
| ScanDone (hasRead hasWrite : bool)
| ScanFail (e : Error).

(** The loop over [req.Requests] of [Inspect]. *)
Fixpoint Inspect_scan (reqs : list CmdType) (hasRead hasWrite : bool) : scanResult :=
  match reqs with
  | [] => ScanDone hasRead hasWrite
  | r :: rest =>
      let flags :=
        match r with
        | CmdType_Get | CmdType_Snap => Some (true, hasWrite)
        | CmdType_Delete | CmdType_Put | CmdType_DeleteRange | CmdType_IngestSST =>
            Some (hasRead, true)
        | CmdType_Prewrite | CmdType_Invalid => None
        | _ => Some (hasRead, hasWrite)
        end in
      match flags with
      | None => ScanFail (ErrMsg "invalid cmd type, message maybe corrupted")
      | Some (hasRead', hasWrite') =>
          if hasRead' && hasWrite'
          then ScanFail (ErrMsg "read and write can't be mixed in one batch")
          else Inspect_scan rest hasRead' hasWrite'
      end
  end.

(** [Inspect] (peer.go, lines 1759-1811). *)
Definition Inspect {I} `{RequestInspector I} (i : I) (req : RaftCmdRequest)
  : Result ((RequestPolicy * option Error) * I) :=
  if bool_decide (is_Some (AdminReq req)) then
    if bool_decide (is_Some (GetChangePeerCmd req)) then
      Ok ((RequestPolicyProposeConfChange, None), i)
    else if bool_decide (is_Some (getTransferLeaderCmd req)) then
      Ok ((RequestPolicyProposeTransferLeader, None), i)
    else Ok ((RequestPolicyProposeNormal, None), i)
  else
    match Inspect_scan (Requests req) false false with
    | ScanFail e => Ok ((RequestPolicyInvalid, Some e), i)
    | ScanDone hasRead hasWrite =>
        if hasWrite then Ok ((RequestPolicyProposeNormal, None), i)
        else if from_option ReadQuorum false (Header req) then
          Ok ((RequestPolicyReadIndex, None), i)
        else if negb (hasAppliedToCurrentTerm i) then
          Ok ((RequestPolicyReadIndex, None), i)
        else
          '(state, i') ← inspectLease i;
          match state with
          | LeaseStateValid => Ok ((RequestPolicyReadLocal, None), i')
          | LeaseStateExpired | LeaseStateSuspect =>
              Ok ((RequestPolicyReadIndex, None), i')
          end
    end.

(** [Quorum] (peer.go, lines 1391-1394).  Go's [/] on [int] truncates; for
    every [int] the sum stays below the largest [int]. *)
Definition Quorum (total : Z) : Z := Z.quot total 2 + 1.

(** ** Methods of the peer *)

Section Controller.
Context {R : Type} {raftLib : RaftLib R} {deps : Deps}.

(** *** Accessors (peer.go, lines 429-431, 516-581, 978-981) *)

Definition Store (p : Peer R) : PeerStorage := peerStorage p.
Definition PeerRegion (p : Peer R) : Region := ps_region (Store p).
Definition PeerID (p : Peer R) : Z := Id (Meta p).
Definition Term (p : Peer R) : Z := Raft_Term (RaftGroup p).
Definition IsLeader (p : Peer R) : bool :=
  bool_decide (Raft_State (RaftGroup p) = StateLeader).
Definition IsApplyingSnapshot (p : Peer R) : bool :=
  IsApplyingSnapshot_ps (Store p).
Definition HasPendingSnapshot (p : Peer R) : bool :=
  RawNode_HasSnap (RaftGroup p).
Definition nextProposalIndex (p : Peer R) : Z :=
  wrap64 (RaftLog_LastIndex (RaftGroup p) + 1).

(** *** Notifications (peer.go, lines 97-107) *)

Definition NotifyStaleReq (term : Z) (cb : Callback) : M R unit :=
  Done cb (ErrRespStaleCommand term).

Definition NotifyReqRegionRemoved (regionID : Z) (cb : Callback) : M R unit :=
  Done cb (ErrResp (ErrRegionNotFound regionID)).

(** *** The read-index queue inside the peer (peer.go, lines 87-125) *)

Definition PopFront : M R (option ReadIndexRequest) :=
  p ← getPeer;
  let '(req, q) := ReadIndexQueue.PopFront (pendingReads p) in
  _ ← modifyPeer (set_pendingReads q);
  mret req.

Definition NextID : M R Z :=
  p ← getPeer;
  let '(id, q) := ReadIndexQueue.NextID (pendingReads p) in
  _ ← modifyPeer (set_pendingReads q);
  mret id.

Definition ClearUncommitted (term : Z) : M R unit :=
  p ← getPeer;
  '(committed, uncommitted) ← liftR (ReadIndexQueue.splitAtReady (pendingReads p));
  _ ← modifyPeer
        (set_pendingReads {| idAllocator := idAllocator (pendingReads p);
                             reads := committed;
                             readyCnt := readyCnt (pendingReads p) |});
  forM_ uncommitted (λ read,
    forM_ (cmds read) (λ reqCbPair, NotifyStaleReq term (Cb reqCbPair))).

(** *** Destroy (peer.go, lines 466-514) *)

Definition Destroy (engine : Engines) (keepData : bool) : M R (option Error) :=
  p ← getPeer;
  let region := PeerRegion p in
  match clearMeta (Store p) with
  | Some err => mret (Some err)
  | None =>
      let mergeState := PendingMergeState p in
      let kvWB := [WClearMeta (region_Id region);
                   WPeerStateTombstone (region_Id region) mergeState] in
      let raftWB := [WClearMeta (region_Id region)] in
      _ ← emit (EvWriteKV kvWB);
      match WriteToKV engine kvWB with
      | Some err => mret (Some err)
      | None =>
          _ ← emit (EvWriteRaft raftWB);
          match WriteToRaft engine raftWB with
          | Some err => mret (Some err)
          | None =>
              _ ← when_ (isInitialized (Store p) && negb keepData) (emit EvClearData);
              _ ← forM_ (reads (pendingReads p)) (λ read,
                    forM_ (cmds read) (λ r,
                      NotifyReqRegionRemoved (region_Id region) (Cb r)));
              _ ← modifyPeer (λ p,
                    set_pendingReads {| idAllocator := idAllocator (pendingReads p);
                                        reads := [];
                                        readyCnt := readyCnt (pendingReads p) |} p);
              _ ← forM_ (applyProposals p) (λ proposal,
                    NotifyReqRegionRemoved (region_Id region) (prop_cb proposal));
              _ ← modifyPeer (set_applyProposals []);
              mret None
          end
      end
  end.

(** *** Sending (peer.go, lines 402-421, 583-604, 1005-1038) *)

Definition insertPeerCache (peer : PeerMeta) (p : Peer R) : Peer R :=
  set_peerCache (<[Id peer := peer]> (peerCache p)) p.

Definition getPeerFromCache (peerID : Z) : M R (option PeerMeta) :=
  p ← getPeer;
  match peerCache p !! peerID with
  | Some peer => mret (Some peer)
  | None =>
      match find (λ peer, bool_decide (Id peer = peerID)) (Peers (PeerRegion p)) with
      | Some peer => _ ← modifyPeer (insertPeerCache peer); mret (Some peer)
      | None => mret None
      end
  end.

Definition sendRaftMessage (msg : Message) (trans : Transport)
  : M R (option Error) :=
  p ← getPeer;
  epoch ← liftR (deref (region_RegionEpoch (PeerRegion p)));
  let fromPeer := Meta p in
  toPeer ← getPeerFromCache (To msg);
  match toPeer with
  | None => mret (Some (ErrMsg "failed to lookup recipient peer"))
  | Some toPeer =>
      let withKeys := isInitialized (Store p) && isInitialMsg msg in
      let sendMsg :=
        {| rm_RegionId := regionID p;
           rm_RegionEpoch := {| ConfVer := ConfVer epoch; Version := Version epoch |};
           FromPeer := fromPeer;
           ToPeer := toPeer;
           rm_StartKey := if withKeys then Some (StartKey (PeerRegion p)) else None;
           rm_EndKey := if withKeys then Some (EndKey (PeerRegion p)) else None;
           rm_Message := msg |} in
      _ ← emit (EvTransportSend sendMsg);
      mret (trans sendMsg)
  end.

Fixpoint Send (trans : Transport) (msgs : list Message) : M R (option Error) :=
  match msgs with
  | [] => mret None
  | msg :: rest =>
      let msgType := MsgType msg in
      err ← sendRaftMessage msg trans;
      match err with
      | Some e => mret (Some e)
      | None =>
          _ ← match msgType with
              | MsgTimeoutNow =>
                  now ← Now;
                  modifyPeer (λ p, set_leaderLease (Lease.Suspect (leaderLease p) now) p)
              | _ => mret tt
              end;
          Send trans rest
      end
  end.

(** *** Read readiness and lease renewal (peer.go, lines 793-812, 932-976) *)

Definition isSplitting (p : Peer R) : bool :=
  AppliedIndex (Store p) <? lastCommittedSplitIdx p.

Definition isMerging (p : Peer R) : bool :=
  (AppliedIndex (Store p) <? lastCommittedPrepareMergeIdx p)
  || bool_decide (is_Some (PendingMergeState p)).

Definition readyToHandleRead (p : Peer R) : bool :=
  (appliedIndexTerm (Store p) =? Term p)
  && negb (isSplitting p) && negb (isMerging p).

Definition ReadyToHandlePendingSnap (p : Peer R) : bool :=
  LastApplyingIdx p =? AppliedIndex (Store p).

(** The store of the remote lease into the leader checker is left out (see
    [leaderCheckerFields]). *)
Definition MaybeRenewLeaderLease (ts : Time) : M R unit :=
  p ← getPeer;
  if negb (IsLeader p) || isSplitting p || isMerging p then mret tt
  else modifyPeer (λ p, set_leaderLease (Lease.Renew (leaderLease p) ts) p).

(** The loop of [findProposeTime] over the proposal queue. *)
Fixpoint findProposeTime_loop (queue : list ProposalMeta) (index term : Z)
  : option Time * list ProposalMeta :=
  match queue with
  | [] => (None, [])
  | meta :: rest =>
      if term <? pm_Term meta then (None, queue)
      else if (pm_Index meta =? index) && (pm_Term meta =? term)
      then (RenewLeaseTime meta, rest)
      else findProposeTime_loop rest index term
  end.

Definition findProposeTime (index term : Z) : M R (option Time) :=
  p ← getPeer;
  let '(t, queue) := findProposeTime_loop (proposals p) index term in
  _ ← modifyPeer (set_proposals queue);
  mret t.

(** *** Reads (peer.go, lines 1703-1708, 1813-1848) *)

(** The loop of [ReadExecutor.Execute] over [msg.Requests]. *)
Fixpoint Execute_loop (reqs : list CmdType) (resps : list CmdType)
  : Result (list CmdType) :=
  match reqs with
  | [] => Ok resps
  | CmdType_Snap :: rest => Execute_loop rest (resps ++ [CmdType_Snap])
  | _ :: _ => Panic "unreachable"
  end.

Definition Execute (checkEpoch : bool) (msg : RaftCmdRequest) (region : Region)
  : Result RaftCmdResponse :=
  match (if checkEpoch then CheckRegionEpoch msg region else None) with
  | Some err => Ok (ErrResp err)
  | None =>
      resps ← Execute_loop (Requests msg) [];
      Ok {| resp_Error := None; resp_CurrentTerm := 0; Responses := resps;
            resp_TransferLeader := false |}
  end.

Definition handleRead (req : RaftCmdRequest) (checkEpoch : bool)
  : M R RaftCmdResponse :=
  p ← getPeer;
  resp ← liftR (Execute checkEpoch req (PeerRegion p));
  mret (BindRespTerm resp (Term p)).

Definition readLocal (req : RaftCmdRequest) (cb : Callback) : M R unit :=
  resp ← handleRead req false;
  Done cb resp.

(** Answering every command of one drained request. *)
Definition respondReads (read : ReadIndexRequest) : M R unit :=
  forM_ (cmds read) (λ reqCb,
    resp ← handleRead (Req reqCb) true;
    Done (Cb reqCb) resp).

(** *** ApplyReads (peer.go, lines 1128-1173) *)

Definition ApplyReads_ready (proposeTime : option Time) (state : ReadState)
  : M R (option Time) :=
  read ← PopFront;
  match read with
  | None => panic "read should exist"
  | Some read =>
      if negb (bool_decide (RequestCtx state = binaryID read))
      then panic "request ctx not equal to read id"
      else
        _ ← respondReads read;
        mret (renewLeaseTime read)
  end.

Definition ApplyReads_pending (proposeTime : option Time) (state : ReadState)
  : M R (option Time) :=
  p ← getPeer;
  let q := pendingReads p in
  if readyCnt q <? 0 then panic "index out of range" else
  match reads q !! Z.to_nat (readyCnt q) with
  | None => panic "index out of range"
  | Some read =>
      if negb (bool_decide (RequestCtx state = binaryID read))
      then panic "request ctx not equal to read id"
      else
        _ ← modifyPeer (λ p,
              set_pendingReads {| idAllocator := idAllocator (pendingReads p);
                                  reads := reads (pendingReads p);
                                  readyCnt := readyCnt (pendingReads p) + 1 |} p);
        mret (renewLeaseTime read)
  end.

Definition ApplyReads (ready : Ready) : M R unit :=
  p ← getPeer;
  proposeTime ←
    (if readyToHandleRead p
     then foldM ApplyReads_ready None (ReadStates ready)
     else foldM ApplyReads_pending None (ReadStates ready));
  _ ← (if bool_decide (is_Some (ready_SoftState ready))
       then p ← getPeer; ClearUncommitted (Term p)
       else mret tt);
  match proposeTime with
  | None => mret tt
  | Some proposeTime =>
      p ← getPeer;
      if bool_decide (Lease.Inspect (leaderLease p) proposeTime = LeaseStateSuspect)
      then mret tt
      else MaybeRenewLeaderLease proposeTime
  end.

(** *** HandleRaftReadyApply (peer.go, lines 1040-1126) *)

Record toBeUpdated := {
  leaseToBeUpdated : bool;
  splitToBeUpdated : bool;
  mergeToBeUpdated : bool
}.

(** The body of the loop over the committed entries. *)
Definition HandleRaftReadyApply_entry (st : toBeUpdated) (entry : Entry)
  : M R toBeUpdated :=
  _ ← modifyPeer (λ p,
        set_RaftLogSizeHint
          (wrap64 (RaftLogSizeHint p + Z.of_nat (length (Data entry)))) p);
  leaseToBeUpdated' ←
    (if leaseToBeUpdated st then
       proposeTime ← findProposeTime (entry_Index entry) (entry_Term entry);
       match proposeTime with
       | Some t => _ ← MaybeRenewLeaderLease t; mret false
       | None => mret true
       end
     else mret false);
  p ← getPeer;
  if (entry_Term entry =? Term p)
     && (splitToBeUpdated st || mergeToBeUpdated st)
  then
    ctx ← liftR (NewProposalContextFromBytes [x00]);
    proposalCtx ← liftR (deref ctx);
    splitToBeUpdated' ←
      (if splitToBeUpdated st && contains proposalCtx ProposalContextSplit then
         _ ← modifyPeer (set_lastCommittedSplitIdx (entry_Index entry));
         mret false
       else mret (splitToBeUpdated st));
    mergeToBeUpdated' ←
      (if mergeToBeUpdated st && contains proposalCtx ProposalContextPrepareMerge then
         _ ← modifyPeer (set_lastCommittedPrepareMergeIdx (entry_Index entry));
         now ← Now;
         _ ← modifyPeer (λ p, set_leaderLease (Lease.Suspect (leaderLease p) now) p);
         mret false
       else mret (mergeToBeUpdated st));
    mret {| leaseToBeUpdated := leaseToBeUpdated';
            splitToBeUpdated := splitToBeUpdated';
            mergeToBeUpdated := mergeToBeUpdated' |}
  else
    mret {| leaseToBeUpdated := leaseToBeUpdated';
            splitToBeUpdated := splitToBeUpdated st;
            mergeToBeUpdated := mergeToBeUpdated st |}.

(** Returns the ready as the caller sees it afterwards (its committed
    entries are taken out unless a snapshot is being applied). *)
Definition HandleRaftReadyApply (ready : Ready) : M R Ready :=
  p ← getPeer;
  ready' ←
    (if IsApplyingSnapshot p then
       _ ← modifyPeer (set_LastApplyingIdx (truncatedIndex (Store p)));
       mret ready
     else
       let committedEntries := CommittedEntries ready in
       let ready' := {| ready_SoftState := ready_SoftState ready;
                        CommittedEntries := [];
                        ReadStates := ReadStates ready;
                        Messages := Messages ready |} in
       let st := {| leaseToBeUpdated := IsLeader p;
                    splitToBeUpdated := IsLeader p;
                    mergeToBeUpdated := IsLeader p |} in
       _ ← when_ (negb (leaseToBeUpdated st))
             (modifyPeer (λ p, set_proposals (ProposalQueue.Clear (proposals p)) p));
       _ ← foldM HandleRaftReadyApply_entry st committedEntries;
       _ ← match last committedEntries with
           | None => mret tt
           | Some lastEntry =>
               _ ← modifyPeer (set_LastApplyingIdx (entry_Index lastEntry));
               p ← getPeer;
               _ ← when_ (lastUrgentProposalIdx p <=? LastApplyingIdx p)
                     (modifyPeer (λ p,
                        set_lastUrgentProposalIdx MaxUint64
                          (set_RaftGroup (RawNode_SkipBcastCommit (RaftGroup p) true) p)));
               p ← getPeer;
               emit (EvApplyMsg (regionID p)
                       {| apply_regionID := regionID p;
                          apply_term := Term p;
                          apply_entries := committedEntries |})
           end;
       mret ready');
  _ ← ApplyReads ready';
  _ ← modifyPeer (λ p, set_RaftGroup (RawNode_Advance (RaftGroup p) ready') p);
  p ← getPeer;
  _ ← when_ (IsApplyingSnapshot p)
        (modifyPeer (λ p,
           set_RaftGroup (RawNode_AdvanceApply (RaftGroup p) (LastApplyingIdx p)) p));
  mret ready'.

(** *** PostApply (peer.go, lines 1175-1225) *)

(** The loop [for i := 0; i < readyCnt; i++] that drains the ready reads. *)
Fixpoint PostApply_drain (n : nat) : M R unit :=
  match n with
  | O => mret tt
  | S n' =>
      read ← PopFront;
      match read with
      | None => panic "read is nil, this should not happen"
      | Some read => _ ← respondReads read; PostApply_drain n'
      end
  end.

Definition PostApply (newApplyState : applyState) (newAppliedIndexTerm : Z)
    (merged : bool) (metrics : applyMetrics) : M R bool :=
  p ← getPeer;
  if IsApplyingSnapshot p then panic "should not applying snapshot" else
  _ ← when_ (negb merged)
        (modifyPeer (λ p,
           set_RaftGroup (RawNode_AdvanceApply (RaftGroup p) (appliedIndex newApplyState)) p));
  p ← getPeer;
  let progressToBeUpdated :=
    negb (appliedIndexTerm (Store p) =? newAppliedIndexTerm) in
  let diff := wrap64 (SizeDiffHint p + am_sizeDiffHint metrics) in
  _ ← modifyPeer (λ p,
        {| Meta := Meta p; regionID := regionID p; RaftGroup := RaftGroup p;
           peerStorage :=
             {| ps_region := ps_region (Store p);
                ps_applyState := newApplyState;
                appliedIndexTerm := newAppliedIndexTerm;
                ps_initialized := ps_initialized (Store p);
                ps_applyingSnapshot := ps_applyingSnapshot (Store p) |};
           proposals := proposals p; applyProposals := applyProposals p;
           pendingReads := pendingReads p; peerCache := peerCache p;
           SizeDiffHint := if 0 <? diff then diff else 0;
           deleteKeysHint := wrap64 (deleteKeysHint p + am_deleteKeysHint metrics);
           LastApplyingIdx := LastApplyingIdx p;
           lastUrgentProposalIdx := lastUrgentProposalIdx p;
           lastCommittedSplitIdx := lastCommittedSplitIdx p;
           RaftLogSizeHint := RaftLogSizeHint p;
           PendingRemove := PendingRemove p;
           lastCommittedPrepareMergeIdx := lastCommittedPrepareMergeIdx p;
           PendingMergeState := PendingMergeState p;
           leaderLease := leaderLease p; leaderChecker := leaderChecker p;
           pendingMessages := pendingMessages p;
           peerStat :=
             {| WrittenBytes := wrap64 (WrittenBytes (peerStat p) + am_writtenBytes metrics);
                WrittenKeys := wrap64 (WrittenKeys (peerStat p) + am_writtenKeys metrics) |}
        |});
  p ← getPeer;
  let hasReady := HasPendingSnapshot p && ReadyToHandlePendingSnap p in
  _ ← (if (0 <? readyCnt (pendingReads p)) && readyToHandleRead p then
         _ ← PostApply_drain (Z.to_nat (readyCnt (pendingReads p)));
         modifyPeer (λ p,
           set_pendingReads {| idAllocator := idAllocator (pendingReads p);
                               reads := reads (pendingReads p);
                               readyCnt := 0 |} p)
       else mret tt);
  p ← getPeer;
  _ ← when_ (progressToBeUpdated && IsLeader p && negb (PendingRemove p))
        (modifyPeer (λ p,
           set_leaderChecker {| lc_invalid := lc_invalid (leaderChecker p);
                                lc_term := lc_term (leaderChecker p);
                                lc_appliedIndexTerm := newAppliedIndexTerm |} p));
  mret hasReady.

(** *** PostPropose (peer.go, lines 1288-1300) *)

Definition PostPropose (meta : ProposalMeta) (isConfChange : bool) (cb : Callback)
  : M R unit :=
  t ← Now;
  let meta := {| pm_Index := pm_Index meta; pm_Term := pm_Term meta;
                 RenewLeaseTime := Some t |} in
  let proposal := {| isConfChange := isConfChange; prop_index := pm_Index meta;
                     prop_term := pm_Term meta; prop_cb := cb |} in
  modifyPeer (λ p,
    set_proposals (ProposalQueue.Push (proposals p) meta)
      (set_applyProposals (applyProposals p ++ [proposal]) p)).

(** *** Conf-change safety (peer.go, lines 1302-1394) *)

Definition countHealthyNode (p : Peer R) (progress : gmap Z Progress) : Z :=
  map_fold (λ _ pr healthy,
              if truncatedIndex (Store p) <=? Match pr then healthy + 1 else healthy)
           0 progress.

Definition checkConfChange (p : Peer R) (cfg : Config) (cmd : RaftCmdRequest)
  : Result (option Error) :=
  let changePeer := GetChangePeerCmd cmd in
  let changeType := GetChangeType changePeer in
  let peer := GetPeer changePeer in
  invalid ←
    match changeType with
    | ConfChangeType_AddNode =>
        pr ← deref peer; Ok (bool_decide (Role pr = PeerRole_Learner))
    | ConfChangeType_AddLearnerNode =>
        pr ← deref peer; Ok (negb (bool_decide (Role pr = PeerRole_Learner)))
    | ConfChangeType_RemoveNode => Ok false
    end;
  if (invalid : bool) then Ok (Some (ErrMsg "invalid conf change request")) else
  removeLeader ←
    (if bool_decide (changeType = ConfChangeType_RemoveNode)
        && negb (AllowRemoveLeader cfg)
     then pr ← deref peer; Ok (Id pr =? PeerID p)
     else Ok false);
  if (removeLeader : bool) then Ok (Some (ErrMsg "ignore remove leader")) else
  let progress := Status_Progress (RaftGroup p) in
  let total := Z.of_nat (size progress) in
  if total =? 1 then Ok None else
  let count (progress' : gmap Z Progress) : Result (option Error) :=
    let healthy := countHealthyNode p progress' in
    let quorumAfterChange := Quorum (Z.of_nat (size progress')) in
    if quorumAfterChange <=? healthy then Ok None
    else Ok (Some (ErrMsg "unsafe to perform conf change")) in
  match changeType with
  | ConfChangeType_AddNode =>
      pm ← deref peer;
      match progress !! Id pm with
      | Some pr =>
          if IsLearner pr then
            count (<[Id pm := {| Match := Match pr; IsLearner := false;
                                 pr_State := pr_State pr |}]> progress)
          else count (<[Id pm := emptyProgress]> progress)
      | None => count (<[Id pm := emptyProgress]> progress)
      end
  | ConfChangeType_RemoveNode =>
      if bool_decide (GetRole peer = PeerRole_Learner) then Ok None else
      pm ← deref peer;
      match progress !! Id pm with
      | Some _ => count (delete (Id pm) progress)
      | None => Ok None
      end
  | ConfChangeType_AddLearnerNode => Ok None
  end.

(** *** Proposing (peer.go, lines 1505-1634, 1857-1869) *)

Definition GetMinProgress (p : Peer R) : Z :=
  let '(hasProgress, minMatch) :=
    map_fold (λ _ pr '(_, minMatch),
                (true, if Match pr <? minMatch then Match pr else minMatch))
             (false, MaxUint64) (Status_Progress (RaftGroup p)) in
  if negb hasProgress then 0 else minMatch.

(** The loop of [preProposePrepareMerge] over the entries of the log gap:
    an error to return, or the accumulated size.  The size is a sum of
    lengths of slices held in memory: it stays in the range of [int]. *)
Fixpoint preProposePrepareMerge_loop (ents : list Entry) (entrySize : Z)
  : Result (Error + Z) :=
  match ents with
  | [] => Ok (inr entrySize)
  | entry :: rest =>
      let entrySize := entrySize + Z.of_nat (length (Data entry)) in
      if bool_decide (entry_EntryType entry = EntryType_EntryConfChange)
      then Ok (inl (ErrMsg "log gap contains conf change, skip merging"))
      else if (length (Data entry) =? 0)%nat
      then preProposePrepareMerge_loop rest entrySize
      else
        match Unmarshal (Data entry) with
        | None => Panic "data is corrupted"
        | Some cmd =>
            match AdminReq cmd with
            | None => preProposePrepareMerge_loop rest entrySize
            | Some a =>
                match admin_CmdType a with
                | AdminCmdType_TransferLeader | AdminCmdType_ComputeHash
                | AdminCmdType_VerifyHash | AdminCmdType_InvalidAdmin =>
                    preProposePrepareMerge_loop rest entrySize
                | _ => Ok (inl (ErrMsg "log gap contains admin request, skip merging"))
                end
            end
        end
  end.

(** The request as it is after the call (its [PrepareMerge.MinIndex] is
    written on success), or the error. *)
Definition preProposePrepareMerge (p : Peer R) (cfg : Config)
    (req : RaftCmdRequest) : Result (Error + RaftCmdRequest) :=
  let lastIndex := RaftLog_LastIndex (RaftGroup p) in
  let minProgress := GetMinProgress p in
  let minIndex := wrap64 (minProgress + 1) in
  if (minProgress =? 0) || (MergeMaxLogGap cfg <? wrap64 (lastIndex - minProgress))
  then Ok (inl (ErrMsg "log gap is too large, skip merge"))
  else
    match RaftLog_Entries (RaftGroup p) minIndex MaxUint64 with
    | inl err => Ok (inl err)
    | inr ents =>
        r ← preProposePrepareMerge_loop ents 0;
        match r with
        | inl err => Ok (inl err)
        | inr entrySize =>
            if exceedsNineTenths entrySize (RaftEntryMaxSize cfg)
            then Ok (inl (ErrMsg "log gap size exceed entry size limit, skip merging"))
            else
              a ← deref (AdminReq req);
              _ ← deref (PrepareMerge a);
              Ok (inr {| Header := Header req; Requests := Requests req;
                         AdminReq :=
                           Some {| admin_CmdType := admin_CmdType a;
                                   ChangePeer := ChangePeer a;
                                   TransferLeader := TransferLeader a;
                                   PrepareMerge := Some {| MinIndex := minIndex |} |} |})
        end
    end.

Definition getSyncLogFromRequest (req : RaftCmdRequest) : bool :=
  match AdminReq req with
  | Some a =>
      match admin_CmdType a with
      | AdminCmdType_ChangePeer | AdminCmdType_Split | AdminCmdType_BatchSplit
      | AdminCmdType_PrepareMerge | AdminCmdType_CommitMerge
      | AdminCmdType_RollbackMerge => true
      | _ => false
      end
  | None => GetSyncLog (Header req)
  end.

(** The log as it is after the call, and the context or the error. *)
Definition PrePropose (p : Peer R) (cfg : Config) (rlog : RaftLog)
  : Result (RaftLog * (Error + ProposalContext)) :=
  let ctx : ProposalContext := x00 in
  match GetRaftCmdRequest rlog with
  | None => Ok (rlog, inr ctx)
  | Some req =>
      let ctx := if getSyncLogFromRequest req
                 then insert_flag ctx ProposalContextSyncLog else ctx in
      match AdminReq req with
      | None => Ok (rlog, inr ctx)
      | Some a =>
          let ctx :=
            match admin_CmdType a with
            | AdminCmdType_Split | AdminCmdType_BatchSplit =>
                insert_flag ctx ProposalContextSplit
            | _ => ctx
            end in
          match PrepareMerge a with
          | Some _ =>
              r ← preProposePrepareMerge p cfg req;
              match r with
              | inl err => Ok (rlog, inl err)
              | inr req' =>
                  Ok ({| rlog_request := Some req'; rlog_marshal := rlog_marshal rlog |},
                      inr (insert_flag ctx ProposalContextPrepareMerge))
              end
          | None => Ok (rlog, inr ctx)
          end
      end
  end.

Definition ProposeNormal (cfg : Config) (rlog : RaftLog) : M R (Z * option Error) :=
  p ← getPeer;
  if bool_decide (is_Some (PendingMergeState p))
     && negb (bool_decide
                (GetCmdType (GetAdminRequest (GetRaftCmdRequest rlog))
                 = AdminCmdType_RollbackMerge))
  then mret (0, Some (ErrMsg "peer in merging mode, can't do proposal"))
  else
    '(rlog, r) ← liftR (PrePropose p cfg rlog);
    match r with
    | inl err => mret (0, Some err)
    | inr ctx =>
        let data := Marshal rlog in
        if RaftEntryMaxSize cfg <? Z.of_nat (length data)
        then mret (0, Some (ErrRaftEntryTooLarge (regionID p) (Z.of_nat (length data))))
        else
          let proposeIndex := nextProposalIndex p in
          let '(raftGroup, err) := RawNode_Propose (RaftGroup p) (ToBytes ctx) data in
          _ ← modifyPeer (set_RaftGroup raftGroup);
          match err with
          | Some err => mret (0, Some err)
          | None =>
              p ← getPeer;
              if proposeIndex =? nextProposalIndex p
              then mret (0, Some (ErrNotLeader (regionID p)))
              else mret (proposeIndex, None)
          end
    end.

(** *** Read index (peer.go, lines 1432-1503) *)

Definition preReadIndex (p : Peer R) : option Error :=
  if isSplitting p then Some (ErrMsg "can not read index due to split")
  else if isMerging p then Some (ErrMsg "can not read index due to merge")
  else None.

(** The test of the last pending read: [Some read] with the command
    appended when the request piggy-backs on it. *)
Definition readIndex_piggyback (cfg : Config) (req : RaftCmdRequest)
    (cb : Callback) (now : Time) (rs : list ReadIndexRequest)
  : Result (option ReadIndexRequest) :=
  match last rs with
  | None => Ok None
  | Some read =>
      t ← deref (renewLeaseTime read);
      if now <? t + RaftStoreMaxLeaderLease cfg then
        Ok (Some {| id := id read;
                    cmds := cmds read ++ [{| Req := req; Cb := cb |}];
                    renewLeaseTime := renewLeaseTime read |})
      else Ok None
  end.

(** The end of [readIndex]: while the lease inspects as Suspect, an empty
    entry is proposed to have the lease renewed. *)
Definition readIndex_proposeOnSuspect (cfg : Config) (now : Time) : M R unit :=
  p ← getPeer;
  if bool_decide (Lease.Inspect (leaderLease p) now = LeaseStateSuspect)
  then
    '(index, err) ← ProposeNormal cfg (NewRequest emptyRaftCmdRequest);
    match err with
    | None =>
        p ← getPeer;
        let meta := {| pm_Index := index; pm_Term := Term p;
                       RenewLeaseTime := Some now |} in
        newCb ← NewCallback;
        PostPropose meta false newCb
    | Some _ => mret tt
    end
  else mret tt.

Definition readIndex (cfg : Config) (req : RaftCmdRequest)
    (errResp : RaftCmdResponse) (cb : Callback) : M R bool :=
  p ← getPeer;
  match preReadIndex p with
  | Some err => _ ← Done cb (BindRespError errResp err); mret false
  | None =>
      now ← Now;
      let renewLeaseTime := Some now in
      let rs := reads (pendingReads p) in
      piggy ← liftR (readIndex_piggyback cfg req cb now rs);
      match piggy with
      | Some read =>
          _ ← modifyPeer (λ p,
                set_pendingReads
                  {| idAllocator := idAllocator (pendingReads p);
                     reads := <[pred (length rs) := read]> rs;
                     readyCnt := readyCnt (pendingReads p) |} p);
          mret false
      | None =>
          let lastPendingReadCount := Raft_PendingReadCount (RaftGroup p) in
          let lastReadyReadCount := Raft_ReadyReadCount (RaftGroup p) in
          id ← NextID;
          let ctx := BigEndian_PutUint64 id in
          _ ← modifyPeer (λ p, set_RaftGroup (RawNode_ReadIndex (RaftGroup p) ctx) p);
          p ← getPeer;
          let pendingReadCount := Raft_PendingReadCount (RaftGroup p) in
          let readyReadCount := Raft_ReadyReadCount (RaftGroup p) in
          if (pendingReadCount =? lastPendingReadCount)
             && (readyReadCount =? lastReadyReadCount)
          then _ ← NotifyStaleReq (Term p) cb; mret false
          else
            let cmds := [{| Req := req; Cb := cb |}] in
            _ ← modifyPeer (λ p,
                  set_pendingReads
                    {| idAllocator := idAllocator (pendingReads p);
                       reads := reads (pendingReads p)
                                ++ [NewReadIndexRequest id cmds renewLeaseTime];
                       readyCnt := readyCnt (pendingReads p) |} p);
            _ ← readIndex_proposeOnSuspect cfg now;
            mret true
      end
  end.

(** *** The peer as a request inspector (peer.go, lines 1733-1756) *)

Definition Peer_hasAppliedToCurrentTerm (w : World R) : bool :=
  appliedIndexTerm (Store (peer w)) =? Term (peer w).

Definition Peer_inspectLease : M R LeaseState :=
  p ← getPeer;
  if negb (Raft_InLease (RaftGroup p)) then mret LeaseStateSuspect
  else
    now ← Now;
    let state := Lease.Inspect (leaderLease p) now in
    _ ← when_ (bool_decide (state = LeaseStateExpired))
          (modifyPeer (λ p, set_leaderLease (Lease.Expire (leaderLease p)) p));
    mret state.

#[export] Instance Peer_RequestInspector : RequestInspector (World R) :=
  {| hasAppliedToCurrentTerm := Peer_hasAppliedToCurrentTerm;
     inspectLease := Peer_inspectLease |}.

Definition inspect (rlog : RaftLog) : M R (RequestPolicy * option Error) :=
  match GetRaftCmdRequest rlog with
  | None => mret (RequestPolicyProposeNormal, None)
  | Some req => λ w, Inspect w req
  end.
End Controller.

(** ** The leader checker (read.go) *)

Module leaderChecker.

(** [kvrpcpb.Context] *)
Record Context := {
  RegionId : Z;
  ctx_RegionEpoch : option RegionEpoch;
  ctx_Peer : option PeerMeta;
  ctx_Term : Z;
  ctx_SyncLog : bool
}.

Record MsgRaftCmd := {
  SendTime : Time;
  Request : RaftCmdRequest;
  msg_Callback : Callback
}.

(** [router.router.sendRaftCommand(msg)] followed by [cb.wg.Wait()]: the
    error of the send, or else the response the callback is completed with
    ([None] when it never is, so the wait never ends). *)
Definition Router := MsgRaftCmd → Error + option RaftCmdResponse.

Inductive Outcome :=
| Returned (err : option Error)
| Blocked.

(** What a call did: the commands it gave to the router, and how it ended. *)
Record Run := { routed : list MsgRaftCmd; outcome : Outcome }.

Section Checker.
(** [*RemoteLease] as loaded from the checker, and its [Inspect]; both
    are in lease.go, which is not embedded. *)
Context {RemoteLeasePtr : Type}.
Variable RemoteLease_Inspect : RemoteLeasePtr → Time → Result LeaseState.

Record t := {
  peerID : Z;
  invalid : bool;
  term : Z;
  appliedIndexTerm : Z;
  leaderLease : RemoteLeasePtr;
  region : Region
}.

Definition isExpired (c : t) (ctx : Context) (snapTime : Time)
  : Result (bool * option Error) :=
  if invalid c then Ok (false, Some (ErrRegionNotFound (RegionId ctx))) else
  let peerID := peerID c in
  let term := term c in
  let region := region c in
  let lease := leaderLease c in
  let appliedIndexTerm := appliedIndexTerm c in
  ctxPeer ← deref (ctx_Peer ctx);
  if negb (Id ctxPeer =? peerID) then Ok (false, Some (ErrMsg "mismatch peer id")) else
  if negb ((ctx_Term ctx =? 0) || (term <=? wrap64 (ctx_Term ctx + 1)))
  then Ok (false, Some ErrStaleCommand) else
  match ctx_RegionEpoch ctx with
  | None => Ok (false, Some (ErrMsg "missing epoch"))
  | Some ctxEpoch =>
      regionEpoch ← deref (region_RegionEpoch region);
      if negb (Version ctxEpoch =? Version regionEpoch)
      then Ok (false, Some (ErrEpochNotMatch (region_Id region) regionEpoch ctxEpoch))
      else if negb (appliedIndexTerm =? term) then Ok (true, None)
      else
        state ← RemoteLease_Inspect lease snapTime;
        Ok (bool_decide (state = LeaseStateExpired), None)
  end.

(** [clock] gives the successive readings of [time.Now()]; [cb] is the
    callback [NewCallback()] creates. *)
Definition IsLeader (c : t) (ctx : Context) (router : Router)
    (clock : nat → Time) (cb : Callback) : Result Run :=
  let snapTime := clock 0%nat in
  '(expired, err) ← isExpired c ctx snapTime;
  match err with
  | Some err => Ok {| routed := []; outcome := Returned (Some err) |}
  | None =>
      if negb expired then Ok {| routed := []; outcome := Returned None |}
      else
        let req := CmdType_Snap in
        let header := {| hdr_RegionId := RegionId ctx;
                         hdr_Peer := ctx_Peer ctx;
                         ReadQuorum := false;
                         hdr_RegionEpoch := ctx_RegionEpoch ctx;
                         hdr_Term := ctx_Term ctx;
                         SyncLog := ctx_SyncLog ctx |} in
        let cmd := {| Header := Some header; Requests := [req];
                      AdminReq := None |} in
        let msg := {| SendTime := clock 1%nat; Request := cmd;
                      msg_Callback := cb |} in
        match router msg with
        | inl err => Ok {| routed := [msg]; outcome := Returned (Some err) |}
        | inr None => Ok {| routed := [msg]; outcome := Blocked |}
        | inr (Some resp) =>
            Ok {| routed := [msg]; outcome := Returned (resp_Error resp) |}
        end
  end.
End Checker.

End leaderChecker.

(** ** A small consensus node and small collaborators, to run the methods on
    concrete states *)

Module Mock.

Record Raft := {
  m_term : Z;
  m_state : StateType;
  m_inLease : bool;
  m_lastIndex : Z;
  m_progress : gmap Z Progress;
  m_pendingReadCount : Z
}.

Definition with_lastIndex (i : Z) (r : Raft) : Raft :=
  {| m_term := m_term r; m_state := m_state r; m_inLease := m_inLease r;
     m_lastIndex := i; m_progress := m_progress r;
     m_pendingReadCount := m_pendingReadCount r |}.

Definition with_pendingReadCount (n : Z) (r : Raft) : Raft :=
  {| m_term := m_term r; m_state := m_state r; m_inLease := m_inLease r;
     m_lastIndex := m_lastIndex r; m_progress := m_progress r;
     m_pendingReadCount := n |}.

(** A leader appends what is proposed and registers read-index requests;
    any other node drops both silently. *)
#[export] Instance RaftLib_Raft : RaftLib Raft := {|
  Raft_Term := m_term;
  Raft_State := m_state;
  Raft_InLease := m_inLease;
  Raft_PendingConfIndex := λ _, 0;
  Raft_PendingReadCount := m_pendingReadCount;
  Raft_ReadyReadCount := λ _, 0;
  RaftLog_LastIndex := m_lastIndex;
  RaftLog_Entries := λ _ _ _, inr [];
  Status_Progress := m_progress;
  RawNode_HasSnap := λ _, false;
  RawNode_ReadIndex := λ r _,
    if bool_decide (m_state r = StateLeader)
    then with_pendingReadCount (m_pendingReadCount r + 1) r else r;
  RawNode_Propose := λ r _ _,
    if bool_decide (m_state r = StateLeader)
    then (with_lastIndex (m_lastIndex r + 1) r, None) else (r, None);
  RawNode_SkipBcastCommit := λ r _, r;
  RawNode_Advance := λ r _, r;
  RawNode_AdvanceApply := λ r _, r
|}.

#[export] Instance deps : Deps := {|
  NewRequest := λ req, {| rlog_request := Some req; rlog_marshal := λ _, [] |};
  Unmarshal := λ _, Some emptyRaftCmdRequest;
  CheckRegionEpoch := λ _ _, None;
  isInitialMsg := λ _, false;
  clearMeta := λ _, None
|}.

Definition leader (term lastIndex : Z) (progress : gmap Z Progress) : Raft :=
  {| m_term := term; m_state := StateLeader; m_inLease := true;
     m_lastIndex := lastIndex; m_progress := progress;
     m_pendingReadCount := 0 |}.

Definition follower (term lastIndex : Z) : Raft :=
  {| m_term := term; m_state := StateFollower; m_inLease := false;
     m_lastIndex := lastIndex; m_progress := ∅;
     m_pendingReadCount := 0 |}.

Definition self : PeerMeta := {| Id := 1; StoreId := 1; Role := PeerRole_Voter |}.

Definition region1 : Region :=
  {| region_Id := 7; StartKey := []; EndKey := [];
     region_RegionEpoch := Some {| ConfVer := 1; Version := 1 |};
     Peers := [self;
               {| Id := 2; StoreId := 2; Role := PeerRole_Voter |};
               {| Id := 3; StoreId := 3; Role := PeerRole_Voter |}] |}.

Definition storage (applied appliedTerm truncated : Z) : PeerStorage :=
  {| ps_region := region1;
     ps_applyState := {| appliedIndex := applied; truncatedIndex_ := truncated |};
     appliedIndexTerm := appliedTerm;
     ps_initialized := true;
     ps_applyingSnapshot := false |}.

(** A peer of region 7 with empty queues. *)
Definition peer0 (raft : Raft) (ps : PeerStorage) (lease : Lease.t) : Peer Raft :=
  {| Meta := self; regionID := 7; RaftGroup := raft; peerStorage := ps;
     proposals := []; applyProposals := []; pendingReads := emptyReadIndexQueue;
     peerCache := ∅; SizeDiffHint := 0; deleteKeysHint := 0;
     LastApplyingIdx := AppliedIndex ps; lastUrgentProposalIdx := MaxUint64;
     lastCommittedSplitIdx := 0; RaftLogSizeHint := 0; PendingRemove := false;
     lastCommittedPrepareMergeIdx := 0; PendingMergeState := None;
     leaderLease := lease;
     leaderChecker := {| lc_invalid := false; lc_term := Raft_Term raft;
                         lc_appliedIndexTerm := appliedIndexTerm ps |};
     pendingMessages := [];
     peerStat := {| WrittenBytes := 0; WrittenKeys := 0 |} |}.

(** A world whose clock reads [t0], [t0 + 1], ... *)
Definition world (p : Peer Raft) (t0 : Time) : World Raft :=
  {| peer := p; tick := 0; clockAt := λ n, t0 + Z.of_nat n; trace := [];
     freshCb := 0 |}.

Definition cfg : Config :=
  {| RaftStoreMaxLeaderLease := 9; RaftEntryMaxSize := 8;
     MergeMaxLogGap := 10; AllowRemoveLeader := false |}.

Definition validLease (b : Time) : Lease.t :=
  {| Lease.state := Lease.BoundValid b; Lease.maxLease := 9 |}.

End Mock.

(** ** Vocabulary of the properties *)

(** The nodes of a progress map that are healthy, [Match >= truncatedIndex]:
    their number. *)
Definition healthyNodes (truncated : Z) (progress : gmap Z Progress) : Z :=
  Z.of_nat (size (filter (λ kv : Z * Progress, truncated ≤ Match kv.2) progress)).

(** A conf change simulated on a progress map: [AddNode] promotes a learner
    that is present and otherwise puts a fresh progress, [RemoveNode] deletes,
    [AddLearnerNode] changes nothing. *)
Definition progressAfter (changeType : ConfChangeType) (nodeId : Z)
    (progress : gmap Z Progress) : gmap Z Progress :=
  match changeType with
  | ConfChangeType_AddNode =>
      match progress !! nodeId with
      | Some pr =>
          if IsLearner pr
          then <[nodeId := {| Match := Match pr; IsLearner := false;
                             pr_State := pr_State pr |}]> progress
          else <[nodeId := emptyProgress]> progress
      | None => <[nodeId := emptyProgress]> progress
      end
  | ConfChangeType_RemoveNode => delete nodeId progress
  | ConfChangeType_AddLearnerNode => progress
  end.

(** "healthy >= Quorum of the post-change progress size" *)
Definition quorumHealthyAfter (truncated : Z) (changeType : ConfChangeType)
    (nodeId : Z) (progress : gmap Z Progress) : bool :=
  let progress' := progressAfter changeType nodeId progress in
  Quorum (Z.of_nat (size progress')) <=? healthyNodes truncated progress'.

(** The request names a role that contradicts the kind of change. *)
Definition malformedChange (changeType : ConfChangeType) (pm : PeerMeta) : bool :=
  match changeType with
  | ConfChangeType_AddNode => bool_decide (Role pm = PeerRole_Learner)
  | ConfChangeType_AddLearnerNode => negb (bool_decide (Role pm = PeerRole_Learner))
  | ConfChangeType_RemoveNode => false
  end.

(** The request removes the peer that checks it while the configuration
    forbids that. *)
Definition removesSelf (self : Z) (cfg : Config) (changeType : ConfChangeType)
    (pm : PeerMeta) : bool :=
  bool_decide (changeType = ConfChangeType_RemoveNode)
  && negb (AllowRemoveLeader cfg) && (Id pm =? self).

(** The cases [checkConfChange] accepts without counting. *)
Definition acceptedUncounted (changeType : ConfChangeType) (pm : PeerMeta)
    (progress : gmap Z Progress) : bool :=
  (Z.of_nat (size progress) =? 1)
  || match changeType with
     | ConfChangeType_AddNode => false
     | ConfChangeType_RemoveNode =>
         bool_decide (Role pm = PeerRole_Learner)
         || bool_decide (progress !! Id pm = None)
     | ConfChangeType_AddLearnerNode => true
     end.

Definition changePeerRequest (changeType : ConfChangeType) (pm : PeerMeta)
  : RaftCmdRequest :=
  {| Header := None; Requests := [];
     AdminReq := Some {| admin_CmdType := AdminCmdType_ChangePeer;
                         ChangePeer := Some {| ChangeType := changeType;
                                               cp_Peer := Some pm |};
                         TransferLeader := None; PrepareMerge := None |} |}.

(** Worlds that differ from a given one in one component. *)
Definition withPeer {R} (p : Peer R) (w : World R) : World R :=
  {| peer := p; tick := tick w; clockAt := clockAt w; trace := trace w;
     freshCb := freshCb w |}.

Definition withTrace {R} (es : list Event) (w : World R) : World R :=
  {| peer := peer w; tick := tick w; clockAt := clockAt w; trace := trace w ++ es;
     freshCb := freshCb w |}.

Definition withTick {R} (n : nat) (w : World R) : World R :=
  {| peer := peer w; tick := n; clockAt := clockAt w; trace := trace w;
     freshCb := freshCb w |}.

(** The region-not-found answers [Destroy] owes: one per command of every
    pending read, in queue order, then one per buffered proposal. *)
Definition regionRemovedNotices (regionId : Z) (rs : list ReadIndexRequest)
    (props : list proposal) : list Event :=
  (rs ≫= λ read,
     (λ r, EvDone (Cb r) (ErrResp (ErrRegionNotFound regionId))) <$> cmds read)
  ++ ((λ pr, EvDone (prop_cb pr) (ErrResp (ErrRegionNotFound regionId))) <$> props).

(** The two write batches [Destroy] builds for a region. *)
Definition tombstoneBatch (regionId : Z) (mergeState : option MergeState) : WriteBatch :=
  [WClearMeta regionId; WPeerStateTombstone regionId mergeState].
Definition raftMetaBatch (regionId : Z) : WriteBatch := [WClearMeta regionId].

(** The invariant of the read-index queue. *)
Definition readyCntInRange (q : ReadIndexQueue) : Prop :=
  0 ≤ readyCnt q ≤ Z.of_nat (length (reads q)).

(** Reading 8 big-endian bytes back as a number. *)
Definition BigEndian_Uint64 (bs : list byte) : Z :=
  fold_left (λ acc b, acc * 256 + Z.of_N (Byte.to_N b)) bs 0.

(** A pending read with one more command appended. *)
Definition appendCmd (read : ReadIndexRequest) (req : RaftCmdRequest) (cb : Callback)
  : ReadIndexRequest :=
  {| id := id read; cmds := cmds read ++ [{| Req := req; Cb := cb |}];
     renewLeaseTime := renewLeaseTime read |}.

(** A read-index queue with other pending reads. *)
Definition withReads (rs : list ReadIndexRequest) (q : ReadIndexQueue) : ReadIndexQueue :=
  {| idAllocator := idAllocator q; reads := rs; readyCnt := readyCnt q |}.

Definition withIdAllocator (n : Z) (q : ReadIndexQueue) : ReadIndexQueue :=
  {| idAllocator := n; reads := reads q; readyCnt := readyCnt q |}.

Definition withReadyCnt (n : Z) (q : ReadIndexQueue) : ReadIndexQueue :=
  {| idAllocator := idAllocator q; reads := reads q; readyCnt := n |}.

(** The Snap command [leaderChecker.IsLeader] gives to the router. *)
Definition snapCommand (ctx : leaderChecker.Context) (sendTime : Time) (cb : Callback)
  : leaderChecker.MsgRaftCmd :=
  {| leaderChecker.SendTime := sendTime;
     leaderChecker.Request :=
       {| Header := Some {| hdr_RegionId := leaderChecker.RegionId ctx;
                            hdr_Peer := leaderChecker.ctx_Peer ctx;
                            ReadQuorum := false;
                            hdr_RegionEpoch := leaderChecker.ctx_RegionEpoch ctx;
                            hdr_Term := leaderChecker.ctx_Term ctx;
                            SyncLog := leaderChecker.ctx_SyncLog ctx |};
          Requests := [CmdType_Snap]; AdminReq := None |};
     leaderChecker.msg_Callback := cb |}.

(** How a call of [leaderChecker.IsLeader] that went through the router ends. *)
Definition routedRun (router : leaderChecker.Router) (msg : leaderChecker.MsgRaftCmd)
  : leaderChecker.Run :=
  {| leaderChecker.routed := [msg];
     leaderChecker.outcome :=
       match router msg with
       | inl err => leaderChecker.Returned (Some err)
       | inr None => leaderChecker.Blocked
       | inr (Some resp) => leaderChecker.Returned (resp_Error resp)
       end |}.

Definition rejected (e : Error) : Result leaderChecker.Run :=
  Ok {| leaderChecker.routed := [];
        leaderChecker.outcome := leaderChecker.Returned (Some e) |}.

(** Concrete states for the examples. *)
Module Examples.
Import Mock.

Definition pmOf (i : Z) (role : PeerRole) : PeerMeta :=
  {| Id := i; StoreId := i; Role := role |}.

Definition progressOf (m : Z) : Progress :=
  {| Match := m; IsLearner := false; pr_State := ProgressStateReplicate |}.

(** Three voters, all caught up. *)
Definition healthy3 : gmap Z Progress :=
  <[1 := progressOf 10]> (<[2 := progressOf 10]> (<[3 := progressOf 10]> ∅)).

(** Three voters, two of them below the truncated index 5. *)
Definition lagging3 : gmap Z Progress :=
  <[1 := progressOf 10]> (<[2 := progressOf 0]> (<[3 := progressOf 0]> ∅)).

(** Three voters, the third below the truncated index 5. *)
Definition oneLagging3 : gmap Z Progress :=
  <[1 := progressOf 10]> (<[2 := progressOf 10]> (<[3 := progressOf 2]> ∅)).

(** A leader at term 5 with log up to index 10, applied up to 9 in term 5,
    truncated index 5, lease valid until time 1000. *)
Definition leaderPeer (progress : gmap Z Progress) : Peer Raft :=
  peer0 (leader 5 10 progress) (storage 9 5 5) (validLease 1000).

Definition leaderWorld : World Raft := world (leaderPeer healthy3) 100.

Definition getRequest : RaftCmdRequest :=
  {| Header := None; Requests := [CmdType_Get]; AdminReq := None |}.

Definition snapRequest : RaftCmdRequest :=
  {| Header := None; Requests := [CmdType_Snap]; AdminReq := None |}.

(** The same leader after a split was committed at index 12, not yet applied. *)
Definition splittingPeer : Peer Raft :=
  set_lastCommittedSplitIdx 12 (leaderPeer healthy3).

(** The same leader with a pending merge, as the code that applies a
    PrepareMerge leaves it ([PendingMergeState] is written outside peer.go). *)
Definition mergingPeer : Peer Raft :=
  let p := leaderPeer healthy3 in
  {| Meta := Meta p; regionID := regionID p; RaftGroup := RaftGroup p;
     peerStorage := peerStorage p; proposals := proposals p;
     applyProposals := applyProposals p; pendingReads := pendingReads p;
     peerCache := peerCache p; SizeDiffHint := SizeDiffHint p;
     deleteKeysHint := deleteKeysHint p; LastApplyingIdx := LastApplyingIdx p;
     lastUrgentProposalIdx := lastUrgentProposalIdx p;
     lastCommittedSplitIdx := lastCommittedSplitIdx p;
     RaftLogSizeHint := RaftLogSizeHint p;
     PendingRemove := PendingRemove p;
     lastCommittedPrepareMergeIdx := lastCommittedPrepareMergeIdx p;
     PendingMergeState := Some {| ms_MinIndex := 8; ms_Commit := 9 |};
     leaderLease := leaderLease p; leaderChecker := leaderChecker p;
     pendingMessages := pendingMessages p; peerStat := peerStat p |}.

(** The same leader after a split was committed at index 12 and a merge is
    pending. *)
Definition splittingMergingPeer : Peer Raft :=
  let p := leaderPeer healthy3 in
  {| Meta := Meta p; regionID := regionID p; RaftGroup := RaftGroup p;
     peerStorage := peerStorage p; proposals := proposals p;
     applyProposals := applyProposals p; pendingReads := pendingReads p;
     peerCache := peerCache p; SizeDiffHint := SizeDiffHint p;
     deleteKeysHint := deleteKeysHint p; LastApplyingIdx := LastApplyingIdx p;
     lastUrgentProposalIdx := lastUrgentProposalIdx p;
     lastCommittedSplitIdx := 12; RaftLogSizeHint := RaftLogSizeHint p;
     PendingRemove := PendingRemove p;
     lastCommittedPrepareMergeIdx := lastCommittedPrepareMergeIdx p;
     PendingMergeState := Some {| ms_MinIndex := 8; ms_Commit := 9 |};
     leaderLease := leaderLease p; leaderChecker := leaderChecker p;
     pendingMessages := pendingMessages p; peerStat := peerStat p |}.

(** A committed entry of term 5 at index 10 whose context is the
    PREPARE_MERGE flag. *)
Definition prepareMergeEntry : Entry :=
  {| entry_EntryType := EntryType_EntryNormal; entry_Term := 5; entry_Index := 10;
     Data := []; Context := ToBytes ProposalContextPrepareMerge |}.

Definition prepareMergeReady : Ready :=
  {| ready_SoftState := None; CommittedEntries := [prepareMergeEntry];
     ReadStates := []; Messages := [] |}.

(** A read queued at time 95 by callback 1. *)
Definition pendingRead : ReadIndexRequest :=
  NewReadIndexRequest 1 [{| Req := snapRequest; Cb := ClientCb 1 |}] (Some 95).

Definition withPendingRead (readyCnt : Z) (p : Peer Raft) : Peer Raft :=
  set_pendingReads {| idAllocator := 1; reads := [pendingRead]; readyCnt := readyCnt |} p.

Definition okTransport : Transport := λ _, None.

Definition okEngines : Engines :=
  {| WriteToKV := λ _, None; WriteToRaft := λ _, None |}.

Definition brokenKV : Engines :=
  {| WriteToKV := λ _, Some (ErrExternal 5); WriteToRaft := λ _, None |}.

(** A prepare-merge request. *)
Definition prepareMergeLog : RaftLog :=
  {| rlog_request :=
       Some {| Header := None; Requests := [];
               AdminReq := Some {| admin_CmdType := AdminCmdType_PrepareMerge;
                                   ChangePeer := None; TransferLeader := None;
                                   PrepareMerge := Some {| MinIndex := 0 |} |} |};
     rlog_marshal := λ _, [] |}.

Definition putLog : RaftLog :=
  {| rlog_request := Some {| Header := None; Requests := [CmdType_Put];
                             AdminReq := None |};
     rlog_marshal := λ _, [x01; x02] |}.

(** Modelled from the spec: [RemoteLease] is missing; section 4.1 has it as
    [{term, bound}] seen by foreign readers.  Here: the bound, or nil. *)
Definition remoteInspect (lease : option Time) (ts : Time) : Result LeaseState :=
  match lease with
  | None => Panic "nil pointer dereference"
  | Some b => Ok (if ts <? b then LeaseStateValid else LeaseStateExpired)
  end.

Definition checker (appliedTerm : Z) : @leaderChecker.t (option Time) :=
  {| leaderChecker.peerID := 1; leaderChecker.invalid := false;
     leaderChecker.term := 5; leaderChecker.appliedIndexTerm := appliedTerm;
     leaderChecker.leaderLease := Some 1000; leaderChecker.region := region1 |}.

Definition readContext : leaderChecker.Context :=
  {| leaderChecker.RegionId := 7;
     leaderChecker.ctx_RegionEpoch := Some {| ConfVer := 9; Version := 1 |};
     leaderChecker.ctx_Peer := Some self;
     leaderChecker.ctx_Term := 5;
     leaderChecker.ctx_SyncLog := false |}.

(** The same request without a region epoch. *)
Definition readContextNoEpoch : leaderChecker.Context :=
  {| leaderChecker.RegionId := 7;
     leaderChecker.ctx_RegionEpoch := None;
     leaderChecker.ctx_Peer := Some self;
     leaderChecker.ctx_Term := 5;
     leaderChecker.ctx_SyncLog := false |}.

Definition neverAnswers : leaderChecker.Router := λ _, inr None.

End Examples.

(** A pending read all of whose commands are Snap commands. *)
Definition snapOnly (read : ReadIndexRequest) : Prop :=
  Forall (λ reqCb, Forall (λ r, r = CmdType_Snap) (Requests (Req reqCb))) (cmds read).

(** Every completed run of [m] relates the peer before to the peer after. *)
Definition preserves {R A} (I : Peer R → Peer R → Prop) (m : M R A) : Prop :=
  ∀ w a w', m w = Ok (a, w') → I (peer w) (peer w').

(** The two indices are as before, and a lease that was not suspect is not
    suspect. *)
Definition nothingRecorded {R} (p p' : Peer R) : Prop :=
  lastCommittedSplitIdx p' = lastCommittedSplitIdx p
  ∧ lastCommittedPrepareMergeIdx p' = lastCommittedPrepareMergeIdx p
  ∧ ((∀ ts, Lease.Inspect (leaderLease p) ts ≠ LeaseStateSuspect) →
     ∀ ts, Lease.Inspect (leaderLease p') ts ≠ LeaseStateSuspect).

(** ** The rest of the controller

    The methods of peer.go that dispatch a request ([Propose] and the two
    proposals it can make besides [ProposeNormal]), that keep the liveness
    bookkeeping of the peers ([Step], [CheckPeers], [CollectDownPeers],
    [CollectPendingPeers], [AnyNewPeerCatchUp], [CheckStaleState]) and that
    retire the peer ([MaybeDestroy], [takeApplyProposals]). *)

(** What these methods use of the consensus library beyond [RaftLib]. *)
Class RaftNode (R : Type) := {
  Raft_Lead : R → Z;
  Raft_IsLearner : R → bool;
  Raft_Prs : R → gmap Z Progress;
  Raft_LearnerPrs : R → gmap Z Progress;
  RawNode_Step : R → Message → R * option Error;
  RawNode_Campaign : R → R * option Error;
  RawNode_TransferLeader : R → Z → R;
  RawNode_ProposeConfChange : R → list byte → ConfChangeType * Z * list byte → R * option Error
}.

(** Code outside peer.go that these methods call, and a constant they use:
    taken as parameters. *)
Class MoreDeps := {
  (** the constant [InvalidID] *)
  InvalidID : Z;
  (** [uint64(d.Seconds())] on a [time.Duration] *)
  Seconds_uint64 : Duration → Z;
  (** [PeerStorage.LastIndex()]: the index, and the error that is only logged *)
  Store_LastIndex : PeerStorage → Z * option Error;
  (** [PeerStorage.CancelApplyingSnap()] *)
  CancelApplyingSnap : PeerStorage → bool * PeerStorage;
  (** [req.Marshal()] of protobuf *)
  Request_Marshal : RaftCmdRequest → Error + list byte
}.

(** The fields of [Config] these methods read. *)
Record LivenessConfig := {
  LeaderTransferMaxLogLag : Z;
  MaxLeaderMissingDuration : Duration;
  AbnormalLeaderMissingDuration : Duration
}.

(** *** Urgent requests and the transfer-leader answer (peer.go, lines
    1871-1902) *)

Definition IsUrgentRequest (rlog : RaftLog) : bool :=
  match GetAdminRequest (GetRaftCmdRequest rlog) with
  | None => false
  | Some adminRequest =>
      match admin_CmdType adminRequest with
      | AdminCmdType_Split | AdminCmdType_BatchSplit | AdminCmdType_ChangePeer
      | AdminCmdType_ComputeHash | AdminCmdType_VerifyHash
      | AdminCmdType_PrepareMerge | AdminCmdType_CommitMerge
      | AdminCmdType_RollbackMerge => true
      | _ => false
      end
  end.

Definition makeTransferLeaderResponse : RaftCmdResponse :=
  {| resp_Error := None; resp_CurrentTerm := 0; Responses := [];
     resp_TransferLeader := true |}.

(** *** RecentAddedPeer (peer.go, lines 218-248) *)

Record RecentAddedPeer := {
  RejectDurationAsSecs : Z;
  rap_ID : Z;
  AddedTime : Time
}.

Module RecentAddedPeer.

Definition New {R} (rejectDurationAsSecs : Z) : M R RecentAddedPeer :=
  now ← Now;
  mret {| RejectDurationAsSecs := rejectDurationAsSecs; rap_ID := 0;
          AddedTime := now |}.

Definition Update (r : RecentAddedPeer) (id : Z) (now : Time) : RecentAddedPeer :=
  {| RejectDurationAsSecs := RejectDurationAsSecs r; rap_ID := id;
     AddedTime := now |}.

Definition Contains {R} `{MoreDeps} (r : RecentAddedPeer) (id : Z) : M R bool :=
  if rap_ID r =? id then
    now ← Now;
    let elapsedSecs := Seconds_uint64 (now - AddedTime r) in
    mret (elapsedSecs <? RejectDurationAsSecs r)
  else mret false.

End RecentAddedPeer.

(** *** The liveness bookkeeping of the peer

    [PeerHeartbeats], [PeersStartPendingTime] and [leaderMissingTime] are the
    fields of [Peer] (peer.go, lines 278-283, 315) that the record [Peer]
    above leaves out; the methods that use them take them and give them
    back. *)
Record PeerClocks := {
  PeerHeartbeats : gmap Z Time;
  PeersStartPendingTime : gmap Z Time;
  leaderMissingTime : option Time
}.

Definition set_PeerHeartbeats (v : gmap Z Time) (c : PeerClocks) : PeerClocks :=
  {| PeerHeartbeats := v; PeersStartPendingTime := PeersStartPendingTime c;
     leaderMissingTime := leaderMissingTime c |}.

Definition set_PeersStartPendingTime (v : gmap Z Time) (c : PeerClocks) : PeerClocks :=
  {| PeerHeartbeats := PeerHeartbeats c; PeersStartPendingTime := v;
     leaderMissingTime := leaderMissingTime c |}.

Definition set_leaderMissingTime (v : option Time) (c : PeerClocks) : PeerClocks :=
  {| PeerHeartbeats := PeerHeartbeats c;
     PeersStartPendingTime := PeersStartPendingTime c;
     leaderMissingTime := v |}.

Definition set_peerStorage {R} (v : PeerStorage) (p : Peer R) : Peer R :=
  {| Meta := Meta p; regionID := regionID p; RaftGroup := RaftGroup p;
     peerStorage := v; proposals := proposals p;
     applyProposals := applyProposals p; pendingReads := pendingReads p;
     peerCache := peerCache p; SizeDiffHint := SizeDiffHint p;
     deleteKeysHint := deleteKeysHint p; LastApplyingIdx := LastApplyingIdx p;
     lastUrgentProposalIdx := lastUrgentProposalIdx p;
     lastCommittedSplitIdx := lastCommittedSplitIdx p;
     RaftLogSizeHint := RaftLogSizeHint p; PendingRemove := PendingRemove p;
     lastCommittedPrepareMergeIdx := lastCommittedPrepareMergeIdx p;
     PendingMergeState := PendingMergeState p; leaderLease := leaderLease p;
     leaderChecker := leaderChecker p; pendingMessages := pendingMessages p;
     peerStat := peerStat p |}.

Definition set_PendingRemove {R} (v : bool) (p : Peer R) : Peer R :=
  {| Meta := Meta p; regionID := regionID p; RaftGroup := RaftGroup p;
     peerStorage := peerStorage p; proposals := proposals p;
     applyProposals := applyProposals p; pendingReads := pendingReads p;
     peerCache := peerCache p; SizeDiffHint := SizeDiffHint p;
     deleteKeysHint := deleteKeysHint p; LastApplyingIdx := LastApplyingIdx p;
     lastUrgentProposalIdx := lastUrgentProposalIdx p;
     lastCommittedSplitIdx := lastCommittedSplitIdx p;
     RaftLogSizeHint := RaftLogSizeHint p; PendingRemove := v;
     lastCommittedPrepareMergeIdx := lastCommittedPrepareMergeIdx p;
     PendingMergeState := PendingMergeState p; leaderLease := leaderLease p;
     leaderChecker := leaderChecker p; pendingMessages := pendingMessages p;
     peerStat := peerStat p |}.

Inductive StaleState :=
| StaleStateValid
| StaleStateToValidate
| StaleStateLeaderMissing.

#[export] Instance StaleState_eq_dec : EqDecision StaleState.
Proof. solve_decision. Defined.
#[export] Instance ProgressStateType_eq_dec : EqDecision ProgressStateType.
Proof. solve_decision. Defined.

Record PeerStats := { stats_Peer : PeerMeta; DownSeconds : Z }.

Record DestroyPeerJob := {
  Initialized : bool;
  AsyncRemove : bool;
  job_RegionID : Z;
  job_Peer : PeerMeta
}.

Section Liveness.
Context {R : Type} {raftLib : RaftLib R} {raftNode : RaftNode R}
        {deps : Deps} {moreDeps : MoreDeps}.

Definition LeaderID (p : Peer R) : Z := Raft_Lead (RaftGroup p).

Definition removePeerCache (peerID : Z) (p : Peer R) : Peer R :=
  set_peerCache (delete peerID (peerCache p)) p.

(** *** MaybeDestroy (peer.go, lines 433-460) *)

Definition MaybeDestroy : M R (option DestroyPeerJob) :=
  p ← getPeer;
  if PendingRemove p then mret None else
  let initialized := isInitialized (peerStorage p) in
  asyncRemove ←
    (if IsApplyingSnapshot p then
       let '(cancelled, ps) := CancelApplyingSnap (Store p) in
       _ ← modifyPeer (set_peerStorage ps);
       if negb cancelled then mret None else mret (Some false)
     else mret (Some initialized));
  match asyncRemove with
  | None => mret None
  | Some asyncRemove =>
      _ ← modifyPeer (λ p,
            set_leaderChecker {| lc_invalid := true;
                                 lc_term := lc_term (leaderChecker p);
                                 lc_appliedIndexTerm :=
                                   lc_appliedIndexTerm (leaderChecker p) |}
              (set_PendingRemove true p));
      p ← getPeer;
      mret (Some {| Initialized := initialized; AsyncRemove := asyncRemove;
                    job_RegionID := regionID p; job_Peer := Meta p |})
  end.

(** *** Step (peer.go, lines 606-617) *)

Definition Step (m : option Message) (c : PeerClocks)
  : M R (option Error * PeerClocks) :=
  p ← getPeer;
  let from := from_option From 0 m in
  c ← (if IsLeader p && negb (from =? InvalidID) then
         now ← Now;
         mret (set_leaderMissingTime None
                 (set_PeerHeartbeats (<[from := now]> (PeerHeartbeats c)) c))
       else if from =? LeaderID p then mret (set_leaderMissingTime None c)
       else mret c);
  msg ← liftR (deref m);
  let '(raftGroup, err) := RawNode_Step (RaftGroup p) msg in
  _ ← modifyPeer (set_RaftGroup raftGroup);
  mret (err, c).

(** *** CheckPeers (peer.go, lines 619-638) *)

Fixpoint CheckPeers_loop (peers : list PeerMeta) (heartbeats : gmap Z Time)
  : M R (gmap Z Time) :=
  match peers with
  | [] => mret heartbeats
  | peer :: rest =>
      match heartbeats !! Id peer with
      | Some _ => CheckPeers_loop rest heartbeats
      | None =>
          now ← Now;
          CheckPeers_loop rest (<[Id peer := now]> heartbeats)
      end
  end.

Definition CheckPeers (c : PeerClocks) : M R PeerClocks :=
  p ← getPeer;
  if negb (IsLeader p) then
    if (0 <? size (PeerHeartbeats c))%nat then mret (set_PeerHeartbeats ∅ c)
    else mret c
  else if (size (PeerHeartbeats c) =? length (Peers (PeerRegion p)))%nat then mret c
  else
    heartbeats ← CheckPeers_loop (Peers (PeerRegion p)) (PeerHeartbeats c);
    mret (set_PeerHeartbeats heartbeats c).

(** *** CollectDownPeers (peer.go, lines 640-659) *)

Fixpoint CollectDownPeers_loop (self : Z) (heartbeats : gmap Z Time)
    (maxDuration : Duration) (peers : list PeerMeta) (downPeers : list PeerStats)
  : M R (list PeerStats) :=
  match peers with
  | [] => mret downPeers
  | peer :: rest =>
      if Id peer =? self
      then CollectDownPeers_loop self heartbeats maxDuration rest downPeers
      else
        match heartbeats !! Id peer with
        | Some hb =>
            now ← Now;
            let elapsed := now - hb in
            if maxDuration <? elapsed then
              let stats := {| stats_Peer := peer;
                              DownSeconds := Seconds_uint64 elapsed |} in
              CollectDownPeers_loop self heartbeats maxDuration rest
                (downPeers ++ [stats])
            else CollectDownPeers_loop self heartbeats maxDuration rest downPeers
        | None => CollectDownPeers_loop self heartbeats maxDuration rest downPeers
        end
  end.

Definition CollectDownPeers (maxDuration : Duration) (c : PeerClocks)
  : M R (list PeerStats) :=
  p ← getPeer;
  CollectDownPeers_loop (Id (Meta p)) (PeerHeartbeats c) maxDuration
    (Peers (PeerRegion p)) [].

(** *** CollectPendingPeers (peer.go, lines 661-684)

    Go leaves the order of a [range] over a map open: the order in which
    [status.Progress] is visited is the argument [visit]. *)

Fixpoint CollectPendingPeers_loop (self truncatedIdx : Z)
    (visit : list (Z * Progress)) (startPending : gmap Z Time)
    (pendingPeers : list PeerMeta) : M R (list PeerMeta * gmap Z Time) :=
  match visit with
  | [] => mret (pendingPeers, startPending)
  | (id, progress) :: rest =>
      if id =? self
      then CollectPendingPeers_loop self truncatedIdx rest startPending pendingPeers
      else if Match progress <? truncatedIdx then
        peer ← getPeerFromCache id;
        match peer with
        | Some peer =>
            match startPending !! id with
            | Some _ =>
                CollectPendingPeers_loop self truncatedIdx rest startPending
                  (pendingPeers ++ [peer])
            | None =>
                now ← Now;
                CollectPendingPeers_loop self truncatedIdx rest
                  (<[id := now]> startPending) (pendingPeers ++ [peer])
            end
        | None =>
            CollectPendingPeers_loop self truncatedIdx rest startPending pendingPeers
        end
      else CollectPendingPeers_loop self truncatedIdx rest startPending pendingPeers
  end.

Definition CollectPendingPeers (visit : list (Z * Progress)) (c : PeerClocks)
  : M R (list PeerMeta * PeerClocks) :=
  p ← getPeer;
  let truncatedIdx := truncatedIndex (Store p) in
  '(pendingPeers, startPending) ←
    CollectPendingPeers_loop (Id (Meta p)) truncatedIdx visit
      (PeersStartPendingTime c) [];
  mret (pendingPeers, set_PeersStartPendingTime startPending c).

(** *** AnyNewPeerCatchUp (peer.go, lines 686-718) *)

Definition clearPeersStartPendingTime (c : PeerClocks) : PeerClocks :=
  set_PeersStartPendingTime ∅ c.

Definition AnyNewPeerCatchUp (peerID : Z) (c : PeerClocks)
  : M R (bool * PeerClocks) :=
  p ← getPeer;
  if (size (PeersStartPendingTime c) =? 0)%nat then mret (false, c)
  else if negb (IsLeader p) then mret (false, clearPeersStartPendingTime c)
  else
    match PeersStartPendingTime c !! peerID with
    | Some startPendingTime =>
        let truncatedIdx := truncatedIndex (Store p) in
        let progress :=
          match Raft_Prs (RaftGroup p) !! peerID with
          | Some progress => Some progress
          | None => Raft_LearnerPrs (RaftGroup p) !! peerID
          end in
        match progress with
        | Some progress =>
            if truncatedIdx <=? Match progress then
              now ← Now;
              mret (true,
                    set_PeersStartPendingTime
                      (delete peerID (PeersStartPendingTime c)) c)
            else mret (false, c)
        | None => mret (false, c)
        end
    | None => mret (false, c)
    end.

(** *** CheckStaleState (peer.go, lines 720-756) *)

Definition CheckStaleState (cfg : LivenessConfig) (c : PeerClocks)
  : M R (StaleState * PeerClocks) :=
  p ← getPeer;
  if IsLeader p then mret (StaleStateValid, set_leaderMissingTime None c)
  else
    let naivePeer :=
      negb (isInitialized (peerStorage p)) || Raft_IsLearner (RaftGroup p) in
    match leaderMissingTime c with
    | None =>
        now ← Now;
        mret (StaleStateValid, set_leaderMissingTime (Some now) c)
    | Some missingSince =>
        now ← Now;
        let elapsed := now - missingSince in
        if MaxLeaderMissingDuration cfg <=? elapsed then
          now ← Now;
          mret (StaleStateToValidate, set_leaderMissingTime (Some now) c)
        else if (AbnormalLeaderMissingDuration cfg <=? elapsed) && negb naivePeer
        then mret (StaleStateLeaderMissing, c)
        else mret (StaleStateValid, c)
    end.

(** *** takeApplyProposals (peer.go, lines 814-821)

    The result is what [newRegionProposal] is given: the peer id, the region
    id and the proposals. *)

Definition takeApplyProposals : M R (option (Z * Z * list proposal)) :=
  p ← getPeer;
  if (length (applyProposals p) =? 0)%nat then mret None
  else
    let props := applyProposals p in
    _ ← modifyPeer (set_applyProposals []);
    mret (Some (PeerID p, regionID p, props)).

(** *** MaybeCampaign (peer.go, lines 951-964) *)

Definition MaybeCampaign (parentIsLeader : bool) : M R bool :=
  p ← getPeer;
  if (length (Peers (PeerRegion p)) <=? 1)%nat || negb parentIsLeader
  then mret false
  else
    let '(raftGroup, _) := RawNode_Campaign (RaftGroup p) in
    _ ← modifyPeer (set_RaftGroup raftGroup);
    mret true.

(** *** PostSplit (peer.go, lines 1227-1231) *)

Definition PostSplit (p : Peer R) : Peer R :=
  {| Meta := Meta p; regionID := regionID p; RaftGroup := RaftGroup p;
     peerStorage := peerStorage p; proposals := proposals p;
     applyProposals := applyProposals p; pendingReads := pendingReads p;
     peerCache := peerCache p; SizeDiffHint := 0; deleteKeysHint := 0;
     LastApplyingIdx := LastApplyingIdx p;
     lastUrgentProposalIdx := lastUrgentProposalIdx p;
     lastCommittedSplitIdx := lastCommittedSplitIdx p;
     RaftLogSizeHint := RaftLogSizeHint p; PendingRemove := PendingRemove p;
     lastCommittedPrepareMergeIdx := lastCommittedPrepareMergeIdx p;
     PendingMergeState := PendingMergeState p; leaderLease := leaderLease p;
     leaderChecker := leaderChecker p; pendingMessages := pendingMessages p;
     peerStat := peerStat p |}.

(** *** Transferring the leader (peer.go, lines 1396-1425, 1636-1655)

    [RecentAddedPeer] is a field of [Peer] that the record leaves out; it is
    an argument of the methods that read it. *)

Definition transferLeader (peer : option PeerMeta) : M R unit :=
  modifyPeer (λ p,
    set_RaftGroup (RawNode_TransferLeader (RaftGroup p) (from_option Id 0 peer)) p).

Definition readyToTransferLeader (cfg : LivenessConfig) (recent : RecentAddedPeer)
    (peer : option PeerMeta) : M R bool :=
  p ← getPeer;
  let peerID := from_option Id 0 peer in
  let progress := Status_Progress (RaftGroup p) in
  match progress !! peerID with
  | None => mret false
  | Some target =>
      if map_fold (λ _ pr found,
                     found || bool_decide (pr_State pr = ProgressStateSnapshot))
           false progress
      then mret false
      else
        recentlyAdded ← RecentAddedPeer.Contains recent peerID;
        if (recentlyAdded : bool) then mret false
        else
          let '(lastIndex, _) := Store_LastIndex (Store p) in
          mret (lastIndex <=? wrap64 (Match target + LeaderTransferMaxLogLag cfg))
  end.

Definition ProposeTransferLeader (cfg : LivenessConfig) (recent : RecentAddedPeer)
    (req : RaftCmdRequest) (cb : Callback) : M R bool :=
  transferLeaderCmd ← liftR (deref (getTransferLeaderCmd req));
  let peer := tl_Peer transferLeaderCmd in
  ready ← readyToTransferLeader cfg recent peer;
  transferred ← (if (ready : bool) then _ ← transferLeader peer; mret true
                 else mret false);
  _ ← Done cb makeTransferLeaderResponse;
  mret transferred.

(** *** ProposeConfChange (peer.go, lines 1657-1701)

    The message of the second refusal starts with the tag of the peer in the
    source; the tag is left out of [Peer] and of the message. *)

Definition ProposeConfChange (cfg : Config) (req : RaftCmdRequest)
  : M R (Z * option Error) :=
  p ← getPeer;
  if bool_decide (is_Some (PendingMergeState p))
  then mret (0, Some (ErrMsg "peer in merging mode, can't do proposal"))
  else if AppliedIndex (Store p) <? Raft_PendingConfIndex (RaftGroup p)
  then mret (0, Some (ErrMsg "there is a pending conf change, try later"))
  else
    err ← liftR (checkConfChange p cfg req);
    match err with
    | Some err => mret (0, Some err)
    | None =>
        match Request_Marshal req with
        | inl err => mret (0, Some err)
        | inr data =>
            changePeer ← liftR (deref (GetChangePeerCmd req));
            changed ← liftR (deref (cp_Peer changePeer));
            let cc := (ChangeType changePeer, Id changed, data) in
            let proposeIndex := nextProposalIndex p in
            let '(raftGroup, err) :=
              RawNode_ProposeConfChange (RaftGroup p)
                (ToBytes ProposalContextSyncLog) cc in
            _ ← modifyPeer (set_RaftGroup raftGroup);
            match err with
            | Some err => mret (0, Some err)
            | None =>
                p ← getPeer;
                if nextProposalIndex p =? proposeIndex
                then mret (0, Some (ErrNotLeader (regionID p)))
                else mret (proposeIndex, None)
            end
        end
    end.

(** *** Propose (peer.go, lines 1233-1286) *)

(** The end of [Propose], after [ProposeNormal] or [ProposeConfChange]. *)
Definition Propose_finish (isUrgent isConfChange : bool) (cb : Callback)
    (errResp : RaftCmdResponse) (r : Z * option Error) : M R bool :=
  let '(idx, err) := r in
  match err with
  | Some err => _ ← Done cb (BindRespError errResp err); mret false
  | None =>
      _ ← when_ isUrgent
            (modifyPeer (λ p,
               set_RaftGroup (RawNode_SkipBcastCommit (RaftGroup p) false)
                 (set_lastUrgentProposalIdx idx p)));
      p ← getPeer;
      let meta := {| pm_Index := idx; pm_Term := Term p; RenewLeaseTime := None |} in
      _ ← PostPropose meta isConfChange cb;
      mret true
  end.

Definition Propose (cfg : Config) (lcfg : LivenessConfig) (recent : RecentAddedPeer)
    (cb : Callback) (rlog : RaftLog) (errResp : RaftCmdResponse) : M R bool :=
  p ← getPeer;
  if PendingRemove p then mret false else
  let isUrgent := IsUrgentRequest rlog in
  '(policy, err) ← inspect rlog;
  match err with
  | Some err => _ ← Done cb (BindRespError errResp err); mret false
  | None =>
      let req := GetRaftCmdRequest rlog in
      match policy with
      | RequestPolicyReadLocal =>
          req ← liftR (deref req);
          _ ← readLocal req cb;
          mret false
      | RequestPolicyReadIndex =>
          req ← liftR (deref req);
          readIndex cfg req errResp cb
      | RequestPolicyProposeNormal =>
          r ← ProposeNormal cfg rlog;
          Propose_finish isUrgent false cb errResp r
      | RequestPolicyProposeTransferLeader =>
          req ← liftR (deref req);
          ProposeTransferLeader lcfg recent req cb
      | RequestPolicyProposeConfChange =>
          req ← liftR (deref req);
          r ← ProposeConfChange cfg req;
          Propose_finish isUrgent true cb errResp r
      | RequestPolicyInvalid =>
          Propose_finish isUrgent false cb errResp (0, None)
      end
  end.
End Liveness.

(** ** File helpers (package util)

    [os.Stat] and [os.Remove] are the operating system: the file system is a
    state [FS] with these two operations. *)

Record FileInfo := { fi_Size : Z; fi_IsDir : bool }.

Inductive OsError :=
| ErrNotExist
| ErrOther (code : Z).

Class FileSystem (FS : Type) := {
  os_Stat : FS → string → OsError + FileInfo;
  os_Remove : FS → string → FS * option OsError
}.

Definition os_IsNotExist (err : option OsError) : bool :=
  match err with
  | Some ErrNotExist => true
  | _ => false
  end.

Section Util.
Context {FS : Type} {fileSystem : FileSystem FS}.

Definition GetFileSize (fs : FS) (path : string) : Z * option OsError :=
  match os_Stat fs path with
  | inl err => (0, Some err)
  | inr fi => (wrap64 (fi_Size fi), None)
  end.

Definition FileExists (fs : FS) (path : string) : bool :=
  match os_Stat fs path with
  | inl _ => false
  | inr fi => negb (fi_IsDir fi)
  end.

Definition DirExists (fs : FS) (path : string) : bool :=
  match os_Stat fs path with
  | inl _ => false
  | inr fi => fi_IsDir fi
  end.

Definition DeleteFileIfExists (fs : FS) (path : string)
  : FS * (bool * option OsError) :=
  let '(fs', err) := os_Remove fs path in
  if os_IsNotExist err then (fs', (false, None))
  else
    match err with
    | Some err => (fs', (false, Some err))
    | None => (fs', (true, None))
    end.
End Util.

(** ** More vocabulary of the properties *)

(** The three kinds of command [Inspect] tells apart. *)
Definition isReadCmd (c : CmdType) : bool :=
  match c with CmdType_Get | CmdType_Snap => true | _ => false end.

Definition isWriteCmd (c : CmdType) : bool :=
  match c with
  | CmdType_Delete | CmdType_Put | CmdType_DeleteRange | CmdType_IngestSST => true
  | _ => false
  end.

Definition isCorruptCmd (c : CmdType) : bool :=
  match c with CmdType_Prewrite | CmdType_Invalid => true | _ => false end.

(** A proposal that [findProposeTime] looks for. *)
Definition proposedAt (index term : Z) (meta : ProposalMeta) : Prop :=
  pm_Index meta = index ∧ pm_Term meta = term.

(** The admin command type of a request, if it is an admin request. *)
Definition adminCmdType (req : RaftCmdRequest) : option AdminCmdType :=
  admin_CmdType <$> AdminReq req.

Definition isSplitCmd (t : option AdminCmdType) : bool :=
  match t with
  | Some AdminCmdType_Split | Some AdminCmdType_BatchSplit => true
  | _ => false
  end.

(** The bytes of data in a run of log entries. *)
Definition dataSize (ents : list Entry) : Z :=
  foldr (λ entry size, Z.of_nat (length (Data entry)) + size) 0 ents.

(** An entry that may lie in the log gap of a merge: no conf change, and no
    admin command other than TransferLeader, ComputeHash, VerifyHash and
    InvalidAdmin. *)
Definition mergeableEntry `{Deps} (entry : Entry) : Prop :=
  entry_EntryType entry ≠ EntryType_EntryConfChange
  ∧ (Data entry = []
     ∨ ∃ cmd, Unmarshal (Data entry) = Some cmd
              ∧ (AdminReq cmd = None
                 ∨ ∃ a, AdminReq cmd = Some a
                        ∧ (admin_CmdType a = AdminCmdType_TransferLeader
                           ∨ admin_CmdType a = AdminCmdType_ComputeHash
                           ∨ admin_CmdType a = AdminCmdType_VerifyHash
                           ∨ admin_CmdType a = AdminCmdType_InvalidAdmin))).

(** The stale-command answers owed to the commands of some reads. *)
Definition staleNotices (term : Z) (rs : list ReadIndexRequest) : list Event :=
  rs ≫= λ read, (λ r, EvDone (Cb r) (ErrRespStaleCommand term)) <$> cmds read.

(** The messages given to the transport, as events. *)
Definition transportSends (sent : list RaftMessage) : list Event :=
  EvTransportSend <$> sent.

(** Every completed run of [m] relates the world before to the world after. *)
Definition preservesW {R A} (J : World R → World R → Prop) (m : M R A) : Prop :=
  ∀ w a w', m w = Ok (a, w') → J w w'.

(** An answer to a callback. *)
Definition isAnswer (e : Event) : Prop := ∃ cb resp, e = EvDone cb resp.

(** The run answered callbacks and did nothing else to the collaborators. *)
Definition onlyAnswers {R} (w w' : World R) : Prop :=
  ∃ es, trace w' = trace w ++ es ∧ Forall isAnswer es.

(** What is scheduled for apply is as it was: the index, the size hint and
    the region id of the peer, and nothing but answers was emitted. *)
Definition schedulesNothing {R} (w w' : World R) : Prop :=
  LastApplyingIdx (peer w') = LastApplyingIdx (peer w)
  ∧ RaftLogSizeHint (peer w') = RaftLogSizeHint (peer w)
  ∧ regionID (peer w') = regionID (peer w)
  ∧ onlyAnswers w w'.

(** As [schedulesNothing], and nothing at all was emitted. *)
Definition silentSchedule {R} (w w' : World R) : Prop :=
  LastApplyingIdx (peer w') = LastApplyingIdx (peer w)
  ∧ RaftLogSizeHint (peer w') = RaftLogSizeHint (peer w)
  ∧ regionID (peer w') = regionID (peer w)
  ∧ trace w' = trace w.

#[export] Instance Callback_eq_dec : EqDecision Callback.
Proof. solve_decision. Defined.

(** How many elements of a list pass a test. *)
Definition countIf {A} (f : A → bool) (l : list A) : nat := length (List.filter f l).

Definition isAnswerTo (cb : Callback) (e : Event) : bool :=
  match e with
  | EvDone cb' _ => bool_decide (cb' = cb)
  | _ => false
  end.

(** How often a callback has been disposed of: answered, queued with the
    proposals for the apply worker, or queued with a pending read. *)
Definition disposals {R} (cb : Callback) (w : World R) : nat :=
  (countIf (isAnswerTo cb) (trace w)
   + countIf (λ pr, bool_decide (prop_cb pr = cb)) (applyProposals (peer w))
   + countIf (λ c, bool_decide (Cb c = cb)) (reads (pendingReads (peer w)) ≫= cmds))%nat.

(** The trace and the two queues that hold callbacks are as they were. *)
Definition sameQueues {R} (w w' : World R) : Prop :=
  trace w' = trace w
  ∧ applyProposals (peer w') = applyProposals (peer w)
  ∧ pendingReads (peer w') = pendingReads (peer w)
  ∧ (freshCb w ≤ freshCb w')%nat.

(** No progress is in the snapshot state. *)
Definition noSnapshotInFlight (progress : gmap Z Progress) : Prop :=
  ∀ id pr, progress !! id = Some pr → pr_State pr ≠ ProgressStateSnapshot.

(** The proposals that wait for their entries, the proposals for the apply
    worker and the index of the last urgent proposal are as they were. *)
Definition proposalsKept {R} (w w' : World R) : Prop :=
  proposals (peer w') = proposals (peer w)
  ∧ applyProposals (peer w') = applyProposals (peer w)
  ∧ lastUrgentProposalIdx (peer w') = lastUrgentProposalIdx (peer w).

(** As [proposalsKept], and the consensus node is as it was. *)
Definition nodeKept {R} (w w' : World R) : Prop :=
  RaftGroup (peer w') = RaftGroup (peer w) ∧ proposalsKept w w'.

(** The peer a lookup of [peerID] finds: the cached one, or else the first
    peer of the region with that id. *)
Definition resolvePeer {R} (p : Peer R) (peerID : Z) : option PeerMeta :=
  match peerCache p !! peerID with
  | Some pm => Some pm
  | None =>
      find (λ peer, bool_decide (Id peer = peerID)) (Peers (ps_region (peerStorage p)))
  end.

(** The peer as [PostApply] has it when it decides whether to drain the ready
    reads: the consensus node has been told the applied index unless the
    region was merged, and the storage holds the new apply state and the new
    term of the applied index. *)
Definition afterApply {R} `{RaftLib R} (st : applyState) (term : Z) (merged : bool)
    (p : Peer R) : Peer R :=
  set_peerStorage
    {| ps_region := ps_region (peerStorage p); ps_applyState := st;
       appliedIndexTerm := term;
       ps_initialized := ps_initialized (peerStorage p);
       ps_applyingSnapshot := ps_applyingSnapshot (peerStorage p) |}
    (set_RaftGroup
       (if merged then RaftGroup p
        else RawNode_AdvanceApply (RaftGroup p) (appliedIndex st)) p).

(** What the drain of the ready reads leaves alone in the peer. *)
Definition bookkeepingKept {R} (w w' : World R) : Prop :=
  peerStorage (peer w') = peerStorage (peer w)
  ∧ peerStat (peer w') = peerStat (peer w)
  ∧ SizeDiffHint (peer w') = SizeDiffHint (peer w)
  ∧ deleteKeysHint (peer w') = deleteKeysHint (peer w)
  ∧ leaderChecker (peer w') = leaderChecker (peer w)
  ∧ RaftGroup (peer w') = RaftGroup (peer w)
  ∧ PendingRemove (peer w') = PendingRemove (peer w)
  ∧ LastApplyingIdx (peer w') = LastApplyingIdx (peer w).

(** ** More of the mock consensus node, and states for the examples *)

Module MockNode.
Import Mock Examples.

(** A leader names itself as the leader, any other node the peer 2; a
    message is stepped without a change, and a leader appends the conf change
    that is proposed. *)
#[export] Instance RaftNode_Raft : RaftNode Raft := {|
  Raft_Lead := λ r, if bool_decide (m_state r = StateLeader) then 1 else 2;
  Raft_IsLearner := λ _, false;
  Raft_Prs := m_progress;
  Raft_LearnerPrs := λ _, ∅;
  RawNode_Step := λ r _, (r, None);
  RawNode_Campaign := λ r, (r, None);
  RawNode_TransferLeader := λ r _, r;
  RawNode_ProposeConfChange := λ r _ _,
    if bool_decide (m_state r = StateLeader)
    then (with_lastIndex (m_lastIndex r + 1) r, None) else (r, None)
|}.

(** Durations are nanoseconds; the storage ends where it has applied. *)
#[export] Instance moreDeps : MoreDeps := {|
  InvalidID := 0;
  Seconds_uint64 := λ d, wrap64 (d `quot` 1000000000);
  Store_LastIndex := λ ps, (AppliedIndex ps, None);
  CancelApplyingSnap := λ ps,
    (true, {| ps_region := ps_region ps; ps_applyState := ps_applyState ps;
              appliedIndexTerm := appliedIndexTerm ps;
              ps_initialized := ps_initialized ps;
              ps_applyingSnapshot := false |});
  Request_Marshal := λ _, inr []
|}.

Definition lcfg : LivenessConfig :=
  {| LeaderTransferMaxLogLag := 10; MaxLeaderMissingDuration := 7200;
     AbnormalLeaderMissingDuration := 600 |}.

(** No peer was added recently. *)
Definition recent : RecentAddedPeer :=
  {| RejectDurationAsSecs := 10; rap_ID := 0; AddedTime := 0 |}.

Definition noClocks : PeerClocks :=
  {| PeerHeartbeats := ∅; PeersStartPendingTime := ∅; leaderMissingTime := None |}.

(** The peer 2 was heard at time 40, the peer 3 at time 90; the peer 3 is
    pending since time 50. *)
Definition clocks : PeerClocks :=
  {| PeerHeartbeats := <[2 := 40]> (<[3 := 90]> ∅);
     PeersStartPendingTime := <[3 := 50]> ∅;
     leaderMissingTime := None |}.

(** The leader is missing since time 20. *)
Definition missingClocks : PeerClocks :=
  {| PeerHeartbeats := ∅; PeersStartPendingTime := ∅;
     leaderMissingTime := Some 20 |}.

(** A follower at term 5, applied up to 9. *)
Definition followerWorld : World Raft :=
  world (peer0 (follower 5 10) (storage 9 5 5) (validLease 1000)) 100.

Definition adminLog (t : AdminCmdType) (changePeer : option ChangePeerRequest)
    (transferLeader : option TransferLeaderRequest) : RaftLog :=
  {| rlog_request :=
       Some {| Header := None; Requests := [];
               AdminReq := Some {| admin_CmdType := t; ChangePeer := changePeer;
                                   TransferLeader := transferLeader;
                                   PrepareMerge := None |} |};
     rlog_marshal := λ _, [] |}.

(** A request to add the peer 4 as a voter. *)
Definition addNodeLog : RaftLog :=
  adminLog AdminCmdType_ChangePeer
    (Some {| ChangeType := ConfChangeType_AddNode;
             cp_Peer := Some (pmOf 4 PeerRole_Voter) |}) None.

(** A request to make the peer 2 the leader. *)
Definition transferLog : RaftLog :=
  adminLog AdminCmdType_TransferLeader None
    (Some {| tl_Peer := Some (pmOf 2 PeerRole_Voter) |}).

Definition requestOf (rlog : RaftLog) : RaftCmdRequest :=
  default emptyRaftCmdRequest (rlog_request rlog).

Definition heartbeat (from to : Z) : Message :=
  {| MsgType := MsgHeartbeat; To := to; From := from |}.

Definition splitLog : RaftLog := adminLog AdminCmdType_Split None None.

(** The mock node with a log: [Entries] gives the entries from the index
    asked for on. *)
Record RaftWithLog := { node : Raft; logEntries : list Entry }.

Definition onNode (f : Raft → Raft) (r : RaftWithLog) : RaftWithLog :=
  {| node := f (node r); logEntries := logEntries r |}.

#[export] Instance RaftLib_RaftWithLog : RaftLib RaftWithLog := {|
  Raft_Term := λ r, Raft_Term (node r);
  Raft_State := λ r, Raft_State (node r);
  Raft_InLease := λ r, Raft_InLease (node r);
  Raft_PendingConfIndex := λ r, Raft_PendingConfIndex (node r);
  Raft_PendingReadCount := λ r, Raft_PendingReadCount (node r);
  Raft_ReadyReadCount := λ r, Raft_ReadyReadCount (node r);
  RaftLog_LastIndex := λ r, RaftLog_LastIndex (node r);
  RaftLog_Entries := λ r lo _,
    inr (List.filter (λ entry, lo <=? entry_Index entry) (logEntries r));
  Status_Progress := λ r, Status_Progress (node r);
  RawNode_HasSnap := λ r, RawNode_HasSnap (node r);
  RawNode_ReadIndex := λ r ctx, onNode (λ n, RawNode_ReadIndex n ctx) r;
  RawNode_Propose := λ r ctx data,
    (onNode (λ n, (RawNode_Propose n ctx data).1) r,
     (RawNode_Propose (node r) ctx data).2);
  RawNode_SkipBcastCommit := λ r b, onNode (λ n, RawNode_SkipBcastCommit n b) r;
  RawNode_Advance := λ r rd, onNode (λ n, RawNode_Advance n rd) r;
  RawNode_AdvanceApply := λ r i, onNode (λ n, RawNode_AdvanceApply n i) r
|}.

Definition withLog (ents : list Entry) (p : Peer Raft) : Peer RaftWithLog :=
  {| Meta := Meta p; regionID := regionID p;
     RaftGroup := {| node := RaftGroup p; logEntries := ents |};
     peerStorage := peerStorage p; proposals := proposals p;
     applyProposals := applyProposals p; pendingReads := pendingReads p;
     peerCache := peerCache p; SizeDiffHint := SizeDiffHint p;
     deleteKeysHint := deleteKeysHint p; LastApplyingIdx := LastApplyingIdx p;
     lastUrgentProposalIdx := lastUrgentProposalIdx p;
     lastCommittedSplitIdx := lastCommittedSplitIdx p;
     RaftLogSizeHint := RaftLogSizeHint p; PendingRemove := PendingRemove p;
     lastCommittedPrepareMergeIdx := lastCommittedPrepareMergeIdx p;
     PendingMergeState := PendingMergeState p; leaderLease := leaderLease p;
     leaderChecker := leaderChecker p; pendingMessages := pendingMessages p;
     peerStat := peerStat p |}.

Definition dataEntry (index : Z) (data : list byte) : Entry :=
  {| entry_EntryType := EntryType_EntryNormal; entry_Term := 5;
     entry_Index := index; Data := data; Context := [] |}.

(** A log whose entries from index 3 on hold 7 bytes, and one where they hold
    8. *)
Definition log7 : list Entry :=
  [dataEntry 2 [x01; x02]; dataEntry 3 [x01; x02; x03];
   dataEntry 4 [x01; x02; x03; x04]].

Definition log8 : list Entry :=
  [dataEntry 2 [x01; x02]; dataEntry 3 [x01; x02; x03; x04];
   dataEntry 4 [x01; x02; x03; x04]].

End MockNode.

(** * Properties *)

(** ** ProposalContext *)

(** C8: encoding a ProposalContext gives one byte and decoding that byte
    gives the context back; the empty context decodes to nil; decoding
    panics exactly on the contexts longer than one byte. *)
Theorem ProposalContext_roundtrip :
  (∀ c : ProposalContext,
      length (ToBytes c) = 1%nat
      ∧ NewProposalContextFromBytes (ToBytes c) = Ok (Some c))
  ∧ NewProposalContextFromBytes [] = Ok None
  ∧ (∀ ctx : list byte,
       isPanic (NewProposalContextFromBytes ctx) = (1 <? length ctx)%nat).
Proof.
  split; [|split].
  - intros c. split; reflexivity.
  - reflexivity.
  - intros [|b1 [|b2 rest]]; reflexivity.
Qed.

(** ** Conf-change safety *)

Section ConfChange.
Context {R : Type} {raftLib : RaftLib R}.

Lemma countHealthyNode_healthyNodes (p : Peer R) (progress : gmap Z Progress) :
  countHealthyNode p progress = healthyNodes (truncatedIndex (Store p)) progress.
Proof.
  unfold countHealthyNode, healthyNodes.
  apply (map_fold_weak_ind
           (λ r m, r = Z.of_nat (size (filter
              (λ kv : Z * Progress, truncatedIndex (Store p) ≤ Match kv.2) m)))).
  - by rewrite map_filter_empty, map_size_empty.
  - intros i x m r Hi ->.
    destruct (Z.leb_spec (truncatedIndex (Store p)) (Match x)) as [Hle|Hlt].
    + rewrite map_filter_insert_True by done.
      rewrite map_size_insert_None; [lia|].
      by rewrite map_lookup_filter_None; left.
    + rewrite map_filter_insert_False by (simpl; lia).
      by rewrite delete_id.
Qed.

(** C3 (amended): [Quorum total] is [total/2 + 1] on [1..7]; a change-peer
    request that names a peer is refused when its role contradicts the change or
    when it removes the checking peer against the configuration, is accepted
    without counting when the group has one node, for [AddLearnerNode], and
    for [RemoveNode] of a learner-role or absent peer, and in every other
    case is accepted exactly when the healthy nodes after the simulated
    change reach the quorum of the post-change size. *)
Theorem checkConfChange_quorum (p : Peer R) (cfg : Config) (cmd : RaftCmdRequest)
    (changeType : ConfChangeType) (pm : PeerMeta) (total : Z) :
  1 ≤ total ≤ 7 →
  GetChangePeerCmd cmd = Some {| ChangeType := changeType; cp_Peer := Some pm |} →
  Quorum total = total / 2 + 1
  ∧ checkConfChange p cfg cmd
    = Ok (if malformedChange changeType pm
          then Some (ErrMsg "invalid conf change request")
          else if removesSelf (PeerID p) cfg changeType pm
          then Some (ErrMsg "ignore remove leader")
          else if acceptedUncounted changeType pm (Status_Progress (RaftGroup p))
                  || quorumHealthyAfter (truncatedIndex (Store p)) changeType (Id pm)
                       (Status_Progress (RaftGroup p))
          then None
          else Some (ErrMsg "unsafe to perform conf change")).
Proof.
  intros Htotal Hcmd. split.
  { unfold Quorum. rewrite Z.quot_div_nonneg by lia. reflexivity. }
  unfold checkConfChange. rewrite Hcmd.
  unfold quorumHealthyAfter, progressAfter, acceptedUncounted, removesSelf,
    malformedChange.
  cbn [GetChangeType GetPeer GetRole mbind option_bind ChangeType cp_Peer
       from_option Result_bind deref].
  rewrite <- !countHealthyNode_healthyNodes.
  destruct changeType; cbn [bool_decide andb orb negb];
    repeat (case_bool_decide; try done; cbn [andb orb negb]);
    repeat (match goal with
            | |- context [if ?b then _ else _] => destruct b eqn:?
            | |- context [match ?o with Some _ => _ | None => _ end] =>
                destruct o eqn:?
            end; cbn [andb orb negb] in *; try done; try congruence).
Qed.
End ConfChange.

(** ** The monad and its loops *)

Section MonadFacts.
Context {R : Type}.

Lemma bind_Ok {A B} (m : M R A) (f : A → M R B) (w w' : World R) (a : A) :
  m w = Ok (a, w') → (m ≫= f) w = f a w'.
Proof. intros Hm. unfold mbind, M_bind. by rewrite Hm. Qed.

Lemma bind_inv {A B} (m : M R A) (f : A → M R B) (w w'' : World R) (b : B) :
  (m ≫= f) w = Ok (b, w'') →
  ∃ a w', m w = Ok (a, w') ∧ f a w' = Ok (b, w'').
Proof.
  unfold mbind, M_bind. destruct (m w) as [[a w']|msg]; [|done]. eauto.
Qed.

Lemma modifyPeer_eq (f : Peer R → Peer R) (w : World R) :
  modifyPeer f w = Ok (tt, withPeer (f (peer w)) w).
Proof. reflexivity. Qed.

Lemma emit_eq (e : Event) (w : World R) : emit e w = Ok (tt, withTrace [e] w).
Proof. reflexivity. Qed.

Lemma withTrace_nil (w : World R) : withTrace [] w = w.
Proof. destruct w. unfold withTrace. simpl. by rewrite app_nil_r. Qed.

Lemma withTrace_app (es1 es2 : list Event) (w : World R) :
  withTrace es2 (withTrace es1 w) = withTrace (es1 ++ es2) w.
Proof. unfold withTrace. simpl. by rewrite app_assoc. Qed.

(** A loop that only emits: its effect is the concatenation of what each
    round emits. *)
Lemma forM_emits {A} (l : list A) (f : A → M R unit) (g : A → list Event) :
  (∀ a w, f a w = Ok (tt, withTrace (g a) w)) →
  ∀ w, forM_ l f w = Ok (tt, withTrace (l ≫= g) w).
Proof.
  intros Hf. induction l as [|a l IH]; intros w.
  - simpl. by rewrite withTrace_nil.
  - cbn [forM_]. erewrite bind_Ok by apply Hf.
    rewrite IH, withTrace_app. reflexivity.
Qed.
End MonadFacts.

(** One step of a computation whose first action is known. *)
Ltac mstep :=
  first [ erewrite bind_Ok by reflexivity
        | erewrite bind_Ok by eassumption ].

(** Running the primitive actions inside a hypothesis or the goal. *)
Ltac mrun_in H :=
  cbv [mbind M_bind mret M_ret Now modifyPeer emit getPeer liftR panic
       NewCallback Done when_] in H.
Ltac mrun :=
  cbv [mbind M_bind mret M_ret Now modifyPeer emit getPeer liftR panic
       NewCallback Done when_].

Lemma bind_singleton_fmap {A B} (g : A → B) (l : list A) :
  l ≫= (λ a, [g a]) = g <$> l.
Proof. induction l as [|a l IH]; [done|]. cbn. by rewrite <- IH. Qed.

(** ** Destroy *)

Section DestroyFacts.
Context {R : Type} {raftLib : RaftLib R} {deps : Deps}.

Lemma notify_reads_removed (regionId : Z) (rs : list ReadIndexRequest) (w : World R) :
  forM_ rs (λ read,
    forM_ (cmds read) (λ r, NotifyReqRegionRemoved regionId (Cb r))) w
  = Ok (tt, withTrace (regionRemovedNotices regionId rs []) w).
Proof.
  unfold regionRemovedNotices. rewrite app_nil_r.
  apply forM_emits. intros read w0.
  rewrite (forM_emits _ _
             (λ r, [EvDone (Cb r) (ErrResp (ErrRegionNotFound regionId))]))
    by (intros; reflexivity).
  by rewrite bind_singleton_fmap.
Qed.

Lemma notify_proposals_removed (regionId : Z) (props : list proposal) (w : World R) :
  forM_ props (λ proposal, NotifyReqRegionRemoved regionId (prop_cb proposal)) w
  = Ok (tt, withTrace (regionRemovedNotices regionId [] props) w).
Proof.
  unfold regionRemovedNotices. cbn [mbind list_bind app].
  rewrite (forM_emits _ _
             (λ pr, [EvDone (prop_cb pr) (ErrResp (ErrRegionNotFound regionId))]))
    by (intros; reflexivity).
  by rewrite bind_singleton_fmap.
Qed.

(** C7 (amended): when clearing the metadata and both durable writes
    succeed, [Destroy] returns nil, answers every command of every pending
    read and then every buffered proposal with RegionNotFound of the region's
    id, after the two writes, and leaves both the pending reads and the
    buffered proposals empty. *)
Theorem Destroy_notifies_all (engine : Engines) (keepData : bool) (w : World R) :
  let p := peer w in
  let regionId := region_Id (PeerRegion p) in
  clearMeta (Store p) = None →
  WriteToKV engine (tombstoneBatch regionId (PendingMergeState p)) = None →
  WriteToRaft engine (raftMetaBatch regionId) = None →
  ∃ w', Destroy engine keepData w = Ok (None, w')
        ∧ trace w' =
            trace w
            ++ [EvWriteKV (tombstoneBatch regionId (PendingMergeState p));
                EvWriteRaft (raftMetaBatch regionId)]
            ++ (if isInitialized (Store p) && negb keepData then [EvClearData] else [])
            ++ regionRemovedNotices regionId (reads (pendingReads p)) (applyProposals p)
        ∧ reads (pendingReads (peer w')) = []
        ∧ applyProposals (peer w') = [].
Proof.
  intros p regionId Hmeta Hkv Hraft.
  unfold Destroy. mstep. fold p. rewrite Hmeta. fold regionId.
  unfold tombstoneBatch in Hkv. unfold raftMetaBatch in Hraft.
  mstep. rewrite Hkv. mstep. rewrite Hraft.
  destruct (isInitialized (Store p) && negb keepData); cbn [when_];
    mstep; erewrite bind_Ok by apply notify_reads_removed;
    mstep; erewrite bind_Ok by apply notify_proposals_removed;
    mstep; (eexists; split; [reflexivity|]); cbn -[regionRemovedNotices];
    (split; [|done]);
    unfold regionRemovedNotices, tombstoneBatch, raftMetaBatch;
    cbn [fmap list_fmap mbind list_bind app]; rewrite !app_nil_r;
    rewrite <- !app_assoc; reflexivity.
Qed.
End DestroyFacts.

(** ** Request inspection *)

Section InspectFacts.
Context {R : Type} {raftLib : RaftLib R} {deps : Deps}.

(** What [inspectLease] of the peer returns and does. *)
Lemma Peer_inspectLease_eq (w : World R) :
  Peer_inspectLease w =
    if negb (Raft_InLease (RaftGroup (peer w))) then Ok (LeaseStateSuspect, w)
    else
      let state := Lease.Inspect (leaderLease (peer w)) (clockAt w (tick w)) in
      Ok (state,
          if bool_decide (state = LeaseStateExpired)
          then withPeer (set_leaderLease (Lease.Expire (leaderLease (peer w))) (peer w))
                 (withTick (S (tick w)) w)
          else withTick (S (tick w)) w).
Proof.
  unfold Peer_inspectLease. mstep.
  destruct (Raft_InLease (RaftGroup (peer w))); cbn [negb]; [|reflexivity].
  mstep. cbn [peer]. cbv zeta.
  destruct (bool_decide _); reflexivity.
Qed.

(** [Inspect] answers ReadLocal only after the three tests on the request
    and the two on the peer. *)
Lemma Inspect_ReadLocal_inv (w w' : World R) (req : RaftCmdRequest)
    (err : option Error) :
  Inspect w req = Ok ((RequestPolicyReadLocal, err), w') →
  err = None
  ∧ AdminReq req = None
  ∧ (∃ hasRead, Inspect_scan (Requests req) false false = ScanDone hasRead false)
  ∧ from_option ReadQuorum false (Header req) = false
  ∧ appliedIndexTerm (Store (peer w)) = Term (peer w)
  ∧ Raft_InLease (RaftGroup (peer w)) = true
  ∧ Lease.Inspect (leaderLease (peer w)) (clockAt w (tick w)) = LeaseStateValid
  ∧ w' = withTick (S (tick w)) w.
Proof.
  unfold Inspect. case_bool_decide as Hadmin.
  { repeat case_bool_decide; intros; simplify_eq. }
  destruct (Inspect_scan _ _ _) as [hasRead hasWrite|e]; [|intros; simplify_eq].
  destruct hasWrite; [intros; simplify_eq|].
  destruct (from_option ReadQuorum false (Header req)) eqn:Hq; [intros; simplify_eq|].
  cbn [hasAppliedToCurrentTerm inspectLease Peer_RequestInspector].
  unfold Peer_hasAppliedToCurrentTerm.
  destruct (Z.eqb_spec (appliedIndexTerm (Store (peer w))) (Term (peer w)))
    as [Hterm|]; cbn [negb]; [|intros; simplify_eq].
  rewrite Peer_inspectLease_eq.
  destruct (Raft_InLease (RaftGroup (peer w))) eqn:Hin; cbn [negb mbind Result_bind].
  2:{ intros; simplify_eq. }
  cbv zeta.
  destruct (Lease.Inspect (leaderLease (peer w)) (clockAt w (tick w))) eqn:Hst;
    cbn [bool_decide]; intros Heq; simplify_eq.
  try rewrite bool_decide_false by done.
  repeat split; try done.
  - by destruct (AdminReq req); [exfalso; apply Hadmin; eauto|].
  - eauto.
Qed.

(** C2 (amended): whenever [Inspect] chooses ReadLocal, the consensus node
    reports being in lease, the leader lease inspected at that moment is
    Valid, and the applied index term equals the current term; the
    inspection leaves the peer as it was.  It does not read
    [lastCommittedSplitIdx]: with any other value of that field, also one
    above the applied index, the same request is answered ReadLocal again. *)
Theorem Inspect_ReadLocal_valid_lease (w w' : World R) (req : RaftCmdRequest)
    (err : option Error) :
  Inspect w req = Ok ((RequestPolicyReadLocal, err), w') →
  Peer_inspectLease w = Ok (LeaseStateValid, w')
  ∧ Raft_InLease (RaftGroup (peer w)) = true
  ∧ Lease.Inspect (leaderLease (peer w)) (clockAt w (tick w)) = LeaseStateValid
  ∧ appliedIndexTerm (Store (peer w)) = Term (peer w)
  ∧ peer w' = peer w
  ∧ ∀ idx,
      Inspect (withPeer (set_lastCommittedSplitIdx idx (peer w)) w) req
      = Ok ((RequestPolicyReadLocal, err),
            withPeer (set_lastCommittedSplitIdx idx (peer w')) w').
Proof.
  intros Hi. apply Inspect_ReadLocal_inv in Hi
    as (-> & Hadmin & (hasRead & Hscan) & Hquorum & Hterm & Hin & Hvalid & ->).
  rewrite Peer_inspectLease_eq, Hin. cbn [negb]. cbv zeta. rewrite Hvalid.
  rewrite bool_decide_false by done.
  split; [done|]. split; [done|]. split; [done|]. split; [done|]. split; [done|].
  intros idx. unfold Inspect.
  rewrite Hadmin, bool_decide_false by (by intros [? ?]).
  rewrite Hscan, Hquorum.
  cbn [hasAppliedToCurrentTerm inspectLease Peer_RequestInspector].
  unfold Peer_hasAppliedToCurrentTerm.
  change (appliedIndexTerm (Store (peer (withPeer (set_lastCommittedSplitIdx idx (peer w)) w))))
    with (appliedIndexTerm (Store (peer w))).
  change (Term (peer (withPeer (set_lastCommittedSplitIdx idx (peer w)) w)))
    with (Term (peer w)).
  rewrite Hterm, Z.eqb_refl. cbn [negb].
  rewrite Peer_inspectLease_eq.
  change (Raft_InLease (RaftGroup (peer (withPeer (set_lastCommittedSplitIdx idx (peer w)) w))))
    with (Raft_InLease (RaftGroup (peer w))).
  rewrite Hin. cbn [negb mbind Result_bind]. cbv zeta.
  change (Lease.Inspect
            (leaderLease (peer (withPeer (set_lastCommittedSplitIdx idx (peer w)) w)))
            (clockAt (withPeer (set_lastCommittedSplitIdx idx (peer w)) w)
               (tick (withPeer (set_lastCommittedSplitIdx idx (peer w)) w))))
    with (Lease.Inspect (leaderLease (peer w)) (clockAt w (tick w))).
  rewrite Hvalid. rewrite bool_decide_false by done. reflexivity.
Qed.

(** A suspect lease keeps every request off the local-read path. *)
Lemma Inspect_suspect_not_local (w w' : World R) (req : RaftCmdRequest)
    (policy : RequestPolicy) (err : option Error) :
  (∀ ts, Lease.Inspect (leaderLease (peer w)) ts = LeaseStateSuspect) →
  Inspect w req = Ok ((policy, err), w') →
  policy ≠ RequestPolicyReadLocal.
Proof.
  intros Hs Hi ->. apply Inspect_ReadLocal_inv in Hi
    as (_ & _ & _ & _ & _ & _ & Hvalid & _).
  by rewrite Hs in Hvalid.
Qed.
End InspectFacts.

(** ** Send *)

Section SendFacts.
Context {R : Type} {raftLib : RaftLib R} {deps : Deps}.

(** Sending one message touches the peer cache and the trace only. *)
Lemma sendRaftMessage_frame (msg : Message) (trans : Transport)
    (w w1 : World R) (e : option Error) :
  sendRaftMessage msg trans w = Ok (e, w1) →
  leaderLease (peer w1) = leaderLease (peer w)
  ∧ tick w1 = tick w ∧ clockAt w1 = clockAt w.
Proof.
  unfold sendRaftMessage, getPeerFromCache, mbind, M_bind, getPeer, liftR,
    modifyPeer, emit, mret, M_ret.
  repeat (case_match; simplify_eq; cbn in *); intros; simplify_eq; done.
Qed.

Lemma Suspect_Suspect (l : Lease.t) (t1 t2 : Time) :
  Lease.Suspect (Lease.Suspect l t1) t2 = Lease.Suspect l t2.
Proof. reflexivity. Qed.

(** What a successful [Send] does to the lease and the clock. *)
Lemma Send_lease (trans : Transport) (msgs : list Message) :
  ∀ (w w' : World R),
    Send trans msgs w = Ok (None, w') →
    clockAt w' = clockAt w
    ∧ (tick w ≤ tick w')%nat
    ∧ (MsgTimeoutNow ∉ MsgType <$> msgs → leaderLease (peer w') = leaderLease (peer w))
    ∧ (MsgTimeoutNow ∈ MsgType <$> msgs →
       ∃ n, (tick w ≤ n < tick w')%nat
            ∧ leaderLease (peer w')
              = Lease.Suspect (leaderLease (peer w)) (clockAt w n)).
Proof.
  induction msgs as [|msg rest IH]; intros w w' Hsend.
  - injection Hsend as <-.
    split; [done|]. split; [done|]. split; [done|].
    intros Hin. cbn in Hin. by apply elem_of_nil in Hin.
  - cbn [Send] in Hsend. apply bind_inv in Hsend as (e & w1 & Hmsg & Hrest).
    apply sendRaftMessage_frame in Hmsg as (Hl1 & Ht1 & Hc1).
    destruct e as [e|]; [cbn in Hrest; simplify_eq|].
    apply bind_inv in Hrest as ([] & w2 & Hty & Hrest).
    apply IH in Hrest as (Hc & Ht & Hno & Hyes).
    destruct (decide (MsgType msg = MsgTimeoutNow)) as [Heq|Hne].
    + rewrite Heq in Hty. mrun_in Hty. injection Hty as <-. cbn in *.
      rewrite Hc1 in *. rewrite Ht1 in *. rewrite Hl1 in *.
      split; [done|]. split; [lia|]. split.
      { intros Hnin. exfalso. apply Hnin. rewrite Heq. left. }
      intros _.
      destruct (decide (MsgTimeoutNow ∈ MsgType <$> rest)) as [Hin|Hnin].
      * destruct (Hyes Hin) as (n & Hn & Hlease). exists n. split; [lia|].
        by rewrite Hlease, Suspect_Suspect.
      * exists (tick w). split; [lia|]. by rewrite (Hno Hnin).
    + assert (w2 = w1) as ->.
      { destruct (MsgType msg); mrun_in Hty; simplify_eq; done. }
      rewrite Hc1 in *. rewrite Ht1 in *. rewrite Hl1 in *.
      split; [done|]. split; [done|]. split.
      * intros Hnin. apply Hno. intros Hin. apply Hnin. cbn. by right.
      * intros Hin. cbn in Hin. apply elem_of_cons in Hin as [Hin|Hin]; [done|].
        by apply Hyes.
Qed.

(** C9: after a successful [Send] of messages among which is a
    MsgTimeoutNow, the leader lease is Suspect with the bound [t + maxLease]
    for a clock reading [t] taken during the call, a renewal for a time before
    [t] leaves it so, it inspects as Suspect at every time, and request
    inspection no longer answers ReadLocal. *)
Theorem Send_TimeoutNow_suspects_lease (trans : Transport) (msgs : list Message)
    (w w' : World R) :
  Send trans msgs w = Ok (None, w') →
  MsgTimeoutNow ∈ MsgType <$> msgs →
  (∃ n, (tick w ≤ n < tick w')%nat
        ∧ Lease.state (leaderLease (peer w'))
          = Lease.BoundSuspect (clockAt w n + Lease.maxLease (leaderLease (peer w)))
        ∧ ∀ ts, ts < clockAt w n →
                Lease.Renew (leaderLease (peer w')) ts = leaderLease (peer w'))
  ∧ (∀ ts, Lease.Inspect (leaderLease (peer w')) ts = LeaseStateSuspect)
  ∧ (∀ req policy err w'',
       Inspect w' req = Ok ((policy, err), w'') → policy ≠ RequestPolicyReadLocal).
Proof.
  intros Hsend Hin.
  destruct (Send_lease _ _ _ _ Hsend) as (_ & _ & _ & Hyes).
  destruct (Hyes Hin) as (n & Hn & Hlease).
  assert (∀ ts, Lease.Inspect (leaderLease (peer w')) ts = LeaseStateSuspect) as Hs.
  { intros ts. by rewrite Hlease. }
  split; [|split; [done|]].
  - exists n. split; [done|]. rewrite Hlease. split; [done|].
    intros ts Hts. unfold Lease.Renew, Lease.Suspect. cbn [Lease.state Lease.maxLease].
    destruct (Z.ltb_spec (ts + Lease.maxLease (leaderLease (peer w)))
                (clockAt w n + Lease.maxLease (leaderLease (peer w)))); [done|lia].
  - intros req policy err w'' Hi. by eapply Inspect_suspect_not_local.
Qed.
End SendFacts.

(** ** The leader checker *)

Section CheckerFacts.
Import leaderChecker.
Context {RemoteLeasePtr : Type}.
Variable Inspect_remote : RemoteLeasePtr → Time → Result LeaseState.

Abbreviation checker := (@leaderChecker.t RemoteLeasePtr).

(** C4 (amended): [IsLeader] rejects, in this order, an invalid checker with
    RegionNotFound, a request of another peer with an error, a request whose
    nonzero term the checker's term exceeds by more than one with
    StaleCommand, a request without a region epoch with an error, and a
    request whose epoch version differs from the region's with EpochNotMatch,
    whatever the conf versions are; it lets the read through without the
    router only when the applied index term is the term and the remote lease
    inspected at the snapshot time is not Expired; and when those checks pass
    but the terms differ or the lease is Expired, it gives one Snap command
    to the router and ends as the callback of that command does. *)
Theorem IsLeader_checks (c : checker) (ctx : Context) (router : Router)
    (clock : nat → Time) (cb : Callback) :
  let run := IsLeader Inspect_remote c ctx router clock cb in
  (invalid c = true → run = rejected (ErrRegionNotFound (RegionId ctx)))
  ∧ (∀ pm, invalid c = false → ctx_Peer ctx = Some pm → Id pm ≠ peerID c →
       ∃ msg, run = rejected (ErrMsg msg))
  ∧ (∀ pm, invalid c = false → ctx_Peer ctx = Some pm → Id pm = peerID c →
       0 ≤ ctx_Term ctx → term c < 2 ^ 64 →
       ctx_Term ctx ≠ 0 → ctx_Term ctx + 1 < term c →
       run = rejected ErrStaleCommand)
  ∧ (∀ pm,
       invalid c = false → ctx_Peer ctx = Some pm → Id pm = peerID c →
       (ctx_Term ctx = 0 ∨ term c ≤ wrap64 (ctx_Term ctx + 1)) →
       ctx_RegionEpoch ctx = None →
       run = rejected (ErrMsg "missing epoch"))
  ∧ (∀ pm ctxEpoch regionEpoch,
       invalid c = false → ctx_Peer ctx = Some pm → Id pm = peerID c →
       (ctx_Term ctx = 0 ∨ term c ≤ wrap64 (ctx_Term ctx + 1)) →
       ctx_RegionEpoch ctx = Some ctxEpoch →
       region_RegionEpoch (region c) = Some regionEpoch →
       (Version ctxEpoch ≠ Version regionEpoch →
        run = rejected (ErrEpochNotMatch (region_Id (region c)) regionEpoch ctxEpoch))
       ∧ (Version ctxEpoch = Version regionEpoch →
          (appliedIndexTerm c ≠ term c →
           run = Ok (routedRun router (snapCommand ctx (clock 1%nat) cb)))
          ∧ (appliedIndexTerm c = term c →
             run = (state ← Inspect_remote (leaderLease c) (clock 0%nat);
                    if bool_decide (state = LeaseStateExpired)
                    then Ok (routedRun router (snapCommand ctx (clock 1%nat) cb))
                    else Ok {| routed := []; outcome := Returned None |}))))
  ∧ (run = Ok {| routed := []; outcome := Returned None |} →
     appliedIndexTerm c = term c
     ∧ ∃ state, Inspect_remote (leaderLease c) (clock 0%nat) = Ok state
                ∧ state ≠ LeaseStateExpired).
Proof.
  cbv zeta. unfold IsLeader, isExpired, rejected, routedRun, snapCommand.
  split; [|split; [|split; [|split; [|split]]]].
  - intros ->. reflexivity.
  - intros pm -> -> Hne. cbn [deref mbind Result_bind].
    destruct (Z.eqb_spec (Id pm) (peerID c)); [done|]. cbn. eauto.
  - intros pm -> -> Heq H0 Hlt Hnz Hgt. cbn [deref mbind Result_bind].
    rewrite Heq, Z.eqb_refl. cbn [negb].
    destruct (Z.eqb_spec (ctx_Term ctx) 0); [done|].
    unfold wrap64. rewrite Z.mod_small by lia.
    destruct (Z.leb_spec (term c) (ctx_Term ctx + 1)); [lia|]. reflexivity.
  - intros pm -> -> Heq Hterm ->.
    cbn [deref mbind Result_bind]. rewrite Heq, Z.eqb_refl. cbn [negb].
    assert ((ctx_Term ctx =? 0) || (term c <=? wrap64 (ctx_Term ctx + 1)) = true) as ->.
    { apply orb_true_iff. destruct Hterm; [left; lia | right; lia]. }
    reflexivity.
  - intros pm ctxEpoch regionEpoch -> -> Heq Hterm -> ->.
    cbn [deref mbind Result_bind]. rewrite Heq, Z.eqb_refl. cbn [negb].
    assert ((ctx_Term ctx =? 0) || (term c <=? wrap64 (ctx_Term ctx + 1)) = true) as ->.
    { apply orb_true_iff. destruct Hterm; [left; lia | right; lia]. }
    cbn [negb]. split.
    + intros Hv. destruct (Z.eqb_spec (Version ctxEpoch) (Version regionEpoch)); done.
    + intros Hv. rewrite Hv, Z.eqb_refl. cbn [negb]. split.
      * intros Hne.
        destruct (Z.eqb_spec (appliedIndexTerm c) (term c)); [done|]. cbn.
        destruct (router _) as [|[|]]; reflexivity.
      * intros Happ. rewrite Happ, Z.eqb_refl. cbn [negb].
        destruct (Inspect_remote _ _) as [state|]; [|done]. cbn.
        case_bool_decide; [|done]. destruct (router _) as [|[|]]; reflexivity.
  - intros Hrun. destruct (invalid c); [done|]. destruct (ctx_Peer ctx); [|done].
    cbn [deref mbind Result_bind] in Hrun.
    destruct (negb (Id _ =? _)); [done|].
    destruct (negb (_ || _)); [done|].
    destruct (ctx_RegionEpoch ctx); [|done].
    destruct (region_RegionEpoch (region c)); [|done].
    cbn [deref mbind Result_bind] in Hrun.
    destruct (negb (Version _ =? _)); [done|].
    destruct (Z.eqb_spec (appliedIndexTerm c) (term c)) as [Happ|];
      cbn [negb] in Hrun.
    2:{ destruct (router _) as [|[|]]; done. }
    split; [done|].
    destruct (Inspect_remote _ _) as [state|]; [|done].
    cbn [mbind Result_bind] in Hrun. case_bool_decide.
    { cbn [negb] in Hrun. destruct (router _) as [|[|]]; done. }
    eauto.
Qed.
End CheckerFacts.

(** ** Proposing *)

Section ProposeFacts.
Context {R : Type} {raftLib : RaftLib R} {deps : Deps}.

(** C6 (amended): [ProposeNormal] returns an error, leaving the peer as it
    was and without calling the consensus [Propose], when a merge is pending
    and the command is not RollbackMerge, when [PrePropose] fails, and, with
    EntryTooLarge, when the payload is longer than RaftEntryMaxSize;
    otherwise it calls [Propose] with the one-byte context and the payload
    and returns the error of that call if there is one, NotLeader if the next
    proposal index did not move, and else the index the entry was proposed
    at, which is the next proposal index before the call. *)
Theorem ProposeNormal_outcomes (cfg : Config) (rlog : RaftLog) (w : World R) :
  let p := peer w in
  let refused :=
    bool_decide (is_Some (PendingMergeState p))
    && negb (bool_decide (GetCmdType (GetAdminRequest (GetRaftCmdRequest rlog))
                          = AdminCmdType_RollbackMerge)) in
  (refused = true →
   ProposeNormal cfg rlog w
   = Ok ((0, Some (ErrMsg "peer in merging mode, can't do proposal")), w))
  ∧ (∀ rlog' err,
       refused = false → PrePropose p cfg rlog = Ok (rlog', inl err) →
       ProposeNormal cfg rlog w = Ok ((0, Some err), w))
  ∧ (∀ rlog' ctx,
       refused = false → PrePropose p cfg rlog = Ok (rlog', inr ctx) →
       let data := Marshal rlog' in
       let size := Z.of_nat (length data) in
       (RaftEntryMaxSize cfg < size →
        ProposeNormal cfg rlog w
        = Ok ((0, Some (ErrRaftEntryTooLarge (regionID p) size)), w))
       ∧ (size ≤ RaftEntryMaxSize cfg →
          let proposed := RawNode_Propose (RaftGroup p) (ToBytes ctx) data in
          let p' := set_RaftGroup proposed.1 p in
          ProposeNormal cfg rlog w
          = Ok (match proposed.2 with
                | Some err => (0, Some err)
                | None =>
                    if nextProposalIndex p =? nextProposalIndex p'
                    then (0, Some (ErrNotLeader (regionID p)))
                    else (nextProposalIndex p, None)
                end, withPeer p' w))).
Proof.
  cbv zeta. unfold ProposeNormal. split; [|split].
  - intros Href. mstep. rewrite Href. reflexivity.
  - intros rlog' err Href Hpre. mstep. rewrite Href.
    erewrite bind_Ok by (unfold liftR; rewrite Hpre; reflexivity).
      cbv beta iota.
    reflexivity.
  - intros rlog' ctx Href Hpre. split.
    + intros Hlarge. mstep. rewrite Href.
      erewrite bind_Ok by (unfold liftR; rewrite Hpre; reflexivity).
      cbv beta iota.
      apply Z.ltb_lt in Hlarge. rewrite Hlarge. reflexivity.
    + intros Hfits. mstep. rewrite Href.
      erewrite bind_Ok by (unfold liftR; rewrite Hpre; reflexivity).
      cbv beta iota.
      apply Z.ltb_ge in Hfits. rewrite Hfits.
      destruct (RawNode_Propose _ _ _) as [rg' [e|]]; cbn [fst snd].
      * mstep. reflexivity.
      * mstep. mstep. cbn [peer withPeer].
        destruct (_ =? _); reflexivity.
Qed.
End ProposeFacts.

(** ** Read index *)

Section ReadIndexFacts.
Context {R : Type} {raftLib : RaftLib R} {deps : Deps}.

Lemma length_BigEndian_PutUint64 (v : Z) : length (BigEndian_PutUint64 v) = 8%nat.
Proof. reflexivity. Qed.

Lemma PostPropose_frame (meta : ProposalMeta) (b : bool) (cb : Callback)
    (w w' : World R) :
  PostPropose meta b cb w = Ok (tt, w') →
  pendingReads (peer w') = pendingReads (peer w)
  ∧ RaftGroup (peer w') = RaftGroup (peer w).
Proof. unfold PostPropose. mrun. intros Heq. by simplify_eq. Qed.

Lemma ProposeNormal_frame (cfg : Config) (rlog : RaftLog) (w w' : World R)
    (res : Z * option Error) :
  ProposeNormal cfg rlog w = Ok (res, w') →
  pendingReads (peer w') = pendingReads (peer w).
Proof.
  unfold ProposeNormal. mrun. destruct (_ && _); [intros; by simplify_eq|].
  destruct (PrePropose _ _ _) as [[rlog' [err|ctx]]|]; [| |done].
  { intros; by simplify_eq. }
  destruct (_ <? _); [intros; by simplify_eq|].
  destruct (RawNode_Propose _ _ _) as [rg' [e|]]; cbn.
  { intros; by simplify_eq. }
  destruct (_ =? _); intros; by simplify_eq.
Qed.

(** The proposal made while the lease is suspect leaves the pending reads
    alone, and nothing happens when the lease is not suspect. *)
Lemma readIndex_proposeOnSuspect_frame (cfg : Config) (now : Time) (w w' : World R) :
  readIndex_proposeOnSuspect cfg now w = Ok (tt, w') →
  pendingReads (peer w') = pendingReads (peer w)
  ∧ (Lease.Inspect (leaderLease (peer w)) now ≠ LeaseStateSuspect → w' = w).
Proof.
  unfold readIndex_proposeOnSuspect. mstep. case_bool_decide as Hs.
  2:{ intros Heq. injection Heq as <-. done. }
  intros Hrun. split; [|done].
  apply bind_inv in Hrun as ([index err] & w1 & Hprop & Hrest).
  apply ProposeNormal_frame in Hprop. rewrite <- Hprop.
  destruct err as [e|]; [injection Hrest as <-; done|].
  apply bind_inv in Hrest as (p1 & w2 & Hget & Hrest). injection Hget as <- <-.
  apply bind_inv in Hrest as (cb' & w3 & Hcb & Hrest). injection Hcb as <- <-.
  apply PostPropose_frame in Hrest as [-> _]. reflexivity.
Qed.

(** The proposal made while the lease is suspect completes whenever the log
    built from the empty request carries no admin request. *)
Lemma readIndex_proposeOnSuspect_returns (cfg : Config) (now : Time) (w : World R) :
  GetAdminRequest (GetRaftCmdRequest (NewRequest emptyRaftCmdRequest)) = None →
  ∃ w', readIndex_proposeOnSuspect cfg now w = Ok (tt, w').
Proof.
  intros Hadmin. unfold readIndex_proposeOnSuspect. mstep.
  case_bool_decide; [|by eexists].
  assert (∃ ctx, PrePropose (peer w) cfg (NewRequest emptyRaftCmdRequest)
                 = Ok (NewRequest emptyRaftCmdRequest, inr ctx)) as [ctx Hpre].
  { unfold PrePropose. unfold GetAdminRequest in Hadmin.
    destruct (GetRaftCmdRequest _) as [req|]; [|by eexists].
    cbn in Hadmin. rewrite Hadmin. by eexists. }
  unfold ProposeNormal, PostPropose. mrun. cbn [peer].
  rewrite Hadmin. cbn [GetCmdType from_option].
  destruct (_ && _); [by eexists|].
  rewrite Hpre. destruct (_ <? _); [by eexists|].
  destruct (RawNode_Propose _ _ _) as [rg' [e|]]; cbn; [by eexists|].
  destruct (_ =? _); cbn; by eexists.
Qed.

(** C5 (amended): in [readIndex] of a peer that is neither splitting nor
    merging, when the last pending read's renew time plus the maximal lease
    is after now, the request and its callback are appended to that read,
    nothing else changes and false is returned; otherwise the next id is
    allocated and the consensus [ReadIndex] is called with its 8 big-endian
    bytes, and then, if neither read count of the consensus node moved, the
    callback is told the command is stale and false is returned with the
    queue as it was, else a read with that id and this one command is
    appended to the queue and true is returned (after the proposal of an
    empty entry while the lease is suspect, which leaves the queue alone). *)
Theorem readIndex_coalesces (cfg : Config) (req : RaftCmdRequest)
    (errResp : RaftCmdResponse) (cb : Callback) (w : World R) :
  let p := peer w in
  let q := pendingReads p in
  let now := clockAt w (tick w) in
  let w0 := withTick (S (tick w)) w in
  preReadIndex p = None →
  (∀ read t,
     last (reads q) = Some read → renewLeaseTime read = Some t →
     now < t + RaftStoreMaxLeaderLease cfg →
     readIndex cfg req errResp cb w
     = Ok (false,
           withPeer (set_pendingReads
                       (withReads (<[pred (length (reads q)) := appendCmd read req cb]>
                                     (reads q)) q) p) w0))
  ∧ ((reads q = []
      ∨ ∃ read t, last (reads q) = Some read ∧ renewLeaseTime read = Some t
                  ∧ t + RaftStoreMaxLeaderLease cfg ≤ now) →
     let id := wrap64 (idAllocator q + 1) in
     let ctx := BigEndian_PutUint64 id in
     let raft := RawNode_ReadIndex (RaftGroup p) ctx in
     let p1 := set_RaftGroup raft (set_pendingReads (withIdAllocator id q) p) in
     let dropped :=
       (Raft_PendingReadCount raft =? Raft_PendingReadCount (RaftGroup p))
       && (Raft_ReadyReadCount raft =? Raft_ReadyReadCount (RaftGroup p)) in
     let read := NewReadIndexRequest id [{| Req := req; Cb := cb |}] (Some now) in
     let q2 := withReads (reads q ++ [read]) (withIdAllocator id q) in
     let w2 := withPeer (set_pendingReads q2 p1) w0 in
     length ctx = 8%nat
     ∧ (dropped = true →
        readIndex cfg req errResp cb w
        = Ok (false,
              withTrace [EvDone cb (ErrRespStaleCommand (Raft_Term raft))]
                (withPeer p1 w0)))
     ∧ (dropped = false →
        readIndex cfg req errResp cb w
        = (_ ← readIndex_proposeOnSuspect cfg now; mret true) w2
        ∧ (∀ b w', readIndex cfg req errResp cb w = Ok (b, w') →
                   b = true ∧ pendingReads (peer w') = q2)
        ∧ (Lease.Inspect (leaderLease p) now ≠ LeaseStateSuspect →
           readIndex cfg req errResp cb w = Ok (true, w2))
        ∧ (GetAdminRequest (GetRaftCmdRequest (NewRequest emptyRaftCmdRequest)) = None →
           ∃ w', readIndex cfg req errResp cb w = Ok (true, w')))).
Proof.
  cbv zeta. intros Hpre. split.
  - intros read t Hlast Ht Hlt.
    unfold readIndex. mstep. rewrite Hpre. mstep.
    erewrite bind_Ok.
    2:{ unfold liftR, readIndex_piggyback. rewrite Hlast, Ht.
        cbn [deref mbind Result_bind]. apply Z.ltb_lt in Hlt. rewrite Hlt.
        reflexivity. }
    cbv beta iota. mstep. rewrite <- Ht. reflexivity.
  - intros Hfresh.
    assert (readIndex_piggyback cfg req cb (clockAt w (tick w))
              (reads (pendingReads (peer w))) = Ok None) as Hpiggy.
    { unfold readIndex_piggyback.
      destruct Hfresh as [->|(read & t & -> & -> & Hle)]; [done|].
      cbn [deref mbind Result_bind]. apply Z.ltb_ge in Hle. by rewrite Hle. }
    split; [reflexivity|].
    split.
    + intros Hdrop. unfold readIndex. mstep. rewrite Hpre. mstep.
      erewrite bind_Ok by (unfold liftR; cbn [peer]; rewrite Hpiggy; reflexivity).
      cbv beta iota. unfold NextID. mrun. cbn [peer ReadIndexQueue.NextID].
      cbn. cbn in Hdrop. rewrite Hdrop. reflexivity.
    + intros Hkeep.
      assert (readIndex cfg req errResp cb w
              = (_ ← readIndex_proposeOnSuspect cfg (clockAt w (tick w)); mret true)
                  (withPeer
                     (set_pendingReads
                        (withReads
                           (reads (pendingReads (peer w)) ++
                            [NewReadIndexRequest (wrap64 (idAllocator (pendingReads (peer w)) + 1))
                               [{| Req := req; Cb := cb |}] (Some (clockAt w (tick w)))])
                           (withIdAllocator (wrap64 (idAllocator (pendingReads (peer w)) + 1))
                              (pendingReads (peer w))))
                        (set_RaftGroup
                           (RawNode_ReadIndex (RaftGroup (peer w))
                              (BigEndian_PutUint64 (wrap64 (idAllocator (pendingReads (peer w)) + 1))))
                           (set_pendingReads
                              (withIdAllocator (wrap64 (idAllocator (pendingReads (peer w)) + 1))
                                 (pendingReads (peer w))) (peer w))))
                     (withTick (S (tick w)) w))) as Heq.
      { unfold readIndex. mstep. rewrite Hpre. mstep.
        erewrite bind_Ok by (unfold liftR; cbn [peer]; rewrite Hpiggy; reflexivity).
        cbv beta iota. unfold NextID. mrun. cbn [peer ReadIndexQueue.NextID].
        cbn in Hkeep. cbn -[readIndex_proposeOnSuspect]. rewrite Hkeep.
        reflexivity. }
      split; [exact Heq|]. rewrite Heq. split; [|split].
      * intros b w' Hrun. apply bind_inv in Hrun as ([] & w3 & Hprop & Hret).
        injection Hret as <- <-.
        apply readIndex_proposeOnSuspect_frame in Hprop as [Hq _].
        split; [done|]. rewrite Hq. reflexivity.
      * intros Hns. unfold readIndex_proposeOnSuspect. mrun.
        cbn [peer withPeer set_pendingReads set_RaftGroup leaderLease].
        by rewrite bool_decide_false.
      * intros Hadmin.
        edestruct readIndex_proposeOnSuspect_returns as [w' Hw']; [exact Hadmin|].
        exists w'. erewrite bind_Ok by exact Hw'. reflexivity.
Qed.
End ReadIndexFacts.

(** ** Big-endian ids *)

Lemma to_N_byteOfZ (z : Z) : Z.of_N (Byte.to_N (byteOfZ z)) = z mod 256.
Proof.
  unfold byteOfZ.
  assert (0 ≤ z mod 256 < 256) as Hr by (apply Z.mod_pos_bound; lia).
  destruct (Byte.of_N (Z.to_N (z mod 256))) as [b|] eqn:Hb.
  - apply Byte.to_of_N in Hb. change (default x00 (Some b)) with b. rewrite Hb. lia.
  - apply Byte.of_N_None_iff in Hb. lia.
Qed.

(** The 8 bytes written for an id read back, big end first, as the id. *)
Lemma BigEndian_Uint64_PutUint64 (v : Z) :
  0 ≤ v < 2 ^ 64 → BigEndian_Uint64 (BigEndian_PutUint64 v) = v.
Proof.
  intros Hv. unfold BigEndian_Uint64, BigEndian_PutUint64.
  cbn [fmap list_fmap fold_left]. rewrite !to_N_byteOfZ.
  rewrite !Z.shiftr_div_pow2 by lia.
  change (8 * 7) with 56. change (8 * 6) with 48. change (8 * 5) with 40.
  change (8 * 4) with 32. change (8 * 3) with 24. change (8 * 2) with 16.
  change (8 * 1) with 8. change (8 * 0) with 0.
  assert (∀ k, 0 ≤ k → v / 2 ^ k mod 256 = v / 2 ^ k - 256 * (v / 2 ^ (k + 8))) as Hstep.
  { intros k Hk. rewrite Z.mod_eq by lia. f_equal. f_equal.
    rewrite Z.pow_add_r by lia. rewrite Z.div_div by lia. reflexivity. }
  rewrite !Hstep by lia.
  change (56 + 8) with 64. change (48 + 8) with 56. change (40 + 8) with 48.
  change (32 + 8) with 40. change (24 + 8) with 32. change (16 + 8) with 24.
  change (8 + 8) with 16. change (0 + 8) with 8.
  assert (v / 2 ^ 64 = 0) as -> by (apply Z.div_small; lia).
  rewrite Z.pow_0_r, Z.div_1_r. lia.
Qed.

(** ** The read-index queue *)

Section QueueFacts.
Context {R : Type} {raftLib : RaftLib R} {deps : Deps}.

Lemma forM__peer {A} (l : list A) (f : A → M R unit) :
  (∀ a w w', f a w = Ok (tt, w') → peer w' = peer w) →
  ∀ w w', forM_ l f w = Ok (tt, w') → peer w' = peer w.
Proof.
  intros Hf. induction l as [|a l IH]; intros w w' Hrun.
  - by injection Hrun as <-.
  - cbn [forM_] in Hrun. apply bind_inv in Hrun as ([] & w1 & Ha & Hl).
    apply Hf in Ha. apply IH in Hl. congruence.
Qed.

(** Answering the commands of a read does not change the peer. *)
Lemma respondReads_peer (read : ReadIndexRequest) (w w' : World R) :
  respondReads read w = Ok (tt, w') → peer w' = peer w.
Proof.
  apply forM__peer. intros reqCb w0 w0' Hrun.
  unfold handleRead in Hrun. mrun_in Hrun.
  destruct (Execute _ _ _); [|done]. by injection Hrun as <-.
Qed.

Lemma MaybeRenewLeaderLease_reads (ts : Time) (w w' : World R) :
  MaybeRenewLeaderLease ts w = Ok (tt, w') →
  pendingReads (peer w') = pendingReads (peer w).
Proof.
  unfold MaybeRenewLeaderLease. mrun.
  destruct (_ || _); intros Hrun; by injection Hrun as <-.
Qed.

(** [ClearUncommitted] returns exactly when the ready count is within the
    queue, and then keeps the first [readyCnt] reads. *)
Lemma ClearUncommitted_spec (term : Z) (w : World R) :
  let q := pendingReads (peer w) in
  (readyCntInRange q →
   ∃ w', ClearUncommitted term w = Ok (tt, w')
         ∧ pendingReads (peer w')
           = withReads (take (Z.to_nat (readyCnt q)) (reads q)) q)
  ∧ (¬ readyCntInRange q → isPanic (ClearUncommitted term w) = true).
Proof.
  cbv zeta. unfold ClearUncommitted, readyCntInRange, ReadIndexQueue.splitAtReady.
  split.
  - intros [Hge Hlen]. mstep.
    apply Z.leb_le in Hge. apply Z.leb_le in Hlen.
    erewrite bind_Ok by (unfold liftR; cbn [peer]; rewrite Hge, Hlen; reflexivity).
    cbv beta iota. mstep.
    rewrite (forM_emits _ _
               (λ read, (λ r, EvDone (Cb r) (ErrRespStaleCommand term)) <$> cmds read)).
    { eexists. split; reflexivity. }
    intros read w0.
    rewrite (forM_emits _ _ (λ r, [EvDone (Cb r) (ErrRespStaleCommand term)]))
      by (intros; reflexivity).
    by rewrite bind_singleton_fmap.
  - intros Hout. mrun. cbn [peer].
    destruct (Z.leb_spec 0 (readyCnt (pendingReads (peer w))));
      destruct (Z.leb_spec (readyCnt (pendingReads (peer w)))
                  (Z.of_nat (length (reads (pendingReads (peer w))))));
      cbn [andb]; try reflexivity.
    exfalso. apply Hout. lia.
Qed.

Lemma withReads_withReads (rs1 rs2 : list ReadIndexRequest) (q : ReadIndexQueue) :
  withReads rs2 (withReads rs1 q) = withReads rs2 q.
Proof. reflexivity. Qed.

Lemma withReads_id (q : ReadIndexQueue) : withReads (reads q) q = q.
Proof. by destruct q. Qed.

Lemma withReadyCnt_id (q : ReadIndexQueue) : withReadyCnt (readyCnt q) q = q.
Proof. by destruct q. Qed.

(** Popping the head of the queue inside the peer. *)
Lemma PopFront_eq (w : World R) :
  PopFront w
  = Ok (match reads (pendingReads (peer w)) with
        | read :: rest =>
            (Some read,
             withPeer (set_pendingReads (withReads rest (pendingReads (peer w)))
                         (peer w)) w)
        | [] => (None, withPeer (set_pendingReads (pendingReads (peer w)) (peer w)) w)
        end).
Proof.
  unfold PopFront, ReadIndexQueue.PopFront. mrun.
  destruct (reads (pendingReads (peer w))); reflexivity.
Qed.

(** One round of the loop of [ApplyReads] while reads can be handled: the
    head of the queue is removed and nothing else of the queue changes. *)
Lemma ApplyReads_ready_step (t t' : option Time) (state : ReadState) (w w' : World R) :
  ApplyReads_ready t state w = Ok (t', w') →
  ∃ read rest,
    reads (pendingReads (peer w)) = read :: rest
    ∧ RequestCtx state = binaryID read
    ∧ pendingReads (peer w') = withReads rest (pendingReads (peer w)).
Proof.
  unfold ApplyReads_ready. intros Hrun.
  apply bind_inv in Hrun as (r & w1 & Hpop & Hrest).
  rewrite PopFront_eq in Hpop.
  destruct (reads (pendingReads (peer w))) as [|read rest]; injection Hpop as <- <-.
  { done. }
  case_bool_decide as Hctx; [|done]. cbn [negb] in Hrest.
  apply bind_inv in Hrest as ([] & w2 & Hresp & Hret).
  apply respondReads_peer in Hresp. injection Hret as <- <-.
  exists read, rest. rewrite Hresp. done.
Qed.

Lemma ApplyReads_ready_loop (states : list ReadState) :
  ∀ (t t' : option Time) (w w' : World R),
    foldM ApplyReads_ready t states w = Ok (t', w') →
    (length states ≤ length (reads (pendingReads (peer w))))%nat
    ∧ pendingReads (peer w')
      = withReads (drop (length states) (reads (pendingReads (peer w))))
          (pendingReads (peer w)).
Proof.
  induction states as [|state states IH]; intros t t' w w' Hrun.
  - injection Hrun as <- <-. split; [cbn; lia|]. by rewrite drop_0, withReads_id.
  - cbn [foldM] in Hrun. apply bind_inv in Hrun as (t1 & w1 & Hstep & Hloop).
    apply ApplyReads_ready_step in Hstep as (read & rest & Hreads & _ & Hq1).
    apply IH in Hloop as [Hlen Hq']. rewrite Hq1 in Hlen, Hq'. cbn in Hlen, Hq'.
    rewrite Hreads. cbn [length drop]. split; [lia|]. done.
Qed.

(** One round of the loop of [ApplyReads] while reads cannot be handled:
    there is a read at position [readyCnt], and [readyCnt] grows by one. *)
Lemma ApplyReads_pending_step (t t' : option Time) (state : ReadState)
    (w w' : World R) :
  ApplyReads_pending t state w = Ok (t', w') →
  0 ≤ readyCnt (pendingReads (peer w))
  ∧ (∃ read, reads (pendingReads (peer w))
             !! Z.to_nat (readyCnt (pendingReads (peer w))) = Some read
             ∧ RequestCtx state = binaryID read)
  ∧ pendingReads (peer w')
    = withReadyCnt (readyCnt (pendingReads (peer w)) + 1) (pendingReads (peer w)).
Proof.
  unfold ApplyReads_pending. mrun.
  destruct (Z.ltb_spec (readyCnt (pendingReads (peer w))) 0) as [|Hge]; [done|].
  destruct (reads (pendingReads (peer w)) !! _) as [read|] eqn:Hread; [|done].
  case_bool_decide as Hctx; [|done]. cbn [negb].
  intros Hrun. injection Hrun as <- <-. cbn. eauto.
Qed.

Lemma ApplyReads_pending_loop (states : list ReadState) :
  ∀ (t t' : option Time) (w w' : World R),
    foldM ApplyReads_pending t states w = Ok (t', w') →
    pendingReads (peer w')
    = withReadyCnt (readyCnt (pendingReads (peer w)) + Z.of_nat (length states))
        (pendingReads (peer w))
    ∧ (states ≠ [] →
       0 ≤ readyCnt (pendingReads (peer w))
       ∧ readyCnt (pendingReads (peer w)) + Z.of_nat (length states)
         ≤ Z.of_nat (length (reads (pendingReads (peer w))))).
Proof.
  induction states as [|state states IH]; intros t t' w w' Hrun.
  - injection Hrun as <- <-. split; [|done].
    cbn [length]. by rewrite Z.add_0_r, withReadyCnt_id.
  - cbn [foldM] in Hrun. apply bind_inv in Hrun as (t1 & w1 & Hstep & Hloop).
    apply ApplyReads_pending_step in Hstep as (Hge & (read & Hread & _) & Hq1).
    apply IH in Hloop as [Hq' Hbound]. rewrite Hq1 in Hq', Hbound.
    cbn [readyCnt reads withReadyCnt] in Hq', Hbound.
    apply lookup_lt_Some in Hread.
    split.
    + rewrite Hq'. unfold withReadyCnt. cbn [idAllocator reads readyCnt length].
      f_equal. lia.
    + intros _. split; [done|].
      destruct states as [|s states']; [cbn [length]; lia|].
      destruct Hbound as [_ Hle]; [done|]. cbn [length] in *. lia.
Qed.

Lemma ClearUncommitted_inv (term : Z) (w w' : World R) :
  ClearUncommitted term w = Ok (tt, w') →
  readyCntInRange (pendingReads (peer w))
  ∧ pendingReads (peer w')
    = withReads (take (Z.to_nat (readyCnt (pendingReads (peer w))))
                   (reads (pendingReads (peer w))))
        (pendingReads (peer w)).
Proof.
  intros Hrun. destruct (ClearUncommitted_spec term w) as [Hin Hout].
  destruct (decide (readyCntInRange (pendingReads (peer w)))) as [Hr|Hr].
  - split; [done|]. destruct (Hin Hr) as (w1 & Hw1 & Hq). congruence.
  - apply Hout in Hr. by rewrite Hrun in Hr.
Qed.

Lemma take_readyCnt_inRange (q : ReadIndexQueue) :
  readyCntInRange q →
  readyCntInRange (withReads (take (Z.to_nat (readyCnt q)) (reads q)) q).
Proof.
  unfold readyCntInRange. cbn. intros [Hge Hle].
  rewrite length_take. lia.
Qed.

(** What [ApplyReads] does to the queue. *)
Lemma ApplyReads_queue (ready : Ready) (w w' : World R) :
  ApplyReads ready w = Ok (tt, w') →
  let q := pendingReads (peer w) in
  let n := length (ReadStates ready) in
  ∃ q1,
    (if readyToHandleRead (peer w)
     then (n ≤ length (reads q))%nat ∧ q1 = withReads (drop n (reads q)) q
     else q1 = withReadyCnt (readyCnt q + Z.of_nat n) q
          ∧ (n ≠ 0%nat → 0 ≤ readyCnt q
                          ∧ readyCnt q + Z.of_nat n ≤ Z.of_nat (length (reads q))))
    ∧ (if bool_decide (is_Some (ready_SoftState ready))
       then readyCntInRange q1
            ∧ pendingReads (peer w')
              = withReads (take (Z.to_nat (readyCnt q1)) (reads q1)) q1
       else pendingReads (peer w') = q1).
Proof.
  unfold ApplyReads. intros Hrun.
  apply bind_inv in Hrun as (p & w0 & Hget & Hrun). injection Hget as <- <-.
  apply bind_inv in Hrun as (t & w1 & Hloop & Hrun).
  apply bind_inv in Hrun as ([] & w2 & Hclear & Htail).
  assert (pendingReads (peer w') = pendingReads (peer w2)) as Hq'.
  { destruct t as [t|]; [|by injection Htail as <-].
    apply bind_inv in Htail as (p2 & w3 & Hget & Htail). injection Hget as <- <-.
    case_bool_decide; [by injection Htail as <-|].
    by apply MaybeRenewLeaderLease_reads in Htail. }
  cbv zeta. exists (pendingReads (peer w1)). split.
  - destruct (readyToHandleRead (peer w)).
    + by apply ApplyReads_ready_loop in Hloop.
    + apply ApplyReads_pending_loop in Hloop as [Hq1 Hb]. split; [done|].
      intros Hn. apply Hb. by destruct (ReadStates ready).
  - rewrite Hq'. case_bool_decide.
    + apply bind_inv in Hclear as (p1 & w1' & Hget & Hclear).
      injection Hget as <- <-. by apply ClearUncommitted_inv in Hclear.
    + by injection Hclear as <-.
Qed.

Lemma PostApply_drain_queue (n : nat) :
  ∀ (w w' : World R),
    PostApply_drain n w = Ok (tt, w') →
    (n ≤ length (reads (pendingReads (peer w))))%nat
    ∧ pendingReads (peer w')
      = withReads (drop n (reads (pendingReads (peer w)))) (pendingReads (peer w)).
Proof.
  induction n as [|n IH]; intros w w' Hrun.
  - injection Hrun as <-. split; [lia|]. by rewrite drop_0, withReads_id.
  - cbn [PostApply_drain] in Hrun.
    apply bind_inv in Hrun as (r & w1 & Hpop & Hrest).
    rewrite PopFront_eq in Hpop.
    destruct (reads (pendingReads (peer w))) as [|read rest] eqn:Hreads;
      injection Hpop as <- <-; [done|].
    apply bind_inv in Hrest as ([] & w2 & Hresp & Hloop).
    apply respondReads_peer in Hresp. apply IH in Hloop as [Hlen Hq'].
    rewrite Hresp in Hlen, Hq'. cbn in Hlen, Hq'. cbn [length drop].
    split; [lia|]. done.
Qed.

(** What [PostApply] does to the queue: when reads are counted ready and the
    peer, with the new apply state, can handle reads, its first [readyCnt]
    reads are drained and [readyCnt] is reset; otherwise it is left alone. *)
Lemma PostApply_queue (st : applyState) (term : Z) (merged : bool)
    (metrics : applyMetrics) (w w' : World R) (hasReady : bool) :
  PostApply st term merged metrics w = Ok (hasReady, w') →
  let q := pendingReads (peer w) in
  if (0 <? readyCnt q) && readyToHandleRead (afterApply st term merged (peer w))
  then (Z.to_nat (readyCnt q) ≤ length (reads q))%nat
       ∧ pendingReads (peer w')
         = withReadyCnt 0 (withReads (drop (Z.to_nat (readyCnt q)) (reads q)) q)
  else pendingReads (peer w') = q.
Proof.
  unfold PostApply. intros Hrun.
  apply bind_inv in Hrun as (p & w0 & Hget & Hrun). injection Hget as <- <-.
  destruct (IsApplyingSnapshot (peer w)); [done|].
  apply bind_inv in Hrun as ([] & w1 & Hadv & Hrun).
  assert (w1 = withPeer (set_RaftGroup
                           (if merged then RaftGroup (peer w)
                            else RawNode_AdvanceApply (RaftGroup (peer w))
                                   (appliedIndex st)) (peer w)) w) as ->.
  { destruct merged; injection Hadv as <-; by destruct w as [[] ? ? ? ?]. }
  apply bind_inv in Hrun as (p1 & w1' & Hget & Hrun). injection Hget as <- <-.
  apply bind_inv in Hrun as ([] & w2 & Hupd & Hrun). injection Hupd as <-.
  apply bind_inv in Hrun as (p2 & w2' & Hget & Hrun). injection Hget as <- <-.
  apply bind_inv in Hrun as ([] & w3 & Hdrain & Hrun).
  apply bind_inv in Hrun as (p3 & w3' & Hget & Hrun). injection Hget as <- <-.
  apply bind_inv in Hrun as ([] & w4 & Hlc & Hret). injection Hret as <- <-.
  assert (pendingReads (peer w4) = pendingReads (peer w3)) as Hq4.
  { destruct (_ && _ && _); by injection Hlc as <-. }
  cbv zeta. rewrite Hq4. cbn [peer pendingReads withPeer set_RaftGroup] in Hdrain.
  match type of Hdrain with
  | (if _ && readyToHandleRead ?p then _ else _) _ = _ =>
      change (readyToHandleRead p)
        with (readyToHandleRead (afterApply st term merged (peer w))) in Hdrain
  end.
  destruct (_ && _).
  - apply bind_inv in Hdrain as ([] & w5 & Hloop & Hreset).
    apply PostApply_drain_queue in Hloop as [Hlen Hq5]. injection Hreset as <-.
    cbn [peer pendingReads withPeer] in Hlen, Hq5 |- *.
    split; [done|].
    cbn [pendingReads set_pendingReads]. rewrite Hq5. reflexivity.
  - by injection Hdrain as <-.
Qed.

(** Completed runs: the drained reads are answered whenever their commands
    are Snap commands, the only ones [ReadExecutor.Execute] knows. *)
Lemma Execute_loop_snap (reqs resps : list CmdType) :
  Forall (λ r, r = CmdType_Snap) reqs → ∃ out, Execute_loop reqs resps = Ok out.
Proof.
  revert resps. induction reqs as [|r reqs IH]; intros resps Hsnap.
  - by eexists.
  - apply Forall_cons in Hsnap as [-> Hsnap]. cbn [Execute_loop]. by apply IH.
Qed.

Lemma respondReads_returns (read : ReadIndexRequest) (w : World R) :
  snapOnly read → ∃ w', respondReads read w = Ok (tt, w') ∧ peer w' = peer w.
Proof.
  unfold snapOnly, respondReads. revert w.
  induction (cmds read) as [|reqCb l IH]; intros w Hsnap.
  - by eexists.
  - apply Forall_cons in Hsnap as [Hreq Hsnap]. cbn [forM_].
    assert (∃ resp, handleRead (Req reqCb) true w = Ok (resp, w)) as [resp Hresp].
    { unfold handleRead, Execute. mrun. cbn [peer].
      destruct (CheckRegionEpoch _ _); [by eexists|].
      destruct (Execute_loop_snap (Requests (Req reqCb)) [] Hreq) as [out ->].
      by eexists. }
    erewrite bind_Ok.
    2:{ erewrite bind_Ok by exact Hresp. reflexivity. }
    destruct (IH (withTrace [EvDone (Cb reqCb) resp] w) Hsnap) as (w' & Hrun & Hp).
    exists w'. split; [exact Hrun|]. by rewrite Hp.
Qed.

Lemma PostApply_drain_returns (n : nat) :
  ∀ (w : World R),
    (n ≤ length (reads (pendingReads (peer w))))%nat →
    Forall snapOnly (reads (pendingReads (peer w))) →
    ∃ w', PostApply_drain n w = Ok (tt, w').
Proof.
  induction n as [|n IH]; intros w Hlen Hsnap.
  - by eexists.
  - cbn [PostApply_drain].
    destruct (reads (pendingReads (peer w))) as [|read rest] eqn:Hreads;
      [cbn [length] in Hlen; lia|].
    assert (Hpop := PopFront_eq w). rewrite Hreads in Hpop.
    erewrite bind_Ok by exact Hpop. cbv beta iota.
    apply Forall_cons in Hsnap as [Hread Hrest].
    destruct (respondReads_returns read
                (withPeer (set_pendingReads (withReads rest (pendingReads (peer w)))
                             (peer w)) w) Hread) as (w1 & Hrun & Hp).
    erewrite bind_Ok by exact Hrun.
    apply IH; rewrite Hp; cbn [peer withPeer pendingReads set_pendingReads reads withReads].
    + cbn [length] in Hlen. lia.
    + exact Hrest.
Qed.

(** [PostApply] completes on a peer that is not applying a snapshot, whose
    ready count is within the queue and whose queued commands are Snap
    commands. *)
Lemma PostApply_returns (st : applyState) (term : Z) (merged : bool)
    (metrics : applyMetrics) (w : World R) :
  IsApplyingSnapshot (peer w) = false →
  readyCntInRange (pendingReads (peer w)) →
  Forall snapOnly (reads (pendingReads (peer w))) →
  ∃ hasReady w', PostApply st term merged metrics w = Ok (hasReady, w').
Proof.
  intros Hsnapshot [Hge Hle] Hsnap. unfold PostApply.
  mstep. rewrite Hsnapshot.
  assert (∃ w1, when_ (negb merged)
                  (modifyPeer (λ p, set_RaftGroup
                     (RawNode_AdvanceApply (RaftGroup p) (appliedIndex st)) p)) w
                = Ok (tt, w1)
                ∧ pendingReads (peer w1) = pendingReads (peer w)) as (w1 & Hw1 & Hq1).
  { destruct merged; eexists; split; reflexivity. }
  erewrite bind_Ok by exact Hw1. mstep. mstep. mstep.
  cbn [peer pendingReads].
  destruct ((0 <? readyCnt (pendingReads (peer w1))) && _).
  - match goal with
    | |- ∃ _ _, (_ ≫= _) ?w2 = _ =>
        destruct (PostApply_drain_returns
                    (Z.to_nat (readyCnt (pendingReads (peer w1)))) w2) as [w3 Hw3]
    end.
    + cbn [peer pendingReads]. rewrite Hq1. lia.
    + cbn [peer pendingReads]. rewrite Hq1. exact Hsnap.
    + erewrite bind_Ok; [|erewrite bind_Ok by exact Hw3; reflexivity].
      mstep. destruct (_ && _ && _); do 2 eexists; reflexivity.
  - mstep. mstep. destruct (_ && _ && _); do 2 eexists; reflexivity.
Qed.

(** C10 (amended): [NextID], [ClearUncommitted], [ApplyReads] while reads
    cannot be handled, and [PostApply] keep [0 <= readyCnt <= len(reads)];
    [PopFront] and [ApplyReads] while reads can be handled remove heads and
    leave [readyCnt] alone, so they keep it when [readyCnt] is 0 (for
    [PopFront]: when it is below the length, or the queue is empty).
    [ClearUncommitted] keeps exactly the first [readyCnt] reads;
    [ApplyReads] adds one to [readyCnt] per ReadState and panics when no
    read is at position [readyCnt]; [PostApply], when [readyCnt] is above 0
    and the peer with the new apply state can handle reads, drains exactly
    its first [readyCnt] reads and resets [readyCnt] to 0, and otherwise
    leaves the queue alone, and it completes when no snapshot is being
    applied and the queued commands are Snap commands; [PopFront] on an
    empty queue returns nil. *)
Theorem readyCnt_in_range :
  (∀ q, readyCntInRange q → readyCntInRange (ReadIndexQueue.NextID q).2)
  ∧ (∀ q, reads q = [] → ReadIndexQueue.PopFront q = (None, q))
  ∧ (∀ q, readyCntInRange q →
          reads q = [] ∨ readyCnt q < Z.of_nat (length (reads q)) →
          readyCntInRange (ReadIndexQueue.PopFront q).2)
  ∧ (∀ term (w : World R),
       readyCntInRange (pendingReads (peer w)) →
       ∃ w', ClearUncommitted term w = Ok (tt, w')
             ∧ pendingReads (peer w')
               = withReads (take (Z.to_nat (readyCnt (pendingReads (peer w))))
                              (reads (pendingReads (peer w))))
                   (pendingReads (peer w))
             ∧ readyCntInRange (pendingReads (peer w')))
  ∧ (∀ t state (w : World R),
       reads (pendingReads (peer w)) !! Z.to_nat (readyCnt (pendingReads (peer w)))
       = None →
       isPanic (ApplyReads_pending t state w) = true)
  ∧ (∀ ready (w w' : World R),
       ApplyReads ready w = Ok (tt, w') →
       readyCntInRange (pendingReads (peer w)) →
       if readyToHandleRead (peer w)
       then readyCnt (pendingReads (peer w')) = readyCnt (pendingReads (peer w))
            ∧ (readyCnt (pendingReads (peer w)) = 0 →
               readyCntInRange (pendingReads (peer w')))
       else readyCnt (pendingReads (peer w'))
            = readyCnt (pendingReads (peer w)) + Z.of_nat (length (ReadStates ready))
            ∧ readyCntInRange (pendingReads (peer w')))
  ∧ (∀ st term merged metrics (w w' : World R) hasReady,
       PostApply st term merged metrics w = Ok (hasReady, w') →
       let q := pendingReads (peer w) in
       (if (0 <? readyCnt q)
           && readyToHandleRead (afterApply st term merged (peer w))
        then (Z.to_nat (readyCnt q) ≤ length (reads q))%nat
             ∧ pendingReads (peer w')
               = withReadyCnt 0
                   (withReads (drop (Z.to_nat (readyCnt q)) (reads q)) q)
        else pendingReads (peer w') = q)
       ∧ (readyCntInRange q → readyCntInRange (pendingReads (peer w'))))
  ∧ (∀ st term merged metrics (w : World R),
       IsApplyingSnapshot (peer w) = false →
       readyCntInRange (pendingReads (peer w)) →
       Forall snapOnly (reads (pendingReads (peer w))) →
       ∃ hasReady w', PostApply st term merged metrics w = Ok (hasReady, w')).
Proof.
  split; [|split; [|split; [|split; [|split; [|split; [|split]]]]]];
    [..|by apply PostApply_returns].
  - intros q Hq. exact Hq.
  - intros q Hq. unfold ReadIndexQueue.PopFront. by rewrite Hq.
  - intros q [Hge Hle] Hcase. unfold ReadIndexQueue.PopFront, readyCntInRange in *.
    destruct (reads q) as [|read rest] eqn:Hreads; cbn [snd].
    + rewrite Hreads. cbn [length] in *. lia.
    + destruct Hcase as [|Hlt]; [done|]. cbn [length reads readyCnt] in *. lia.
  - intros term w Hq. destruct (ClearUncommitted_spec term w) as [Hin _].
    destruct (Hin Hq) as (w' & Hrun & Hq'). exists w'. split; [done|].
    split; [done|]. rewrite Hq'. by apply take_readyCnt_inRange.
  - intros t state w Hnone. unfold ApplyReads_pending. mrun.
    destruct (_ <? 0); [done|]. by rewrite Hnone.
  - intros ready w w' Hrun Hq.
    apply ApplyReads_queue in Hrun as (q1 & Hq1 & Hq'). cbv zeta in *.
    destruct (readyToHandleRead (peer w)).
    + destruct Hq1 as [Hlen ->]. case_bool_decide.
      * destruct Hq' as [Hr ->]. split; [done|]. intros _.
        by apply take_readyCnt_inRange.
      * rewrite Hq'. split; [done|]. intros Hzero.
        unfold readyCntInRange. cbn. rewrite Hzero. lia.
    + destruct Hq1 as [-> Hb].
      assert (readyCntInRange
                (withReadyCnt (readyCnt (pendingReads (peer w))
                               + Z.of_nat (length (ReadStates ready)))
                   (pendingReads (peer w)))) as Hr1.
      { unfold readyCntInRange in *. cbn [readyCnt reads withReadyCnt].
        destruct (decide (length (ReadStates ready) = 0%nat)) as [->|Hn]; [lia|].
        apply Hb in Hn. lia. }
      case_bool_decide.
      * destruct Hq' as [_ ->]. split; [done|]. by apply take_readyCnt_inRange.
      * by rewrite Hq'.
  - intros st term merged metrics w w' hasReady Hrun. cbv zeta.
    apply PostApply_queue in Hrun. cbv zeta in Hrun.
    split; [exact Hrun|]. intros Hq.
    destruct (_ && _).
    + destruct Hrun as [Hlen ->]. unfold readyCntInRange. cbn. lia.
    + by rewrite Hrun.
Qed.
End QueueFacts.

(** ** What a computation leaves alone *)

Section Preservation.
Context {R : Type}.
Variable I : Peer R → Peer R → Prop.
Hypothesis I_refl : ∀ p, I p p.
Hypothesis I_trans : ∀ p1 p2 p3, I p1 p2 → I p2 p3 → I p1 p3.

Lemma preserves_ret {A} (a : A) : preserves I (mret a).
Proof. intros w a' w' Hrun. inversion Hrun; subst. apply I_refl. Qed.

Lemma preserves_bind {A B} (m : M R A) (f : A → M R B) :
  preserves I m → (∀ a, preserves I (f a)) → preserves I (m ≫= f).
Proof.
  intros Hm Hf w b w' Hrun. apply bind_inv in Hrun as (a & w1 & Hm1 & Hf1).
  eapply I_trans; [by eapply Hm | by eapply Hf].
Qed.

Lemma preserves_getPeer : preserves I getPeer.
Proof. intros w a w' Hrun. inversion Hrun; subst. apply I_refl. Qed.

Lemma preserves_modifyPeer (f : Peer R → Peer R) :
  (∀ p, I p (f p)) → preserves I (modifyPeer f).
Proof. intros Hf w a w' Hrun. inversion Hrun; subst. apply Hf. Qed.

Lemma preserves_emit (e : Event) : preserves I (emit e).
Proof. intros w a w' Hrun. inversion Hrun; subst. apply I_refl. Qed.

Lemma preserves_Now : preserves I Now.
Proof. intros w a w' Hrun. inversion Hrun; subst. apply I_refl. Qed.

Lemma preserves_liftR {A} (r : Result A) : preserves I (liftR r).
Proof.
  intros w a w' Hrun. unfold liftR in Hrun. destruct r; [|done].
  inversion Hrun; subst. apply I_refl.
Qed.

Lemma preserves_panic {A} (msg : string) : preserves I (@panic R A msg).
Proof. intros w a w' Hrun. done. Qed.

Lemma preserves_when (b : bool) (m : M R unit) : preserves I m → preserves I (when_ b m).
Proof. intros Hm. destruct b; [done|]. apply preserves_ret. Qed.

Lemma preserves_ext {A} (m m' : M R A) :
  (∀ w, m w = m' w) → preserves I m' → preserves I m.
Proof. intros Heq Hm w a w' Hrun. rewrite Heq in Hrun. by eapply Hm. Qed.

Lemma preserves_forM_ {A} (l : list A) (f : A → M R unit) :
  (∀ a, preserves I (f a)) → preserves I (forM_ l f).
Proof.
  intros Hf. induction l as [|a l IH]; cbn [forM_].
  - apply preserves_ret.
  - apply preserves_bind; [apply Hf | intros _; apply IH].
Qed.

Lemma preserves_foldM {A S} (f : S → A → M R S) (l : list A) :
  (∀ s a, preserves I (f s a)) → ∀ s, preserves I (foldM f s l).
Proof.
  intros Hf. induction l as [|a l IH]; intros s; cbn [foldM].
  - apply preserves_ret.
  - apply preserves_bind; [apply Hf | intros s'; apply IH].
Qed.
End Preservation.

(** ** HandleRaftReadyApply *)

Section ApplyFacts.
Context {R : Type} {raftLib : RaftLib R} {deps : Deps}.

Lemma nothingRecorded_refl (p : Peer R) : nothingRecorded p p.
Proof. by repeat split. Qed.

Lemma nothingRecorded_trans (p1 p2 p3 : Peer R) :
  nothingRecorded p1 p2 → nothingRecorded p2 p3 → nothingRecorded p1 p3.
Proof.
  intros (Hs1 & Hm1 & Hl1) (Hs2 & Hm2 & Hl2).
  split; [congruence|]. split; [congruence|]. auto.
Qed.

Lemma Renew_not_suspect (l : Lease.t) (t : Time) :
  (∀ ts, Lease.Inspect l ts ≠ LeaseStateSuspect) →
  ∀ ts, Lease.Inspect (Lease.Renew l t) ts ≠ LeaseStateSuspect.
Proof.
  intros Hl ts. specialize (Hl ts). unfold Lease.Inspect, Lease.Renew in *.
  destruct l as [[b|b|] m]; cbn in *; repeat case_match; done.
Qed.

Ltac nr_with known :=
  repeat first
    [ known
    | apply (preserves_ret _ nothingRecorded_refl)
    | apply (preserves_getPeer _ nothingRecorded_refl)
    | apply (preserves_emit _ nothingRecorded_refl)
    | apply (preserves_Now _ nothingRecorded_refl)
    | apply (preserves_liftR _ nothingRecorded_refl)
    | apply (preserves_panic (@nothingRecorded R))
    | apply (preserves_when _ nothingRecorded_refl)
    | apply (preserves_forM_ _ nothingRecorded_refl nothingRecorded_trans); intros
    | apply (preserves_foldM _ nothingRecorded_refl nothingRecorded_trans); intros
    | apply (preserves_bind _ nothingRecorded_trans); [|intros]
    | apply preserves_modifyPeer; intros; by repeat split
    | match goal with
      | |- preserves _ (match ?x with _ => _ end) => destruct x
      end ].

Lemma respondReads_records_nothing (read : ReadIndexRequest) :
  preserves (@nothingRecorded R) (respondReads read).
Proof. unfold respondReads, handleRead, Done. nr_with fail. Qed.

Lemma PopFront_records_nothing : preserves (@nothingRecorded R) PopFront.
Proof. unfold PopFront. nr_with fail. Qed.

Lemma ClearUncommitted_records_nothing (term : Z) :
  preserves (@nothingRecorded R) (ClearUncommitted term).
Proof. unfold ClearUncommitted, NotifyStaleReq, Done. nr_with fail. Qed.

Lemma MaybeRenewLeaderLease_records_nothing (ts : Time) :
  preserves (@nothingRecorded R) (MaybeRenewLeaderLease ts).
Proof.
  unfold MaybeRenewLeaderLease. nr_with fail.
  apply preserves_modifyPeer. intros p. split; [done|]. split; [done|].
  apply Renew_not_suspect.
Qed.

Lemma ApplyReads_records_nothing (ready : Ready) :
  preserves (@nothingRecorded R) (ApplyReads ready).
Proof.
  unfold ApplyReads, ApplyReads_ready, ApplyReads_pending.
  nr_with ltac:(first [ apply PopFront_records_nothing
                      | apply respondReads_records_nothing
                      | apply ClearUncommitted_records_nothing
                      | apply MaybeRenewLeaderLease_records_nothing ]).
Qed.

Lemma findProposeTime_records_nothing (index term : Z) :
  preserves (@nothingRecorded R) (findProposeTime index term).
Proof. unfold findProposeTime. nr_with fail. Qed.

(** The body of the loop over the committed entries records nothing,
    whatever the context of the entry is. *)
Lemma HandleRaftReadyApply_entry_records_nothing (st : toBeUpdated) (entry : Entry) :
  preserves (@nothingRecorded R) (HandleRaftReadyApply_entry st entry).
Proof.
  unfold HandleRaftReadyApply_entry.
  apply (preserves_bind _ nothingRecorded_trans); [|intros []].
  { apply preserves_modifyPeer; intros; by repeat split. }
  apply (preserves_bind _ nothingRecorded_trans); [|intros lease'].
  { nr_with ltac:(first [ apply findProposeTime_records_nothing
                        | apply MaybeRenewLeaderLease_records_nothing ]). }
  apply (preserves_bind _ nothingRecorded_trans); [|intros p].
  { apply (preserves_getPeer _ nothingRecorded_refl). }
  destruct (_ && _); [|apply (preserves_ret _ nothingRecorded_refl)].
  intros w a w' Hrun. cbn [NewProposalContextFromBytes] in Hrun.
  replace (contains x00 ProposalContextSplit) with false in Hrun by reflexivity.
  replace (contains x00 ProposalContextPrepareMerge) with false in Hrun by reflexivity.
  mrun_in Hrun. cbn [deref] in Hrun. rewrite !andb_false_r in Hrun.
  inversion Hrun; subst. apply nothingRecorded_refl.
Qed.

(** [HandleRaftReadyApply] never records a split or prepare-merge index and
    never makes the lease suspect, whatever the committed entries carry. *)
Lemma HandleRaftReadyApply_records_nothing (ready : Ready) :
  preserves (@nothingRecorded R) (HandleRaftReadyApply ready).
Proof.
  unfold HandleRaftReadyApply.
  nr_with ltac:(first [ apply HandleRaftReadyApply_entry_records_nothing
                      | apply ApplyReads_records_nothing ]).
Qed.
End ApplyFacts.

(** ** Runs on concrete states *)

Section Concrete.
Import Mock Examples.

(** C1: the leader of term 5 is handed a committed entry of term 5 whose
    context carries PREPARE_MERGE; afterwards the entry is scheduled for
    apply, but no prepare-merge index is recorded, the lease is as it was and
    inspects as Valid, and a read is still answered locally. *)
Theorem HandleRaftReadyApply_ignores_PrepareMerge :
  IsLeader (peer leaderWorld) = true
  ∧ entry_Term prepareMergeEntry = Term (peer leaderWorld)
  ∧ (ctx ← NewProposalContextFromBytes (Context prepareMergeEntry);
     c ← deref ctx; Ok (contains c ProposalContextPrepareMerge)) = Ok true
  ∧ ∃ ready' w' w'',
      HandleRaftReadyApply prepareMergeReady leaderWorld = Ok (ready', w')
      ∧ LastApplyingIdx (peer w') = 10
      ∧ lastCommittedPrepareMergeIdx (peer w') = 0
      ∧ leaderLease (peer w') = leaderLease (peer leaderWorld)
      ∧ Peer_inspectLease w' = Ok (LeaseStateValid, w'')
      ∧ Inspect w' getRequest = Ok ((RequestPolicyReadLocal, None), w'').
Proof.
  split; [reflexivity|]. split; [reflexivity|]. split; [reflexivity|].
  eexists _, _, _. split; [vm_compute; reflexivity|].
  repeat split; vm_compute; reflexivity.
Qed.

(** C2: a leader with a committed split that is not applied yet, a valid
    lease and the current term applied is splitting, and the inspection still
    answers ReadLocal; and so it does on the leader with a pending merge,
    which is merging. *)
Lemma Inspect_ReadLocal_while_splitting :
  (isSplitting splittingPeer = true
   ∧ Inspect (world splittingPeer 100) getRequest
     = Ok ((RequestPolicyReadLocal, None), withTick 1 (world splittingPeer 100)))
  ∧ (isMerging mergingPeer = true
     ∧ Inspect (world mergingPeer 100) getRequest
       = Ok ((RequestPolicyReadLocal, None), withTick 1 (world mergingPeer 100))).
Proof. repeat split; vm_compute; reflexivity. Qed.

(** The inspection of a Get on the leader of term 5 with a valid lease, and
    on the same leader once a split is committed at index 12. *)
Lemma Inspect_ReadLocal_valid_lease_witness :
  Inspect leaderWorld getRequest
  = Ok ((RequestPolicyReadLocal, None), withTick 1 leaderWorld)
  ∧ Raft_InLease (RaftGroup (peer leaderWorld)) = true
  ∧ Lease.Inspect (leaderLease (peer leaderWorld)) 100 = LeaseStateValid
  ∧ appliedIndexTerm (Store (peer leaderWorld)) = Term (peer leaderWorld)
  ∧ Inspect (world splittingPeer 100) getRequest
    = Ok ((RequestPolicyReadLocal, None), withTick 1 (world splittingPeer 100)).
Proof.
  assert (Inspect leaderWorld getRequest
          = Ok ((RequestPolicyReadLocal, None), withTick 1 leaderWorld)) as Hrun
    by (vm_compute; reflexivity).
  split; [exact Hrun|].
  destruct (Inspect_ReadLocal_valid_lease _ _ _ _ Hrun)
    as (_ & Hin & Hvalid & Hterm & _ & Hsplit).
  split; [exact Hin|]. split; [exact Hvalid|]. split; [exact Hterm|].
  exact (Hsplit 12).
Defined.

(** C3: an AddLearnerNode is accepted although the healthy nodes are below
    the quorum, and an AddNode naming a learner role is refused although
    they reach it. *)
Lemma checkConfChange_not_only_quorum :
  (checkConfChange (leaderPeer lagging3) cfg
     (changePeerRequest ConfChangeType_AddLearnerNode (pmOf 4 PeerRole_Learner))
   = Ok None
   ∧ quorumHealthyAfter 5 ConfChangeType_AddLearnerNode 4 lagging3 = false)
  ∧ (checkConfChange (leaderPeer healthy3) cfg
       (changePeerRequest ConfChangeType_AddNode (pmOf 4 PeerRole_Learner))
     = Ok (Some (ErrMsg "invalid conf change request"))
     ∧ quorumHealthyAfter 5 ConfChangeType_AddNode 4 healthy3 = true).
Proof. repeat split; vm_compute; reflexivity. Qed.

(** The conf-change check on three voters of which the third lags: removing
    the second is refused, removing the third is accepted. *)
Lemma checkConfChange_quorum_witness :
  1 ≤ 3 ≤ 7
  ∧ Quorum 3 = 2
  ∧ checkConfChange (leaderPeer oneLagging3) cfg
      (changePeerRequest ConfChangeType_RemoveNode (pmOf 2 PeerRole_Voter))
    = Ok (Some (ErrMsg "unsafe to perform conf change"))
  ∧ checkConfChange (leaderPeer oneLagging3) cfg
      (changePeerRequest ConfChangeType_RemoveNode (pmOf 3 PeerRole_Voter))
    = Ok None.
Proof.
  assert (1 ≤ 3 ≤ 7) as Hrange by lia.
  split; [exact Hrange|].
  destruct (checkConfChange_quorum (leaderPeer oneLagging3) cfg
              (changePeerRequest ConfChangeType_RemoveNode (pmOf 2 PeerRole_Voter))
              ConfChangeType_RemoveNode (pmOf 2 PeerRole_Voter) 3 Hrange eq_refl)
    as [Hq Hc2].
  destruct (checkConfChange_quorum (leaderPeer oneLagging3) cfg
              (changePeerRequest ConfChangeType_RemoveNode (pmOf 3 PeerRole_Voter))
              ConfChangeType_RemoveNode (pmOf 3 PeerRole_Voter) 3 Hrange eq_refl)
    as [_ Hc3].
  split; [rewrite Hq; reflexivity|].
  split; [rewrite Hc2 | rewrite Hc3]; vm_compute; reflexivity.
Defined.

(** C4: a request of the right peer and term that carries no region epoch
    is refused with an error that is not EpochNotMatch, and no Snap command is
    given to the router, although the applied index term is the term and the
    lease is not expired. *)
Lemma IsLeader_missing_epoch :
  leaderChecker.IsLeader remoteInspect (checker 5) readContextNoEpoch neverAnswers
    (λ n, 100 + Z.of_nat n) (InternalCb 0)
  = rejected (ErrMsg "missing epoch")
  ∧ leaderChecker.appliedIndexTerm (checker 5) = leaderChecker.term (checker 5)
  ∧ remoteInspect (leaderChecker.leaderLease (checker 5)) 100 = Ok LeaseStateValid.
Proof. repeat split; vm_compute; reflexivity. Qed.

(** The checker on a request of the right peer, term and version: the read is
    let through when the applied index term is the term, and a Snap command
    goes to the router when it is not. *)
Lemma IsLeader_checks_witness :
  leaderChecker.IsLeader remoteInspect (checker 5) readContext neverAnswers
    (λ n, 100 + Z.of_nat n) (InternalCb 0)
  = Ok {| leaderChecker.routed := [];
          leaderChecker.outcome := leaderChecker.Returned None |}
  ∧ leaderChecker.IsLeader remoteInspect (checker 4) readContext neverAnswers
      (λ n, 100 + Z.of_nat n) (InternalCb 0)
    = Ok (routedRun neverAnswers (snapCommand readContext 101 (InternalCb 0))).
Proof.
  destruct (IsLeader_checks remoteInspect (checker 5) readContext neverAnswers
              (λ n, 100 + Z.of_nat n) (InternalCb 0)) as (_ & _ & _ & _ & Hpass & _).
  destruct (Hpass self {| ConfVer := 9; Version := 1 |} {| ConfVer := 1; Version := 1 |})
    as [_ Hsame]; try reflexivity.
  { right. vm_compute. discriminate. }
  destruct (Hsame eq_refl) as [_ Hlocal].
  destruct (IsLeader_checks remoteInspect (checker 4) readContext neverAnswers
              (λ n, 100 + Z.of_nat n) (InternalCb 0)) as (_ & _ & _ & _ & Hpass4 & _).
  destruct (Hpass4 self {| ConfVer := 9; Version := 1 |} {| ConfVer := 1; Version := 1 |})
    as [_ Hsame4]; try reflexivity.
  { right. vm_compute. discriminate. }
  destruct (Hsame4 eq_refl) as [Hrouted _].
  split.
  - rewrite Hlocal by reflexivity. reflexivity.
  - rewrite Hrouted by (vm_compute; discriminate). reflexivity.
Defined.

(** C5: a merging peer refuses the read although the last pending read is
    recent, and a follower, whose consensus node drops the request, queues
    nothing. *)
Lemma readIndex_neither_appends_nor_queues :
  (last (reads (pendingReads (withPendingRead 0 splittingMergingPeer)))
   = Some pendingRead
   ∧ renewLeaseTime pendingRead = Some 95
   ∧ 100 < 95 + RaftStoreMaxLeaderLease cfg
   ∧ readIndex cfg snapRequest newRaftCmdResponse (ClientCb 2)
       (world (withPendingRead 0 splittingMergingPeer) 100)
     = Ok (false,
           withTrace [EvDone (ClientCb 2)
                        (BindRespError newRaftCmdResponse
                           (ErrMsg "can not read index due to split"))]
             (world (withPendingRead 0 splittingMergingPeer) 100)))
  ∧ (reads (pendingReads (peer0 (follower 5 10) (storage 9 5 5) (validLease 1000))) = []
     ∧ ∃ w', readIndex cfg snapRequest newRaftCmdResponse (ClientCb 2)
               (world (peer0 (follower 5 10) (storage 9 5 5) (validLease 1000)) 100)
             = Ok (false, w')
             ∧ reads (pendingReads (peer w')) = []
             ∧ trace w' = [EvDone (ClientCb 2) (ErrRespStaleCommand 5)]).
Proof.
  split.
  - repeat split; vm_compute; reflexivity.
  - split; [reflexivity|]. eexists. split; [vm_compute; reflexivity|].
    split; reflexivity.
Qed.

(** A read at time 100 joins the read that was queued at time 95 under a
    maximal lease of 9. *)
Lemma readIndex_coalesces_witness :
  preReadIndex (withPendingRead 0 (leaderPeer healthy3)) = None
  ∧ 100 < 95 + RaftStoreMaxLeaderLease cfg
  ∧ ∃ w', readIndex cfg snapRequest newRaftCmdResponse (ClientCb 2)
            (world (withPendingRead 0 (leaderPeer healthy3)) 100)
          = Ok (false, w')
          ∧ reads (pendingReads (peer w'))
            = [appendCmd pendingRead snapRequest (ClientCb 2)]
          ∧ trace w' = [].
Proof.
  assert (preReadIndex (withPendingRead 0 (leaderPeer healthy3)) = None) as Hpre
    by reflexivity.
  assert (100 < 95 + RaftStoreMaxLeaderLease cfg) as Hlt by (vm_compute; reflexivity).
  split; [exact Hpre|]. split; [exact Hlt|].
  destruct (readIndex_coalesces cfg snapRequest newRaftCmdResponse (ClientCb 2)
              (world (withPendingRead 0 (leaderPeer healthy3)) 100) Hpre)
    as [Hpiggy _].
  eexists. split; [apply (Hpiggy pendingRead 95); [reflexivity|reflexivity|exact Hlt]|].
  split; reflexivity.
Defined.

(** C6: a prepare-merge proposal over a group with a node at match 0 fails
    with an error that is none of the three, without a merge pending, with a
    payload within the limit and without a call to the consensus node. *)
Lemma ProposeNormal_other_error :
  PendingMergeState (leaderPeer lagging3) = None
  ∧ Z.of_nat (length (Marshal prepareMergeLog)) ≤ RaftEntryMaxSize cfg
  ∧ ProposeNormal cfg prepareMergeLog (world (leaderPeer lagging3) 100)
    = Ok ((0, Some (ErrMsg "log gap is too large, skip merge")),
          world (leaderPeer lagging3) 100).
Proof. repeat split; vm_compute; try reflexivity; discriminate. Qed.

(** A put proposed on the leader whose log ends at index 10 is proposed at
    index 11. *)
Lemma ProposeNormal_outcomes_witness :
  PrePropose (peer leaderWorld) cfg putLog = Ok (putLog, inr x00)
  ∧ Z.of_nat (length (Marshal putLog)) ≤ RaftEntryMaxSize cfg
  ∧ ∃ w', ProposeNormal cfg putLog leaderWorld = Ok ((11, None), w')
          ∧ RaftLog_LastIndex (RaftGroup (peer w')) = 11.
Proof.
  assert (PrePropose (peer leaderWorld) cfg putLog = Ok (putLog, inr x00)) as Hpre
    by reflexivity.
  assert (Z.of_nat (length (Marshal putLog)) ≤ RaftEntryMaxSize cfg) as Hfits
    by (vm_compute; discriminate).
  split; [exact Hpre|]. split; [exact Hfits|].
  destruct (ProposeNormal_outcomes cfg putLog leaderWorld) as (_ & _ & Hok).
  destruct (Hok putLog x00 eq_refl Hpre) as [_ Hrun].
  eexists. split; [rewrite (Hrun Hfits); vm_compute; reflexivity|]. reflexivity.
Defined.

(** C7: when the write to the KV engine fails, [Destroy] returns that error
    and answers no pending read. *)
Lemma Destroy_write_failure :
  reads (pendingReads (withPendingRead 0 (leaderPeer healthy3))) = [pendingRead]
  ∧ Destroy brokenKV false (world (withPendingRead 0 (leaderPeer healthy3)) 100)
    = Ok (Some (ErrExternal 5),
          withTrace [EvWriteKV (tombstoneBatch 7 None)]
            (world (withPendingRead 0 (leaderPeer healthy3)) 100)).
Proof. split; vm_compute; reflexivity. Qed.

(** Destroying a peer with one pending read, on engines that accept the
    writes. *)
Lemma Destroy_notifies_all_witness :
  ∃ w', Destroy okEngines false (world (withPendingRead 0 (leaderPeer healthy3)) 100)
        = Ok (None, w')
        ∧ trace w'
          = [EvWriteKV (tombstoneBatch 7 None); EvWriteRaft (raftMetaBatch 7);
             EvClearData;
             EvDone (ClientCb 1) (ErrResp (ErrRegionNotFound 7))]
        ∧ reads (pendingReads (peer w')) = []
        ∧ applyProposals (peer w') = [].
Proof.
  destruct (Destroy_notifies_all okEngines false
              (world (withPendingRead 0 (leaderPeer healthy3)) 100))
    as (w' & Hrun & Htrace & Hreads & Hprops); [reflexivity..|].
  exists w'. split; [exact Hrun|]. split; [rewrite Htrace; reflexivity|].
  split; [exact Hreads | exact Hprops].
Defined.

(** Sending one MsgTimeoutNow at time 100 under a maximal lease of 9. *)
Lemma Send_TimeoutNow_suspects_lease_witness :
  ∃ w', Send okTransport [{| MsgType := MsgTimeoutNow; To := 2; From := 1 |}] leaderWorld
        = Ok (None, w')
        ∧ Lease.state (leaderLease (peer w')) = Lease.BoundSuspect 109
        ∧ ∀ req policy err w'',
            Inspect w' req = Ok ((policy, err), w'') → policy ≠ RequestPolicyReadLocal.
Proof.
  eexists. split; [vm_compute; reflexivity|].
  split; [reflexivity|].
  eapply (Send_TimeoutNow_suspects_lease okTransport
            [{| MsgType := MsgTimeoutNow; To := 2; From := 1 |}] leaderWorld).
  - vm_compute. reflexivity.
  - left.
Defined.

(** C10: popping the head of a queue whose only read is counted ready leaves
    [readyCnt] above the length, and so does [ApplyReads] on a peer that can
    handle reads. *)
Lemma PopFront_breaks_readyCnt_range :
  readyCntInRange {| idAllocator := 1; reads := [pendingRead]; readyCnt := 1 |}
  ∧ ¬ readyCntInRange
        (ReadIndexQueue.PopFront
           {| idAllocator := 1; reads := [pendingRead]; readyCnt := 1 |}).2
  ∧ readyToHandleRead (withPendingRead 1 (leaderPeer healthy3)) = true
  ∧ ∃ w', ApplyReads {| ready_SoftState := None; CommittedEntries := [];
                        ReadStates := [{| rs_Index := 10;
                                          RequestCtx := binaryID pendingRead |}];
                        Messages := [] |}
            (world (withPendingRead 1 (leaderPeer healthy3)) 100)
          = Ok (tt, w')
          ∧ reads (pendingReads (peer w')) = []
          ∧ readyCnt (pendingReads (peer w')) = 1
          ∧ ¬ readyCntInRange (pendingReads (peer w')).
Proof.
  split; [unfold readyCntInRange; cbn; lia|].
  split; [unfold readyCntInRange; cbn; lia|].
  split; [reflexivity|].
  eexists. split; [vm_compute; reflexivity|].
  split; [reflexivity|]. split; [reflexivity|].
  unfold readyCntInRange. cbn. lia.
Qed.

(** A leader that is splitting cannot handle reads: [ApplyReads] counts the
    read of the ReadState as ready and leaves it in the queue. *)
Lemma ApplyReads_counts_ready :
  readyToHandleRead (withPendingRead 0 splittingPeer) = false
  ∧ ∃ w', ApplyReads {| ready_SoftState := None; CommittedEntries := [];
                        ReadStates := [{| rs_Index := 10;
                                          RequestCtx := binaryID pendingRead |}];
                        Messages := [] |}
            (world (withPendingRead 0 splittingPeer) 100)
          = Ok (tt, w')
          ∧ length (reads (pendingReads (peer w'))) = 1%nat
          ∧ readyCnt (pendingReads (peer w')) = 1.
Proof.
  split; [reflexivity|].
  eexists. split; [vm_compute; reflexivity|]. split; reflexivity.
Qed.

(** Clearing the uncommitted reads of a queue with one read, none of them
    ready; and [PostApply] on the leader whose one queued read is counted
    ready, which drains it, and on the splitting leader, which leaves it. *)
Lemma readyCnt_in_range_witness :
  readyCntInRange (pendingReads (withPendingRead 0 (leaderPeer healthy3)))
  ∧ (∃ w', ClearUncommitted 5 (world (withPendingRead 0 (leaderPeer healthy3)) 100)
           = Ok (tt, w')
           ∧ reads (pendingReads (peer w')) = []
           ∧ readyCntInRange (pendingReads (peer w')))
  ∧ (∃ w', PostApply {| appliedIndex := 10; truncatedIndex_ := 5 |} 5 false
             {| am_sizeDiffHint := 0; am_deleteKeysHint := 0;
                am_writtenBytes := 0; am_writtenKeys := 0 |}
             (world (withPendingRead 1 (leaderPeer healthy3)) 100) = Ok (false, w')
           ∧ pendingReads (peer w')
             = {| idAllocator := 1; reads := []; readyCnt := 0 |})
  ∧ (∃ w', PostApply {| appliedIndex := 10; truncatedIndex_ := 5 |} 5 false
             {| am_sizeDiffHint := 0; am_deleteKeysHint := 0;
                am_writtenBytes := 0; am_writtenKeys := 0 |}
             (world (withPendingRead 1 splittingPeer) 100) = Ok (false, w')
           ∧ pendingReads (peer w')
             = {| idAllocator := 1; reads := [pendingRead]; readyCnt := 1 |}).
Proof.
  assert (readyCntInRange (pendingReads (withPendingRead 0 (leaderPeer healthy3))))
    as Hq by (unfold readyCntInRange; cbn; lia).
  split; [exact Hq|].
  destruct (@readyCnt_in_range Raft _ _) as (_ & _ & _ & Hclear & _ & _ & Hpost & _).
  split; [|split].
  - destruct (Hclear 5 (world (withPendingRead 0 (leaderPeer healthy3)) 100) Hq)
      as (w' & Hrun & Hq' & Hr').
    exists w'. split; [exact Hrun|]. split; [rewrite Hq'; reflexivity | exact Hr'].
  - assert (∃ w', PostApply {| appliedIndex := 10; truncatedIndex_ := 5 |} 5 false
                    {| am_sizeDiffHint := 0; am_deleteKeysHint := 0;
                       am_writtenBytes := 0; am_writtenKeys := 0 |}
                    (world (withPendingRead 1 (leaderPeer healthy3)) 100)
                  = Ok (false, w')) as (w' & Hrun)
      by (eexists; vm_compute; reflexivity).
    exists w'. split; [exact Hrun|].
    destruct (Hpost _ _ _ _ _ _ _ Hrun) as ((_ & Hdrained) & _). exact Hdrained.
  - assert (∃ w', PostApply {| appliedIndex := 10; truncatedIndex_ := 5 |} 5 false
                    {| am_sizeDiffHint := 0; am_deleteKeysHint := 0;
                       am_writtenBytes := 0; am_writtenKeys := 0 |}
                    (world (withPendingRead 1 splittingPeer) 100)
                  = Ok (false, w')) as (w' & Hrun)
      by (eexists; vm_compute; reflexivity).
    exists w'. split; [exact Hrun|].
    destruct (Hpost _ _ _ _ _ _ _ Hrun) as (Hkept & _). exact Hkept.
Defined.
End Concrete.

(** * More properties of the controller *)

(** ** The proposal queue *)

Section ProposalQueueFacts.
Context {R : Type} {raftLib : RaftLib R} {deps : Deps}.

Lemma findProposeTime_loop_spec (index term : Z) (queue : list ProposalMeta) :
  ∃ dropped,
    queue = dropped ++ (findProposeTime_loop queue index term).2
    ∧ Forall (λ meta, pm_Term meta ≤ term) dropped
    ∧ ((∃ skipped meta,
          dropped = skipped ++ [meta]
          ∧ proposedAt index term meta
          ∧ Forall (λ meta, ¬ proposedAt index term meta) skipped
          ∧ (findProposeTime_loop queue index term).1 = RenewLeaseTime meta)
       ∨ (Forall (λ meta, ¬ proposedAt index term meta) dropped
          ∧ (findProposeTime_loop queue index term).1 = None
          ∧ match (findProposeTime_loop queue index term).2 with
            | [] => True
            | meta :: _ => term < pm_Term meta
            end)).
Proof.
  induction queue as [|meta rest IH].
  - exists []. split; [done|]. split; [done|]. right. done.
  - cbn [findProposeTime_loop].
    destruct (Z.ltb_spec term (pm_Term meta)) as [Hlater|Hle].
    + exists []. split; [done|]. split; [done|]. right. done.
    + destruct (Z.eqb_spec (pm_Index meta) index) as [Hi|Hi];
        [destruct (Z.eqb_spec (pm_Term meta) term) as [Ht|Ht]|]; cbn [andb fst snd].
      * exists [meta]. split; [done|]. split; [by constructor|].
        left. exists [], meta. split; [done|]. split; [by split|]. done.
      * destruct IH as (dropped & Hq & Hterms & Hcase).
        exists (meta :: dropped). split; [by rewrite Hq at 1|].
        split; [by constructor|].
        destruct Hcase as [(skipped & m & -> & Hm & Hsk & Ht')|(Hno & Hnone & Hrest)].
        -- left. exists (meta :: skipped), m.
           split; [done|]. split; [exact Hm|]. split; [|done].
           constructor; [|done]. intros [_ ?]. done.
        -- right. split; [|done]. constructor; [|done]. intros [_ ?]. done.
      * destruct IH as (dropped & Hq & Hterms & Hcase).
        exists (meta :: dropped). split; [by rewrite Hq at 1|].
        split; [by constructor|].
        destruct Hcase as [(skipped & m & -> & Hm & Hsk & Ht')|(Hno & Hnone & Hrest)].
        -- left. exists (meta :: skipped), m.
           split; [done|]. split; [exact Hm|]. split; [|done].
           constructor; [|done]. intros [? _]. done.
        -- right. split; [|done]. constructor; [|done]. intros [? _]. done.
Qed.

(** X1: [findProposeTime] drops proposals from the front of the queue, none of
    a later term than asked for: either up to and including the first one
    proposed at the index and term asked for, whose renew time it returns, or
    (returning nil) up to the first proposal of a later term or the end of
    the queue when there is none. *)
Theorem findProposeTime_pops_prefix (index term : Z) (w : World R) :
  ∃ t dropped rest,
    findProposeTime index term w = Ok (t, withPeer (set_proposals rest (peer w)) w)
    ∧ proposals (peer w) = dropped ++ rest
    ∧ Forall (λ meta, pm_Term meta ≤ term) dropped
    ∧ ((∃ skipped meta,
          dropped = skipped ++ [meta]
          ∧ proposedAt index term meta
          ∧ Forall (λ meta, ¬ proposedAt index term meta) skipped
          ∧ t = RenewLeaseTime meta)
       ∨ (Forall (λ meta, ¬ proposedAt index term meta) dropped
          ∧ t = None
          ∧ match rest with
            | [] => True
            | meta :: _ => term < pm_Term meta
            end)).
Proof.
  destruct (findProposeTime_loop_spec index term (proposals (peer w)))
    as (dropped & Hq & Hterms & Hcase).
  unfold findProposeTime. mrun.
  destruct (findProposeTime_loop (proposals (peer w)) index term) as [t rest].
  exists t, dropped, rest. cbn [fst snd] in *. done.
Qed.
End ProposalQueueFacts.

(** ** Request ids *)

(** X2: the context given to the consensus node for a read has 8 bytes, and two
    reads whose ids are in the range of [uint64] have the same context only
    if they have the same id. *)
Theorem binaryID_injective (r1 r2 : ReadIndexRequest) :
  0 ≤ id r1 < 2 ^ 64 → 0 ≤ id r2 < 2 ^ 64 →
  length (binaryID r1) = 8%nat
  ∧ (binaryID r1 = binaryID r2 → id r1 = id r2).
Proof.
  intros H1 H2. split; [reflexivity|]. unfold binaryID. intros Heq.
  rewrite <- (BigEndian_Uint64_PutUint64 (id r1)) by done.
  rewrite <- (BigEndian_Uint64_PutUint64 (id r2)) by done.
  by rewrite Heq.
Qed.

(** ** Request inspection by content *)

Section InspectContent.
Context {I : Type} {inspector : RequestInspector I}.

Lemma Inspect_scan_classifies (reqs : list CmdType) (hasRead hasWrite : bool) :
  hasRead && hasWrite = false →
  match Inspect_scan reqs hasRead hasWrite with
  | ScanFail _ =>
      existsb isCorruptCmd reqs
      || ((hasRead || existsb isReadCmd reqs) && (hasWrite || existsb isWriteCmd reqs))
      = true
  | ScanDone hasRead' hasWrite' =>
      existsb isCorruptCmd reqs = false
      ∧ hasRead' = hasRead || existsb isReadCmd reqs
      ∧ hasWrite' = hasWrite || existsb isWriteCmd reqs
      ∧ hasRead' && hasWrite' = false
  end.
Proof.
  revert hasRead hasWrite. induction reqs as [|r rest IH]; intros hasRead hasWrite Hrw.
  - cbn. rewrite !orb_false_r. done.
  - cbn [Inspect_scan existsb].
    destruct r; cbn [isCorruptCmd isReadCmd isWriteCmd orb];
      try (rewrite ?orb_true_r; cbn [orb andb]; done).
    all: try match goal with
         | |- context [if ?a && ?b then _ else _] =>
             destruct (a && b) eqn:Hmix;
               [ cbn [orb andb];
                 repeat match goal with
                        | H : _ && _ = true |- _ => apply andb_prop in H as [? ?]
                        end; subst; cbn [orb andb]; rewrite ?orb_true_r; done
               | specialize (IH _ _ Hmix); destruct (Inspect_scan rest _ _);
                 [ destruct IH as (? & ? & ? & ?); subst;
                   rewrite ?orb_true_r, ?orb_false_r, ?orb_assoc in *;
                   cbn [orb andb] in *; done
                 | rewrite ?orb_true_r, ?orb_false_r in *; cbn [orb andb] in *;
                   done ] ]
         end.
Qed.

(** X3: a request that is not an admin request is classified by its commands
    alone, whatever the inspector: with a corrupt command (Prewrite, Invalid)
    or with reads mixed with writes it is Invalid, with an error; otherwise
    with a write it is ProposeNormal; otherwise it is a read, local or by
    read index.  Only a read consults the inspector. *)
Theorem Inspect_classifies (i i' : I) (req : RaftCmdRequest)
    (policy : RequestPolicy) (err : option Error) :
  AdminReq req = None →
  Inspect i req = Ok ((policy, err), i') →
  let reqs := Requests req in
  if existsb isCorruptCmd reqs || (existsb isReadCmd reqs && existsb isWriteCmd reqs)
  then policy = RequestPolicyInvalid ∧ is_Some err ∧ i' = i
  else if existsb isWriteCmd reqs
  then policy = RequestPolicyProposeNormal ∧ err = None ∧ i' = i
  else (policy = RequestPolicyReadLocal ∨ policy = RequestPolicyReadIndex)
       ∧ err = None.
Proof.
  intros Hadmin Hrun. cbv zeta. unfold Inspect in Hrun. rewrite Hadmin in Hrun.
  rewrite bool_decide_false in Hrun by (by intros [? ?]).
  pose proof (Inspect_scan_classifies (Requests req) false false eq_refl) as Hscan.
  destruct (Inspect_scan (Requests req) false false) as [hasRead hasWrite|e].
  - destruct Hscan as (Hcorrupt & -> & -> & Hmix). cbn [orb] in *.
    rewrite Hcorrupt, Hmix. cbn [orb].
    destruct (existsb isWriteCmd (Requests req)); [by simplify_eq|].
    destruct (from_option ReadQuorum false (Header req)); [simplify_eq; eauto|].
    destruct (negb (hasAppliedToCurrentTerm i)); [simplify_eq; eauto|].
    destruct (inspectLease i) as [[state i'']|msg]; [|done]. cbn in Hrun.
    destruct state; simplify_eq; eauto.
  - cbn [orb] in Hscan. rewrite Hscan. simplify_eq. eauto.
Qed.
End InspectContent.

(** ** What a proposal carries *)

Section PreProposeFacts.
Context {R : Type} {raftLib : RaftLib R} {deps : Deps}.

(** X4: the context [PrePropose] builds says how the request must be treated:
    it has the sync-log flag exactly when [getSyncLogFromRequest] asks for
    it, the split flag exactly for the Split and BatchSplit admin commands,
    and the prepare-merge flag exactly for a request with a PrepareMerge
    body; and it survives being written to an entry and read back. *)
Theorem PrePropose_flags (p : Peer R) (cfg : Config) (rlog rlog' : RaftLog)
    (req : RaftCmdRequest) (ctx : ProposalContext) :
  GetRaftCmdRequest rlog = Some req →
  PrePropose p cfg rlog = Ok (rlog', inr ctx) →
  contains ctx ProposalContextSyncLog = getSyncLogFromRequest req
  ∧ contains ctx ProposalContextSplit = isSplitCmd (adminCmdType req)
  ∧ contains ctx ProposalContextPrepareMerge
    = bool_decide (is_Some (AdminReq req ≫= PrepareMerge))
  ∧ NewProposalContextFromBytes (ToBytes ctx) = Ok (Some ctx).
Proof.
  intros Hreq Hrun. unfold PrePropose in Hrun. rewrite Hreq in Hrun.
  unfold adminCmdType, getSyncLogFromRequest in *.
  destruct (AdminReq req) as [a|] eqn:Ha; cbn [fmap option_fmap option_map mbind option_bind].
  - destruct (PrepareMerge a) as [pmr|] eqn:Hpm.
    + destruct (preProposePrepareMerge p cfg req) as [[e|req']|msg]; cbn in Hrun;
        [done| |done].
      destruct (admin_CmdType a); simplify_eq; vm_compute; done.
    + destruct (admin_CmdType a); simplify_eq; vm_compute; done.
  - destruct (GetSyncLog (Header req)); simplify_eq; vm_compute; done.
Qed.
End PreProposeFacts.

(** ** The size test of the merge gap *)

Section SizeTest.

(** An integer below 2^53 is a [float64] as it is. *)
Lemma roundNearestEven_exact (m e : Z) :
  0 ≤ m < 2 ^ 53 → roundNearestEven m e = {| significand := m; exponent := e |}.
Proof.
  intros [Hm Hlt]. unfold roundNearestEven. cbv zeta.
  destruct (Z.leb_spec (Z.log2 m + 1 - 53) 0) as [|Hs]; [done|].
  exfalso. assert (0 < m) as Hpos.
  { destruct (decide (m = 0)) as [->|]; [|lia]. cbn in Hs. lia. }
  apply (Z.log2_lt_pow2 m 53 Hpos) in Hlt. lia.
Qed.

(** Rounding a larger integer keeps 53 bits: the result is at least the
    integer cut to 53 bits and at most half a unit in the last place above
    the integer. *)
Lemma roundNearestEven_spec (m e : Z) :
  2 ^ 53 ≤ m →
  let s := Z.log2 m - 52 in
  let f := roundNearestEven m e in
  1 ≤ s
  ∧ exponent f = e + s
  ∧ m / 2 ^ s ≤ significand f ≤ 2 ^ 53
  ∧ 2 ^ 52 ≤ significand f
  ∧ 2 * significand f * 2 ^ s ≤ 2 * m + 2 ^ s.
Proof.
  intros Hm. cbv zeta.
  assert (0 < m) as Hpos by lia.
  pose proof (Z.log2_spec m Hpos) as [Hlo Hhi].
  assert (53 ≤ Z.log2 m) as Hlog by (apply Z.log2_le_pow2; lia).
  unfold roundNearestEven. cbv zeta.
  replace (Z.log2 m + 1 - 53) with (Z.log2 m - 52) by lia.
  set (s := Z.log2 m - 52) in *.
  destruct (Z.leb_spec s 0) as [|_]; [lia|].
  cbn [significand exponent].
  assert (0 < 2 ^ s) as Hs by (apply Z.pow_pos_nonneg; lia).
  assert (2 ^ Z.log2 m = 2 ^ 52 * 2 ^ s) as Hsplit.
  { rewrite <- Z.pow_add_r by lia. f_equal. lia. }
  assert (2 ^ Z.succ (Z.log2 m) = 2 ^ 53 * 2 ^ s) as Hsplit'.
  { rewrite <- Z.pow_add_r by lia. f_equal. lia. }
  assert (2 ^ s = 2 * 2 ^ (s - 1)) as Hhalf.
  { rewrite <- (Z.pow_succ_r 2 (s - 1)) by lia. f_equal. lia. }
  pose proof (Z.div_mod m (2 ^ s) ltac:(lia)) as Hdm.
  pose proof (Z.mod_pos_bound m (2 ^ s) Hs) as Hr.
  assert (2 ^ 52 ≤ m / 2 ^ s) as Hq by (apply Z.div_le_lower_bound; lia).
  assert (m / 2 ^ s < 2 ^ 53) as Hq' by (apply Z.div_lt_upper_bound; lia).
  split; [lia|]. split; [done|].
  destruct (Z.ltb_spec (2 ^ (s - 1)) (m mod 2 ^ s)); cbn [orb].
  - split; [lia|]. split; [lia|]. nia.
  - destruct (Z.eqb_spec (m mod 2 ^ s) (2 ^ (s - 1))); cbn [andb].
    + destruct (Z.odd _); (split; [lia|]); (split; [lia|]); nia.
    + split; [lia|]. split; [lia|]. nia.
Qed.

(** For a limit below 2^49 the float64 test decides exactly whether the size
    is above nine tenths of the limit. *)
Lemma exceedsNineTenths_spec (entrySize limit : Z) :
  0 ≤ entrySize → 0 ≤ limit < 2 ^ 49 →
  exceedsNineTenths entrySize limit = (9 * limit <? 10 * entrySize).
Proof.
  intros Hsize [Hlimit Hbound].
  unfold exceedsNineTenths, float64_of_int, float64_mul.
  rewrite (roundNearestEven_exact limit) by lia.
  cbn [significand exponent nineTenths].
  set (P := limit * 8106479329266893).
  assert (10 * P = 9 * limit * 2 ^ 53 + 2 * limit) as HP by (unfold P; lia).
  assert (0 ≤ P < 2 ^ 102) as HPb by (unfold P; lia).
  assert (∃ F s, roundNearestEven P (0 + -53) = {| significand := F; exponent := s - 53 |}
                 ∧ 0 ≤ s ≤ 49 ∧ P / 2 ^ s ≤ F ≤ 2 ^ 53
                 ∧ 2 * F * 2 ^ s ≤ 2 * P + 2 ^ s - 1 + (if s =? 0 then 0 else 1))
    as (F & s & -> & Hs & HF & Hup).
  { destruct (Z.lt_ge_cases P (2 ^ 53)) as [Hsmall|Hbig].
    - exists P, 0. rewrite roundNearestEven_exact by lia.
      split; [done|]. split; [lia|]. rewrite Z.div_1_r. cbn. lia.
    - destruct (roundNearestEven_spec P (0 + -53) Hbig) as (Hs1 & He & Hq & _ & Hup).
      exists (significand (roundNearestEven P (0 + -53))), (Z.log2 P - 52).
      split; [destruct (roundNearestEven _ _); cbn in *; f_equal; lia|].
      assert (Z.log2 P < 102) by (apply Z.log2_lt_pow2; lia).
      split; [lia|]. split; [done|].
      destruct (Z.eqb_spec (Z.log2 P - 52) 0); lia. }
  assert (0 < 2 ^ s) as Hpow by (apply Z.pow_pos_nonneg; lia).
  assert (2 ^ s ≤ 2 ^ 49) as Hpow' by (apply Z.pow_le_mono_r; lia).
  assert (2 ^ 53 = 2 ^ (53 - s) * 2 ^ s) as Hsplit.
  { rewrite <- Z.pow_add_r by lia. f_equal. lia. }
  assert (0 < 2 ^ (53 - s)) as Hpow2 by (apply Z.pow_pos_nonneg; lia).
  unfold float64_gt.
  destruct (Z.lt_ge_cases entrySize (2 ^ 53)) as [Hsmall|Hbig].
  - rewrite roundNearestEven_exact by lia. cbn [significand exponent].
    rewrite Z.min_r by lia.
    replace (s - 53 - (s - 53)) with 0 by lia.
    replace (0 - (s - 53)) with (53 - s) by lia.
    rewrite Z.pow_0_r, Z.mul_1_r.
    destruct (Z.ltb_spec (9 * limit) (10 * entrySize)) as [Hgt|Hle].
    + apply Z.ltb_lt.
      destruct (Z.lt_ge_cases F (entrySize * 2 ^ (53 - s))) as [|Hge]; [done|exfalso].
      assert (entrySize * 2 ^ 53 ≤ F * 2 ^ s) as Hge' by (rewrite Hsplit; nia).
      destruct (Z.eqb_spec s 0) as [->|]; [cbn in *; lia|].
      assert (2 ^ s = 2 * 2 ^ (s - 1)) as Hhalf.
      { rewrite <- (Z.pow_succ_r 2 (s - 1)) by lia. f_equal. lia. }
      assert (2 ^ (s - 1) ≤ 2 ^ 48) by (apply Z.pow_le_mono_r; lia).
      lia.
    + apply Z.ltb_ge.
      assert (entrySize * 2 ^ (53 - s) ≤ P / 2 ^ s); [|lia].
      apply Z.div_le_lower_bound; [lia|]. nia.
  - destruct (roundNearestEven_spec entrySize 0 Hbig) as (Hs1 & He & _ & Hq & _).
    destruct (roundNearestEven entrySize 0) as [n en]. cbn [significand exponent] in *.
    rewrite Z.min_r by lia.
    replace (s - 53 - (s - 53)) with 0 by lia.
    rewrite Z.pow_0_r, Z.mul_1_r.
    assert (2 ^ 5 ≤ 2 ^ (en - (s - 53))) by (apply Z.pow_le_mono_r; lia).
    transitivity true; [apply Z.ltb_lt; nia|].
    symmetry. apply Z.ltb_lt. lia.
Qed.

Lemma dataSize_nonneg (ents : list Entry) : 0 ≤ dataSize ents.
Proof.
  induction ents as [|entry rest IH]; [done|].
  cbn [dataSize foldr]. fold (dataSize rest). lia.
Qed.
End SizeTest.

(** ** The log gap of a merge *)

Section MergeGap.
Context {R : Type} {raftLib : RaftLib R} {deps : Deps}.

Lemma GetMinProgress_fold (progress : gmap Z Progress) :
  let r := map_fold (λ (_ : Z) pr '(_, minMatch),
                       (true, if Match pr <? minMatch then Match pr else minMatch))
                    (false, MaxUint64) progress in
  (progress = ∅ → r = (false, MaxUint64))
  ∧ (progress ≠ ∅ → r.1 = true)
  ∧ r.2 ≤ MaxUint64
  ∧ (∀ i x, progress !! i = Some x → r.2 ≤ Match x)
  ∧ (r.2 = MaxUint64 ∨ ∃ i x, progress !! i = Some x ∧ r.2 = Match x).
Proof.
  cbv zeta.
  apply (map_fold_weak_ind
           (λ (r : bool * Z) (m : gmap Z Progress),
              (m = ∅ → r = (false, MaxUint64))
              ∧ (m ≠ ∅ → r.1 = true)
              ∧ r.2 ≤ MaxUint64
              ∧ (∀ i x, m !! i = Some x → r.2 ≤ Match x)
              ∧ (r.2 = MaxUint64 ∨ ∃ i x, m !! i = Some x ∧ r.2 = Match x))).
  - split; [done|]. split; [done|]. split; [done|]. split; [|by left].
    intros i x Hix. by rewrite lookup_empty in Hix.
  - intros i x m [b minMatch] Hnone (_ & _ & Hmax & Hleast & Hattained). cbn [fst snd] in *.
    split; [intros Hempty; by apply insert_non_empty in Hempty|].
    split; [done|].
    destruct (Z.ltb_spec (Match x) minMatch) as [Hlt|Hge].
    + split; [lia|]. split.
      * intros j y Hjy. apply lookup_insert_Some in Hjy as [[_ <-]|[_ Hjy]]; [lia|].
        apply Hleast in Hjy. lia.
      * right. exists i, x. by rewrite lookup_insert_eq.
    + split; [done|]. split.
      * intros j y Hjy. apply lookup_insert_Some in Hjy as [[_ <-]|[_ Hjy]]; [lia|].
        by apply Hleast in Hjy.
      * destruct Hattained as [Hm|(j & y & Hjy & Hm)]; [by left|].
        right. exists j, y. split; [|done].
        rewrite lookup_insert_ne; [done|]. intros ->. congruence.
Qed.

(** X5: [GetMinProgress] is 0 for an empty progress map and otherwise the least
    [Match] in it: it is below every [Match], and it is attained when the
    matches are in the range of [uint64]. *)
Theorem GetMinProgress_least (p : Peer R) :
  let progress := Status_Progress (RaftGroup p) in
  (progress = ∅ → GetMinProgress p = 0)
  ∧ (∀ id pr, progress !! id = Some pr → GetMinProgress p ≤ Match pr)
  ∧ (progress ≠ ∅ →
     (∀ id pr, progress !! id = Some pr → Match pr ≤ MaxUint64) →
     ∃ id pr, progress !! id = Some pr ∧ GetMinProgress p = Match pr).
Proof.
  cbv zeta. unfold GetMinProgress.
  pose proof (GetMinProgress_fold (Status_Progress (RaftGroup p))) as Hfold.
  cbv zeta in Hfold.
  destruct (map_fold _ _ _) as [hasProgress minMatch]. cbn [fst snd] in Hfold.
  destruct Hfold as (Hempty & Hsome & Hmax & Hleast & Hattained).
  split; [|split].
  - intros He. specialize (Hempty He). by simplify_eq.
  - intros i pr Hi. destruct hasProgress; cbn [negb].
    + by apply Hleast in Hi.
    + destruct (decide (Status_Progress (RaftGroup p) = ∅)) as [He|Hne].
      * rewrite He in Hi. by rewrite lookup_empty in Hi.
      * by specialize (Hsome Hne).
  - intros Hne Hrange. rewrite (Hsome Hne). cbn [negb].
    destruct Hattained as [Hm|Hat]; [|done].
    apply map_choose in Hne as (i & x & Hix). exists i, x. split; [done|].
    pose proof (Hleast _ _ Hix). pose proof (Hrange _ _ Hix). lia.
Qed.

Lemma preProposePrepareMerge_loop_spec (ents : list Entry) (entrySize size : Z) :
  preProposePrepareMerge_loop ents entrySize = Ok (inr size) →
  Forall mergeableEntry ents ∧ size = entrySize + dataSize ents.
Proof.
  revert entrySize. induction ents as [|entry rest IH]; intros entrySize Hrun.
  - cbn in *. simplify_eq. split; [done|lia].
  - cbn [preProposePrepareMerge_loop] in Hrun. cbn [dataSize foldr].
    fold (dataSize rest).
    case_bool_decide as Htype; [done|].
    destruct (Nat.eqb_spec (length (Data entry)) 0) as [Hlen|Hlen].
    + apply IH in Hrun as [Hrest ->]. split; [|lia].
      constructor; [|done]. split; [done|]. left. by apply nil_length_inv.
    + destruct (Unmarshal (Data entry)) as [cmd|] eqn:Hcmd; [|done].
      destruct (AdminReq cmd) as [a|] eqn:Ha.
      * destruct (admin_CmdType a) eqn:Htp; try done;
          apply IH in Hrun as [Hrest ->]; (split; [|lia]);
          (constructor; [|done]); (split; [done|]); right; exists cmd;
          (split; [done|]); right; exists a; (split; [done|]); eauto.
      * apply IH in Hrun as [Hrest ->]. split; [|lia].
        constructor; [|done]. split; [done|]. right. exists cmd. eauto.
Qed.

(** X6: when [preProposePrepareMerge] accepts, every member has replicated
    something, the log gap from the least match to the last index is within
    [MergeMaxLogGap], the entries of the gap are fetched and contain neither
    a conf change nor an admin command that could change the epoch, their
    size passes the float64 test of the source, which for an entry limit
    below 2^49 says exactly that ten times the size is at most nine times
    the limit, and the request comes back with [MinIndex] set to the least
    match plus one and is otherwise as it was. *)
Theorem preProposePrepareMerge_accepts (p : Peer R) (cfg : Config)
    (req req' : RaftCmdRequest) :
  let progress := Status_Progress (RaftGroup p) in
  (∀ id pr, progress !! id = Some pr → 0 ≤ Match pr) →
  preProposePrepareMerge p cfg req = Ok (inr req') →
  (∀ id pr, progress !! id = Some pr → 0 < Match pr)
  ∧ wrap64 (RaftLog_LastIndex (RaftGroup p) - GetMinProgress p) ≤ MergeMaxLogGap cfg
  ∧ (∃ ents,
       RaftLog_Entries (RaftGroup p) (wrap64 (GetMinProgress p + 1)) MaxUint64
       = inr ents
       ∧ Forall mergeableEntry ents
       ∧ exceedsNineTenths (dataSize ents) (RaftEntryMaxSize cfg) = false
       ∧ (0 ≤ RaftEntryMaxSize cfg < 2 ^ 49 →
          10 * dataSize ents ≤ 9 * RaftEntryMaxSize cfg))
  ∧ AdminReq req' ≫= PrepareMerge
    = Some {| MinIndex := wrap64 (GetMinProgress p + 1) |}
  ∧ Header req' = Header req
  ∧ Requests req' = Requests req.
Proof.
  cbv zeta. intros Hnonneg Hrun. unfold preProposePrepareMerge in Hrun.
  destruct (Z.eqb_spec (GetMinProgress p) 0) as [Hzero|Hnz]; [done|].
  destruct (Z.ltb_spec (MergeMaxLogGap cfg)
              (wrap64 (RaftLog_LastIndex (RaftGroup p) - GetMinProgress p)))
    as [Hgap|Hgap]; [done|]. cbn [orb] in Hrun.
  destruct (RaftLog_Entries _ _ _) as [e|ents] eqn:Hents; [done|].
  destruct (preProposePrepareMerge_loop ents 0) as [[e|size]|msg] eqn:Hloop;
    cbn in Hrun; [done| |done].
  apply preProposePrepareMerge_loop_spec in Hloop as [Hmergeable ->].
  destruct (exceedsNineTenths _ _) eqn:Hsize; [done|].
  destruct (AdminReq req) as [a|]; [|done]. cbn in Hrun.
  destruct (PrepareMerge a); [|done]. cbn in Hrun. simplify_eq. cbn.
  split; [|split; [done|split; [|done]]].
  - intros i pr Hi. pose proof (Hnonneg _ _ Hi) as Hpr.
    pose proof (GetMinProgress_fold (Status_Progress (RaftGroup p))) as Hfold.
    cbv zeta in Hfold. unfold GetMinProgress in Hnz.
    destruct (map_fold _ _ _) as [hasProgress minMatch]. cbn [fst snd] in Hfold.
    destruct Hfold as (_ & Hsome & _ & Hleast & Hattained).
    rewrite Hsome in Hnz
      by (intros He; rewrite He in Hi; by rewrite lookup_empty in Hi).
    cbn [negb] in Hnz. pose proof (Hleast _ _ Hi).
    destruct Hattained as [Hm'|(j & y & Hjy & Hm')].
    + unfold MaxUint64 in Hm'. lia.
    + pose proof (Hnonneg _ _ Hjy). lia.
  - exists ents. replace (0 + dataSize ents) with (dataSize ents) in Hsize by lia.
    split; [done|]. split; [done|]. split; [done|]. intros Hlimit.
    rewrite exceedsNineTenths_spec in Hsize by (pose proof (dataSize_nonneg ents); lia).
    apply Z.ltb_ge in Hsize. lia.
Qed.
End MergeGap.

(** ** Sending *)

Section SendOrder.
Context {R : Type} {raftLib : RaftLib R} {deps : Deps}.

(** X7: a lookup that finds a peer leaves it in the cache under the id asked
    for, so that the same lookup again is answered from the cache and
    changes nothing; a peer that was not cached before comes from the region
    and has the id asked for.  A lookup that finds nothing changes
    nothing. *)
Theorem getPeerFromCache_caches (peerID : Z) (w w' : World R)
    (found : option PeerMeta) :
  getPeerFromCache peerID w = Ok (found, w') →
  match found with
  | Some pm =>
      peerCache (peer w') !! peerID = Some pm
      ∧ getPeerFromCache peerID w' = Ok (Some pm, w')
      ∧ (peerCache (peer w) !! peerID = None →
         Id pm = peerID ∧ pm ∈ Peers (PeerRegion (peer w)))
  | None =>
      w' = w
      ∧ peerCache (peer w) !! peerID = None
      ∧ ∀ pm, pm ∈ Peers (PeerRegion (peer w)) → Id pm ≠ peerID
  end.
Proof.
  unfold getPeerFromCache. mrun. cbn [peer].
  destruct (peerCache (peer w) !! peerID) as [pm|] eqn:Hcache.
  - intros Hrun. simplify_eq. rewrite Hcache. done.
  - destruct (find _ _) as [pm|] eqn:Hfind; intros Hrun; simplify_eq.
    + apply find_some in Hfind as [Hin Hid]. apply bool_decide_eq_true in Hid.
      cbn [peer insertPeerCache set_peerCache peerCache]. rewrite Hid.
      rewrite lookup_insert_eq. split; [done|]. split; [done|].
      intros _. split; [done|]. by apply list_elem_of_In.
    + split; [done|]. split; [done|]. intros pm Hin Hid.
      apply list_elem_of_In in Hin.
      eapply find_none in Hfind; [|exact Hin]. cbn in Hfind.
      by apply bool_decide_eq_false in Hfind.
Qed.

Lemma sendRaftMessage_trace (msg : Message) (trans : Transport)
    (w w1 : World R) (e : option Error) :
  sendRaftMessage msg trans w = Ok (e, w1) →
  regionID (peer w1) = regionID (peer w)
  ∧ Meta (peer w1) = Meta (peer w)
  ∧ ((e = Some (ErrMsg "failed to lookup recipient peer") ∧ trace w1 = trace w)
     ∨ ∃ m, trace w1 = trace w ++ [EvTransportSend m]
            ∧ e = trans m
            ∧ rm_Message m = msg
            ∧ rm_RegionId m = regionID (peer w)
            ∧ FromPeer m = Meta (peer w)).
Proof.
  unfold sendRaftMessage, getPeerFromCache, mbind, M_bind, getPeer, liftR,
    modifyPeer, emit, mret, M_ret.
  repeat (case_match; simplify_eq; cbn in *); intros; simplify_eq; cbn;
    (split; [done|]); (split; [done|]); first [by left | right; eexists; done].
Qed.

(** X8: [Send] gives the messages to the transport in order, each wrapped with
    the region id and the sending peer, and stops at the first one that
    fails: what was given to the transport is a prefix of the messages, all of
    them when [Send] returns nil, and every message but the last one given
    was accepted. *)
Theorem Send_in_order (trans : Transport) (msgs : list Message) (w w' : World R)
    (err : option Error) :
  Send trans msgs w = Ok (err, w') →
  ∃ sent,
    trace w' = trace w ++ transportSends sent
    ∧ rm_Message <$> sent `prefix_of` msgs
    ∧ (err = None → rm_Message <$> sent = msgs)
    ∧ Forall (λ m, rm_RegionId m = regionID (peer w) ∧ FromPeer m = Meta (peer w)) sent
    ∧ ∀ i m, sent !! i = Some m → (S i < length sent)%nat ∨ err = None → trans m = None.
Proof.
  revert w. induction msgs as [|msg rest IH]; intros w Hrun.
  - injection Hrun as <- <-. exists []. cbn. rewrite app_nil_r.
    split; [done|]. split; [done|]. split; [done|]. split; [done|]. done.
  - cbn [Send] in Hrun. apply bind_inv in Hrun as (e & w1 & Hsend & Hrun).
    apply sendRaftMessage_trace in Hsend as (Hreg & Hmeta & Hsent).
    destruct e as [e|].
    + injection Hrun as <- <-.
      destruct Hsent as [[_ Htr]|(m & Htr & He & Hm & Hr & Hf)].
      * exists []. cbn. rewrite app_nil_r.
        split; [done|]. split; [apply prefix_nil|]. split; [done|]. split; [done|]. done.
      * exists [m]. split; [done|]. split; [cbn; rewrite Hm; by apply prefix_cons, prefix_nil|].
        split; [done|]. split; [by constructor|].
        intros [|i] m' Hi; [|done]. cbn in Hi. intros [Hlt|Hnone]; [cbn in Hlt; lia|done].
    + destruct Hsent as [[? _]|(m & Htr & He & Hm & Hr & Hf)]; [done|].
      apply bind_inv in Hrun as ([] & w2 & Hsus & Hrun).
      assert (trace w2 = trace w1 ∧ regionID (peer w2) = regionID (peer w1)
              ∧ Meta (peer w2) = Meta (peer w1)) as (Htr2 & Hreg2 & Hmeta2).
      { destruct (MsgType msg); mrun_in Hsus; by simplify_eq. }
      apply IH in Hrun as (sent & Htr' & Hpre & Hall & Hwrap & Hacc).
      exists (m :: sent). split.
      { rewrite Htr', Htr2, Htr. unfold transportSends. cbn.
        by rewrite <- app_assoc. }
      split; [cbn; rewrite Hm; by apply prefix_cons|].
      split; [intros Hn; cbn; rewrite Hm; by rewrite (Hall Hn)|].
      split.
      { constructor; [done|]. eapply Forall_impl; [exact Hwrap|].
        cbn. intros m' [? ?]. split; congruence. }
      intros [|i] m' Hi Hcase; cbn in Hi.
      * by simplify_eq.
      * eapply Hacc; [exact Hi|]. destruct Hcase as [Hlt|Hn]; [left|by right].
        cbn in Hlt. lia.
Qed.
End SendOrder.

(** ** Answers to reads *)

Section ReadAnswers.
Context {R : Type} {raftLib : RaftLib R} {deps : Deps}.

(** X9: [ClearUncommitted] answers the commands of the reads that are not
    counted ready, and only those, with a stale-command error of the term
    given, in queue order; the clock and the rest of the peer stay as they
    were. *)
Theorem ClearUncommitted_notifies_stale (term : Z) (w w' : World R) :
  ClearUncommitted term w = Ok (tt, w') →
  let q := pendingReads (peer w) in
  readyCntInRange q
  ∧ w' = withTrace (staleNotices term (drop (Z.to_nat (readyCnt q)) (reads q)))
           (withPeer (set_pendingReads
                        (withReads (take (Z.to_nat (readyCnt q)) (reads q)) q)
                        (peer w)) w).
Proof.
  intros Hrun. cbv zeta.
  destruct (ClearUncommitted_spec term w) as [_ Hout]. cbv zeta in Hout.
  assert (readyCntInRange (pendingReads (peer w))) as Hq.
  { destruct (decide (0 ≤ readyCnt (pendingReads (peer w))
                      ≤ Z.of_nat (length (reads (pendingReads (peer w)))))) as [?|Hn];
      [done|]. apply Hout in Hn. by rewrite Hrun in Hn. }
  split; [done|]. destruct Hq as [Hge Hlen].
  unfold ClearUncommitted, ReadIndexQueue.splitAtReady in Hrun.
  apply Z.leb_le in Hge. apply Z.leb_le in Hlen.
  rewrite (bind_Ok _ _ w w (peer w)) in Hrun by reflexivity.
  erewrite bind_Ok in Hrun by (unfold liftR; rewrite Hge, Hlen; reflexivity).
  cbv beta iota in Hrun.
  erewrite bind_Ok in Hrun by reflexivity.
  rewrite (forM_emits _ _
             (λ read, (λ r, EvDone (Cb r) (ErrRespStaleCommand term)) <$> cmds read))
    in Hrun.
  - by injection Hrun as <-.
  - intros read w0.
    rewrite (forM_emits _ _ (λ r, [EvDone (Cb r) (ErrRespStaleCommand term)]))
      by (intros; reflexivity).
    by rewrite bind_singleton_fmap.
Qed.

(** X10: [ReadExecutor.Execute] knows the Snap command only: a local read
    completes exactly when every command of the request is a Snap command,
    and then answers the callback once, with one Snap response per command,
    the current term and no error, and changes nothing else.  A Get makes it
    panic. *)
Theorem readLocal_snap_only (req : RaftCmdRequest) (cb : Callback) (w : World R) :
  if forallb (λ c, bool_decide (c = CmdType_Snap)) (Requests req)
  then readLocal req cb w
       = Ok (tt, withTrace
                   [EvDone cb {| resp_Error := None;
                                 resp_CurrentTerm := Term (peer w);
                                 Responses := Requests req;
                                 resp_TransferLeader := false |}] w)
  else isPanic (readLocal req cb w) = true.
Proof.
  assert (∀ reqs resps,
            if forallb (λ c, bool_decide (c = CmdType_Snap)) reqs
            then Execute_loop reqs resps = Ok (resps ++ reqs)
            else isPanic (Execute_loop reqs resps) = true) as Hloop.
  { induction reqs as [|c reqs IH]; intros resps.
    - cbn. by rewrite app_nil_r.
    - cbn [forallb Execute_loop]. destruct c; cbn [bool_decide andb]; try done.
      rewrite bool_decide_true by done. cbn [andb].
      specialize (IH (resps ++ [CmdType_Snap])).
      destruct (forallb _ reqs); [|done]. by rewrite IH, <- app_assoc. }
  specialize (Hloop (Requests req) []).
  unfold readLocal, handleRead, Execute. mrun. cbn [peer].
  destruct (forallb _ (Requests req)).
  - rewrite Hloop. reflexivity.
  - destruct (Execute_loop _ _); [done|reflexivity].
Qed.
End ReadAnswers.

(** ** Destroy that fails *)

Section DestroyFailure.
Context {R : Type} {raftLib : RaftLib R} {deps : Deps}.

(** X11: when [Destroy] returns an error the peer is as it was and nobody was
    answered: either clearing the metadata failed and nothing was written,
    or the write to the KV engine failed and the raft engine was not written,
    or the write to the raft engine failed after the KV engine had taken the
    tombstone.  The KV engine is always written first. *)
Theorem Destroy_failure_answers_nobody (engine : Engines) (keepData : bool)
    (w w' : World R) (err : Error) :
  Destroy engine keepData w = Ok (Some err, w') →
  let p := peer w in
  let kvWB := tombstoneBatch (region_Id (PeerRegion p)) (PendingMergeState p) in
  let raftWB := raftMetaBatch (region_Id (PeerRegion p)) in
  peer w' = p
  ∧ ((clearMeta (Store p) = Some err ∧ trace w' = trace w)
     ∨ (clearMeta (Store p) = None ∧ WriteToKV engine kvWB = Some err
        ∧ trace w' = trace w ++ [EvWriteKV kvWB])
     ∨ (clearMeta (Store p) = None ∧ WriteToKV engine kvWB = None
        ∧ WriteToRaft engine raftWB = Some err
        ∧ trace w' = trace w ++ [EvWriteKV kvWB; EvWriteRaft raftWB])).
Proof.
  cbv zeta. unfold tombstoneBatch, raftMetaBatch, Destroy. intros Hrun.
  rewrite (bind_Ok _ _ w w (peer w)) in Hrun by reflexivity.
  destruct (clearMeta (Store (peer w))) as [e|] eqn:Hmeta.
  { injection Hrun as <- <-. split; [done|]. by left. }
  erewrite bind_Ok in Hrun by reflexivity.
  destruct (WriteToKV engine _) as [e|] eqn:Hkv.
  { injection Hrun as <- <-. split; [done|]. right. left. done. }
  erewrite bind_Ok in Hrun by reflexivity.
  destruct (WriteToRaft engine _) as [e|] eqn:Hraft.
  { injection Hrun as <- <-. split; [done|]. right. right.
    split; [done|]. split; [done|]. split; [done|]. cbn. by rewrite <- app_assoc. }
  exfalso.
  apply bind_inv in Hrun as ([] & w1 & _ & Hrun).
  erewrite bind_Ok in Hrun by apply notify_reads_removed.
  erewrite bind_Ok in Hrun by reflexivity.
  erewrite bind_Ok in Hrun by apply notify_proposals_removed.
  erewrite bind_Ok in Hrun by reflexivity.
  done.
Qed.
End DestroyFailure.

(** ** What a computation leaves alone, collaborators included *)

Section PreservationW.
Context {R : Type}.
Variable J : World R → World R → Prop.
Hypothesis J_refl : ∀ w, J w w.
Hypothesis J_trans : ∀ w1 w2 w3, J w1 w2 → J w2 w3 → J w1 w3.

Lemma preservesW_ret {A} (a : A) : preservesW J (mret a).
Proof. intros w a' w' Hrun. inversion Hrun; subst. apply J_refl. Qed.

Lemma preservesW_bind {A B} (m : M R A) (f : A → M R B) :
  preservesW J m → (∀ a, preservesW J (f a)) → preservesW J (m ≫= f).
Proof.
  intros Hm Hf w b w' Hrun. apply bind_inv in Hrun as (a & w1 & Hm1 & Hf1).
  eapply J_trans; [by eapply Hm | by eapply Hf].
Qed.

Lemma preservesW_getPeer : preservesW J getPeer.
Proof. intros w a w' Hrun. inversion Hrun; subst. apply J_refl. Qed.

Lemma preservesW_modifyPeer (f : Peer R → Peer R) :
  (∀ w, J w (withPeer (f (peer w)) w)) → preservesW J (modifyPeer f).
Proof. intros Hf w a w' Hrun. inversion Hrun; subst. apply Hf. Qed.

Lemma preservesW_emit (e : Event) :
  (∀ w, J w (withTrace [e] w)) → preservesW J (emit e).
Proof. intros He w a w' Hrun. inversion Hrun; subst. apply He. Qed.

Lemma preservesW_Now :
  (∀ w, J w (withTick (S (tick w)) w)) → preservesW J Now.
Proof. intros Ht w a w' Hrun. inversion Hrun; subst. apply Ht. Qed.

Lemma preservesW_liftR {A} (r : Result A) : preservesW J (liftR r).
Proof.
  intros w a w' Hrun. unfold liftR in Hrun. destruct r; [|done].
  inversion Hrun; subst. apply J_refl.
Qed.

Lemma preservesW_panic {A} (msg : string) : preservesW J (@panic R A msg).
Proof. intros w a w' Hrun. done. Qed.

Lemma preservesW_when (b : bool) (m : M R unit) :
  preservesW J m → preservesW J (when_ b m).
Proof. intros Hm. destruct b; [done|]. apply preservesW_ret. Qed.

Lemma preservesW_forM_ {A} (l : list A) (f : A → M R unit) :
  (∀ a, preservesW J (f a)) → preservesW J (forM_ l f).
Proof.
  intros Hf. induction l as [|a l IH]; cbn [forM_].
  - apply preservesW_ret.
  - apply preservesW_bind; [apply Hf | intros _; apply IH].
Qed.

Lemma preservesW_foldM {A S} (f : S → A → M R S) (l : list A) :
  (∀ s a, preservesW J (f s a)) → ∀ s, preservesW J (foldM f s l).
Proof.
  intros Hf. induction l as [|a l IH]; intros s; cbn [foldM].
  - apply preservesW_ret.
  - apply preservesW_bind; [apply Hf | intros s'; apply IH].
Qed.
End PreservationW.

(** Going through a computation built from the primitive actions: [known]
    closes the calls that have a lemma, [prim] the changes of the peer, of
    the clock and of the trace. *)
Ltac walk refl trans known prim :=
  repeat first
    [ known
    | apply (preservesW_ret _ refl)
    | apply (preservesW_getPeer _ refl)
    | apply (preservesW_liftR _ refl)
    | apply preservesW_panic
    | apply (preservesW_when _ refl)
    | apply (preservesW_forM_ _ refl trans); intros
    | apply (preservesW_foldM _ refl trans); intros
    | apply (preservesW_bind _ trans); [|intros]
    | apply preservesW_modifyPeer; intros; prim
    | apply preservesW_emit; intros; prim
    | apply preservesW_Now; intros; prim
    | match goal with
      | |- preservesW _ (match ?x with _ => _ end) => destruct x
      | |- preservesW _ (let '(_, _) := ?x in _) => destruct x
      end ].

Section ApplySchedule.
Context {R : Type} {raftLib : RaftLib R} {deps : Deps}.

Lemma onlyAnswers_refl (w : World R) : onlyAnswers w w.
Proof. exists []. by rewrite app_nil_r. Qed.

Lemma onlyAnswers_trans (w1 w2 w3 : World R) :
  onlyAnswers w1 w2 → onlyAnswers w2 w3 → onlyAnswers w1 w3.
Proof.
  intros (es1 & H1 & Ha1) (es2 & H2 & Ha2). exists (es1 ++ es2).
  split; [by rewrite H2, H1, app_assoc|]. by apply Forall_app.
Qed.

Lemma schedulesNothing_refl (w : World R) : schedulesNothing w w.
Proof. split; [done|]. split; [done|]. split; [done|]. apply onlyAnswers_refl. Qed.

Lemma schedulesNothing_trans (w1 w2 w3 : World R) :
  schedulesNothing w1 w2 → schedulesNothing w2 w3 → schedulesNothing w1 w3.
Proof.
  intros (Ha1 & Hb1 & Hc1 & Hd1) (Ha2 & Hb2 & Hc2 & Hd2).
  split; [congruence|]. split; [congruence|]. split; [congruence|].
  by eapply onlyAnswers_trans.
Qed.

Lemma onlyAnswers_silent (w w' : World R) : trace w' = trace w → onlyAnswers w w'.
Proof. intros Htr. exists []. by rewrite app_nil_r. Qed.

Lemma onlyAnswers_answer (w : World R) (cb : Callback) (resp : RaftCmdResponse) :
  onlyAnswers w (withTrace [EvDone cb resp] w).
Proof. exists [EvDone cb resp]. split; [done|]. constructor; [|done]. by eexists _, _. Qed.

Ltac quiet :=
  split; [done|]; split; [done|]; split; [done|];
  first [ by apply onlyAnswers_silent | apply onlyAnswers_answer ].

Lemma ApplyReads_schedules_nothing (ready : Ready) :
  preservesW (@schedulesNothing R) (ApplyReads ready).
Proof.
  unfold ApplyReads, ApplyReads_ready, ApplyReads_pending, PopFront,
    respondReads, handleRead, ClearUncommitted, NotifyStaleReq,
    MaybeRenewLeaderLease, Done.
  walk (@schedulesNothing_refl) (@schedulesNothing_trans) fail quiet.
Qed.

Lemma silentSchedule_refl (w : World R) : silentSchedule w w.
Proof. by repeat split. Qed.

Lemma silentSchedule_trans (w1 w2 w3 : World R) :
  silentSchedule w1 w2 → silentSchedule w2 w3 → silentSchedule w1 w3.
Proof.
  intros (Ha1 & Hb1 & Hc1 & Hd1) (Ha2 & Hb2 & Hc2 & Hd2).
  repeat split; congruence.
Qed.

(** The rounds of the loop over the committed entries add the size of
    their data to the size hint and touch nothing else of the schedule. *)
Lemma HandleRaftReadyApply_entries_account (entries : list Entry) :
  ∀ (st st' : toBeUpdated) (w w' : World R),
    foldM HandleRaftReadyApply_entry st entries w = Ok (st', w') →
    LastApplyingIdx (peer w') = LastApplyingIdx (peer w)
    ∧ regionID (peer w') = regionID (peer w)
    ∧ trace w' = trace w
    ∧ wrap64 (RaftLogSizeHint (peer w'))
      = wrap64 (RaftLogSizeHint (peer w) + dataSize entries).
Proof.
  induction entries as [|entry rest IH]; intros st st' w w' Hrun.
  - injection Hrun as <- <-. cbn. by rewrite Z.add_0_r.
  - cbn [foldM] in Hrun. apply bind_inv in Hrun as (st1 & w1 & Hentry & Hrest).
    apply IH in Hrest as (Ha & Hb & Hc & Hd).
    unfold HandleRaftReadyApply_entry in Hentry.
    apply bind_inv in Hentry as ([] & w0 & Hsize & Hentry).
    injection Hsize as <-.
    match type of Hentry with
    | ?m _ = _ => assert (preservesW silentSchedule m) as Hsilent
    end.
    { unfold findProposeTime, MaybeRenewLeaderLease.
      walk (@silentSchedule_refl) (@silentSchedule_trans) fail ltac:(by repeat split). }
    apply Hsilent in Hentry as (Ha1 & Hb1 & Hc1 & Hd1).
    cbn in Ha1, Hb1, Hc1, Hd1.
    split; [congruence|]. split; [congruence|]. split; [congruence|].
    rewrite Hd, Hb1. cbn [dataSize foldr]. fold (dataSize rest).
    unfold wrap64. rewrite Zplus_mod_idemp_l. f_equal. lia.
Qed.

(** X12: [HandleRaftReadyApply] hands the committed entries to the apply worker
    once, all of them and before it answers any read, and remembers the
    index of the last one as the last applying index; their data is added to
    the size hint of the log.  With no committed entry nothing is scheduled,
    and while a snapshot is being applied the entries stay in the ready and
    the last applying index becomes the truncated index. *)
Theorem HandleRaftReadyApply_schedules (ready ready' : Ready) (w w' : World R) :
  HandleRaftReadyApply ready w = Ok (ready', w') →
  let entries := CommittedEntries ready in
  regionID (peer w') = regionID (peer w)
  ∧ if IsApplyingSnapshot (peer w) then
      ready' = ready
      ∧ LastApplyingIdx (peer w') = truncatedIndex (Store (peer w))
      ∧ RaftLogSizeHint (peer w') = RaftLogSizeHint (peer w)
      ∧ onlyAnswers w w'
    else
      CommittedEntries ready' = []
      ∧ wrap64 (RaftLogSizeHint (peer w'))
        = wrap64 (RaftLogSizeHint (peer w) + dataSize entries)
      ∧ match last entries with
        | None =>
            LastApplyingIdx (peer w') = LastApplyingIdx (peer w)
            ∧ onlyAnswers w w'
        | Some lastEntry =>
            LastApplyingIdx (peer w') = entry_Index lastEntry
            ∧ ∃ term answers,
                trace w'
                = trace w
                  ++ EvApplyMsg (regionID (peer w))
                       {| apply_regionID := regionID (peer w);
                          apply_term := term;
                          apply_entries := entries |} :: answers
                ∧ Forall isAnswer answers
        end.
Proof.
  intros Hrun. cbv zeta. unfold HandleRaftReadyApply in Hrun.
  rewrite (bind_Ok _ _ w w (peer w)) in Hrun by reflexivity.
  apply bind_inv in Hrun as (r1 & w1 & Hfirst & Hrun).
  apply bind_inv in Hrun as ([] & w2 & Hreads & Hrun).
  apply ApplyReads_schedules_nothing in Hreads as (Ha2 & Hb2 & Hc2 & es & Htr2 & Hes).
  apply bind_inv in Hrun as ([] & w3 & Hadv & Hrun). injection Hadv as <-.
  rewrite (bind_Ok _ _ _ _ _ eq_refl) in Hrun.
  apply bind_inv in Hrun as ([] & w4 & Hwhen & Hrun). injection Hrun as <- <-.
  assert (LastApplyingIdx (peer w4) = LastApplyingIdx (peer w2)
          ∧ RaftLogSizeHint (peer w4) = RaftLogSizeHint (peer w2)
          ∧ regionID (peer w4) = regionID (peer w2)
          ∧ trace w4 = trace w2) as (Ha4 & Hb4 & Hc4 & Htr4).
  { match type of Hwhen with when_ ?b _ _ = _ => destruct b end;
      mrun_in Hwhen; injection Hwhen as <-; done. }
  destruct (IsApplyingSnapshot (peer w)).
  - apply bind_inv in Hfirst as ([] & w0 & Hset & Hret).
    injection Hset as <-. injection Hret as <- <-. cbn in *.
    split; [congruence|]. split; [done|]. split; [congruence|]. split; [congruence|].
    exists es. split; [congruence|done].
  - apply bind_inv in Hfirst as ([] & w0 & Hclear & Hfirst).
    assert (silentSchedule w w0) as (Ha0 & Hb0 & Hc0 & Htr0).
    { match type of Hclear with when_ ?b _ _ = _ => destruct b end;
        mrun_in Hclear; injection Hclear as <-; by repeat split. }
    apply bind_inv in Hfirst as (st' & w5 & Hloop & Hfirst).
    apply HandleRaftReadyApply_entries_account in Hloop as (Ha5 & Hc5 & Htr5 & Hb5).
    apply bind_inv in Hfirst as ([] & w6 & Hlast & Hret).
    injection Hret as <- <-. cbn [CommittedEntries].
    destruct (last (CommittedEntries ready)) as [lastEntry|].
    + apply bind_inv in Hlast as ([] & w7 & Hset & Hlast). injection Hset as <-.
      rewrite (bind_Ok _ _ _ _ _ eq_refl) in Hlast.
      apply bind_inv in Hlast as ([] & w8 & Hurgent & Hlast).
      rewrite (bind_Ok _ _ _ _ _ eq_refl) in Hlast. injection Hlast as <-.
      assert (LastApplyingIdx (peer w8) = entry_Index lastEntry
              ∧ RaftLogSizeHint (peer w8) = RaftLogSizeHint (peer w5)
              ∧ regionID (peer w8) = regionID (peer w5)
              ∧ trace w8 = trace w5) as (Ha8 & Hb8 & Hc8 & Htr8).
      { match type of Hurgent with when_ ?b _ _ = _ => destruct b end;
          mrun_in Hurgent; injection Hurgent as <-; done. }
      cbn in *. split; [congruence|]. split; [done|].
      split; [rewrite Hb4, Hb2, Hb8, Hb5, Hb0; done|].
      split; [congruence|].
      eexists _, es. split; [|done].
      rewrite Htr4, Htr2. cbn. rewrite Htr8, Htr5, Htr0, <- app_assoc.
      cbn. rewrite Hc8, Hc5, Hc0. reflexivity.
    + injection Hlast as <-.
      split; [congruence|]. split; [done|].
      split; [rewrite Hb4, Hb2, Hb5, Hb0; done|].
      split; [congruence|].
      exists es. split; [congruence|done].
Qed.
End ApplySchedule.

(** ** From proposing to committing *)

Section ProposeCommit.
Context {R : Type} {raftLib : RaftLib R} {deps : Deps}.


End ProposeCommit.

(** ** Urgent requests *)

(** X14: every admin command that forces the log to be synced is urgent; the
    urgent commands that do not force it are ComputeHash and VerifyHash; a
    request that is not an admin request is never urgent, whatever its
    header asks for. *)
Theorem IsUrgentRequest_covers_sync (rlog : RaftLog) (req : RaftCmdRequest) :
  GetRaftCmdRequest rlog = Some req →
  match AdminReq req with
  | None => IsUrgentRequest rlog = false
  | Some a =>
      (getSyncLogFromRequest req = true → IsUrgentRequest rlog = true)
      ∧ (IsUrgentRequest rlog = true → getSyncLogFromRequest req = false →
         admin_CmdType a = AdminCmdType_ComputeHash
         ∨ admin_CmdType a = AdminCmdType_VerifyHash)
  end.
Proof.
  intros Hreq. unfold IsUrgentRequest, getSyncLogFromRequest, GetAdminRequest.
  rewrite Hreq. cbn [mbind option_bind].
  destruct (AdminReq req) as [a|]; [|done].
  destruct (admin_CmdType a); split; intros; try done; eauto.
Qed.

(** ** The liveness bookkeeping *)

Section LivenessFacts.
Context {R : Type} {raftLib : RaftLib R} {raftNode : RaftNode R}
        {deps : Deps} {moreDeps : MoreDeps}.

(** X15: [CheckStaleState] says Valid for a leader and forgets since when the
    leader is missing; for another peer it starts the timer when there is
    none and says Valid.  It says LeaderMissing only for an initialized
    voter whose leader has been missing for at least the abnormal duration
    and less than the maximal one, and ToValidate only once the maximal
    duration has passed, restarting the timer at the next reading of the
    clock. *)
Theorem CheckStaleState_verdicts (cfg : LivenessConfig) (c c' : PeerClocks)
    (w w' : World R) (state : StaleState) :
  CheckStaleState cfg c w = Ok ((state, c'), w') →
  let p := peer w in
  let now := clockAt w (tick w) in
  peer w' = p
  ∧ PeerHeartbeats c' = PeerHeartbeats c
  ∧ PeersStartPendingTime c' = PeersStartPendingTime c
  ∧ (IsLeader p = true → state = StaleStateValid ∧ leaderMissingTime c' = None)
  ∧ (IsLeader p = false → leaderMissingTime c = None →
     state = StaleStateValid ∧ leaderMissingTime c' = Some now)
  ∧ (state = StaleStateLeaderMissing →
     IsLeader p = false ∧ isInitialized (peerStorage p) = true
     ∧ Raft_IsLearner (RaftGroup p) = false
     ∧ c' = c
     ∧ ∃ since, leaderMissingTime c = Some since
                ∧ AbnormalLeaderMissingDuration cfg ≤ now - since
                  < MaxLeaderMissingDuration cfg)
  ∧ (state = StaleStateToValidate →
     IsLeader p = false
     ∧ leaderMissingTime c' = Some (clockAt w (S (tick w)))
     ∧ ∃ since, leaderMissingTime c = Some since
                ∧ MaxLeaderMissingDuration cfg ≤ now - since).
Proof.
  unfold CheckStaleState. mrun. cbn [peer]. intros Hrun. cbv zeta.
  destruct (IsLeader (peer w)).
  { simplify_eq. repeat split; try done. }
  destruct (leaderMissingTime c) as [since|] eqn:Hsince.
  - cbn [tick clockAt] in Hrun.
    destruct (Z.leb_spec (MaxLeaderMissingDuration cfg) (clockAt w (tick w) - since)).
    + simplify_eq. cbn. repeat split; try done. eauto.
    + destruct (Z.leb_spec (AbnormalLeaderMissingDuration cfg)
                  (clockAt w (tick w) - since)); cbn [andb] in Hrun.
      * destruct (isInitialized (peerStorage (peer w)));
          destruct (Raft_IsLearner (RaftGroup (peer w)));
          cbn in Hrun; simplify_eq; repeat split; try done.
        exists since. split; [done|lia].
      * simplify_eq. repeat split; try done.
  - simplify_eq. cbn. repeat split; try done.
Qed.

Lemma CollectDownPeers_loop_spec (self : Z) (heartbeats : gmap Z Time)
    (maxDuration : Duration) :
  ∀ peers acc (w0 w1 : World R) down,
  CollectDownPeers_loop self heartbeats
    maxDuration peers acc w0 = Ok (down, w1) →
  peer w1 = peer w0 ∧ clockAt w1 = clockAt w0 ∧ (tick w0 ≤ tick w1)%nat
  ∧ ∃ new, down = acc ++ new
    ∧ (stats_Peer <$> new) `sublist_of` peers
    ∧ Forall (λ s,
         Id (stats_Peer s) ≠ self
         ∧ ∃ hb n, heartbeats !! Id (stats_Peer s) = Some hb
                   ∧ (tick w0 ≤ n < tick w1)%nat
                   ∧ maxDuration < clockAt w0 n - hb
                   ∧ DownSeconds s = Seconds_uint64 (clockAt w0 n - hb)) new
    ∧ ((∀ m n, (tick w0 ≤ m ≤ n)%nat → clockAt w0 m ≤ clockAt w0 n) →
       ∀ pm hb, pm ∈ peers → Id pm ≠ self →
                heartbeats !! Id pm = Some hb →
                maxDuration < clockAt w0 (tick w0) - hb →
                pm ∈ stats_Peer <$> new).
Proof.
  induction peers as [|pm peers IH]; intros acc w0 w1 down Hrun.
  - injection Hrun as <- <-. split; [done|]. split; [done|]. split; [done|].
    exists []. rewrite app_nil_r. split; [done|]. split; [done|]. split; [done|].
    intros _ pm hb Hin. by apply elem_of_nil in Hin.
  - cbn [CollectDownPeers_loop] in Hrun.
    destruct (Z.eqb_spec (Id pm) self) as [Hself|Hother].
    { apply IH in Hrun as (Hp & Hc & Ht & new & -> & Hsub & Hall & Hcomplete).
      split; [done|]. split; [done|]. split; [done|]. exists new.
      split; [done|]. split; [by apply sublist_cons|]. split; [done|].
      intros Hmono pm' hb Hin Hne Hhb Hold.
      apply elem_of_cons in Hin as [->|Hin]; [done|]. by eapply Hcomplete. }
    destruct (heartbeats !! Id pm) as [hb|] eqn:Hhb.
    + apply bind_inv in Hrun as (now & w2 & Hnow & Hrun).
      injection Hnow as <- <-.
      destruct (Z.ltb_spec maxDuration (clockAt w0 (tick w0) - hb)) as [Hold|Hyoung].
      * apply IH in Hrun as (Hp & Hc & Ht & new & -> & Hsub & Hall & Hcomplete).
        cbn [peer tick clockAt] in *.
        split; [done|]. split; [done|]. split; [lia|].
        eexists (_ :: new). split; [by rewrite <- app_assoc|].
        split; [cbn; by apply sublist_skip|]. split.
        { constructor.
          - cbn. split; [done|]. exists hb, (tick w0). split; [done|].
            split; [lia|]. done.
          - eapply Forall_impl; [exact Hall|]. cbn.
            intros s (Hs & hb' & n & ? & ? & ? & ?). split; [done|].
            exists hb', n. split; [done|]. split; [lia|]. done. }
        intros Hmono pm' hb' Hin Hne Hhb' Hold'.
        apply elem_of_cons in Hin as [->|Hin]; [cbn; apply elem_of_cons; by left|].
        cbn. apply elem_of_cons. right. eapply Hcomplete; try done.
        -- intros m n Hmn. apply Hmono. lia.
        -- pose proof (Hmono (tick w0) (S (tick w0))). lia.
      * apply IH in Hrun as (Hp & Hc & Ht & new & -> & Hsub & Hall & Hcomplete).
        cbn [peer tick clockAt] in *.
        split; [done|]. split; [done|]. split; [lia|].
        exists new. split; [done|]. split; [by apply sublist_cons|]. split.
        { eapply Forall_impl; [exact Hall|]. cbn.
          intros s (Hs & hb' & n & ? & ? & ? & ?). split; [done|].
          exists hb', n. split; [done|]. split; [lia|]. done. }
        intros Hmono pm' hb' Hin Hne Hhb' Hold'.
        apply elem_of_cons in Hin as [->|Hin].
        { rewrite Hhb in Hhb'. simplify_eq. lia. }
        eapply Hcomplete; try done.
        -- intros m n Hmn. apply Hmono. lia.
        -- pose proof (Hmono (tick w0) (S (tick w0))). lia.
    + apply IH in Hrun as (Hp & Hc & Ht & new & -> & Hsub & Hall & Hcomplete).
      split; [done|]. split; [done|]. split; [done|]. exists new.
      split; [done|]. split; [by apply sublist_cons|]. split; [done|].
      intros Hmono pm' hb Hin Hne Hhb' Hold.
      apply elem_of_cons in Hin as [->|Hin]; [by rewrite Hhb in Hhb'|].
      by eapply Hcomplete.
Qed.

(** X16: what [CollectDownPeers] reports, in the order of the region's peers: never
    the peer itself, and only peers of the region with a heartbeat that was
    older than [maxDuration] when the clock was read for them, with the
    seconds of that age.  When the clock does not go back, every other peer
    of the region whose heartbeat is already that old at the start is
    reported.  The peer does not change. *)
Theorem CollectDownPeers_reports (maxDuration : Duration) (c : PeerClocks)
    (w w' : World R) (down : list PeerStats) :
  CollectDownPeers maxDuration c w = Ok (down, w') →
  let p := peer w in
  peer w' = p
  ∧ (stats_Peer <$> down) `sublist_of` Peers (PeerRegion p)
  ∧ Forall (λ s,
       Id (stats_Peer s) ≠ Id (Meta p)
       ∧ ∃ hb n, PeerHeartbeats c !! Id (stats_Peer s) = Some hb
                 ∧ (tick w ≤ n < tick w')%nat
                 ∧ maxDuration < clockAt w n - hb
                 ∧ DownSeconds s = Seconds_uint64 (clockAt w n - hb)) down
  ∧ ((∀ m n, (tick w ≤ m ≤ n)%nat → clockAt w m ≤ clockAt w n) →
     ∀ pm hb, pm ∈ Peers (PeerRegion p) → Id pm ≠ Id (Meta p) →
              PeerHeartbeats c !! Id pm = Some hb →
              maxDuration < clockAt w (tick w) - hb →
              pm ∈ stats_Peer <$> down).
Proof.
  unfold CollectDownPeers. rewrite (bind_Ok _ _ w w (peer w)) by reflexivity.
  cbv zeta. generalize (Peers (PeerRegion (peer w))) as peers.
  intros peers Hrun.
  apply CollectDownPeers_loop_spec in Hrun
    as (Hp & Hc & Ht & new & -> & Hsub & Hall & Hcomplete).
  cbn [app]. done.
Qed.
Lemma CheckPeers_loop_spec (peers : list PeerMeta) :
  ∀ (heartbeats heartbeats' : gmap Z Time) (w w' : World R),
    CheckPeers_loop peers heartbeats w = Ok (heartbeats', w') →
    peer w' = peer w ∧ clockAt w' = clockAt w ∧ trace w' = trace w
    ∧ (tick w ≤ tick w')%nat
    ∧ (∀ id t, heartbeats !! id = Some t → heartbeats' !! id = Some t)
    ∧ (∀ pm, pm ∈ peers → is_Some (heartbeats' !! Id pm))
    ∧ (∀ id t, heartbeats' !! id = Some t →
               heartbeats !! id = Some t
               ∨ (id ∈ Id <$> peers
                  ∧ ∃ n, (tick w ≤ n < tick w')%nat ∧ t = clockAt w n)).
Proof.
  induction peers as [|pm peers IH]; intros heartbeats heartbeats' w w' Hrun.
  - injection Hrun as <- <-. repeat split; try done.
    + intros pm Hin. by apply elem_of_nil in Hin.
    + intros id t Hid. by left.
  - cbn [CheckPeers_loop] in Hrun.
    destruct (heartbeats !! Id pm) as [hb|] eqn:Hhb.
    + apply IH in Hrun as (Hp & Hc & Htr & Ht & Hkeep & Hfill & Hnew).
      repeat split; try done.
      * intros pm' Hin. apply elem_of_cons in Hin as [->|Hin]; [|by apply Hfill].
        rewrite (Hkeep _ _ Hhb). by eexists.
      * intros id t Hid. destruct (Hnew _ _ Hid) as [?|[Hin Hn]]; [by left|].
        right. split; [|done]. cbn. apply elem_of_cons. by right.
    + apply bind_inv in Hrun as (now & w1 & Hnow & Hrun). injection Hnow as <- <-.
      apply IH in Hrun as (Hp & Hc & Htr & Ht & Hkeep & Hfill & Hnew).
      cbn [peer tick clockAt trace] in *.
      repeat split; try done; [lia| | |].
      * intros id t Hid. apply Hkeep. rewrite lookup_insert_ne; [done|].
        intros <-. congruence.
      * intros pm' Hin. apply elem_of_cons in Hin as [->|Hin]; [|by apply Hfill].
        erewrite Hkeep; [by eexists|]. by rewrite lookup_insert_eq.
      * intros id t Hid. destruct (Hnew _ _ Hid) as [Hold|[Hin (n & Hn & ->)]].
        -- apply lookup_insert_Some in Hold as [[<- <-]|[_ Hold]]; [|by left].
           right. split; [cbn; apply elem_of_cons; by left|].
           exists (tick w). split; [lia|done].
        -- right. split; [cbn; apply elem_of_cons; by right|].
           exists n. split; [lia|done].
Qed.

(** X17: [CheckPeers] on a peer that is not the leader forgets every heartbeat.
    On the leader it never changes a heartbeat that is recorded; unless there
    are exactly as many heartbeats as peers in the region, it gives every peer
    of the region a heartbeat, and a heartbeat it adds is for a peer of the
    region and is a reading of the clock taken during the call.  Nothing
    else changes. *)
Theorem CheckPeers_fills (c c' : PeerClocks) (w w' : World R) :
  CheckPeers c w = Ok (c', w') →
  let p := peer w in
  let peers := Peers (PeerRegion p) in
  peer w' = p ∧ trace w' = trace w
  ∧ PeersStartPendingTime c' = PeersStartPendingTime c
  ∧ leaderMissingTime c' = leaderMissingTime c
  ∧ if IsLeader p then
      (∀ id t, PeerHeartbeats c !! id = Some t → PeerHeartbeats c' !! id = Some t)
      ∧ (size (PeerHeartbeats c) ≠ length peers →
         ∀ pm, pm ∈ peers → is_Some (PeerHeartbeats c' !! Id pm))
      ∧ (∀ id t, PeerHeartbeats c' !! id = Some t →
                 PeerHeartbeats c !! id = Some t
                 ∨ (id ∈ Id <$> peers
                    ∧ ∃ n, (tick w ≤ n < tick w')%nat ∧ t = clockAt w n))
    else PeerHeartbeats c' = ∅.
Proof.
  unfold CheckPeers. rewrite (bind_Ok _ _ w w (peer w)) by reflexivity.
  intros Hrun. cbv zeta. destruct (IsLeader (peer w)); cbn [negb] in Hrun.
  - destruct (Nat.eqb_spec (size (PeerHeartbeats c))
                (length (Peers (PeerRegion (peer w))))) as [Hsize|Hsize].
    + injection Hrun as <- <-. repeat split; try done. intros id t Hid. by left.
    + apply bind_inv in Hrun as (hbs & w1 & Hloop & Hrun). injection Hrun as <- <-.
      apply CheckPeers_loop_spec in Hloop as (Hp & Hc & Htr & Ht & Hkeep & Hfill & Hnew).
      repeat split; try done.
  - destruct (Nat.ltb_spec 0 (size (PeerHeartbeats c))) as [Hsome|Hnone].
    + injection Hrun as <- <-. done.
    + injection Hrun as <- <-. repeat split; try done.
      apply map_size_empty_iff. lia.
Qed.

(** X18: [AnyNewPeerCatchUp] reports a catch-up only on the leader, for a peer
    that has a pending-since time and whose progress, as a voter or else as a
    learner, has reached the truncated index; it then forgets the
    pending-since time of that peer only, so that asking again for the same
    peer reports nothing.  When it reports nothing, the pending-since times
    of a leader are as they were, and a peer that is not the leader has none
    afterwards: it forgets them all. *)
Theorem AnyNewPeerCatchUp_once (peerID : Z) (c c' : PeerClocks) (w w' : World R)
    (caughtUp : bool) :
  AnyNewPeerCatchUp peerID c w = Ok ((caughtUp, c'), w') →
  let p := peer w in
  peer w' = p ∧ trace w' = trace w
  ∧ PeerHeartbeats c' = PeerHeartbeats c
  ∧ leaderMissingTime c' = leaderMissingTime c
  ∧ if caughtUp then
      IsLeader p = true
      ∧ is_Some (PeersStartPendingTime c !! peerID)
      ∧ PeersStartPendingTime c' = delete peerID (PeersStartPendingTime c)
      ∧ (∃ progress,
           (Raft_Prs (RaftGroup p) !! peerID = Some progress
            ∨ (Raft_Prs (RaftGroup p) !! peerID = None
               ∧ Raft_LearnerPrs (RaftGroup p) !! peerID = Some progress))
           ∧ truncatedIndex (Store p) ≤ Match progress)
      ∧ ∃ c'', AnyNewPeerCatchUp peerID c' w' = Ok ((false, c''), w')
    else
      PeersStartPendingTime c'
      = if IsLeader p then PeersStartPendingTime c else ∅.
Proof.
  unfold AnyNewPeerCatchUp at 1. rewrite (bind_Ok _ _ w w (peer w)) by reflexivity.
  intros Hrun. cbv zeta.
  destruct (size (PeersStartPendingTime c) =? 0)%nat eqn:Hsize.
  { injection Hrun as <- <- <-. repeat split; try done.
    destruct (IsLeader (peer w)); [done|].
    apply map_size_empty_iff. by apply Nat.eqb_eq in Hsize. }
  destruct (IsLeader (peer w)) eqn:Hleader; cbn [negb] in Hrun.
  2:{ injection Hrun as <- <- <-. by repeat split. }
  destruct (PeersStartPendingTime c !! peerID) as [since|] eqn:Hsince.
  2:{ injection Hrun as <- <- <-. by repeat split. }
  assert (∃ progress, match Raft_Prs (RaftGroup (peer w)) !! peerID with
                      | Some progress => Some progress
                      | None => Raft_LearnerPrs (RaftGroup (peer w)) !! peerID
                      end = progress) as [progress Hprogress] by eauto.
  rewrite Hprogress in Hrun. destruct progress as [progress|].
  2:{ injection Hrun as <- <- <-. by repeat split. }
  destruct (Z.leb_spec (truncatedIndex (Store (peer w))) (Match progress)).
  2:{ injection Hrun as <- <- <-. by repeat split. }
  mrun_in Hrun. injection Hrun as <- <- <-. cbn [peer trace PeerHeartbeats
    leaderMissingTime PeersStartPendingTime set_PeersStartPendingTime].
  repeat split; try done.
  - exists progress. split; [|done].
    destruct (Raft_Prs (RaftGroup (peer w)) !! peerID); [left|right]; by simplify_eq.
  - unfold AnyNewPeerCatchUp. mrun.
    cbn [peer PeersStartPendingTime set_PeersStartPendingTime].
    rewrite Hleader. cbn [negb]. rewrite lookup_delete_eq.
    destruct (size (delete peerID (PeersStartPendingTime c)) =? 0)%nat;
      eexists; reflexivity.
Qed.
(** X19: a leader that steps a message from a peer records the time as that
    peer's heartbeat and touches no other heartbeat, so that the peer is not
    reported down as long as the clock stays within [maxDuration] of that
    time; a peer that is not the leader records no heartbeat.  The time since
    when the leader is missing is forgotten by the leader and on a message
    from the leader, and kept otherwise.  The message is given to the
    consensus node in every case, and a nil message panics. *)
Theorem Step_records_heartbeat (msg : Message) (c c' : PeerClocks)
    (w w' : World R) (err : option Error) :
  Step (Some msg) c w = Ok ((err, c'), w') →
  let p := peer w in
  let now := clockAt w (tick w) in
  isPanic (Step None c w) = true
  ∧ (RaftGroup (peer w'), err) = RawNode_Step (RaftGroup p) msg
  ∧ PeersStartPendingTime c' = PeersStartPendingTime c
  ∧ (∀ id, id ≠ From msg → PeerHeartbeats c' !! id = PeerHeartbeats c !! id)
  ∧ if IsLeader p && negb (From msg =? InvalidID) then
      PeerHeartbeats c' !! From msg = Some now
      ∧ leaderMissingTime c' = None
      ∧ ∀ maxDuration (w2 w3 : World R) down,
          CollectDownPeers maxDuration c' w2 = Ok (down, w3) →
          (∀ n, (tick w2 ≤ n < tick w3)%nat → clockAt w2 n - now ≤ maxDuration) →
          ∀ s, s ∈ down → Id (stats_Peer s) ≠ From msg
    else
      PeerHeartbeats c' = PeerHeartbeats c
      ∧ leaderMissingTime c'
        = if From msg =? LeaderID p then None else leaderMissingTime c.
Proof.
  intros Hrun. cbv zeta. split.
  { unfold Step. mrun. cbn [from_option].
    destruct (IsLeader (peer w) && negb (0 =? InvalidID));
      [reflexivity|destruct (0 =? LeaderID (peer w)); reflexivity]. }
  unfold Step in Hrun. rewrite (bind_Ok _ _ w w (peer w)) in Hrun by reflexivity.
  cbn [from_option] in Hrun.
  destruct (IsLeader (peer w) && negb (From msg =? InvalidID)).
  - mrun_in Hrun. cbn [deref peer] in Hrun.
    destruct (RawNode_Step (RaftGroup (peer w)) msg) as [rg e].
    injection Hrun as <- <- <-. cbn.
    split; [done|]. split; [done|].
    split; [intros id Hid; by rewrite lookup_insert_ne|].
    split; [by rewrite lookup_insert_eq|]. split; [done|].
    intros maxDuration w2 w3 down Hdown Hclock s Hs.
    unfold CollectDownPeers in Hdown.
    rewrite (bind_Ok _ _ w2 w2 (peer w2)) in Hdown by reflexivity.
    apply CollectDownPeers_loop_spec in Hdown
      as (_ & _ & _ & new & -> & _ & Hall & _).
    cbn [app] in Hs. rewrite Forall_forall in Hall.
    destruct (Hall _ Hs) as (_ & hb & n & Hhb & Hn & Hold & _).
    intros Heq. cbn [PeerHeartbeats set_leaderMissingTime set_PeerHeartbeats] in Hhb.
    rewrite Heq, lookup_insert_eq in Hhb. injection Hhb as <-.
    specialize (Hclock n Hn). lia.
  - destruct (From msg =? LeaderID (peer w)); mrun_in Hrun; cbn [deref peer] in Hrun;
      destruct (RawNode_Step (RaftGroup (peer w)) msg) as [rg e];
      injection Hrun as <- <- <-; cbn; done.
Qed.

(** X20: [MaybeDestroy] gives a job at most once: when it does, the peer was not
    pending removal, it is now, and its leader checker is marked invalid; the
    job names the region and the peer, says whether the peer is initialized,
    and asks for an asynchronous removal exactly when the peer is initialized
    and was not applying a snapshot.  Asked again it gives no job and changes
    nothing.  When it gives no job, the peer is neither marked for removal nor
    is its checker touched. *)
Theorem MaybeDestroy_once (w w' : World R) (job : option DestroyPeerJob) :
  MaybeDestroy w = Ok (job, w') →
  let p := peer w in
  match job with
  | Some job =>
      PendingRemove p = false
      ∧ PendingRemove (peer w') = true
      ∧ lc_invalid (leaderChecker (peer w')) = true
      ∧ job_RegionID job = regionID p
      ∧ job_Peer job = Meta p
      ∧ Initialized job = isInitialized (peerStorage p)
      ∧ AsyncRemove job = isInitialized (peerStorage p) && negb (IsApplyingSnapshot p)
      ∧ (IsApplyingSnapshot p = true → (CancelApplyingSnap (Store p)).1 = true)
      ∧ MaybeDestroy w' = Ok (None, w')
  | None =>
      PendingRemove (peer w') = PendingRemove p
      ∧ leaderChecker (peer w') = leaderChecker p
      ∧ (PendingRemove p = true → w' = w)
  end.
Proof.
  unfold MaybeDestroy at 1. mrun. cbn [peer]. intros Hrun. cbv zeta.
  destruct (PendingRemove (peer w)) eqn:Hpending.
  { injection Hrun as <- <-. rewrite Hpending. done. }
  destruct (IsApplyingSnapshot (peer w)) eqn:Hsnap.
  - destruct (CancelApplyingSnap (Store (peer w))) as [cancelled ps] eqn:Hcancel.
    destruct cancelled; cbn in Hrun; injection Hrun as <- <-; cbn.
    + rewrite andb_false_r. repeat split; done.
    + rewrite Hpending. done.
  - injection Hrun as <- <-. cbn. rewrite andb_true_r. repeat split; done.
Qed.
End LivenessFacts.

(** ** Proposing *)

Section ProposeFamily.
Context {R : Type} {raftLib : RaftLib R} {raftNode : RaftNode R}
        {deps : Deps} {moreDeps : MoreDeps}.

Lemma anySnapshot_false (progress : gmap Z Progress) :
  map_fold (λ (_ : Z) pr found,
              found || bool_decide (pr_State pr = ProgressStateSnapshot))
    false progress = false
  ↔ noSnapshotInFlight progress.
Proof.
  unfold noSnapshotInFlight.
  apply (map_fold_weak_ind
           (λ (r : bool) (m : gmap Z Progress),
              r = false ↔ ∀ id pr, m !! id = Some pr
                                   → pr_State pr ≠ ProgressStateSnapshot)).
  - split; [|done]. intros _ id pr Hid. by rewrite lookup_empty in Hid.
  - intros i x m r Hnone IH. split.
    + intros Hor. apply orb_false_elim in Hor as [Hr Hx].
      apply bool_decide_eq_false in Hx. intros id pr Hid.
      apply lookup_insert_Some in Hid as [[_ <-]|[_ Hid]]; [done|].
      by eapply IH.
    + intros Hall. apply orb_false_intro.
      * apply IH. intros id pr Hid. apply (Hall id).
        rewrite lookup_insert_ne; [done|]. intros ->. congruence.
      * apply bool_decide_eq_false. apply (Hall i). by rewrite lookup_insert_eq.
Qed.

(** X21: a transfer of the leader is an advice: the callback is answered once
    with the transfer-leader response whether the transfer is attempted or
    not.  It is attempted, by one call of the consensus node, only for a
    target that has a progress, while no progress is in the snapshot state,
    when the target was not added within the rejection window, and when the
    last index is within [LeaderTransferMaxLogLag] of what the target has
    matched; otherwise the peer is as it was. *)
Theorem ProposeTransferLeader_advice (cfg : LivenessConfig)
    (recent : RecentAddedPeer) (req : RaftCmdRequest) (cb : Callback)
    (w w' : World R) (transferred : bool) :
  ProposeTransferLeader cfg recent req cb w = Ok (transferred, w') →
  let p := peer w in
  let progress := Status_Progress (RaftGroup p) in
  ∃ cmd, getTransferLeaderCmd req = Some cmd
    ∧ let target := from_option Id 0 (tl_Peer cmd) in
      trace w' = trace w ++ [EvDone cb makeTransferLeaderResponse]
      ∧ if transferred then
          peer w' = set_RaftGroup (RawNode_TransferLeader (RaftGroup p) target) p
          ∧ (∃ pr, progress !! target = Some pr
                   ∧ (Store_LastIndex (Store p)).1
                     ≤ wrap64 (Match pr + LeaderTransferMaxLogLag cfg))
          ∧ noSnapshotInFlight progress
          ∧ (rap_ID recent = target →
             RejectDurationAsSecs recent
             ≤ Seconds_uint64 (clockAt w (tick w) - AddedTime recent))
        else peer w' = p.
Proof.
  unfold ProposeTransferLeader. intros Hrun. cbv zeta.
  destruct (getTransferLeaderCmd req) as [cmd|]; [|done].
  exists cmd. split; [done|].
  cbn [deref] in Hrun. rewrite (bind_Ok _ _ w w cmd) in Hrun by reflexivity.
  apply bind_inv in Hrun as (ready & w1 & Hready & Hrun).
  assert (peer w1 = peer w ∧ trace w1 = trace w
          ∧ (ready = true →
             (∃ pr, Status_Progress (RaftGroup (peer w)) !! from_option Id 0 (tl_Peer cmd)
                    = Some pr
                    ∧ (Store_LastIndex (Store (peer w))).1
                      ≤ wrap64 (Match pr + LeaderTransferMaxLogLag cfg))
             ∧ noSnapshotInFlight (Status_Progress (RaftGroup (peer w)))
             ∧ (rap_ID recent = from_option Id 0 (tl_Peer cmd) →
                RejectDurationAsSecs recent
                ≤ Seconds_uint64 (clockAt w (tick w) - AddedTime recent))))
    as (Hp1 & Htr1 & Hwhy).
  { unfold readyToTransferLeader in Hready.
    rewrite (bind_Ok _ _ w w (peer w)) in Hready by reflexivity.
    destruct (Status_Progress (RaftGroup (peer w)) !! from_option Id 0 (tl_Peer cmd))
      as [pr|] eqn:Hpr; [|by injection Hready as <- <-].
    destruct (map_fold _ false _) eqn:Hsnap; [by injection Hready as <- <-|].
    apply anySnapshot_false in Hsnap.
    unfold RecentAddedPeer.Contains in Hready.
    destruct (Z.eqb_spec (rap_ID recent) (from_option Id 0 (tl_Peer cmd))) as [Hid|Hid].
    - mrun_in Hready. cbn [peer] in Hready.
      destruct (Z.ltb_spec (Seconds_uint64 (clockAt w (tick w) - AddedTime recent))
                  (RejectDurationAsSecs recent)) as [Hrecent|Hold].
      + by injection Hready as <- <-.
      + destruct (Store_LastIndex (Store (peer w))) as [lastIndex e] eqn:Hlast.
        injection Hready as <- <-. split; [done|]. split; [done|].
        intros Hlag. apply Z.leb_le in Hlag. split; [by exists pr|]. done.
    - mrun_in Hready. cbn [peer] in Hready.
      destruct (Store_LastIndex (Store (peer w))) as [lastIndex e] eqn:Hlast.
      injection Hready as <- <-. split; [done|]. split; [done|].
      intros Hlag. apply Z.leb_le in Hlag. split; [by exists pr|]. done. }
  destruct ready.
  - mrun_in Hrun. injection Hrun as <- <-. cbn. rewrite Hp1, Htr1.
    split; [done|]. split; [done|]. by apply Hwhy.
  - mrun_in Hrun. injection Hrun as <- <-. cbn. rewrite Htr1. done.
Qed.

(** X22: [ProposeConfChange] asks the consensus node only when the peer is not
    merging, no conf change is pending, [checkConfChange] accepts and the
    request can be marshalled; the change is then proposed once, with the
    sync-log context, the kind of change and the id of the peer named by the
    request.  It succeeds only when the next proposal index has moved, and
    then returns the index before the call.  When it refuses before asking,
    nothing changes; the callbacks and the trace are never touched. *)
Theorem ProposeConfChange_guards (cfg : Config) (req : RaftCmdRequest)
    (w w' : World R) (idx : Z) (err : option Error) :
  ProposeConfChange cfg req w = Ok ((idx, err), w') →
  let p := peer w in
  sameQueues w w'
  ∧ ((w' = w ∧ idx = 0 ∧ is_Some err)
     ∨ (PendingMergeState p = None
        ∧ Raft_PendingConfIndex (RaftGroup p) ≤ AppliedIndex (Store p)
        ∧ checkConfChange p cfg req = Ok None
        ∧ ∃ data changePeer changed answer,
            Request_Marshal req = inr data
            ∧ GetChangePeerCmd req = Some changePeer
            ∧ cp_Peer changePeer = Some changed
            ∧ RawNode_ProposeConfChange (RaftGroup p) (ToBytes ProposalContextSyncLog)
                (ChangeType changePeer, Id changed, data) = answer
            ∧ peer w' = set_RaftGroup answer.1 p
            ∧ (idx, err)
              = match answer.2 with
                | Some e => (0, Some e)
                | None =>
                    if nextProposalIndex (set_RaftGroup answer.1 p)
                       =? nextProposalIndex p
                    then (0, Some (ErrNotLeader (regionID p)))
                    else (nextProposalIndex p, None)
                end))
  ∧ (err = None → idx = nextProposalIndex p ∧ nextProposalIndex (peer w') ≠ idx).
Proof.
  unfold ProposeConfChange. rewrite (bind_Ok _ _ w w (peer w)) by reflexivity.
  intros Hrun. cbv zeta.
  case_bool_decide as Hmerge.
  { injection Hrun as <- <- <-. split; [by repeat split|]. split; [|done].
    left. split; [done|]. split; [done|]. by eexists. }
  destruct (Z.ltb_spec (AppliedIndex (Store (peer w)))
              (Raft_PendingConfIndex (RaftGroup (peer w)))) as [Hpending|Hpending].
  { injection Hrun as <- <- <-. split; [by repeat split|]. split; [|done].
    left. split; [done|]. split; [done|]. by eexists. }
  destruct (checkConfChange (peer w) cfg req) as [[e|]|msg] eqn:Hcheck; [| |done].
  { mrun_in Hrun. injection Hrun as <- <- <-. split; [by repeat split|]. split; [|done].
    left. split; [done|]. split; [done|]. by eexists. }
  cbn [liftR] in Hrun. rewrite (bind_Ok _ _ w w None) in Hrun by reflexivity.
  cbv beta iota in Hrun.
  destruct (Request_Marshal req) as [e|data] eqn:Hdata.
  { injection Hrun as <- <- <-. split; [by repeat split|]. split; [|done].
    left. split; [done|]. split; [done|]. by eexists. }
  destruct (GetChangePeerCmd req) as [changePeer|] eqn:Hcp; [|done].
  cbn [deref liftR] in Hrun.
  rewrite (bind_Ok _ _ w w changePeer) in Hrun by reflexivity.
  destruct (cp_Peer changePeer) as [changed|] eqn:Hchanged; [|done].
  cbn [deref liftR] in Hrun.
  rewrite (bind_Ok _ _ w w changed) in Hrun by reflexivity. cbv zeta in Hrun.
  destruct (RawNode_ProposeConfChange _ _ _) as [raftGroup answerErr] eqn:Hanswer.
  erewrite bind_Ok in Hrun by reflexivity.
  assert (PendingMergeState (peer w) = None) as Hnomerge.
  { destruct (PendingMergeState (peer w)); [|done]. exfalso. apply Hmerge. by eexists. }
  destruct answerErr as [e|].
  - injection Hrun as <- <- <-. split; [by repeat split|]. split; [|done].
    right. split; [done|]. split; [done|]. split; [done|].
    eexists data, changePeer, changed, _. split; [done|]. split; [done|].
    split; [done|]. split; [exact Hanswer|]. done.
  - erewrite bind_Ok in Hrun by reflexivity. cbn [peer withPeer] in Hrun.
    destruct (Z.eqb_spec (nextProposalIndex (set_RaftGroup raftGroup (peer w)))
                (nextProposalIndex (peer w))) as [Hstuck|Hmoved].
    + injection Hrun as <- <- <-. split; [by repeat split|]. split; [|done].
      right. split; [done|]. split; [done|]. split; [done|].
      eexists data, changePeer, changed, _. split; [done|]. split; [done|].
      split; [done|]. split; [exact Hanswer|]. cbn [fst snd]. split; [done|].
      destruct (Z.eqb_spec (nextProposalIndex (set_RaftGroup raftGroup (peer w)))
                  (nextProposalIndex (peer w))); done.
    + injection Hrun as <- <- <-. split; [by repeat split|]. split.
      * right. split; [done|]. split; [done|]. split; [done|].
        eexists data, changePeer, changed, _. split; [done|]. split; [done|].
        split; [done|]. split; [exact Hanswer|]. cbn [fst snd]. split; [done|].
        destruct (Z.eqb_spec (nextProposalIndex (set_RaftGroup raftGroup (peer w)))
                    (nextProposalIndex (peer w))); done.
      * intros _. split; [done|]. cbn [peer]. done.
Qed.
Lemma countIf_app {A} (f : A → bool) (l1 l2 : list A) :
  countIf f (l1 ++ l2) = (countIf f l1 + countIf f l2)%nat.
Proof. unfold countIf. by rewrite List.filter_app, length_app. Qed.

Lemma sameQueues_refl (w : World R) : sameQueues w w.
Proof. by repeat split. Qed.

Lemma sameQueues_trans (w1 w2 w3 : World R) :
  sameQueues w1 w2 → sameQueues w2 w3 → sameQueues w1 w3.
Proof.
  intros (Ha1 & Hb1 & Hc1 & Hd1) (Ha2 & Hb2 & Hc2 & Hd2).
  split; [congruence|]. split; [congruence|]. split; [congruence|]. lia.
Qed.

Lemma sameQueues_disposals (cb : Callback) (w w' : World R) :
  sameQueues w w' → disposals cb w' = disposals cb w.
Proof. intros (Ha & Hb & Hc & _). unfold disposals. by rewrite Ha, Hb, Hc. Qed.

Lemma answer_disposals (cb : Callback) (resp : RaftCmdResponse) (w : World R) :
  disposals cb (withTrace [EvDone cb resp] w) = S (disposals cb w).
Proof.
  unfold disposals. cbn [trace withTrace peer]. rewrite countIf_app.
  match goal with
  | |- context [countIf ?f [?x]] =>
      replace (countIf f [x]) with 1%nat
        by (unfold countIf; cbn [List.filter isAnswerTo];
            by rewrite bool_decide_true by done)
  end. lia.
Qed.

Ltac count_one :=
  match goal with
  | |- context [countIf ?f [?x]] =>
      replace (countIf f [x]) with 1%nat
        by (unfold countIf; cbn [List.filter isAnswerTo prop_cb Cb];
            by rewrite bool_decide_true by done)
  end.

Ltac same_queues known :=
  walk (@sameQueues_refl) (@sameQueues_trans) known
       ltac:(by (split; [done|]; split; [done|]; split; [done|]; cbn; lia)).

Lemma Peer_inspectLease_sameQueues : preservesW (@sameQueues R) Peer_inspectLease.
Proof. unfold Peer_inspectLease. same_queues fail. Qed.

Lemma inspect_sameQueues (rlog : RaftLog) : preservesW (@sameQueues R) (inspect rlog).
Proof.
  unfold inspect. destruct (GetRaftCmdRequest rlog) as [req|];
    [|apply (preservesW_ret _ (@sameQueues_refl))].
  intros w r w' Hrun. unfold Inspect in Hrun.
  destruct (bool_decide (is_Some (AdminReq req))).
  { repeat case_match; simplify_eq; apply sameQueues_refl. }
  destruct (Inspect_scan _ _ _) as [hasRead hasWrite|e];
    [|simplify_eq; apply sameQueues_refl].
  destruct hasWrite; [simplify_eq; apply sameQueues_refl|].
  destruct (from_option ReadQuorum false (Header req));
    [simplify_eq; apply sameQueues_refl|].
  destruct (negb _); [simplify_eq; apply sameQueues_refl|].
  change (inspectLease w) with (Peer_inspectLease w) in Hrun.
  destruct (Peer_inspectLease w) as [[state w1]|] eqn:Hlease; [|done].
  apply Peer_inspectLease_sameQueues in Hlease. cbn in Hrun.
  destruct state; simplify_eq; done.
Qed.

Lemma ProposeNormal_sameQueues (cfg : Config) (rlog : RaftLog) :
  preservesW (@sameQueues R) (ProposeNormal cfg rlog).
Proof. unfold ProposeNormal. same_queues fail. Qed.

Lemma ProposeConfChange_sameQueues (cfg : Config) (req : RaftCmdRequest) :
  preservesW (@sameQueues R) (ProposeConfChange cfg req).
Proof. unfold ProposeConfChange. same_queues fail. Qed.

Lemma handleRead_sameQueues (req : RaftCmdRequest) (checkEpoch : bool) :
  preservesW (@sameQueues R) (handleRead req checkEpoch).
Proof. unfold handleRead. same_queues fail. Qed.

Lemma readyToTransferLeader_sameQueues (cfg : LivenessConfig)
    (recent : RecentAddedPeer) (peer : option PeerMeta) :
  preservesW (@sameQueues R) (readyToTransferLeader cfg recent peer).
Proof. unfold readyToTransferLeader, RecentAddedPeer.Contains. same_queues fail. Qed.

(** A proposal queued for a callback of the peer's own making is no
    disposal of a client's callback. *)
Lemma PostPropose_internal (meta : ProposalMeta) (b : bool) (serial : nat) (k : Z)
    (w w' : World R) :
  PostPropose meta b (InternalCb serial) w = Ok (tt, w') →
  disposals (ClientCb k) w' = disposals (ClientCb k) w.
Proof.
  unfold PostPropose. mrun. intros Hrun. injection Hrun as <-.
  unfold disposals.
  cbn [trace peer applyProposals pendingReads set_proposals set_applyProposals].
  rewrite countIf_app.
  match goal with
  | |- context [countIf ?f [?x]] => change (countIf f [x]) with 0%nat
  end. lia.
Qed.

Lemma PostPropose_disposes (meta : ProposalMeta) (b : bool) (cb : Callback)
    (w w' : World R) :
  PostPropose meta b cb w = Ok (tt, w') →
  disposals cb w' = S (disposals cb w).
Proof.
  unfold PostPropose. mrun. intros Hrun. injection Hrun as <-.
  unfold disposals.
  cbn [trace peer applyProposals pendingReads set_proposals set_applyProposals].
  rewrite countIf_app.
  match goal with
  | |- context [countIf ?f [?x]] =>
      replace (countIf f [x]) with 1%nat
        by (unfold countIf; cbn [List.filter prop_cb];
            by rewrite bool_decide_true by done)
  end. lia.
Qed.

Lemma readIndex_proposeOnSuspect_disposals (cfg : Config) (now : Time) (k : Z)
    (w w' : World R) :
  readIndex_proposeOnSuspect cfg now w = Ok (tt, w') →
  disposals (ClientCb k) w' = disposals (ClientCb k) w.
Proof.
  unfold readIndex_proposeOnSuspect. rewrite (bind_Ok _ _ w w (peer w)) by reflexivity.
  case_bool_decide; [|intros Hrun; by injection Hrun as <-].
  intros Hrun. apply bind_inv in Hrun as ([index err] & w1 & Hprop & Hrun).
  apply ProposeNormal_sameQueues in Hprop.
  rewrite <- (sameQueues_disposals _ _ _ Hprop).
  destruct err; [by injection Hrun as <-|].
  rewrite (bind_Ok _ _ w1 w1 (peer w1)) in Hrun by reflexivity.
  apply bind_inv in Hrun as (newCb & w2 & Hcb & Hrun).
  injection Hcb as <- <-. by apply (PostPropose_internal _ _ _ k) in Hrun.
Qed.

Lemma pendingReads_snoc (cb : Callback) (rs : list ReadIndexRequest)
    (read : ReadIndexRequest) :
  countIf (λ c, bool_decide (Cb c = cb)) ((rs ++ [read]) ≫= cmds)
  = (countIf (λ c, bool_decide (Cb c = cb)) (rs ≫= cmds)
     + countIf (λ c, bool_decide (Cb c = cb)) (cmds read))%nat.
Proof. rewrite bind_app, countIf_app. cbn. by rewrite app_nil_r. Qed.

Lemma readIndex_disposes_once (cfg : Config) (req : RaftCmdRequest)
    (errResp : RaftCmdResponse) (k : Z) (w w' : World R) (proposed : bool) :
  readIndex cfg req errResp (ClientCb k) w = Ok (proposed, w') →
  disposals (ClientCb k) w' = S (disposals (ClientCb k) w).
Proof.
  unfold readIndex. rewrite (bind_Ok _ _ w w (peer w)) by reflexivity.
  destruct (preReadIndex (peer w)) as [err|].
  { mrun. intros Hrun. injection Hrun as <- <-. apply answer_disposals. }
  intros Hrun. apply bind_inv in Hrun as (now & w0 & Hnow & Hrun).
  injection Hnow as <- <-.
  apply bind_inv in Hrun as (piggy & w1 & Hpiggy & Hrun).
  unfold liftR in Hpiggy.
  destruct (readIndex_piggyback _ _ _ _ _) as [piggy'|] eqn:Hpig; [|done].
  injection Hpiggy as <- <-.
  destruct piggy' as [read|].
  - unfold readIndex_piggyback in Hpig.
    destruct (last (reads (pendingReads (peer w)))) as [read0|] eqn:Hlast; [|done].
    destruct (renewLeaseTime read0); [|done]. cbn in Hpig.
    destruct (_ <? _); [|done]. injection Hpig as <-.
    apply last_Some in Hlast as [init Hinit].
    mrun_in Hrun. injection Hrun as <- <-.
    unfold disposals. cbn [trace peer pendingReads set_pendingReads reads
                           applyProposals].
    rewrite Hinit. rewrite length_app. cbn [length].
    replace (pred (length init + 1)) with (length init + 0)%nat by lia.
    rewrite insert_app_r. cbn [insert list_insert].
    rewrite !pendingReads_snoc. cbn [cmds]. rewrite countIf_app. count_one. lia.
  - apply bind_inv in Hrun as (newId & w2 & Hid & Hrun).
    unfold NextID in Hid. mrun_in Hid. injection Hid as <- <-.
    erewrite bind_Ok in Hrun by reflexivity.
    erewrite bind_Ok in Hrun by reflexivity.
    cbn [peer withPeer] in Hrun.
    destruct (_ && _).
    + unfold NotifyStaleReq in Hrun. mrun_in Hrun. injection Hrun as <- <-.
      unfold disposals.
      cbn [trace peer pendingReads set_pendingReads reads applyProposals
           set_RaftGroup withPeer].
      rewrite countIf_app. count_one. lia.
    + erewrite bind_Ok in Hrun by reflexivity.
      apply bind_inv in Hrun as ([] & w3 & Hsus & Hrun). injection Hrun as <- <-.
      apply (readIndex_proposeOnSuspect_disposals _ _ k) in Hsus. rewrite Hsus.
      unfold disposals. cbn [trace peer pendingReads set_pendingReads reads
                             applyProposals set_RaftGroup withPeer].
      rewrite pendingReads_snoc. cbn [cmds NewReadIndexRequest]. count_one. lia.
Qed.

(** X23: [Propose] loses no callback and uses none twice: on a peer that is not
    pending removal a completed call disposes of the client's callback
    exactly once, by answering it, by queueing it with the proposals for the
    apply worker or by queueing it with a pending read; on a peer that is
    pending removal it returns false and does nothing at all, the callback
    included. *)
Theorem Propose_disposes_once (cfg : Config) (lcfg : LivenessConfig)
    (recent : RecentAddedPeer) (k : Z) (rlog : RaftLog)
    (errResp : RaftCmdResponse) (w w' : World R) (proposed : bool) :
  Propose cfg lcfg recent (ClientCb k) rlog errResp w = Ok (proposed, w') →
  if PendingRemove (peer w) then proposed = false ∧ w' = w
  else disposals (ClientCb k) w' = S (disposals (ClientCb k) w).
Proof.
  unfold Propose. rewrite (bind_Ok _ _ w w (peer w)) by reflexivity.
  destruct (PendingRemove (peer w)).
  { intros Hrun. by injection Hrun as <- <-. }
  intros Hrun. apply bind_inv in Hrun as ([policy err] & w0 & Hinspect & Hrun).
  apply inspect_sameQueues in Hinspect.
  rewrite <- (sameQueues_disposals _ _ _ Hinspect).
  destruct err as [err|].
  { mrun_in Hrun. injection Hrun as <- <-. apply answer_disposals. }
  assert (∀ isUrgent isConfChange r (w1 w2 : World R) b,
            Propose_finish isUrgent isConfChange (ClientCb k) errResp r w1 = Ok (b, w2) →
            disposals (ClientCb k) w2 = S (disposals (ClientCb k) w1)) as Hfinish.
  { intros isUrgent isConfChange [idx e] w1 w2 b Hfin. unfold Propose_finish in Hfin.
    destruct e as [e|].
    { mrun_in Hfin. injection Hfin as <- <-. apply answer_disposals. }
    apply bind_inv in Hfin as ([] & w3 & Hurgent & Hfin).
    assert (sameQueues w1 w3) as Hsame.
    { destruct isUrgent; mrun_in Hurgent; injection Hurgent as <-; by repeat split. }
    rewrite <- (sameQueues_disposals _ _ _ Hsame).
    rewrite (bind_Ok _ _ w3 w3 (peer w3)) in Hfin by reflexivity.
    apply bind_inv in Hfin as ([] & w4 & Hpost & Hfin). injection Hfin as <- <-.
    by apply PostPropose_disposes in Hpost. }
  destruct policy.
  - apply bind_inv in Hrun as (req & w1 & Hreq & Hrun).
    unfold liftR in Hreq. destruct (deref _) as [req'|]; [|done].
    injection Hreq as <- <-.
    apply bind_inv in Hrun as ([] & w2 & Hread & Hrun). injection Hrun as <- <-.
    unfold readLocal in Hread.
    apply bind_inv in Hread as (resp & w3 & Hhandle & Hdone).
    apply handleRead_sameQueues in Hhandle.
    rewrite <- (sameQueues_disposals _ _ _ Hhandle).
    mrun_in Hdone. injection Hdone as <-. apply answer_disposals.
  - apply bind_inv in Hrun as (req & w1 & Hreq & Hrun).
    unfold liftR in Hreq. destruct (deref _) as [req'|]; [|done].
    injection Hreq as <- <-. by eapply readIndex_disposes_once.
  - apply bind_inv in Hrun as (r & w1 & Hprop & Hrun).
    apply ProposeNormal_sameQueues in Hprop.
    rewrite <- (sameQueues_disposals _ _ _ Hprop). by eapply Hfinish.
  - apply bind_inv in Hrun as (req & w1 & Hreq & Hrun).
    unfold liftR in Hreq. destruct (deref _) as [req'|]; [|done].
    injection Hreq as <- <-. unfold ProposeTransferLeader in Hrun.
    apply bind_inv in Hrun as (cmd & w1 & Hcmd & Hrun).
    unfold liftR in Hcmd. destruct (deref _) as [cmd'|]; [|done].
    injection Hcmd as <- <-.
    apply bind_inv in Hrun as (ready & w2 & Hready & Hrun).
    apply readyToTransferLeader_sameQueues in Hready.
    rewrite <- (sameQueues_disposals _ _ _ Hready).
    apply bind_inv in Hrun as (transferred & w3 & Htransfer & Hrun).
    assert (sameQueues w2 w3) as Hsame.
    { destruct ready; unfold transferLeader in Htransfer; mrun_in Htransfer;
        injection Htransfer as <- <-; by repeat split. }
    rewrite <- (sameQueues_disposals _ _ _ Hsame).
    mrun_in Hrun. injection Hrun as <- <-. apply answer_disposals.
  - apply bind_inv in Hrun as (req & w1 & Hreq & Hrun).
    unfold liftR in Hreq. destruct (deref _) as [req'|]; [|done].
    injection Hreq as <- <-.
    apply bind_inv in Hrun as ([idx e] & w2 & Hprop & Hrun).
    apply ProposeConfChange_sameQueues in Hprop.
    rewrite <- (sameQueues_disposals _ _ _ Hprop). by eapply Hfinish.
  - by eapply Hfinish.
Qed.
Lemma nodeKept_refl (w : World R) : nodeKept w w.
Proof. by repeat split. Qed.

Lemma nodeKept_trans (w1 w2 w3 : World R) :
  nodeKept w1 w2 → nodeKept w2 w3 → nodeKept w1 w3.
Proof.
  intros (Ha1 & Hb1 & Hc1 & Hd1) (Ha2 & Hb2 & Hc2 & Hd2).
  repeat split; congruence.
Qed.

Lemma inspect_nodeKept (rlog : RaftLog) : preservesW (@nodeKept R) (inspect rlog).
Proof.
  unfold inspect. destruct (GetRaftCmdRequest rlog) as [req|];
    [|apply (preservesW_ret _ (@nodeKept_refl))].
  intros w r w' Hrun. unfold Inspect in Hrun.
  destruct (bool_decide (is_Some (AdminReq req))).
  { repeat case_match; simplify_eq; apply nodeKept_refl. }
  destruct (Inspect_scan _ _ _) as [hasRead hasWrite|e];
    [|simplify_eq; apply nodeKept_refl].
  destruct hasWrite; [simplify_eq; apply nodeKept_refl|].
  destruct (from_option ReadQuorum false (Header req));
    [simplify_eq; apply nodeKept_refl|].
  destruct (negb _); [simplify_eq; apply nodeKept_refl|].
  change (inspectLease w) with (Peer_inspectLease w) in Hrun.
  destruct (Peer_inspectLease w) as [[state w1]|] eqn:Hlease; [|done].
  assert (nodeKept w w1) as Hkept.
  { revert Hlease. generalize w, state, w1. change (preservesW (@nodeKept R) Peer_inspectLease).
    unfold Peer_inspectLease.
    walk (@nodeKept_refl) (@nodeKept_trans) fail ltac:(by repeat split). }
  cbn in Hrun. destruct state; simplify_eq; done.
Qed.

Lemma ProposeNormal_index (cfg : Config) (rlog : RaftLog) (w w' : World R) (idx : Z) :
  ProposeNormal cfg rlog w = Ok ((idx, None), w') →
  idx = nextProposalIndex (peer w) ∧ proposalsKept w w'.
Proof.
  unfold ProposeNormal. mrun. destruct (_ && _); [intros; by simplify_eq|].
  destruct (PrePropose _ _ _) as [[rlog' [err|ctx]]|]; [| |done].
  { intros; by simplify_eq. }
  destruct (_ <? _); [intros; by simplify_eq|].
  destruct (RawNode_Propose _ _ _) as [rg' [e|]]; cbn.
  { intros; by simplify_eq. }
  destruct (_ =? _); intros; by simplify_eq.
Qed.

Lemma ProposeConfChange_index (cfg : Config) (req : RaftCmdRequest)
    (w w' : World R) (idx : Z) :
  ProposeConfChange cfg req w = Ok ((idx, None), w') →
  idx = nextProposalIndex (peer w) ∧ proposalsKept w w'.
Proof.
  unfold ProposeConfChange. mrun. cbn [peer].
  repeat (case_match; simplify_eq; cbn in * ); intros; simplify_eq; done.
Qed.

(** X24: a request that [Propose] proposes to the log, as a normal entry or as a
    conf change, leaves two records that agree: the proposal that waits for
    the entry and the proposal for the apply worker are appended together,
    with the index the entry was proposed at and the term of the consensus
    node, the first with the time of the proposal and the second with the
    callback and the kind of the proposal.  The index of the last urgent
    proposal becomes that index for an urgent request and stays as it was
    otherwise. *)
Theorem Propose_records_proposal (cfg : Config) (lcfg : LivenessConfig)
    (recent : RecentAddedPeer) (cb : Callback) (rlog : RaftLog)
    (errResp : RaftCmdResponse) (w w0 w' : World R) (policy : RequestPolicy) :
  inspect rlog w = Ok ((policy, None), w0) →
  policy = RequestPolicyProposeNormal ∨ policy = RequestPolicyProposeConfChange →
  Propose cfg lcfg recent cb rlog errResp w = Ok (true, w') →
  let idx := nextProposalIndex (peer w) in
  let term := Term (peer w') in
  (∃ t, proposals (peer w')
        = proposals (peer w)
          ++ [{| pm_Index := idx; pm_Term := term; RenewLeaseTime := Some t |}])
  ∧ applyProposals (peer w')
    = applyProposals (peer w)
      ++ [{| isConfChange := bool_decide (policy = RequestPolicyProposeConfChange);
             prop_index := idx; prop_term := term; prop_cb := cb |}]
  ∧ lastUrgentProposalIdx (peer w')
    = if IsUrgentRequest rlog then idx else lastUrgentProposalIdx (peer w).
Proof.
  intros Hinspect Hpolicy Hrun. cbv zeta. unfold Propose in Hrun.
  rewrite (bind_Ok _ _ w w (peer w)) in Hrun by reflexivity.
  destruct (PendingRemove (peer w)); [by injection Hrun|].
  rewrite (bind_Ok _ _ _ _ _ Hinspect) in Hrun.
  apply inspect_nodeKept in Hinspect as (Hnode0 & Hprops0 & Happly0 & Hurgent0).
  assert (∀ confChange r (w1 w2 : World R),
            Propose_finish (IsUrgentRequest rlog) confChange cb errResp r w1
            = Ok (true, w2) →
            r.2 = None
            ∧ (∃ t, proposals (peer w2)
                    = proposals (peer w1)
                      ++ [{| pm_Index := r.1; pm_Term := Term (peer w2);
                             RenewLeaseTime := Some t |}])
            ∧ applyProposals (peer w2)
              = applyProposals (peer w1)
                ++ [{| isConfChange := confChange; prop_index := r.1;
                       prop_term := Term (peer w2); prop_cb := cb |}]
            ∧ lastUrgentProposalIdx (peer w2)
              = if IsUrgentRequest rlog then r.1 else lastUrgentProposalIdx (peer w1))
    as Hfinish.
  { intros confChange [idx e] w1 w2 Hfin. unfold Propose_finish in Hfin.
    destruct e as [e|]; [mrun_in Hfin; by injection Hfin|].
    unfold PostPropose in Hfin.
    destruct (IsUrgentRequest rlog); mrun_in Hfin; injection Hfin as <-; cbn;
      (split; [done|]); (split; [by eexists|]); done. }
  destruct Hpolicy as [-> | ->].
  - apply bind_inv in Hrun as ([idx e] & w1 & Hprop & Hrun).
    apply Hfinish in Hrun as (He & Hprops & Happly & Hurgent). cbn [fst snd] in *.
    subst e. apply ProposeNormal_index in Hprop as (-> & Hp1 & Ha1 & Hu1).
    unfold nextProposalIndex in *. rewrite Hnode0 in *.
    rewrite Happly, Hurgent, Ha1, Hu1, Happly0, Hurgent0.
    rewrite bool_decide_false by done. split; [|done].
    destruct Hprops as [t Hprops]. exists t. by rewrite Hprops, Hp1, Hprops0.
  - apply bind_inv in Hrun as (req & w1 & Hreq & Hrun).
    unfold liftR in Hreq. destruct (deref _) as [req'|]; [|done].
    injection Hreq as <- <-.
    apply bind_inv in Hrun as ([idx e] & w1 & Hprop & Hrun).
    apply Hfinish in Hrun as (He & Hprops & Happly & Hurgent). cbn [fst snd] in *.
    subst e. apply ProposeConfChange_index in Hprop as (-> & Hp1 & Ha1 & Hu1).
    unfold nextProposalIndex in *. rewrite Hnode0 in *.
    rewrite Happly, Hurgent, Ha1, Hu1, Happly0, Hurgent0.
    rewrite bool_decide_true by done. split; [|done].
    destruct Hprops as [t Hprops]. exists t. by rewrite Hprops, Hp1, Hprops0.
Qed.
End ProposeFamily.

(** ** Pending peers *)

Section PendingPeers.
Context {R : Type} {raftLib : RaftLib R} {raftNode : RaftNode R}
        {deps : Deps} {moreDeps : MoreDeps}.

Lemma getPeerFromCache_resolves (peerID : Z) (w w' : World R)
    (found : option PeerMeta) :
  getPeerFromCache peerID w = Ok (found, w') →
  found = resolvePeer (peer w) peerID
  ∧ (∀ id, resolvePeer (peer w') id = resolvePeer (peer w) id)
  ∧ Meta (peer w') = Meta (peer w)
  ∧ peerStorage (peer w') = peerStorage (peer w)
  ∧ RaftGroup (peer w') = RaftGroup (peer w)
  ∧ tick w' = tick w ∧ clockAt w' = clockAt w ∧ trace w' = trace w.
Proof.
  unfold getPeerFromCache, resolvePeer. mrun. cbn [peer]. unfold PeerRegion, Store.
  destruct (peerCache (peer w) !! peerID) as [pm|] eqn:Hcache.
  { intros Hrun. by simplify_eq. }
  destruct (find _ _) as [pm|] eqn:Hfind; intros Hrun; simplify_eq; [|done].
  split; [done|]. split; [|done]. intros id.
  cbn [peer insertPeerCache set_peerCache peerCache peerStorage].
  apply find_some in Hfind as Hpm. destruct Hpm as [_ Hid].
  apply bool_decide_eq_true in Hid. rewrite Hid.
  destruct (decide (id = peerID)) as [->|Hne].
  - by rewrite lookup_insert_eq, Hcache, Hfind.
  - by rewrite lookup_insert_ne.
Qed.

Ltac nothing_new :=
  first [ intros ?pm; split;
          [ intros Hin; by apply elem_of_nil in Hin
          | intros (? & ? & ?); first [done | lia | congruence] ]
        | intros; first [done | lia | by destruct_and?; simplify_eq
                         | match goal with H : is_Some None |- _ => by destruct H end ] ].

Ltac one_new :=
  first [ intros ?pm; rewrite list_elem_of_singleton; split;
          [ intros ->; done | intros (? & ? & ?); congruence ]
        | intros; rewrite ?lookup_insert_eq; by eexists ].

Lemma CollectPendingPeers_loop_spec (self truncatedIdx : Z)
    (visit : list (Z * Progress)) :
  ∀ (startPending startPending' : gmap Z Time) (acc pending : list PeerMeta)
    (w w' : World R),
    CollectPendingPeers_loop self truncatedIdx visit startPending acc w
    = Ok ((pending, startPending'), w') →
    (∀ id, resolvePeer (peer w') id = resolvePeer (peer w) id)
    ∧ Meta (peer w') = Meta (peer w)
    ∧ peerStorage (peer w') = peerStorage (peer w)
    ∧ RaftGroup (peer w') = RaftGroup (peer w)
    ∧ trace w' = trace w ∧ clockAt w' = clockAt w ∧ (tick w ≤ tick w')%nat
    ∧ (∀ id t, startPending !! id = Some t → startPending' !! id = Some t)
    ∧ (∀ id t, startPending' !! id = Some t →
               startPending !! id = Some t
               ∨ ∃ n, (tick w ≤ n < tick w')%nat ∧ t = clockAt w n)
    ∧ ∃ new,
        pending = acc ++ new
        ∧ (∀ pm, pm ∈ new ↔
                 ∃ id pr, (id, pr) ∈ visit ∧ id ≠ self ∧ Match pr < truncatedIdx
                          ∧ resolvePeer (peer w) id = Some pm)
        ∧ (∀ id pr, (id, pr) ∈ visit → id ≠ self → Match pr < truncatedIdx →
                    is_Some (resolvePeer (peer w) id) →
                    is_Some (startPending' !! id)).
Proof.
  induction visit as [|[id pr] visit IH];
    intros startPending startPending' acc pending w w' Hrun.
  - injection Hrun as <- <- <-. repeat split; try done.
    + intros id t Hid. by left.
    + exists []. rewrite app_nil_r. split; [done|]. split.
      * intros pm. split; [intros Hin; by apply elem_of_nil in Hin|].
        intros (id & pr & Hin & _). by apply elem_of_nil in Hin.
      * intros id pr Hin. by apply elem_of_nil in Hin.
  - cbn [CollectPendingPeers_loop] in Hrun.
    assert (∀ (w1 : World R) (sp : gmap Z Time) (new1 : list PeerMeta),
              (∀ id, resolvePeer (peer w1) id = resolvePeer (peer w) id) →
              (∀ pm, pm ∈ new1 ↔
                     id ≠ self ∧ Match pr < truncatedIdx
                     ∧ resolvePeer (peer w) id = Some pm) →
              (id ≠ self → Match pr < truncatedIdx →
               is_Some (resolvePeer (peer w) id) → is_Some (sp !! id)) →
              ∀ new2 : list PeerMeta,
                (∀ pm, pm ∈ new2 ↔
                       ∃ id' pr', (id', pr') ∈ visit ∧ id' ≠ self
                                  ∧ Match pr' < truncatedIdx
                                  ∧ resolvePeer (peer w1) id' = Some pm) →
                (∀ id' pr', (id', pr') ∈ visit → id' ≠ self →
                            Match pr' < truncatedIdx →
                            is_Some (resolvePeer (peer w1) id') →
                            is_Some (startPending' !! id')) →
                (∀ i t, sp !! i = Some t → startPending' !! i = Some t) →
                (∀ pm, pm ∈ new1 ++ new2 ↔
                       ∃ id' pr', (id', pr') ∈ (id, pr) :: visit ∧ id' ≠ self
                                  ∧ Match pr' < truncatedIdx
                                  ∧ resolvePeer (peer w) id' = Some pm)
                ∧ (∀ id' pr', (id', pr') ∈ (id, pr) :: visit → id' ≠ self →
                              Match pr' < truncatedIdx →
                              is_Some (resolvePeer (peer w) id') →
                              is_Some (startPending' !! id'))) as Hcombine.
    { intros w1 sp new1 Hres Hnew1 Hsp1 new2 Hnew2 Hsp2 Hkeep. split.
      - intros pm. rewrite elem_of_app, Hnew1, Hnew2. split.
        + intros [(? & ? & ?)|(id' & pr' & Hin & ? & ? & Hr)].
          * exists id, pr. split; [apply elem_of_cons; by left|done].
          * exists id', pr'. split; [apply elem_of_cons; by right|].
            rewrite <- Hres. done.
        + intros (id' & pr' & Hin & ? & ? & Hr).
          apply elem_of_cons in Hin as [Heq|Hin].
          * injection Heq as -> ->. by left.
          * right. exists id', pr'. rewrite Hres. done.
      - intros id' pr' Hin Hne Hlt Hknown.
        apply elem_of_cons in Hin as [Heq|Hin].
        + injection Heq as -> ->. destruct (Hsp1 Hne Hlt Hknown) as [t Ht].
          exists t. by apply Hkeep.
        + eapply Hsp2; try done. by rewrite Hres. }
    destruct (Z.eqb_spec id self) as [Hself|Hother].
    { apply IH in Hrun
        as (Hres & Hm & Hs & Hg & Htr & Hc & Ht & Hkeep & Hnewt & new & -> & Hnew & Hsp).
      repeat split; try done. exists new. split; [done|].
      apply (Hcombine w startPending []); try done; nothing_new. }
    destruct (Z.ltb_spec (Match pr) truncatedIdx) as [Hlag|Hok].
    2:{ apply IH in Hrun
          as (Hres & Hm & Hs & Hg & Htr & Hc & Ht & Hkeep & Hnewt & new & -> & Hnew & Hsp).
        repeat split; try done. exists new. split; [done|].
        apply (Hcombine w startPending []); try done; nothing_new. }
    apply bind_inv in Hrun as (found & w1 & Hfound & Hrun).
    apply getPeerFromCache_resolves in Hfound
      as (-> & Hres1 & Hm1 & Hs1 & Hg1 & Ht1 & Hc1 & Htr1).
    destruct (resolvePeer (peer w) id) as [pm|] eqn:Hpm.
    2:{ apply IH in Hrun
          as (Hres & Hm & Hs & Hg & Htr & Hc & Ht & Hkeep & Hnewt & new & -> & Hnew & Hsp).
        split; [intros i; by rewrite Hres, Hres1|].
        split; [congruence|]. split; [congruence|]. split; [congruence|].
        split; [congruence|]. split; [congruence|]. split; [lia|].
        split; [done|]. split.
        { intros i t Hi. destruct (Hnewt _ _ Hi) as [?|(n & Hn & ->)]; [by left|].
          right. exists n. rewrite Hc1. split; [lia|done]. }
        exists new. split; [done|].
        apply (Hcombine w1 startPending []); try done; nothing_new. }
    destruct (startPending !! id) as [since|] eqn:Hsince.
    + apply IH in Hrun
        as (Hres & Hm & Hs & Hg & Htr & Hc & Ht & Hkeep & Hnewt & new & -> & Hnew & Hsp).
      split; [intros i; by rewrite Hres, Hres1|].
      split; [congruence|]. split; [congruence|]. split; [congruence|].
      split; [congruence|]. split; [congruence|]. split; [lia|].
      split; [done|]. split.
      { intros i t Hi. destruct (Hnewt _ _ Hi) as [?|(n & Hn & ->)]; [by left|].
        right. exists n. rewrite Hc1. split; [lia|done]. }
      exists ([pm] ++ new). split; [by rewrite <- app_assoc|].
      apply (Hcombine w1 startPending [pm]); try done; one_new.
    + apply bind_inv in Hrun as (now & w2 & Hnow & Hrun). injection Hnow as <- <-.
      apply IH in Hrun
        as (Hres & Hm & Hs & Hg & Htr & Hc & Ht & Hkeep & Hnewt & new & -> & Hnew & Hsp).
      cbn [peer tick clockAt trace] in *.
      split; [intros i; by rewrite Hres, Hres1|].
      split; [congruence|]. split; [congruence|]. split; [congruence|].
      split; [congruence|]. split; [congruence|]. split; [lia|].
      split.
      { intros i t Hi. apply Hkeep. rewrite lookup_insert_ne; [done|].
        intros <-. congruence. }
      split.
      { intros i t Hi. destruct (Hnewt _ _ Hi) as [Hold|(n & Hn & ->)].
        - apply lookup_insert_Some in Hold as [[<- <-]|[_ Hold]]; [|by left].
          right. exists (tick w). rewrite Hc1, Ht1. split; [lia|done].
        - right. exists n. rewrite Hc1. split; [lia|done]. }
      exists ([pm] ++ new). split; [by rewrite <- app_assoc|].
      apply (Hcombine w1 (<[id := clockAt w1 (tick w1)]> startPending) [pm]);
        try done; one_new.
Qed.

(** X25: whatever the order in which the progress map is visited,
    [CollectPendingPeers] returns the peers it can look up, other than the
    peer itself, whose match is below the truncated index, and no other; each
    of them has a pending-since time afterwards.  A pending-since time that is
    recorded is never changed, and one that is added is a reading of the clock
    taken during the call. *)
Theorem CollectPendingPeers_pending (visit : list (Z * Progress))
    (c c' : PeerClocks) (w w' : World R) (pendingPeers : list PeerMeta) :
  visit ≡ₚ map_to_list (Status_Progress (RaftGroup (peer w))) →
  CollectPendingPeers visit c w = Ok ((pendingPeers, c'), w') →
  let p := peer w in
  let lagging id :=
    id ≠ Id (Meta p)
    ∧ ∃ pr, Status_Progress (RaftGroup p) !! id = Some pr
            ∧ Match pr < truncatedIndex (Store p) in
  (∀ pm, pm ∈ pendingPeers ↔ ∃ id, lagging id ∧ resolvePeer p id = Some pm)
  ∧ (∀ id, lagging id → is_Some (resolvePeer p id) →
           is_Some (PeersStartPendingTime c' !! id))
  ∧ (∀ id t, PeersStartPendingTime c !! id = Some t →
             PeersStartPendingTime c' !! id = Some t)
  ∧ (∀ id t, PeersStartPendingTime c' !! id = Some t →
             PeersStartPendingTime c !! id = Some t
             ∨ ∃ n, (tick w ≤ n < tick w')%nat ∧ t = clockAt w n)
  ∧ PeerHeartbeats c' = PeerHeartbeats c
  ∧ leaderMissingTime c' = leaderMissingTime c
  ∧ trace w' = trace w.
Proof.
  intros Hvisit Hrun. cbv zeta. unfold CollectPendingPeers in Hrun.
  rewrite (bind_Ok _ _ w w (peer w)) in Hrun by reflexivity.
  apply bind_inv in Hrun as ([pending sp] & w1 & Hloop & Hrun).
  injection Hrun as <- <- <-.
  apply CollectPendingPeers_loop_spec in Hloop
    as (Hres & Hm & Hs & Hg & Htr & Hc & Ht & Hkeep & Hnewt & new & -> & Hnew & Hsp).
  cbn [app PeersStartPendingTime PeerHeartbeats leaderMissingTime
       set_PeersStartPendingTime].
  assert (∀ id pr, (id, pr) ∈ visit
                   ↔ Status_Progress (RaftGroup (peer w)) !! id = Some pr) as Hin.
  { intros id pr. rewrite Hvisit. apply elem_of_map_to_list. }
  split; [|split; [|done]].
  - intros pm. rewrite Hnew. split.
    + intros (id & pr & Hv & Hne & Hlt & Hr). exists id. split; [|done].
      split; [done|]. exists pr. by rewrite <- Hin.
    + intros (id & (Hne & pr & Hpr & Hlt) & Hr). exists id, pr. by rewrite Hin.
  - intros id (Hne & pr & Hpr & Hlt) Hknown. eapply Hsp; try done. by apply Hin.
Qed.
End PendingPeers.

(** ** A peer that is being destroyed *)

Section Destroyed.
Context {R : Type} {raftLib : RaftLib R} {raftNode : RaftNode R}
        {deps : Deps} {moreDeps : MoreDeps}.
Context {RemoteLeasePtr : Type}.
Variable RemoteLease_Inspect : RemoteLeasePtr → Time → Result LeaseState.

(** X26: once [MaybeDestroy] has given a job the peer serves nothing: [Propose]
    returns false without answering or queueing the callback, and a leader
    checker that carries the peer's invalid flag turns every read away with
    RegionNotFound for the region of the request, without consulting the
    lease or the router, whatever the request is. *)
Theorem destroyed_peer_serves_nothing (w w' : World R) (job : DestroyPeerJob) :
  MaybeDestroy w = Ok (Some job, w') →
  (∀ cfg lcfg recent cb rlog errResp,
     Propose cfg lcfg recent cb rlog errResp w' = Ok (false, w'))
  ∧ (∀ (c : @leaderChecker.t RemoteLeasePtr) ctx router clock cb,
       leaderChecker.invalid c = lc_invalid (leaderChecker (peer w')) →
       leaderChecker.IsLeader RemoteLease_Inspect c ctx router clock cb
       = rejected (ErrRegionNotFound (leaderChecker.RegionId ctx))).
Proof.
  unfold MaybeDestroy. mrun. cbn [peer]. intros Hrun.
  assert (PendingRemove (peer w') = true
          ∧ lc_invalid (leaderChecker (peer w')) = true) as [Hremove Hinvalid].
  { destruct (PendingRemove (peer w)); [done|].
    destruct (IsApplyingSnapshot (peer w)).
    - destruct (CancelApplyingSnap (Store (peer w))) as [[] ps]; cbn in Hrun; [|done].
      by injection Hrun as <- <-.
    - by injection Hrun as <- <-. }
  split.
  - intros cfg lcfg recent cb rlog errResp. unfold Propose. mrun. by rewrite Hremove.
  - intros c ctx router clock cb Hc. rewrite Hinvalid in Hc.
    unfold leaderChecker.IsLeader, leaderChecker.isExpired. by rewrite Hc.
Qed.
End Destroyed.

(** ** Conf changes that name no peer *)

Section ConfChangeNil.
Context {R : Type} {raftLib : RaftLib R}.

(** X27: [checkConfChange] reads the peer named by the request: on a request that
    names none, and so on a request that is no change-peer request at all, it
    panics, except for a RemoveNode while removing the leader is allowed and
    the group has a single node, which it accepts. *)
Theorem checkConfChange_needs_peer (p : Peer R) (cfg : Config) (cmd : RaftCmdRequest) :
  GetPeer (GetChangePeerCmd cmd) = None →
  let total := Z.of_nat (size (Status_Progress (RaftGroup p))) in
  (GetChangePeerCmd cmd = None → isPanic (checkConfChange p cfg cmd) = true)
  ∧ if bool_decide (GetChangeType (GetChangePeerCmd cmd) = ConfChangeType_RemoveNode)
       && AllowRemoveLeader cfg && (total =? 1)
    then checkConfChange p cfg cmd = Ok None
    else isPanic (checkConfChange p cfg cmd) = true.
Proof.
  intros Hpeer. cbv zeta. unfold checkConfChange. rewrite Hpeer. split.
  - intros ->. reflexivity.
  - destruct (GetChangeType (GetChangePeerCmd cmd)); cbn; try reflexivity.
    destruct (AllowRemoveLeader cfg); cbn; [|reflexivity].
    destruct (_ =? 1); reflexivity.
Qed.
End ConfChangeNil.

(** ** File helpers *)

Section UtilFacts.
Context {FS : Type} {fileSystem : FileSystem FS}.

(** X28: no path is both a file and a directory for [FileExists] and
    [DirExists]; [GetFileSize] gives a size, without error, exactly for the
    paths that are one of the two, a directory included, and the size is in
    the range of [uint64]; for the others it gives 0 and the error of the
    file system. *)
Theorem GetFileSize_FileExists_DirExists (fs : FS) (path : string) :
  FileExists fs path && DirExists fs path = false
  ∧ ((GetFileSize fs path).2 = None
     ↔ FileExists fs path || DirExists fs path = true)
  ∧ 0 ≤ (GetFileSize fs path).1 < 2 ^ 64
  ∧ (∀ err, os_Stat fs path = inl err →
            GetFileSize fs path = (0, Some err)
            ∧ FileExists fs path = false ∧ DirExists fs path = false).
Proof.
  unfold FileExists, DirExists, GetFileSize.
  destruct (os_Stat fs path) as [err|fi]; cbn [fst snd].
  - split; [done|]. split; [done|]. split; [lia|]. intros ? [= <-]. done.
  - split; [by destruct (fi_IsDir fi)|]. split; [by destruct (fi_IsDir fi)|].
    split; [apply Z.mod_pos_bound; lia|]. done.
Qed.
End UtilFacts.

(** ** What PostApply records *)

Section PostApplyFacts.
Context {R : Type} {raftLib : RaftLib R} {deps : Deps}.

Lemma bookkeepingKept_refl (w : World R) : bookkeepingKept w w.
Proof. by repeat split. Qed.

Lemma bookkeepingKept_trans (w1 w2 w3 : World R) :
  bookkeepingKept w1 w2 → bookkeepingKept w2 w3 → bookkeepingKept w1 w3.
Proof.
  intros (? & ? & ? & ? & ? & ? & ? & ?) (? & ? & ? & ? & ? & ? & ? & ?).
  repeat split; congruence.
Qed.

Lemma PostApply_drain_bookkeeping (n : nat) :
  preservesW (@bookkeepingKept R) (PostApply_drain n).
Proof.
  induction n as [|n IH]; cbn [PostApply_drain].
  - apply (preservesW_ret _ (@bookkeepingKept_refl)).
  - unfold PopFront, respondReads, handleRead, Done.
    walk (@bookkeepingKept_refl) (@bookkeepingKept_trans) ltac:(apply IH)
         ltac:(by repeat split).
Qed.

(** X29: a completed [PostApply] has stored the apply state and the term of the
    applied index it was given, has added the metrics to the statistics and
    to the hints modulo 2^64 (the size hint is never reset by it), and has
    told the consensus node the applied index unless the region was merged.
    It reports a ready exactly when the consensus node has a snapshot pending
    and the last applying index is the applied index; and the leader checker
    learns the new term of the applied index only when that term changed, on
    a leader that is not pending removal. *)
Theorem PostApply_records (st : applyState) (term : Z) (merged : bool)
    (metrics : applyMetrics) (w w' : World R) (hasReady : bool) :
  PostApply st term merged metrics w = Ok (hasReady, w') →
  let p := peer w in
  let p' := peer w' in
  let raftGroup :=
    if merged then RaftGroup p
    else RawNode_AdvanceApply (RaftGroup p) (appliedIndex st) in
  IsApplyingSnapshot p = false
  ∧ RaftGroup p' = raftGroup
  ∧ peerStorage p'
    = {| ps_region := ps_region (peerStorage p); ps_applyState := st;
         appliedIndexTerm := term;
         ps_initialized := ps_initialized (peerStorage p);
         ps_applyingSnapshot := ps_applyingSnapshot (peerStorage p) |}
  ∧ WrittenBytes (peerStat p')
    = wrap64 (WrittenBytes (peerStat p) + am_writtenBytes metrics)
  ∧ WrittenKeys (peerStat p')
    = wrap64 (WrittenKeys (peerStat p) + am_writtenKeys metrics)
  ∧ deleteKeysHint p' = wrap64 (deleteKeysHint p + am_deleteKeysHint metrics)
  ∧ SizeDiffHint p' = wrap64 (SizeDiffHint p + am_sizeDiffHint metrics)
  ∧ hasReady
    = RawNode_HasSnap raftGroup && (LastApplyingIdx p =? appliedIndex st)
  ∧ lc_appliedIndexTerm (leaderChecker p')
    = if negb (appliedIndexTerm (peerStorage p) =? term)
         && bool_decide (Raft_State raftGroup = StateLeader)
         && negb (PendingRemove p)
      then term else lc_appliedIndexTerm (leaderChecker p).
Proof.
  intros Hrun. cbv zeta. unfold PostApply in Hrun.
  rewrite (bind_Ok _ _ w w (peer w)) in Hrun by reflexivity.
  destruct (IsApplyingSnapshot (peer w)) eqn:Hsnap; [done|].
  apply bind_inv in Hrun as ([] & w1 & Hadvance & Hrun).
  assert (w1 = withPeer (set_RaftGroup
                           (if merged then RaftGroup (peer w)
                            else RawNode_AdvanceApply (RaftGroup (peer w))
                                   (appliedIndex st)) (peer w)) w) as ->.
  { destruct merged; mrun_in Hadvance; injection Hadvance as <-; by destruct w as [[] ? ? ? ?]. }
  rewrite (bind_Ok _ _ _ _ _ eq_refl) in Hrun.
  erewrite bind_Ok in Hrun by reflexivity.
  rewrite (bind_Ok _ _ _ _ _ eq_refl) in Hrun.
  cbv zeta in Hrun.
  apply bind_inv in Hrun as ([] & w2 & Hdrain & Hrun).
  match type of Hdrain with
  | _ ?w0 = _ => assert (bookkeepingKept w0 w2) as Hkept
  end.
  { match type of Hdrain with
    | (if ?b then _ else _) _ = _ => destruct b
    end.
    - apply bind_inv in Hdrain as ([] & w3 & Hloop & Hreset).
      apply PostApply_drain_bookkeeping in Hloop.
      mrun_in Hreset. injection Hreset as <-.
      eapply bookkeepingKept_trans; [exact Hloop|]. by repeat split.
    - injection Hdrain as <-. apply bookkeepingKept_refl. }
  destruct Hkept as (Hstore & Hstat & Hsize & Hdel & Hlc & Hraft & Hrem & Hlast).
  cbn [peer withPeer peerStorage peerStat SizeDiffHint deleteKeysHint
       leaderChecker RaftGroup PendingRemove LastApplyingIdx set_RaftGroup]
    in Hstore, Hstat, Hsize, Hdel, Hlc, Hraft, Hrem, Hlast.
  rewrite (bind_Ok _ _ _ _ _ eq_refl) in Hrun.
  apply bind_inv in Hrun as ([] & w4 & Hchecker & Hrun).
  injection Hrun as <- <-.
  unfold IsLeader, HasPendingSnapshot, ReadyToHandlePendingSnap, AppliedIndex, Store
    in *.
  cbn [peer withPeer peerStorage ps_applyState RaftGroup set_RaftGroup
       LastApplyingIdx appliedIndexTerm PendingRemove] in *.
  rewrite Hraft, Hrem in Hchecker.
  assert (SizeDiffHint (peer w2)
          = wrap64 (SizeDiffHint (peer w) + am_sizeDiffHint metrics)) as Hsize'.
  { rewrite Hsize.
    destruct (Z.ltb_spec 0 (wrap64 (SizeDiffHint (peer w) + am_sizeDiffHint metrics)))
      as [|Hle]; [done|].
    pose proof (Z.mod_pos_bound (SizeDiffHint (peer w) + am_sizeDiffHint metrics)
                  (2 ^ 64) ltac:(lia)) as Hb.
    unfold wrap64 in *. lia. }
  match type of Hchecker with
  | when_ ?b _ _ = _ => destruct b
  end; mrun_in Hchecker; injection Hchecker as <-; cbn;
    rewrite ?Hstore, ?Hstat, ?Hdel, ?Hlc, ?Hraft, ?Hsize'; done.
Qed.
End PostApplyFacts.

(** ** More runs on concrete states *)

Section MoreConcrete.
Import Mock Examples MockNode.

(** The read queued as number 1 and a read numbered 258. *)
Lemma binaryID_injective_witness :
  length (binaryID pendingRead) = 8%nat
  ∧ (binaryID pendingRead = binaryID (NewReadIndexRequest 258 [] None) →
     id pendingRead = id (NewReadIndexRequest 258 [] None)).
Proof.
  apply (binaryID_injective pendingRead (NewReadIndexRequest 258 [] None));
    cbn; lia.
Defined.

(** A Put inspected on the leader of term 5. *)
Lemma Inspect_classifies_witness :
  ∃ policy err w',
    Inspect leaderWorld (requestOf putLog) = Ok ((policy, err), w')
    ∧ policy = RequestPolicyProposeNormal ∧ err = None ∧ w' = leaderWorld.
Proof.
  assert (∃ policy err w',
            Inspect leaderWorld (requestOf putLog) = Ok ((policy, err), w'))
    as (policy & err & w' & Hrun) by (eexists _, _, _; vm_compute; reflexivity).
  exists policy, err, w'. split; [exact Hrun|].
  exact (Inspect_classifies leaderWorld w' (requestOf putLog) policy err
           eq_refl Hrun).
Defined.

(** A split request before it is proposed on the leader of term 5. *)
Lemma PrePropose_flags_witness :
  ∃ rlog' ctx,
    PrePropose (leaderPeer healthy3) cfg splitLog = Ok (rlog', inr ctx)
    ∧ contains ctx ProposalContextSyncLog = true
    ∧ contains ctx ProposalContextSplit = true
    ∧ contains ctx ProposalContextPrepareMerge = false
    ∧ NewProposalContextFromBytes (ToBytes ctx) = Ok (Some ctx).
Proof.
  assert (∃ rlog' ctx,
            PrePropose (leaderPeer healthy3) cfg splitLog = Ok (rlog', inr ctx))
    as (rlog' & ctx & Hrun) by (eexists _, _; vm_compute; reflexivity).
  exists rlog', ctx. split; [exact Hrun|].
  exact (PrePropose_flags (leaderPeer healthy3) cfg splitLog rlog'
           (requestOf splitLog) ctx eq_refl Hrun).
Defined.

(** A prepare-merge request on a leader of three peers with the entry limit 8:
    the least match is 2, and the entries from index 3 on, two of them, hold
    7 bytes; with 8 bytes there the request is refused. *)
Lemma preProposePrepareMerge_accepts_witness :
  (∃ req',
     preProposePrepareMerge (withLog log7 (leaderPeer oneLagging3)) cfg
       (requestOf prepareMergeLog) = Ok (inr req')
     ∧ AdminReq req' ≫= PrepareMerge = Some {| MinIndex := 3 |}
     ∧ Forall mergeableEntry (drop 1 log7)
     ∧ dataSize (drop 1 log7) = 7
     ∧ 10 * dataSize (drop 1 log7) ≤ 9 * RaftEntryMaxSize cfg)
  ∧ preProposePrepareMerge (withLog log8 (leaderPeer oneLagging3)) cfg
      (requestOf prepareMergeLog)
    = Ok (inl (ErrMsg "log gap size exceed entry size limit, skip merging")).
Proof.
  split; [|vm_compute; reflexivity].
  assert (∃ req',
            preProposePrepareMerge (withLog log7 (leaderPeer oneLagging3)) cfg
              (requestOf prepareMergeLog) = Ok (inr req'))
    as (req' & Hrun) by (eexists; vm_compute; reflexivity).
  exists req'. split; [exact Hrun|].
  assert (∀ id pr,
            Status_Progress (RaftGroup (withLog log7 (leaderPeer oneLagging3))) !! id
            = Some pr → 0 ≤ Match pr) as Hmatch
    by (change (map_Forall (λ (_ : Z) pr, 0 ≤ Match pr) oneLagging3);
        apply (bool_decide_unpack _); vm_compute; exact I).
  destruct (preProposePrepareMerge_accepts
              (withLog log7 (leaderPeer oneLagging3)) cfg
              (requestOf prepareMergeLog) req' Hmatch Hrun)
    as (_ & _ & (ents & Hents & Hmergeable & _ & Hsize) & Hmin & _).
  assert (ents = drop 1 log7) as ->
    by (vm_compute in Hents; injection Hents as <-; reflexivity).
  split; [exact Hmin|]. split; [exact Hmergeable|]. split; [reflexivity|].
  apply Hsize. vm_compute. split; [discriminate | reflexivity].
Defined.

(** The peer 2 is looked up on a leader whose cache is empty. *)
Lemma getPeerFromCache_caches_witness :
  ∃ pm w',
    getPeerFromCache 2 leaderWorld = Ok (Some pm, w')
    ∧ peerCache (peer w') !! 2 = Some pm
    ∧ getPeerFromCache 2 w' = Ok (Some pm, w')
    ∧ Id pm = 2.
Proof.
  assert (∃ pm w', getPeerFromCache 2 leaderWorld = Ok (Some pm, w'))
    as (pm & w' & Hrun) by (eexists _, _; vm_compute; reflexivity).
  exists pm, w'. split; [exact Hrun|].
  destruct (getPeerFromCache_caches 2 leaderWorld w' (Some pm) Hrun)
    as (Hcached & Hagain & Hfresh).
  split; [exact Hcached|]. split; [exact Hagain|].
  apply Hfresh. reflexivity.
Defined.

(** Two heartbeats sent by the leader of term 5 over a transport that takes
    every message. *)
Lemma Send_in_order_witness :
  ∃ w' sent,
    Send okTransport [heartbeat 1 2; heartbeat 1 3] leaderWorld = Ok (None, w')
    ∧ trace w' = trace leaderWorld ++ transportSends sent
    ∧ rm_Message <$> sent = [heartbeat 1 2; heartbeat 1 3].
Proof.
  assert (∃ w', Send okTransport [heartbeat 1 2; heartbeat 1 3] leaderWorld
                = Ok (None, w'))
    as (w' & Hrun) by (eexists; vm_compute; reflexivity).
  destruct (Send_in_order okTransport [heartbeat 1 2; heartbeat 1 3]
              leaderWorld w' None Hrun)
    as (sent & Htrace & _ & Hall & _).
  exists w', sent. split; [exact Hrun|]. split; [exact Htrace|].
  apply Hall. reflexivity.
Defined.

(** The reads of a queue with one read that is not ready are cleared at
    term 6. *)
Lemma ClearUncommitted_notifies_stale_witness :
  ∃ w',
    ClearUncommitted 6 (world (withPendingRead 0 (leaderPeer healthy3)) 100)
    = Ok (tt, w')
    ∧ trace w' = [EvDone (ClientCb 1) (ErrRespStaleCommand 6)]
    ∧ reads (pendingReads (peer w')) = [].
Proof.
  assert (∃ w',
            ClearUncommitted 6 (world (withPendingRead 0 (leaderPeer healthy3)) 100)
            = Ok (tt, w'))
    as (w' & Hrun) by (eexists; vm_compute; reflexivity).
  exists w'. split; [exact Hrun|].
  destruct (ClearUncommitted_notifies_stale 6 _ w' Hrun) as (_ & ->).
  split; reflexivity.
Defined.

(** The peer with one pending read is destroyed on engines whose KV write
    fails. *)
Lemma Destroy_failure_answers_nobody_witness :
  ∃ err w',
    Destroy brokenKV false (world (withPendingRead 0 (leaderPeer healthy3)) 100)
    = Ok (Some err, w')
    ∧ peer w' = withPendingRead 0 (leaderPeer healthy3)
    ∧ trace w' = [EvWriteKV (tombstoneBatch 7 None)].
Proof.
  assert (∃ err w',
            Destroy brokenKV false
              (world (withPendingRead 0 (leaderPeer healthy3)) 100)
            = Ok (Some err, w'))
    as (err & w' & Hrun) by (eexists _, _; vm_compute; reflexivity).
  exists err, w'. split; [exact Hrun|].
  destruct (Destroy_failure_answers_nobody brokenKV false _ w' err Hrun)
    as (Hpeer & [(Hclear & _)|[(_ & _ & Htrace)|(_ & Hkv & _)]]).
  - discriminate Hclear.
  - split; [exact Hpeer | exact Htrace].
  - discriminate Hkv.
Defined.

(** The leader of term 5 is handed one committed entry at index 10. *)
Lemma HandleRaftReadyApply_schedules_witness :
  ∃ ready' w',
    HandleRaftReadyApply prepareMergeReady leaderWorld = Ok (ready', w')
    ∧ CommittedEntries ready' = []
    ∧ LastApplyingIdx (peer w') = 10
    ∧ ∃ term answers,
        trace w'
        = EvApplyMsg 7 {| apply_regionID := 7; apply_term := term;
                          apply_entries := [prepareMergeEntry] |} :: answers
        ∧ Forall isAnswer answers.
Proof.
  assert (∃ ready' w',
            HandleRaftReadyApply prepareMergeReady leaderWorld = Ok (ready', w'))
    as (ready' & w' & Hrun) by (eexists _, _; vm_compute; reflexivity).
  exists ready', w'. split; [exact Hrun|].
  destruct (HandleRaftReadyApply_schedules prepareMergeReady ready' leaderWorld w'
              Hrun) as (_ & Hrest).
  assert (IsApplyingSnapshot (peer leaderWorld) = false) as Hsnap by reflexivity.
  rewrite Hsnap in Hrest. destruct Hrest as (Hents & _ & Hlast & Htrace).
  split; [exact Hents|]. split; [exact Hlast | exact Htrace].
Defined.


(** A split request is urgent. *)
Lemma IsUrgentRequest_covers_sync_witness :
  getSyncLogFromRequest (requestOf splitLog) = true
  ∧ IsUrgentRequest splitLog = true.
Proof.
  split; [reflexivity|].
  apply (IsUrgentRequest_covers_sync splitLog (requestOf splitLog) eq_refl).
  reflexivity.
Defined.

(** A follower that misses its leader since time 20 is asked at time 1000,
    with 600 as the abnormal and 7200 as the maximal duration. *)
Lemma CheckStaleState_verdicts_witness :
  ∃ c' w',
    CheckStaleState lcfg missingClocks (world (peer followerWorld) 1000)
    = Ok ((StaleStateLeaderMissing, c'), w')
    ∧ c' = missingClocks
    ∧ peer w' = peer followerWorld.
Proof.
  assert (∃ c' w',
            CheckStaleState lcfg missingClocks (world (peer followerWorld) 1000)
            = Ok ((StaleStateLeaderMissing, c'), w'))
    as (c' & w' & Hrun) by (eexists _, _; vm_compute; reflexivity).
  exists c', w'. split; [exact Hrun|].
  destruct (CheckStaleState_verdicts lcfg missingClocks c' _ w' _ Hrun)
    as (Hpeer & _ & _ & _ & _ & Hmissing & _).
  destruct (Hmissing eq_refl) as (_ & _ & _ & Hc & _).
  split; [exact Hc | exact Hpeer].
Defined.

(** The leader heard the peer 2 at time 40 and the peer 3 at time 90, and
    collects at time 100 the peers silent for more than 30. *)
Lemma CollectDownPeers_reports_witness :
  ∃ down w',
    CollectDownPeers 30 clocks leaderWorld = Ok (down, w')
    ∧ peer w' = peer leaderWorld
    ∧ pmOf 2 PeerRole_Voter ∈ stats_Peer <$> down
    ∧ (stats_Peer <$> down) `sublist_of` Peers region1.
Proof.
  assert (∃ down w', CollectDownPeers 30 clocks leaderWorld = Ok (down, w'))
    as (down & w' & Hrun) by (eexists _, _; vm_compute; reflexivity).
  exists down, w'. split; [exact Hrun|].
  destruct (CollectDownPeers_reports 30 clocks leaderWorld w' down Hrun)
    as (Hpeer & Hsub & _ & Hall).
  split; [exact Hpeer|]. split; [|exact Hsub].
  apply (Hall ltac:(intros m n ?; cbn; lia) (pmOf 2 PeerRole_Voter) 40).
  - apply elem_of_cons. right. apply elem_of_cons. left. reflexivity.
  - cbn. lia.
  - reflexivity.
  - cbn. lia.
Defined.

(** The leader of three peers has heard two of them. *)
Lemma CheckPeers_fills_witness :
  ∃ c' w',
    CheckPeers clocks leaderWorld = Ok (c', w')
    ∧ PeerHeartbeats c' !! 2 = Some 40
    ∧ ∀ pm, pm ∈ Peers region1 → is_Some (PeerHeartbeats c' !! Id pm).
Proof.
  assert (∃ c' w', CheckPeers clocks leaderWorld = Ok (c', w'))
    as (c' & w' & Hrun) by (eexists _, _; vm_compute; reflexivity).
  exists c', w'. split; [exact Hrun|].
  destruct (CheckPeers_fills clocks c' leaderWorld w' Hrun)
    as (_ & _ & _ & _ & Hleader).
  assert (IsLeader (peer leaderWorld) = true) as Hl by reflexivity.
  rewrite Hl in Hleader. destruct Hleader as (Hkeep & Hfill & _).
  split; [apply Hkeep; reflexivity|].
  apply Hfill. vm_compute. discriminate.
Defined.

(** The peer 3, pending since time 50, has all of the leader's log; a
    follower asked the same forgets the pending peers. *)
Lemma AnyNewPeerCatchUp_once_witness :
  (∃ c' w',
     AnyNewPeerCatchUp 3 clocks leaderWorld = Ok ((true, c'), w')
     ∧ PeersStartPendingTime c' = delete 3 (PeersStartPendingTime clocks)
     ∧ ∃ c'', AnyNewPeerCatchUp 3 c' w' = Ok ((false, c''), w'))
  ∧ (∃ c' w',
       AnyNewPeerCatchUp 3 clocks followerWorld = Ok ((false, c'), w')
       ∧ PeersStartPendingTime c' = ∅).
Proof.
  split.
  - assert (∃ c' w', AnyNewPeerCatchUp 3 clocks leaderWorld = Ok ((true, c'), w'))
      as (c' & w' & Hrun) by (eexists _, _; vm_compute; reflexivity).
    exists c', w'. split; [exact Hrun|].
    destruct (AnyNewPeerCatchUp_once 3 clocks c' leaderWorld w' true Hrun)
      as (_ & _ & _ & _ & _ & _ & Hdel & _ & Hagain).
    split; [exact Hdel | exact Hagain].
  - assert (∃ c' w', AnyNewPeerCatchUp 3 clocks followerWorld = Ok ((false, c'), w'))
      as (c' & w' & Hrun) by (eexists _, _; vm_compute; reflexivity).
    exists c', w'. split; [exact Hrun|].
    destruct (AnyNewPeerCatchUp_once 3 clocks c' followerWorld w' false Hrun)
      as (_ & _ & _ & _ & Hcleared).
    exact Hcleared.
Defined.

(** The leader steps a heartbeat of the peer 2 at time 100. *)
Lemma Step_records_heartbeat_witness :
  ∃ err c' w',
    Step (Some (heartbeat 2 1)) noClocks leaderWorld = Ok ((err, c'), w')
    ∧ isPanic (Step None noClocks leaderWorld) = true
    ∧ PeerHeartbeats c' !! 2 = Some 100
    ∧ leaderMissingTime c' = None.
Proof.
  assert (∃ err c' w',
            Step (Some (heartbeat 2 1)) noClocks leaderWorld = Ok ((err, c'), w'))
    as (err & c' & w' & Hrun) by (eexists _, _, _; vm_compute; reflexivity).
  exists err, c', w'. split; [exact Hrun|].
  destruct (Step_records_heartbeat (heartbeat 2 1) noClocks c' leaderWorld w' err
              Hrun) as (Hnil & _ & _ & _ & Hleader).
  split; [exact Hnil|].
  assert (IsLeader (peer leaderWorld) && negb (From (heartbeat 2 1) =? InvalidID)
          = true) as Hl by reflexivity.
  rewrite Hl in Hleader. destruct Hleader as (Hhb & Hmissing & _).
  split; [exact Hhb | exact Hmissing].
Defined.

(** The leader of term 5 is told to destroy itself, twice. *)
Lemma MaybeDestroy_once_witness :
  ∃ job w',
    MaybeDestroy leaderWorld = Ok (Some job, w')
    ∧ PendingRemove (peer w') = true
    ∧ lc_invalid (leaderChecker (peer w')) = true
    ∧ AsyncRemove job = true
    ∧ MaybeDestroy w' = Ok (None, w').
Proof.
  assert (∃ job w', MaybeDestroy leaderWorld = Ok (Some job, w'))
    as (job & w' & Hrun) by (eexists _, _; vm_compute; reflexivity).
  exists job, w'. split; [exact Hrun|].
  destruct (MaybeDestroy_once leaderWorld w' (Some job) Hrun)
    as (_ & Hremove & Hinvalid & _ & _ & _ & Hasync & _ & Hagain).
  split; [exact Hremove|]. split; [exact Hinvalid|].
  split; [exact Hasync | exact Hagain].
Defined.

(** The leader is asked to hand the leadership to the peer 2, which has all
    of its log. *)
Lemma ProposeTransferLeader_advice_witness :
  ∃ w',
    ProposeTransferLeader lcfg recent (requestOf transferLog) (ClientCb 1) leaderWorld
    = Ok (true, w')
    ∧ trace w' = [EvDone (ClientCb 1) makeTransferLeaderResponse]
    ∧ noSnapshotInFlight healthy3.
Proof.
  assert (∃ w',
            ProposeTransferLeader lcfg recent (requestOf transferLog) (ClientCb 1)
              leaderWorld = Ok (true, w'))
    as (w' & Hrun) by (eexists; vm_compute; reflexivity).
  exists w'. split; [exact Hrun|].
  destruct (ProposeTransferLeader_advice lcfg recent (requestOf transferLog)
              (ClientCb 1) leaderWorld w' true Hrun)
    as (cmd & _ & Htrace & _ & _ & Hsnap & _).
  split; [exact Htrace | exact Hsnap].
Defined.

(** The leader proposes to add the peer 4 as a voter. *)
Lemma ProposeConfChange_guards_witness :
  ∃ w',
    ProposeConfChange cfg (requestOf addNodeLog) leaderWorld = Ok ((11, None), w')
    ∧ sameQueues leaderWorld w'
    ∧ nextProposalIndex (peer w') ≠ 11.
Proof.
  assert (∃ w', ProposeConfChange cfg (requestOf addNodeLog) leaderWorld
                = Ok ((11, None), w'))
    as (w' & Hrun) by (eexists; vm_compute; reflexivity).
  exists w'. split; [exact Hrun|].
  destruct (ProposeConfChange_guards cfg (requestOf addNodeLog) leaderWorld w'
              11 None Hrun) as (Hsame & _ & Hidx).
  split; [exact Hsame|]. apply (Hidx eq_refl).
Defined.

(** A Put of the client callback 1 is proposed on the leader of term 5. *)
Lemma Propose_disposes_once_witness :
  ∃ w',
    Propose cfg lcfg recent (ClientCb 1) putLog newRaftCmdResponse leaderWorld
    = Ok (true, w')
    ∧ disposals (ClientCb 1) w' = 1%nat.
Proof.
  assert (∃ w',
            Propose cfg lcfg recent (ClientCb 1) putLog newRaftCmdResponse
              leaderWorld = Ok (true, w'))
    as (w' & Hrun) by (eexists; vm_compute; reflexivity).
  exists w'. split; [exact Hrun|].
  exact (Propose_disposes_once cfg lcfg recent 1 putLog newRaftCmdResponse
           leaderWorld w' true Hrun).
Defined.

(** The request to add the peer 4 is proposed on the leader of term 5, whose
    log ends at index 10. *)
Lemma Propose_records_proposal_witness :
  ∃ w',
    Propose cfg lcfg recent (ClientCb 1) addNodeLog newRaftCmdResponse leaderWorld
    = Ok (true, w')
    ∧ applyProposals (peer w')
      = [{| isConfChange := true; prop_index := 11; prop_term := Term (peer w');
            prop_cb := ClientCb 1 |}]
    ∧ lastUrgentProposalIdx (peer w') = 11.
Proof.
  assert (∃ w',
            Propose cfg lcfg recent (ClientCb 1) addNodeLog newRaftCmdResponse
              leaderWorld = Ok (true, w'))
    as (w' & Hrun) by (eexists; vm_compute; reflexivity).
  exists w'. split; [exact Hrun|].
  assert (∃ w0, inspect addNodeLog leaderWorld
                = Ok ((RequestPolicyProposeConfChange, None), w0))
    as (w0 & Hinspect) by (eexists; vm_compute; reflexivity).
  destruct (Propose_records_proposal cfg lcfg recent (ClientCb 1) addNodeLog
              newRaftCmdResponse leaderWorld w0 w' RequestPolicyProposeConfChange
              Hinspect (or_intror eq_refl) Hrun) as (_ & Hprops & Hurgent).
  split; [exact Hprops | exact Hurgent].
Defined.

(** The leader collects its pending peers; the peer 3 is below the truncated
    index 5. *)
Lemma CollectPendingPeers_pending_witness :
  ∃ pendingPeers c' w',
    CollectPendingPeers (map_to_list oneLagging3) noClocks
      (world (leaderPeer oneLagging3) 100) = Ok ((pendingPeers, c'), w')
    ∧ pmOf 3 PeerRole_Voter ∈ pendingPeers
    ∧ is_Some (PeersStartPendingTime c' !! 3)
    ∧ trace w' = [].
Proof.
  assert (∃ pendingPeers c' w',
            CollectPendingPeers (map_to_list oneLagging3) noClocks
              (world (leaderPeer oneLagging3) 100) = Ok ((pendingPeers, c'), w'))
    as (pendingPeers & c' & w' & Hrun)
    by (eexists _, _, _; vm_compute; reflexivity).
  exists pendingPeers, c', w'. split; [exact Hrun|].
  destruct (CollectPendingPeers_pending (map_to_list oneLagging3) noClocks c'
              (world (leaderPeer oneLagging3) 100) w' pendingPeers
              (Permutation_refl _) Hrun)
    as (Hpending & Hstart & _ & _ & _ & _ & Htrace).
  assert (3 ≠ Id (Meta (leaderPeer oneLagging3))
          ∧ ∃ pr, Status_Progress (RaftGroup (leaderPeer oneLagging3)) !! 3 = Some pr
                  ∧ Match pr < truncatedIndex (Store (leaderPeer oneLagging3)))
    as Hlagging.
  { split; [cbn; lia|]. exists (progressOf 2). split; [reflexivity | cbn; lia]. }
  split; [|split; [|exact Htrace]].
  - apply Hpending. exists 3. split; [exact Hlagging | reflexivity].
  - apply Hstart; [exact Hlagging|]. eexists. reflexivity.
Defined.

(** The leader of term 5 after it was told to destroy itself. *)
Lemma destroyed_peer_serves_nothing_witness :
  ∃ job w',
    MaybeDestroy leaderWorld = Ok (Some job, w')
    ∧ Propose cfg lcfg recent (ClientCb 1) putLog newRaftCmdResponse w'
      = Ok (false, w').
Proof.
  assert (∃ job w', MaybeDestroy leaderWorld = Ok (Some job, w'))
    as (job & w' & Hrun) by (eexists _, _; vm_compute; reflexivity).
  exists job, w'. split; [exact Hrun|].
  destruct (destroyed_peer_serves_nothing remoteInspect leaderWorld w' job Hrun)
    as (Hpropose & _).
  apply Hpropose.
Defined.

(** A request to add a node that names no peer. *)
Lemma checkConfChange_needs_peer_witness :
  isPanic (checkConfChange (leaderPeer healthy3) cfg
             (requestOf (adminLog AdminCmdType_ChangePeer
                           (Some {| ChangeType := ConfChangeType_AddNode;
                                    cp_Peer := None |}) None))) = true.
Proof.
  apply (checkConfChange_needs_peer (leaderPeer healthy3) cfg
           (requestOf (adminLog AdminCmdType_ChangePeer
                         (Some {| ChangeType := ConfChangeType_AddNode;
                                  cp_Peer := None |}) None)) eq_refl).
Defined.

(** The apply worker reports index 10 of term 6 to the leader of term 5,
    which had applied up to 9 in term 5. *)
Lemma PostApply_records_witness :
  ∃ w',
    PostApply {| appliedIndex := 10; truncatedIndex_ := 5 |} 6 false
      {| am_sizeDiffHint := 1; am_deleteKeysHint := 2; am_writtenBytes := 3;
         am_writtenKeys := 4 |} leaderWorld = Ok (false, w')
    ∧ AppliedIndex (peerStorage (peer w')) = 10
    ∧ SizeDiffHint (peer w') = 1
    ∧ lc_appliedIndexTerm (leaderChecker (peer w')) = 6.
Proof.
  assert (∃ w',
            PostApply {| appliedIndex := 10; truncatedIndex_ := 5 |} 6 false
              {| am_sizeDiffHint := 1; am_deleteKeysHint := 2;
                 am_writtenBytes := 3; am_writtenKeys := 4 |} leaderWorld
            = Ok (false, w'))
    as (w' & Hrun) by (eexists; vm_compute; reflexivity).
  exists w'. split; [exact Hrun|].
  destruct (PostApply_records _ _ _ _ _ w' false Hrun)
    as (_ & _ & Hstore & _ & _ & _ & Hsize & _ & Hterm).
  split; [rewrite Hstore; reflexivity|]. split; [exact Hsize | exact Hterm].
Defined.

End MoreConcrete.
